(* ===== verification/_CoqProject ===== *)
-Q . S2P
Prelude.v
Rlp.v
RlpStream.v
Header.v
Hexutil.v
Uint256.v
Params.v
VmData.v
VmAnalysis.v
VmState.v
VmGas.v
VmInstr.v
VmJumpTable.v
VmInterpreter.v
VmEvm.v
VmSpec.v
VmFrame.v
VmExec.v
VmGasOk.v
VmTables.v
VmSafety.v
VmModel.v
VmProps.v
VmFacts.v
StateData.v
StateObjects.v
StateDbOps.v
StateView.v
StateLedger.v
StateRefine.v
StateSim.v
StateJournal.v
StateModel.v
TrieEncoding.v
TrieNode.v
Trie.v
TrieSpec.v
TrieTree.v
TrieHash.v
TrieRefine.v
TrieCodec.v
TrieMap.v
TrieBind.v
TrieCommit.v
TrieProof.v
TrieVerify.v
TrieProve.v
TrieTotal.v
TrieProps.v
SecureTrie.v
StateRoot.v
StateTries.v
StateMerkle.v
TrieFacts.v
StateTheorem.v
StateVm.v
StateFinalise.v
TxTransition.v
TxState.v
TxProcess.v
ForkId.v
ParliaSnapshot.v
ParliaStore.v
ParliaTurns.v
ParliaChain.v
ParliaRule.v
ParliaModel.v
ParliaChainProps.v
ParliaEngine.v
ParliaAuthority.v
ParliaRetrieve.v
ParliaEngineModel.v
ParliaBackoff.v
ParliaVerify.v
ParliaEngineProps.v
ParliaSealing.v
ParliaFacts.v
