(* ===== verification/Prelude.v ===== *)
(** * Verification of the Dexit chain client

    The repository is a Go client of a proof-of-staked-authority chain (a fork of
    BSC's go-ethereum, under src/BSC).  This library models the parts of it that decide
    whether a block and its transactions are valid, and proves what makes them correct.

    ** The program and the files that model it

    - Chain configuration, [params/config.go] and [params/protocol_params.go]:
      file [Params].  A [*big.Int] block number is an [option Z]; [ChainConfig] is a
      record with the source's fields; [checkCompatible] is the chain of checks of the
      source; the loop of [CheckCompatible] runs on fuel.
    - The virtual machine, [core/vm]:
      [VmData] (errors, opcodes and their names, stack, memory, memory sizes, [callGas],
      the [Contract] frame), [VmAnalysis] (the push-data bitmap of [analysis.go]),
      [VmState] (the [StateDB] interface as a class, the [EVM] object, the frame under
      execution, [validJumpdest]), [VmGas] (gas_table.go, operations_acl.go), [VmInstr]
      (instructions.go, eips.go), [VmJumpTable] (the tables, fork by fork and EIP by
      EIP), [VmInterpreter] ([NewEVMInterpreter] with its pointer sharing, [Run]
      iteration by iteration), [VmEvm] ([Call] ... [Create2] of evm.go, and the knot
      [calls] between them and the interpreter).
      [Uint256] is the interface of the third-party package holiman/uint256, its
      documented behaviour as laws, with an instance on integers.
    - Serialization, [rlp], [common/hexutil] and the header of [core/types]:
      [Rlp] (the encoder buffer of encode.go, whose list headers are recorded as it goes
      and put in at the end, and the splitting functions of raw.go), [RlpStream] (the
      [Stream] of decode.go with its list stack, and the decoders of the types the client
      decodes, a type being a term of [rtype]), [Hexutil] (the text
      form of hashes and addresses), [Header] (the block header, what is hashed and what
      is signed).
    - The state database, [core/state]: [StateData] (accounts, journal entries, the
      [StateDB] object, and the interfaces [Database], [Trie] and [Snapshot] below it as
      the class [Backend]), [StateObjects] (state_object.go: the storage layers of an
      account), [StateDbOps] (statedb.go, journal.go, access_list.go: getters and setters,
      the journal and its reverts, snapshots, [Finalise], [IntermediateRoot], [Copy]).
      [StateView] says what is observable of a database, [StateLedger] is its
      specification, a ledger without caches and without a journal.  [StateVm] makes it an
      instance of the interface of the virtual machine; [StateModel] is a backend in memory,
      [StateTries] the one of Merkle tries.  [StateRoot] states what computing the state
      root needs of a trie as the class [TrieStore].
    - The Merkle Patricia trie, [trie]: [TrieEncoding] (keys as nibbles and compact keys,
      encoding.go), [TrieNode] (node.go, hasher.go and the node database of database.go),
      [Trie] (trie.go and committer.go), [TrieProof] (one-key proofs of proof.go),
      [SecureTrie] (secure_trie.go, and the database of [core/state/database.go] with its
      caches of tries and code).  A node is an inductive type with the node types of the
      source, a nil node included; what is in memory, what is a hash and what hash is
      cached are part of it.  The specification is in [TrieSpec] and [TrieTree] (trees with all
      nodes in memory, their canonical form, what inserting and deleting do to them) and
      [TrieMap] (finite maps).
    - Transactions and blocks, [core/state_transition.go], [core/gaspool.go] and
      [core/state_processor.go]: [TxTransition] (gas pool, intrinsic gas, [TransitionDb]),
      [TxState] (the same on the state database), [TxProcess] ([applyTransaction] and the
      loop of [Process] with its receipts).
    - Fork identifiers, [core/forkid/forkid.go]: file [ForkId], with CRC-32 bit by bit.
    - The consensus engine, [consensus/parlia]: [ParliaSnapshot] (the snapshot of
      snapshot.go and [apply] with its checks), [ParliaStore] (its form in the
      database), [ParliaTurns] (whose turn it is), [ParliaEngine] (parlia.go,
      ramanujanfork.go and api.go: the engine and its state, [snapshot], verification,
      [Prepare], [Seal]), [ParliaBackoff] (the seeded delay of the others).
      [ParliaRule] and [ParliaAuthority] give the specification, in plain arithmetic and
      without the code's bookkeeping: who may sign the next block ([rested]), the snapshot
      after it ([extends]), and the snapshot that the headers of a chain determine.
      [ParliaChain] follows the code header by header ([next]) in between, and [ParliaVerify]
      states the rules for one header.
      [ParliaModel] and [ParliaEngineModel] are concrete chains on which the witnesses
      run.

    ** How code is rendered

    Go integers are [Z] with their wrap-around written out ([add64], [sub64], [mul64],
    [s64]); byte slices are lists of [Z]; slicing and indexing return [option], [None]
    being the run-time panic.  Code with effects is in the state, error and panic monad
    [M] of this file: [Ret] a value and a state, [Fail] a Go error with the state it
    leaves, [Panic] a crash of the process, [NoFuel] a model that ran out of fuel.
    [wp] is its weakest precondition: it is false on [NoFuel], so that every theorem
    proved through it includes termination.

    What is not under src/ is a parameter: hash functions, signature recovery, the
    [uint256] package, the LRU caches ([Cache], with laws that let a cache forget), the
    key-value store ([KeyValue]), the text of a JSON document ([JsonText]), the draws of
    the seeded generator, the precompiled contracts ([PrecompiledContract]), the block
    hash oracle, the clock.  The world state is a parameter with the signature of the
    interface [vm.StateDB]; the one thing the machine relies on, that reverting to a
    snapshot restores the state, is the class [RevertLaws] of [VmSpec].  [VmModel]
    instantiates all of them at once, and the witnesses run there; [StateVm] instantiates
    the world state by the state database itself.  What lies below that database is the
    class [Backend], with three laws ([BackendLaws] of [StateRefine]): the empty trie holds
    nothing, a snapshot has slots only of accounts it has, the size of a code is its length.
    [StateTries] proves these laws for the tries and caches of the source.

    Keccak-256 is a function from bytes to integers.  A theorem that needs that two nodes
    do not collide says which nodes: those of the two tries ([distinct]), those of a proof
    and of the trie, or all that are ever stored ([universe]); the witnesses check this for
    a hash function that can be computed.  One hypothesis on the machine is an
    idealisation that no hash of 32 bytes meets: [hash_bitmap] of [env_ok] says of all codes
    with the same hash that they have the same push data, because the caches of code analysis
    are shared by hash between all contracts, also those created later.  [lossy] tells whether the node database may have lost nodes.

    The engine is verified against a fixed set of known headers ([known]), which stands
    for every block that exists: [world_ok] says that no two of them have the same hash
    and that they have machine-width fields, [genesis_ok] that one of them is the genesis
    block.  A chain reader answers with known headers ([lookups_ok]); what it has of them is
    said block by block: [holds_ancestors] that it has every block below a header, which
    itself need not be there, [holds_block] that it has a block and those below.  A known
    header that is on no chain is one a peer sends or a validator seals.  [draws_ok] says that a draw is in the range asked for.

    ** What is proved

    - [VmSpec] states the invariants: a frame is well formed ([frame_ok]: at most 1024
      stack items, memory in whole words and paid for, the analysis of the code right),
      what an instruction may do ([exec_ok]), what a gas function may do ([gas_ok]), what
      a table entry promises ([op_ok]), what the entry points promise to the instructions
      ([CallsOk]).  [VmFrame], [VmExec], [VmGasOk], [VmTables] and [VmSafety] discharge
      them bottom up: every instruction, every gas function, every entry of every fork's
      table, the loop, the entry points, and finally the knot by induction on the nesting.
    - [VmProps] collects the theorems on the machine: a call returns whatever the code
      (no fuel exhaustion, no stack, memory, slice or nil panic), never gives back more
      gas than it got, restores depth and read-only mode; a failed call leaves the world
      as it was; a static call only reads; each iteration burns gas; jumps are valid
      exactly on real [JUMPDEST]s; memory growth is charged exactly.
    - [StateTheorem]: every sequence of operations on a state database answers as on the
      ledger, and a revert restores everything observable; the proofs go through a
      simulation for the operations ([StateRefine], [StateSim]) and one for the undoing of
      journal entries ([StateJournal]); a revert also brings back the entries of the journal
      and the revisions, and its dirty counts but for one account.  [StateFinalise]: what the end of a transaction
      commits.  [StateVm]: a failed call on this database restores it.
    - [TrieProps]: a trie is a finite map under any sequence of operations, whatever part of
      it is loaded; its root hash depends on the content only and commits to it; a committed
      trie can be opened again; a Merkle proof proves what is true, and every key can be
      proved; nodes and keys are read back as written, and decoding any bytes ends without
      panic.  The proofs go from nodes to trees ([stands] of [TrieHash], [TrieRefine]), from
      trees to encodings and back ([TrieCodec], [TrieBind], [TrieTotal]) and to the database
      ([TrieCommit]); [TrieVerify] and [TrieProve] are about proofs, [TrieFacts] about two corners.
    - [StateRoot]: the state root is the root of the accounts with the roots of their
      storage; [StateMerkle]: opening tries and reading code after any session of filing tries
      in the caches, purging, reading and committing ([session]), and a state root on real tries.
    - [TxTransition], [TxState], [TxProcess]: when a message is refused and what that leaves,
      what an executed one costs, what a failed one changes, and that the gas of a block
      adds up.
    - [VmFacts]: the bitmap in strides equals the byte-by-byte reading, [getData],
      the 63/64 rule, shifts, opcode names, and the behaviour of [NewEVMInterpreter].
    - [Params]: soundness and termination of the compatibility check.
    - [Rlp]: the buffer writes the recursive-length-prefix form, splitting undoes it and
      takes nothing but canonical input; [RlpStream]: decoding accepts exactly the
      encodings of the values of a type; [Header]: hash and seal bind the fields.
    - [ForkId]: the filter decides by the four rules of EIP-2124 for the state [NewID]
      announces, but for a head that is the block of a fork, where it takes that fork for not
      passed; peers of one chain connect but for that head.
    - [ParliaChainProps]: [apply] implements the authority rule, composes, keeps the
      recent signers in their window, and lets nobody sign twice in a window.
      [ParliaRetrieve] and [ParliaEngineProps]: [snapshot] returns what the rule gives
      for the block, from any cache and database that hold true entries, so it is the
      same on every node; [verifyHeader] accepts a header when it keeps to every rule
      ([valid]), or to all but that its signer has rested while fewer than [limit] blocks
      exist ([valid_but_early]; [ParliaFacts] has such a block, with which [apply] fails later), and refuses
      it only when neither holds, on a chain with its ancestors.
      [ParliaSealing]: a prepared and sealed block is accepted by the nodes that have its
      parent and not yet the block.
      [ParliaTurns], [ParliaBackoff], [ParliaStore]: turns, delays, the stored form.
      [ParliaFacts]: runs on which the engine does not do what the rest of it expects.

    ** Bounds and fuel

    [run_fuel] is the gas plus one: every iteration but the last pays at least one unit.
    [calls n] allows [n] nested frames, and the theorems ask for [1025 <= n + depth],
    which the depth check of the code makes enough.  [CheckCompatible] needs height + 2
    rounds, since each round strictly lowers the head.  The bulk loops of the bitmap need
    four turns, a push having at most 32 bytes.  The walk of [snapshot] to an ancestor has
    the block number plus one turns, since each lowers the number; [sort.Search] as many
    as there are indices plus one; [CountValues] the bytes of the buffer plus one; the
    size of an integer at most seven divisions; a decimal [uint64] twenty digits.  The
    loop over the elements of a list has the bytes left plus one, since an element has at
    least one byte; the search for a revision as many as there are revisions plus one.
    A walk down a trie has twice the length of the key plus two steps ([key_fuel]): a node
    that was loaded is not a hash again, and every other step consumes a nibble of the key.
    [decodeNode] has the bytes of the node plus one, since an embedded node is shorter than
    the node it is in.

    The theorems on the state database are about one without the storage pool that miners
    and the prefetching execution share ([obj_ok]), and [Finalise_commits] about commits
    that are not pipelined.

    ** What is not modelled

    Tracers and loggers, object pools, printing; the cryptography of precompiled
    contracts; of the engine, [Finalize], [FinalizeAndAssemble] and the system
    transactions; the reflection of package rlp that picks the writer and the decoder of a
    Go type, its pointers and interfaces; of the state database [Commit], [LightCommit],
    diff layers, the prefetcher, dumps and sync; of block processing the upgrades of system
    contracts, the bloom filters, the light processor and blockchain.go; of the trie the
    proofs of ranges, iterators, the stack trie, sync, reference counting and flushing of
    the node database and the preimages of keys; the transaction pool, network, RPC and
    command line packages. *)

From stdpp Require Export prelude gmap strings list fin_maps.
From Stdlib Require Export ZArith Lia.
#[global] Open Scope Z_scope.

(** ** Scope and notations of the development *)

Declare Scope dexit_scope.
Delimit Scope dexit_scope with dexit.
#[global] Open Scope dexit_scope.

(** A Go [byte] is an integer of [[0,256)]; a [[]byte] is a list of them. *)
Abbreviation bytes := (list Z) (only parsing).
(** [common.Address] ([[20]byte]) and [common.Hash] ([[32]byte]) are carried by
    the integer their bytes spell in big-endian order. *)
Abbreviation Address := Z (only parsing).
Abbreviation Hash := Z (only parsing).

Definition AddressLength : Z := 20.
Definition HashLength : Z := 32.

(** ** Machine integers *)

(** [uint64] arithmetic wraps modulo [2^64]; [int64(x)] reinterprets the bits. *)
Definition MaxUint64 : Z := 2 ^ 64 - 1.
Definition u64 (z : Z) : Z := z mod 2 ^ 64.
Definition s64 (z : Z) : Z :=
  let w := z mod 2 ^ 64 in if w <? 2 ^ 63 then w else w - 2 ^ 64.
Definition add64 (a b : Z) : Z := u64 (a + b).
Definition sub64 (a b : Z) : Z := u64 (a - b).
Definition mul64 (a b : Z) : Z := u64 (a * b).
Definition is_u64 (z : Z) : Prop := 0 <= z < 2 ^ 64.
Definition is_byte (z : Z) : Prop := 0 <= z < 256.

(** [math.SafeAdd] and [math.SafeMul]: the wrapped result and the overflow bit. *)
Definition SafeAdd (x y : Z) : Z * bool := (u64 (x + y), 2 ^ 64 <=? x + y).
Definition SafeMul (x y : Z) : Z * bool := (u64 (x * y), negb (x * y / 2 ^ 64 =? 0)).
Definition SafeSub (x y : Z) : Z * bool := (u64 (x - y), x <? y).

Lemma u64_range z : is_u64 (u64 z).
Proof. unfold is_u64, u64. apply Z.mod_pos_bound. lia. Qed.

Lemma u64_small z : is_u64 z → u64 z = z.
Proof. unfold is_u64, u64. intros. apply Z.mod_small. lia. Qed.

Lemma s64_small z : 0 <= z < 2 ^ 63 → s64 z = z.
Proof.
  intros H. unfold s64. rewrite Z.mod_small by lia.
  destruct (Z.ltb_spec z (2 ^ 63)); lia.
Qed.

Lemma add64_small a b : is_u64 (a + b) → add64 a b = a + b.
Proof. apply u64_small. Qed.

Lemma sub64_small a b : 0 <= b <= a → is_u64 a → sub64 a b = a - b.
Proof. unfold is_u64. intros. apply u64_small. unfold is_u64. lia. Qed.

Lemma mul64_small a b : is_u64 (a * b) → mul64 a b = a * b.
Proof. apply u64_small. Qed.

Lemma SafeAdd_ok x y z :
  is_u64 x → is_u64 y → SafeAdd x y = (z, false) → z = x + y ∧ is_u64 z.
Proof.
  unfold SafeAdd, is_u64. intros ?? [= <- H].
  apply Z.leb_gt in H. unfold u64. rewrite Z.mod_small by lia. lia.
Qed.

Lemma SafeMul_ok x y z :
  is_u64 x → is_u64 y → SafeMul x y = (z, false) → z = x * y ∧ is_u64 z.
Proof.
  unfold SafeMul, is_u64. intros ?? [= <- H].
  apply negb_false_iff, Z.eqb_eq in H.
  assert (0 <= x * y) by nia.
  assert (x * y < 2 ^ 64).
  { destruct (Z.lt_ge_cases (x * y) (2 ^ 64)); [done|].
    assert (1 <= x * y / 2 ^ 64); [|lia].
    apply Z.div_le_lower_bound; lia. }
  unfold u64. rewrite Z.mod_small by lia. lia.
Qed.

Lemma u64_u64 z : is_u64 (u64 z).
Proof. apply u64_range. Qed.

(** ** Go slices as lists *)

Definition zlen {A} (l : list A) : Z := Z.of_nat (length l).

(** [l[lo:hi]]; [None] is the run-time panic "slice bounds out of range". *)
Definition slice {A} (l : list A) (lo hi : Z) : option (list A) :=
  if (0 <=? lo) && (lo <=? hi) && (hi <=? zlen l)
  then Some (take (Z.to_nat (hi - lo)) (drop (Z.to_nat lo) l)) else None.

(** [l[i]]; [None] is the run-time panic "index out of range". *)
Definition index {A} (l : list A) (i : Z) : option A :=
  if 0 <=? i then l !! Z.to_nat i else None.

(** [l[i] = x]. *)
Definition set_index {A} (l : list A) (i : Z) (x : A) : option (list A) :=
  if (0 <=? i) && (i <? zlen l) then Some (<[Z.to_nat i := x]> l) else None.

(** [copy(dst, src)]: overwrites the common prefix and leaves the rest. *)
Definition go_copy {A} (dst src : list A) : list A :=
  take (length dst) src ++ drop (length src) dst.

(** [make([]byte, n)]. *)
Definition zeros (n : Z) : bytes := replicate (Z.to_nat n) 0.

(** [common.RightPadBytes] and [common.LeftPadBytes]. *)
Definition RightPadBytes (s : bytes) (l : Z) : bytes :=
  if l <=? zlen s then s else s ++ zeros (l - zlen s).
Definition LeftPadBytes (s : bytes) (l : Z) : bytes :=
  if l <=? zlen s then s else zeros (l - zlen s) ++ s.

Lemma zlen_nonneg {A} (l : list A) : 0 <= zlen l.
Proof. unfold zlen. lia. Qed.
Lemma zlen_nil {A} : zlen (@nil A) = 0.
Proof. done. Qed.
Lemma zlen_cons {A} (x : A) l : zlen (x :: l) = zlen l + 1.
Proof. unfold zlen. simpl. lia. Qed.
Lemma zlen_app {A} (l k : list A) : zlen (l ++ k) = zlen l + zlen k.
Proof. unfold zlen. rewrite length_app. lia. Qed.
Lemma zlen_zeros n : 0 <= n → zlen (zeros n) = n.
Proof. unfold zlen, zeros. rewrite length_replicate. lia. Qed.
Lemma zlen_go_copy {A} (d s : list A) : zlen (go_copy d s) = zlen d.
Proof.
  unfold zlen, go_copy. rewrite length_app, length_take, length_drop. lia.
Qed.

Lemma slice_ok {A} (l : list A) lo hi :
  0 <= lo → lo <= hi → hi <= zlen l →
  ∃ s, slice l lo hi = Some s ∧ zlen s = hi - lo.
Proof.
  intros. unfold slice.
  rewrite (proj2 (Z.leb_le 0 lo)), (proj2 (Z.leb_le lo hi)),
    (proj2 (Z.leb_le hi (zlen l))) by lia.
  eexists. split; [done|]. unfold zlen in *.
  rewrite length_take, length_drop. lia.
Qed.

Lemma index_ok {A} (l : list A) i :
  0 <= i < zlen l → ∃ x, index l i = Some x.
Proof.
  intros H. unfold index. rewrite (proj2 (Z.leb_le 0 i)) by lia.
  apply lookup_lt_is_Some. unfold zlen in H. lia.
Qed.

Lemma zlen_RightPadBytes s l : 0 <= l → zlen s <= l → zlen (RightPadBytes s l) = l.
Proof.
  intros. unfold RightPadBytes. destruct (Z.leb_spec l (zlen s)); [lia|].
  rewrite zlen_app, zlen_zeros; lia.
Qed.

(** ** Big-endian integers *)

(** [SetBytes]: the integer a byte string spells. *)
Definition be_decode (l : bytes) : Z := fold_left (λ acc b, acc * 256 + b) l 0.

(** The [n] low-order bytes of an integer, most significant first. *)
Fixpoint be_encode (n : nat) (z : Z) : bytes :=
  match n with
  | O => []
  | S m => be_encode m (z / 256) ++ [z mod 256]
  end.

Lemma be_decode_app l b : be_decode (l ++ [b]) = be_decode l * 256 + b.
Proof. unfold be_decode. by rewrite fold_left_app. Qed.

Lemma length_be_encode n z : length (be_encode n z) = n.
Proof. revert z. induction n; intros; simpl; [done|]. rewrite length_app, IHn. simpl. lia. Qed.

Lemma be_decode_encode n z :
  be_decode (be_encode n z) = z mod 256 ^ Z.of_nat n.
Proof.
  revert z. induction n as [|n IH]; intros z.
  - simpl. by rewrite Z.mod_1_r.
  - cbn [be_encode]. rewrite be_decode_app, IH.
    rewrite Nat2Z.inj_succ, Z.pow_succ_r by lia.
    rewrite (Z.rem_mul_r z 256) by lia. lia.
Qed.

Lemma be_decode_range l :
  Forall is_byte l → 0 <= be_decode l < 256 ^ zlen l.
Proof.
  induction l as [|b l IH] using rev_ind; intros Hb; [by vm_compute|].
  apply Forall_app in Hb as [Hl Hb]. inversion_clear Hb as [|?? Hb' _].
  specialize (IH Hl). rewrite be_decode_app, zlen_app.
  change (zlen [b]) with 1. pose proof (zlen_nonneg l).
  rewrite (Z.pow_add_r 256 (zlen l) 1) by lia.
  unfold is_byte in Hb'. lia.
Qed.

Lemma be_encode_decode l :
  Forall is_byte l → be_encode (length l) (be_decode l) = l.
Proof.
  induction l as [|b l IH] using rev_ind; intros Hb; [done|].
  apply Forall_app in Hb as [Hl Hb]. inversion_clear Hb as [|?? Hb' _].
  rewrite length_app, Nat.add_comm. cbn [length Nat.add be_encode].
  unfold is_byte in Hb'. rewrite be_decode_app.
  replace ((be_decode l * 256 + b) / 256) with (be_decode l).
  - rewrite IH by done. f_equal. f_equal.
    rewrite Z.add_comm, Z.mod_add, Z.mod_small; lia.
  - rewrite Z.add_comm, Z.div_add, Z.div_small; lia.
Qed.

Lemma be_encode_bytes n z : Forall is_byte (be_encode n z).
Proof.
  revert z. induction n; intros; simpl; [constructor|].
  apply Forall_app. split; [done|]. constructor; [|constructor].
  unfold is_byte. apply Z.mod_pos_bound. lia.
Qed.

Lemma be_encode_inj n x y :
  0 <= x < 256 ^ Z.of_nat n → 0 <= y < 256 ^ Z.of_nat n →
  be_encode n x = be_encode n y → x = y.
Proof.
  intros Hx Hy H. apply (f_equal be_decode) in H.
  rewrite !be_decode_encode, !Z.mod_small in H; lia.
Qed.

(** ** Computations with state, errors and panics

    A Go function that mutates shared state and may return an [error] is a state
    transformer.  [Fail] keeps the state it was raised in, since Go does not roll
    anything back; [Panic] is a run-time panic; [NoFuel] only marks a loop whose
    bound was too small, and the theorems about loops exclude it. *)

Inductive panic : Type :=
| PStack      (* operand stack accessed out of range *)
| PMemory     (* EVM memory accessed out of range *)
| PSlice      (* any other slice or index out of range *)
| PBitmap     (* jump-destination bitmap accessed out of range *)
| PDivZero    (* integer division by zero *)
| PNil        (* nil pointer dereference *)
| PRevision   (* StateDB asked to revert to a revision it does not know *)
| PStateDB    (* StateDB asked to lower the refund counter below zero *)
| PExplicit.  (* panic(...) in the source *)

Inductive outcome (E S A : Type) : Type :=
| Ret (a : A) (s : S)
| Fail (e : E) (s : S)
| Panic (p : panic)
| NoFuel.
Arguments Ret {E S A} a s.
Arguments Fail {E S A} e s.
Arguments Panic {E S A} p.
Arguments NoFuel {E S A}.

Definition M (E S A : Type) : Type := S → outcome E S A.

Section monad.
Context {E S : Type}.

Definition ret {A} (a : A) : M E S A := λ s, Ret a s.
Definition fail {A} (e : E) : M E S A := λ s, Fail e s.
Definition throw {A} (p : panic) : M E S A := λ _, Panic p.
Definition bind {A B} (m : M E S A) (k : A → M E S B) : M E S B :=
  λ s, match m s with
       | Ret a s' => k a s'
       | Fail e s' => Fail e s'
       | Panic p => Panic p
       | NoFuel => NoFuel
       end.
Definition gets {A} (f : S → A) : M E S A := λ s, Ret (f s) s.
Definition modify (f : S → S) : M E S unit := λ s, Ret tt (f s).
Definition or_panic {A} (p : panic) (o : option A) : M E S A :=
  match o with Some a => ret a | None => throw p end.
Definition or_fail {A} (e : E) (o : option A) : M E S A :=
  match o with Some a => ret a | None => fail e end.
(** [x, err := f()] with the error handled by the caller. *)
Definition try {A} (m : M E S A) : M E S (A + E) :=
  λ s, match m s with
       | Ret a s' => Ret (inl a) s'
       | Fail e s' => Ret (inr e) s'
       | Panic p => Panic p
       | NoFuel => NoFuel
       end.
End monad.

Notation "'let!' x ':=' m 'in' k" := (bind m (λ x, k))
  (at level 10, x pattern, m at level 200, k at level 200,
   format "'[v' 'let!'  x  ':='  m  'in' '/' k ']'") : dexit_scope.
Notation "'do!' m 'in' k" := (bind m (λ _, k))
  (at level 10, m at level 200, k at level 200,
   format "'[v' 'do!'  m  'in' '/' k ']'") : dexit_scope.
Notation "'when!' b 'raise' e 'in' k" := (if b then fail e else k)
  (at level 10, b at level 200, e at level 200, k at level 200,
   format "'[v' 'when!'  b  'raise'  e  'in' '/' k ']'") : dexit_scope.

(** Weakest precondition: [Q] for normal results, [QE] for errors and [QP] for
    panics.  Running out of fuel satisfies no postcondition. *)
Definition wp {E S A} (m : M E S A) (Q : A → S → Prop) (QE : E → S → Prop)
    (QP : panic → Prop) (s : S) : Prop :=
  match m s with
  | Ret a s' => Q a s'
  | Fail e s' => QE e s'
  | Panic p => QP p
  | NoFuel => False
  end.

Section wp.
Context {E S : Type}.

Lemma wp_ret {A} (a : A) Q (QE : E → S → Prop) QP s : Q a s → wp (ret a) Q QE QP s.
Proof. done. Qed.
Lemma wp_fail {A} e (Q : A → S → Prop) (QE : E → S → Prop) QP s :
  QE e s → wp (fail e) Q QE QP s.
Proof. done. Qed.
Lemma wp_throw {A} p (Q : A → S → Prop) (QE : E → S → Prop) QP s :
  QP p → wp (throw p) Q QE QP s.
Proof. done. Qed.
Lemma wp_bind {A B} (m : M E S A) (k : A → M E S B) Q QE QP s :
  wp m (λ a s', wp (k a) Q QE QP s') QE QP s → wp (bind m k) Q QE QP s.
Proof. unfold wp, bind. by destruct (m s). Qed.
Lemma wp_gets {A} (f : S → A) Q (QE : E → S → Prop) QP s :
  Q (f s) s → wp (gets f) Q QE QP s.
Proof. done. Qed.
Lemma wp_modify (f : S → S) Q (QE : E → S → Prop) QP s :
  Q tt (f s) → wp (modify f) Q QE QP s.
Proof. done. Qed.
Lemma wp_or_panic {A} p (o : option A) Q (QE : E → S → Prop) QP s :
  (∀ a, o = Some a → Q a s) → (o = None → QP p) → wp (or_panic p o) Q QE QP s.
Proof. intros. destruct o; unfold or_panic; [by apply H|by apply H0]. Qed.
Lemma wp_or_fail {A} e (o : option A) Q (QE : E → S → Prop) QP s :
  (∀ a, o = Some a → Q a s) → (o = None → QE e s) → wp (or_fail e o) Q QE QP s.
Proof. intros. destruct o; unfold or_fail; [by apply H|by apply H0]. Qed.
Lemma wp_try {A} (m : M E S A) (Q : A + E → S → Prop) QE QP s :
  wp m (λ a, Q (inl a)) (λ e, Q (inr e)) QP s → wp (try m) Q QE QP s.
Proof. unfold wp, try. by destruct (m s). Qed.
Lemma wp_mono {A} (m : M E S A) (Q Q' : A → S → Prop) (QE QE' : E → S → Prop)
    (QP QP' : panic → Prop) s :
  wp m Q QE QP s → (∀ a s', Q a s' → Q' a s') → (∀ e s', QE e s' → QE' e s') →
  (∀ p, QP p → QP' p) → wp m Q' QE' QP' s.
Proof. unfold wp. destruct (m s); eauto. Qed.
Lemma wp_conj {A} (m : M E S A) (Q Q' : A → S → Prop) (QE QE' : E → S → Prop)
    (QP QP' : panic → Prop) s :
  wp m Q QE QP s → wp m Q' QE' QP' s →
  wp m (λ a s', Q a s' ∧ Q' a s') (λ e s', QE e s' ∧ QE' e s') (λ p, QP p ∧ QP' p) s.
Proof. unfold wp. destruct (m s); eauto. Qed.
Lemma wp_Ret {A} (m : M E S A) Q QE QP s a s' :
  wp m Q QE QP s → m s = Ret a s' → Q a s'.
Proof. unfold wp. intros H Hm. by rewrite Hm in H. Qed.
Lemma wp_Fail {A} (m : M E S A) Q QE QP s e s' :
  wp m Q QE QP s → m s = Fail e s' → QE e s'.
Proof. unfold wp. intros H Hm. by rewrite Hm in H. Qed.
End wp.

(** ** Automation *)

Create HintDb dexit.
#[export] Hint Resolve u64_range zlen_nonneg be_encode_bytes : dexit.

(** Splits the boolean tests of the code into arithmetic hypotheses. *)
Ltac zbool :=
  repeat match goal with
  | H : (_ && _)%bool = true |- _ => apply andb_true_iff in H as [? ?]
  | H : (_ || _)%bool = false |- _ => apply orb_false_iff in H as [? ?]
  | H : negb _ = true |- _ => apply negb_true_iff in H
  | H : negb _ = false |- _ => apply negb_false_iff in H
  | H : (_ <? _) = true |- _ => apply Z.ltb_lt in H
  | H : (_ <? _) = false |- _ => apply Z.ltb_ge in H
  | H : (_ <=? _) = true |- _ => apply Z.leb_le in H
  | H : (_ <=? _) = false |- _ => apply Z.leb_gt in H
  | H : (_ =? _) = true |- _ => apply Z.eqb_eq in H
  | H : (_ =? _) = false |- _ => apply Z.eqb_neq in H
  end.

(** Cases on the innermost test or match of the goal. *)
Ltac case_if :=
  match goal with
  | |- context [if ?b then _ else _] =>
      lazymatch b with
      | context [if _ then _ else _] => fail
      | context [match _ with _ => _ end] => fail
      | _ => let H := fresh "Hif" in destruct b eqn:H
      end
  end.

(** One structural step of a weakest-precondition proof. *)
Ltac wp_step :=
  lazymatch goal with
  | |- wp (bind _ _) _ _ _ _ => apply wp_bind
  | |- wp (ret _) _ _ _ _ => apply wp_ret
  | |- wp (fail _) _ _ _ _ => apply wp_fail
  | |- wp (throw _) _ _ _ _ => apply wp_throw
  | |- wp (gets _) _ _ _ _ => apply wp_gets
  | |- wp (modify _) _ _ _ _ => apply wp_modify
  | |- wp (try _) _ _ _ _ => apply wp_try
  | |- wp (if ?b then _ else _) _ _ _ _ => let H := fresh "Hif" in destruct b eqn:H
  | |- wp (let '(_, _) := ?p in _) _ _ _ _ => let H := fresh "Hpair" in destruct p eqn:H
  end.
