(* ===== verification/Rlp.v ===== *)
(** * Recursive length prefix encoding ([rlp/encode.go], [rlp/raw.go])

    The encoder's buffer with its deferred list headers, the writers of the value kinds
    the client hashes and signs, and the splitting functions of [raw.go].  [rlp] is the
    format itself; the buffer is proved to produce it, and [Split] to undo it. *)

From S2P Require Import Prelude.

(** ** Sizes and headers *)

(** The number of bytes [putint] writes. *)
Definition putint_size (i : Z) : nat :=
  if i <? 2 ^ 8 then 1 else if i <? 2 ^ 16 then 2 else if i <? 2 ^ 24 then 3
  else if i <? 2 ^ 32 then 4 else if i <? 2 ^ 40 then 5 else if i <? 2 ^ 48 then 6
  else if i <? 2 ^ 56 then 7 else 8.
(** What [putint] leaves at the beginning of the buffer. *)
Definition putint (i : Z) : bytes := be_encode (putint_size i) i.

Fixpoint intsize_loop (fuel : nat) (size i : Z) : Z :=
  match fuel with
  | O => size
  | S fuel => let i := i / 256 in if i =? 0 then size else intsize_loop fuel (size + 1) i
  end.
(** A [uint64] has at most eight bytes, so seven more turns end the loop. *)
Definition intsize (i : Z) : Z := intsize_loop 7 1 i.

Definition headsize (size : Z) : Z := if size <? 56 then 1 else 1 + intsize size.

Definition puthead (smalltag largetag size : Z) : bytes :=
  if size <? 56 then [smalltag + size]
  else largetag + zlen (putint size) :: putint size.

(** ** The encoder's buffer *)

Record listhead := { offset : Z; lsize : Z }.
Record encbuf := { str : bytes; lheads : list listhead; lhsize : Z }.

(** [reset]. *)
Definition empty_encbuf : encbuf := {| str := []; lheads := []; lhsize := 0 |}.

Definition listhead_encode (h : listhead) : bytes := puthead 0xC0 0xF7 (lsize h).

Definition append_str (w : encbuf) (b : bytes) : encbuf :=
  {| str := str w ++ b; lheads := lheads w; lhsize := lhsize w |}.

Definition encodeStringHeader (w : encbuf) (size : Z) : encbuf :=
  if size <? 56 then append_str w [0x80 + size]
  else append_str w (0xB7 + zlen (putint size) :: putint size).

Definition encodeString (w : encbuf) (b : bytes) : encbuf :=
  match b with
  | [x] => if x <=? 0x7F then append_str w [x]
           else append_str (encodeStringHeader w (zlen b)) b
  | _ => append_str (encodeStringHeader w (zlen b)) b
  end.

Definition encodeUint (w : encbuf) (i : Z) : encbuf :=
  if i =? 0 then append_str w [0x80]
  else if i <? 128 then append_str w [i]
  else append_str w (0x80 + zlen (putint i) :: putint i).

Definition encbuf_size (w : encbuf) : Z := zlen (str w) + lhsize w.

(** [list] opens a header whose size field holds what is to be subtracted later. *)
Definition encbuf_list (w : encbuf) : encbuf * nat :=
  ({| str := str w;
      lheads := lheads w ++ [{| offset := zlen (str w); lsize := lhsize w |}];
      lhsize := lhsize w |}, length (lheads w)).

Definition listEnd (w : encbuf) (i : nat) : option encbuf :=
  lh ← lheads w !! i;
  let size := encbuf_size w - offset lh - lsize lh in
  Some {| str := str w;
          lheads := <[i := {| offset := offset lh; lsize := size |}]> (lheads w);
          lhsize := if size <? 56 then lhsize w + 1 else lhsize w + (1 + intsize size) |}.

(** The loop of [toBytes]: the string data before each header, then the header. *)
Fixpoint toBytes_loop (s : bytes) (strpos : Z) (hs : list listhead) : option bytes :=
  match hs with
  | [] => slice s strpos (zlen s)
  | h :: hs =>
      before ← slice s strpos (offset h);
      rest ← toBytes_loop s (offset h) hs;
      Some (before ++ listhead_encode h ++ rest)
  end.
Definition toBytes (w : encbuf) : option bytes := toBytes_loop (str w) 0 (lheads w).

(** ** Writers *)

(** The kinds of values [makeWriter] distinguishes among those the client encodes: a
    [uint], a [bool], a [*big.Int] (possibly nil), a byte slice or string, a byte
    array, a nil pointer whose kind is a list, a struct or slice. *)
Inductive value :=
| VUint (i : Z)
| VBool (b : bool)
| VBigInt (i : option Z)
| VBytes (b : bytes)
| VByteArray (b : bytes)
| VNilList
| VList (l : list value).

(** The number of bits of a positive integer. *)
Definition BitLen (i : Z) : Z := if i <=? 0 then 0 else Z.log2 i + 1.

(** [None] is the error "cannot encode negative *big.Int". *)
Definition writeBigInt (i : Z) (w : encbuf) : option encbuf :=
  if i <? 0 then None
  else if BitLen i <=? 64 then Some (encodeUint w i)
  else
    let length := Z.shiftr (Z.land (BitLen i + 7) (-8)) 3 in
    Some (append_str (encodeStringHeader w length) (be_encode (Z.to_nat length) i)).

Definition writeByteArray (b : bytes) (w : encbuf) : encbuf :=
  match b with
  | [] => append_str w [0x80]
  | [x] => if x <=? 0x7F then append_str w [x] else append_str w [0x81; x]
  | _ => append_str (encodeStringHeader w (zlen b)) b
  end.

Fixpoint write (v : value) (w : encbuf) : option encbuf :=
  match v with
  | VUint i => Some (encodeUint w i)
  | VBool b => Some (append_str w [if b then 0x01 else 0x80])
  | VBigInt None => Some (append_str w [0x80])
  | VBigInt (Some i) => writeBigInt i w
  | VBytes b => Some (encodeString w b)
  | VByteArray b => Some (writeByteArray b w)
  | VNilList => let '(w, lh) := encbuf_list w in listEnd w lh
  | VList l =>
      let '(w, lh) := encbuf_list w in
      w ← (fix write_all (l : list value) (w : encbuf) : option encbuf :=
             match l with
             | [] => Some w
             | v :: l => w ← write v w; write_all l w
             end) l w;
      listEnd w lh
  end.

Fixpoint write_all (l : list value) (w : encbuf) : option encbuf :=
  match l with
  | [] => Some w
  | v :: l => w ← write v w; write_all l w
  end.

(** [None] is an error or a panic; the theorems exclude the panic. *)
Definition EncodeToBytes (v : value) : option bytes :=
  w ← write v empty_encbuf; toBytes w.

(** ** Raw values ([raw.go]) *)

Inductive Kind := KByte | KString | KList.
#[export] Instance Kind_eq_dec : EqDecision Kind.
Proof. solve_decision. Defined.

Inductive rlp_error :=
| ErrUnexpectedEOF | ErrCanonSize | ErrValueTooLarge | ErrExpectedString
| ErrExpectedList | ErrCanonInt | errUintOverflow.

Definition readSize (b : bytes) (slen : Z) : Z + rlp_error :=
  if zlen b <? slen then inr ErrUnexpectedEOF
  else
    let s := be_decode (take (Z.to_nat slen) b) in
    if (s <? 56) || (default 0 (b !! 0%nat) =? 0) then inr ErrCanonSize else inl s.

(** The kind, the size of the tag and the size of the content. *)
Definition readKind (buf : bytes) : (Kind * Z * Z) + rlp_error :=
  match buf with
  | [] => inr ErrUnexpectedEOF
  | b :: tl =>
      let r : (Kind * Z * Z) + rlp_error :=
        if b <? 0x80 then inl (KByte, 0, 1)
        else if b <? 0xB8 then
          let contentsize := b - 0x80 in
          if (contentsize =? 1) && (match tl with x :: _ => x <? 128 | [] => false end)
          then inr ErrCanonSize else inl (KString, 1, contentsize)
        else if b <? 0xC0 then
          match readSize tl (b - 0xB7) with
          | inl s => inl (KString, b - 0xB7 + 1, s) | inr e => inr e
          end
        else if b <? 0xF8 then inl (KList, 1, b - 0xC0)
        else
          match readSize tl (b - 0xF7) with
          | inl s => inl (KList, b - 0xF7 + 1, s) | inr e => inr e
          end in
      match r with
      | inl (k, tagsize, contentsize) =>
          if sub64 (zlen buf) tagsize <? contentsize then inr ErrValueTooLarge
          else inl (k, tagsize, contentsize)
      | inr e => inr e
      end
  end.

(** The outer [option] is the slice-bounds panic. *)
Definition Split (b : bytes) : option ((Kind * bytes * bytes) + rlp_error) :=
  match readKind b with
  | inr e => Some (inr e)
  | inl (k, ts, cs) =>
      content ← slice b ts (add64 ts cs);
      rest ← slice b (add64 ts cs) (zlen b);
      Some (inl (k, content, rest))
  end.

Definition SplitString (b : bytes) : option ((bytes * bytes) + rlp_error) :=
  r ← Split b;
  match r with
  | inr e => Some (inr e)
  | inl (k, content, rest) =>
      if decide (k = KList) then Some (inr ErrExpectedString) else Some (inl (content, rest))
  end.

Definition SplitList (b : bytes) : option ((bytes * bytes) + rlp_error) :=
  r ← Split b;
  match r with
  | inr e => Some (inr e)
  | inl (k, content, rest) =>
      if decide (k = KList) then Some (inl (content, rest)) else Some (inr ErrExpectedList)
  end.

Definition SplitUint64 (b : bytes) : option ((Z * bytes) + rlp_error) :=
  r ← SplitString b;
  match r with
  | inr e => Some (inr e)
  | inl (content, rest) =>
      match content with
      | [] => Some (inl (0, rest))
      | [x] => if x =? 0 then Some (inr ErrCanonInt) else Some (inl (x, rest))
      | _ =>
          if 8 <? zlen content then Some (inr errUintOverflow)
          else match readSize content (zlen content) with
               | inr _ => Some (inr ErrCanonInt)
               | inl x => Some (inl (x, rest))
               end
      end
  end.

(** The loop of [CountValues]; a value has at least one byte. *)
Fixpoint CountValues_loop (fuel : nat) (i : Z) (b : bytes) : option (Z + rlp_error) :=
  match fuel with
  | O => None
  | S fuel =>
      match b with
      | [] => Some (inl i)
      | _ =>
          match readKind b with
          | inr e => Some (inr e)
          | inl (_, tagsize, size) =>
              b ← slice b (add64 tagsize size) (zlen b);
              CountValues_loop fuel (i + 1) b
          end
      end
  end.
Definition CountValues (b : bytes) : option (Z + rlp_error) :=
  CountValues_loop (S (length b)) 0 b.

Definition AppendUint64 (b : bytes) (i : Z) : bytes :=
  if i =? 0 then b ++ [0x80]
  else if i <? 128 then b ++ [i]
  else b ++ (0x80 + Z.of_nat (putint_size i)) :: be_encode (putint_size i) i.

(** ** The format *)

Inductive item := IStr (b : bytes) | IList (l : list item).

(** The shortest big-endian spelling; zero has none. *)
Definition be_min (i : Z) : bytes := be_encode (Z.to_nat ((BitLen i + 7) / 8)) i.

Fixpoint rlp (i : item) : bytes :=
  match i with
  | IStr b =>
      match b with
      | [x] => if x <=? 0x7F then b else puthead 0x80 0xB7 (zlen b) ++ b
      | _ => puthead 0x80 0xB7 (zlen b) ++ b
      end
  | IList l =>
      let payload := concat (map rlp l) in
      puthead 0xC0 0xF7 (zlen payload) ++ payload
  end.

(** What each kind of value means; [None] for a negative number. *)
Fixpoint to_item (v : value) : option item :=
  match v with
  | VUint i => Some (IStr (be_min i))
  | VBool b => Some (IStr (if b then [1] else []))
  | VBigInt None => Some (IStr [])
  | VBigInt (Some i) => if i <? 0 then None else Some (IStr (be_min i))
  | VBytes b => Some (IStr b)
  | VByteArray b => Some (IStr b)
  | VNilList => Some (IList [])
  | VList l => IList <$> mapM to_item l
  end.

(** The values Go can hold. *)
Fixpoint value_ok (v : value) : Prop :=
  match v with
  | VUint i => is_u64 i
  | VBytes b | VByteArray b => Forall is_byte b
  | VList l => fold_right (λ v P, value_ok v ∧ P) True l
  | _ => True
  end.

(** ** Sizes *)

Lemma intsize_putint i : 0 <= i → intsize i = Z.of_nat (putint_size i).
Proof.
  intros Hi. unfold intsize, putint_size. cbn [intsize_loop].
  rewrite !Z.div_div by lia. simpl (256 * _).
  assert (Hd : ∀ n, 0 < n → (i / n =? 0) = (i <? n)).
  { intros n Hn. apply eq_true_iff_eq. rewrite Z.eqb_eq, Z.ltb_lt. split; intros H.
    - apply Z.div_small_iff in H; lia.
    - apply Z.div_small; lia. }
  rewrite !Hd by lia. repeat case_if; try reflexivity; zbool; exfalso; lia.
Qed.

Lemma zlen_putint i : zlen (putint i) = Z.of_nat (putint_size i).
Proof. unfold zlen, putint. by rewrite length_be_encode. Qed.

Lemma zlen_puthead a b n : 0 <= n → zlen (puthead a b n) = headsize n.
Proof.
  intros. unfold puthead, headsize. case_if; [done|].
  rewrite zlen_cons, zlen_putint, intsize_putint; lia.
Qed.

Lemma putint_size_BitLen i : 0 < i < 2 ^ 64 → Z.of_nat (putint_size i) = (BitLen i + 7) / 8.
Proof.
  intros Hi. unfold BitLen. rewrite (proj2 (Z.leb_gt i 0)) by lia.
  pose proof (Z.log2_spec i ltac:(lia)) as Hl.
  assert (Hm : ∀ k, 0 <= k → (i < 2 ^ k ↔ Z.log2 i < k)) by (intros; apply Z.log2_lt_pow2; lia).
  assert (Hlt : Z.log2 i < 64) by (apply Hm; lia).
  assert (0 <= Z.log2 i) by apply Z.log2_nonneg.
  unfold putint_size. repeat case_if; zbool;
    repeat match goal with
    | H : i < 2 ^ _ |- _ => apply Hm in H; [|lia]
    | H : 2 ^ ?k <= i |- _ => apply Z.log2_le_pow2 in H; [|lia]
    end;
    match goal with |- Z.of_nat ?k = _ => apply Z.div_unique with (r := (Z.log2 i + 1 + 7) - 8 * Z.of_nat k) end; lia.
Qed.

Lemma putint_be_min i : 0 < i < 2 ^ 64 → putint i = be_min i.
Proof.
  intros Hi. unfold putint, be_min. f_equal.
  rewrite <- putint_size_BitLen by done. lia.
Qed.

(** ** The buffer produces the format *)

Definition headers_size (hs : list listhead) : Z :=
  fold_right (λ h n, headsize (lsize h) + n) 0 hs.

(** The offsets increase and stay within [len] bytes of string data from [base]. *)
Fixpoint heads_in (base len : Z) (hs : list listhead) : Prop :=
  match hs with
  | [] => True
  | h :: hs => base <= offset h <= base + len ∧ 0 <= lsize h ∧
               heads_in (offset h) (base + len - offset h) hs
  end.

(** The string data [s] from offset [base] on, with the headers put in. *)
Fixpoint render (base : Z) (s : bytes) (hs : list listhead) : bytes :=
  match hs with
  | [] => s
  | h :: hs =>
      take (Z.to_nat (offset h - base)) s ++ listhead_encode h ++
      render (offset h) (drop (Z.to_nat (offset h - base)) s) hs
  end.

Lemma zlen_render base s hs :
  heads_in base (zlen s) hs → zlen (render base s hs) = zlen s + headers_size hs.
Proof.
  revert base s. induction hs as [|h hs IH]; intros base s; simpl; [lia|].
  intros (Ho & Hs & Hh). rewrite !zlen_app, IH.
  - unfold listhead_encode. rewrite zlen_puthead by done.
    unfold zlen in *. rewrite length_take, length_drop. lia.
  - unfold zlen in *. rewrite length_drop.
    replace (Z.of_nat _) with (base + Z.of_nat (length s) - offset h) by lia. done.
Qed.

Lemma heads_in_app base l1 l2 hs1 hs2 :
  0 <= l1 → 0 <= l2 → heads_in base l1 hs1 → heads_in (base + l1) l2 hs2 →
  heads_in base (l1 + l2) (hs1 ++ hs2).
Proof.
  revert base l1. induction hs1 as [|h hs IH]; intros base l1 ?? H1 H2; simpl in *.
  - destruct hs2 as [|h hs2]; simpl in *; [done|].
    destruct H2 as (? & ? & H2). repeat split; try lia.
    by replace (base + (l1 + l2) - offset h) with (base + l1 + l2 - offset h) by lia.
  - destruct H1 as (? & ? & H1). repeat split; try lia.
    replace (base + (l1 + l2) - offset h) with ((base + l1 - offset h) + l2) by lia.
    apply IH; try lia; [done|].
    by replace (offset h + (base + l1 - offset h)) with (base + l1) by lia.
Qed.

Lemma render_skip base s1 s2 hs :
  heads_in (base + zlen s1) (zlen s2) hs →
  render base (s1 ++ s2) hs = s1 ++ render (base + zlen s1) s2 hs.
Proof.
  destruct hs as [|h hs]; [done|]. cbn [heads_in render].
  intros (Ho & _). replace (Z.to_nat (offset h - base))
    with (length s1 + Z.to_nat (offset h - (base + zlen s1)))%nat by (unfold zlen in *; lia).
  by rewrite take_app_add, drop_app_add, <- app_assoc.
Qed.

Lemma render_app base s1 s2 hs1 hs2 :
  heads_in base (zlen s1) hs1 → heads_in (base + zlen s1) (zlen s2) hs2 →
  render base (s1 ++ s2) (hs1 ++ hs2) = render base s1 hs1 ++ render (base + zlen s1) s2 hs2.
Proof.
  revert base s1. induction hs1 as [|h hs IH]; intros base s1 H1 H2.
  - by apply render_skip.
  - destruct H1 as (Ho & Hs & H1). cbn [render app].
    rewrite <- !app_assoc.
    rewrite take_app_le, drop_app_le by (unfold zlen in *; lia). do 2 f_equal.
    assert (Hz : zlen (drop (Z.to_nat (offset h - base)) s1) = base + zlen s1 - offset h).
    { unfold zlen in *. rewrite length_drop. lia. }
    rewrite IH.
    + do 2 f_equal. lia.
    + by rewrite Hz.
    + rewrite Hz. by replace (offset h + (base + zlen s1 - offset h)) with (base + zlen s1) by lia.
Qed.

Lemma toBytes_render_gen pre s hs :
  heads_in (zlen pre) (zlen s) hs →
  toBytes_loop (pre ++ s) (zlen pre) hs = Some (render (zlen pre) s hs).
Proof.
  revert pre s. induction hs as [|h hs IH]; intros pre s; simpl.
  - intros _. unfold slice. pose proof (zlen_nonneg pre). pose proof (zlen_nonneg s).
    rewrite zlen_app, !(proj2 (Z.leb_le _ _)) by lia. simpl. f_equal.
    unfold zlen. rewrite Nat2Z.id, drop_app_length. apply take_ge. lia.
  - intros (Ho & Hs & Hh). unfold slice at 1. pose proof (zlen_nonneg pre).
    rewrite zlen_app, !(proj2 (Z.leb_le _ _)) by lia. simpl.
    set (k := Z.to_nat (offset h - zlen pre)).
    replace (Z.to_nat (zlen pre)) with (length pre) by (unfold zlen; lia).
    rewrite drop_app_length.
    assert (Hk : (k <= length s)%nat) by (unfold k, zlen in *; lia).
    assert (Hp : zlen (pre ++ take k s) = offset h).
    { rewrite zlen_app. unfold zlen. rewrite length_take. unfold k, zlen in *. lia. }
    assert (Hd : zlen (drop k s) = zlen pre + zlen s - offset h).
    { unfold zlen. rewrite length_drop. unfold k, zlen in *. lia. }
    specialize (IH (pre ++ take k s) (drop k s)).
    rewrite Hp, Hd, <- app_assoc, take_drop in IH. by rewrite (IH Hh).
Qed.

(** [w'] is [w] with the encoding [out] added. *)
Definition wrote (w w' : encbuf) (out : bytes) : Prop :=
  ∃ s hs, str w' = str w ++ s ∧ lheads w' = lheads w ++ hs ∧
    lhsize w' = lhsize w + headers_size hs ∧
    heads_in (zlen (str w)) (zlen s) hs ∧ render (zlen (str w)) s hs = out.

Lemma headers_size_app hs1 hs2 :
  headers_size (hs1 ++ hs2) = headers_size hs1 + headers_size hs2.
Proof. unfold headers_size. induction hs1; simpl; lia. Qed.

Lemma wrote_refl w : wrote w w [].
Proof. exists [], []. rewrite !app_nil_r. simpl. split_and!; auto with lia. Qed.

Lemma wrote_append w b : wrote w (append_str w b) b.
Proof. exists b, []. rewrite !app_nil_r. simpl. split_and!; auto with lia. Qed.

Lemma wrote_trans w1 w2 w3 a b : wrote w1 w2 a → wrote w2 w3 b → wrote w1 w3 (a ++ b).
Proof.
  intros (s1 & h1 & E1 & L1 & S1 & I1 & R1) (s2 & h2 & E2 & L2 & S2 & I2 & R2).
  rewrite E1, zlen_app in I2, R2. exists (s1 ++ s2), (h1 ++ h2). split_and!.
  - by rewrite E2, E1, app_assoc.
  - by rewrite L2, L1, app_assoc.
  - rewrite headers_size_app. lia.
  - rewrite zlen_app. apply heads_in_app; auto using zlen_nonneg.
  - rewrite render_app by done. by rewrite R1, R2.
Qed.

Lemma wrote_list w w1 i w2 payload :
  encbuf_list w = (w1, i) → wrote w1 w2 payload →
  ∃ w3, listEnd w2 i = Some w3 ∧ wrote w w3 (puthead 0xC0 0xF7 (zlen payload) ++ payload).
Proof.
  intros [= <- <-] (s & hs & Es & El & Eh & Hin & Hr). simpl in *.
  assert (Hi : lheads w2 !! length (lheads w) =
    Some {| offset := zlen (str w); lsize := lhsize w |}).
  { rewrite El. rewrite <- app_assoc. by apply list_lookup_middle. }
  unfold listEnd. rewrite Hi. simpl. eexists. split; [done|].
  assert (Hz : zlen (render (zlen (str w)) s hs) = zlen s + headers_size hs)
    by by apply zlen_render.
  assert (Hn : encbuf_size w2 - zlen (str w) - lhsize w = zlen payload).
  { unfold encbuf_size. rewrite Es, zlen_app, Eh, <- Hr. lia. }
  rewrite Hn. exists s, ({| offset := zlen (str w); lsize := zlen payload |} :: hs).
  simpl. split_and!; auto.
  - rewrite El, <- app_assoc. simpl. by rewrite insert_app_r_alt, Nat.sub_diag by lia.
  - unfold headsize. case_if; lia.
  - lia.
  - pose proof (zlen_nonneg s). lia.
  - apply zlen_nonneg.
  - by replace (zlen (str w) + zlen s - zlen (str w)) with (zlen s) by lia.
  - rewrite Z.sub_diag. simpl. by rewrite drop_0, Hr.
Qed.

Lemma encodeStringHeader_puthead w n : encodeStringHeader w n = append_str w (puthead 0x80 0xB7 n).
Proof. unfold encodeStringHeader, puthead. by case_if. Qed.

Lemma append_append w a b : append_str (append_str w a) b = append_str w (a ++ b).
Proof. unfold append_str. simpl. by rewrite app_assoc. Qed.

(** A string that is not a single small byte has a header. *)
Lemma rlp_str b : (∀ x, b = [x] → 0x7F < x) → rlp (IStr b) = puthead 0x80 0xB7 (zlen b) ++ b.
Proof.
  intros H. destruct b as [|x [|y b]]; simpl; try done.
  specialize (H x eq_refl). by rewrite (proj2 (Z.leb_gt x 0x7F)) by lia.
Qed.

Lemma zlen_be_min i : 0 <= i → zlen (be_min i) = (BitLen i + 7) / 8.
Proof.
  intros. unfold zlen, be_min. rewrite length_be_encode, Z2Nat.id; [done|].
  apply Z.div_pos; [|lia]. unfold BitLen. case_if; [lia|].
  pose proof (Z.log2_nonneg i). lia.
Qed.

(** Enough bytes: the number is read back. *)
Lemma be_decode_be_min z : 0 <= z → be_decode (be_min z) = z.
Proof.
  intros Hz. unfold be_min. rewrite be_decode_encode, Z.mod_small; [done|]. split; [done|].
  rewrite Z2Nat.id by (rewrite <- zlen_be_min by done; apply zlen_nonneg).
  change 256 with (2 ^ 8). rewrite <- Z.pow_mul_r
    by (try lia; rewrite <- zlen_be_min by done; apply zlen_nonneg).
  unfold BitLen. destruct (Z.leb_spec z 0); [assert (z = 0) as -> by lia; reflexivity|].
  apply Z.log2_lt_pow2; [done|]. pose proof (Z.div_mod (Z.log2 z + 1 + 7) 8 ltac:(lia)).
  pose proof (Z.mod_pos_bound (Z.log2 z + 1 + 7) 8 ltac:(lia)). lia.
Qed.

Lemma be_min_small i : 0 < i < 256 → be_min i = [i].
Proof.
  intros Hi. rewrite <- putint_be_min by lia. unfold putint, putint_size.
  rewrite (proj2 (Z.ltb_lt _ _)) by lia. simpl. by rewrite Z.mod_small by lia.
Qed.

Lemma encodeUint_rlp w i : is_u64 i → encodeUint w i = append_str w (rlp (IStr (be_min i))).
Proof.
  unfold is_u64. intros Hi. unfold encodeUint.
  case_if; zbool; [by subst|]. case_if; zbool.
  - rewrite be_min_small by lia. simpl. by rewrite (proj2 (Z.leb_le i 0x7F)) by lia.
  - rewrite rlp_str.
    + rewrite <- putint_be_min by lia. unfold puthead.
      rewrite zlen_putint. unfold putint_size. by repeat case_if.
    + intros x Hx. destruct (Z.lt_ge_cases i 256).
      * rewrite be_min_small in Hx by lia. simplify_eq. lia.
      * exfalso. apply (f_equal zlen) in Hx. rewrite <- putint_be_min, zlen_putint in Hx by lia.
        unfold putint_size in Hx. rewrite (proj2 (Z.ltb_ge i (2 ^ 8))) in Hx by lia.
        change (zlen [x]) with 1 in Hx. repeat case_match; lia.
Qed.

Lemma writeBigInt_rlp w i :
  writeBigInt i w = if i <? 0 then None else Some (append_str w (rlp (IStr (be_min i)))).
Proof.
  unfold writeBigInt. case_if; [done|]. zbool. case_if; zbool.
  - f_equal. apply encodeUint_rlp. split; [lia|].
    destruct (Z.leb_spec i 0); [lia|]. unfold BitLen in *.
    rewrite (proj2 (Z.leb_gt i 0)) in * by lia. apply Z.log2_lt_pow2; lia.
  - assert (Hl : Z.shiftr (Z.land (BitLen i + 7) (-8)) 3 = (BitLen i + 7) / 8).
    { rewrite Z.shiftr_land, Z.shiftr_div_pow2 by lia.
      change (Z.shiftr (-8) 3) with (-1). by rewrite Z.land_m1_r. }
    rewrite Hl, encodeStringHeader_puthead, append_append. f_equal. f_equal.
    assert (9 <= (BitLen i + 7) / 8) by (apply Z.div_le_lower_bound; lia).
    rewrite rlp_str; [by rewrite zlen_be_min|].
    intros x Hx. apply (f_equal zlen) in Hx. rewrite zlen_be_min in Hx by done.
    change (zlen [x]) with 1 in Hx. lia.
Qed.

Lemma encodeString_rlp w b : encodeString w b = append_str w (rlp (IStr b)).
Proof.
  unfold encodeString. rewrite encodeStringHeader_puthead, append_append.
  destruct b as [|x [|y b]]; simpl; try done. by case_if.
Qed.

Lemma writeByteArray_rlp w b : writeByteArray b w = append_str w (rlp (IStr b)).
Proof.
  unfold writeByteArray. rewrite encodeStringHeader_puthead, append_append.
  destruct b as [|x [|y b]]; simpl; try done. by case_if.
Qed.

(** The induction principle that goes into the list of a composite value. *)
Fixpoint value_all (P : value → Prop)
    (Hu : ∀ i, P (VUint i)) (Hb : ∀ b, P (VBool b)) (Hi : ∀ i, P (VBigInt i))
    (Hs : ∀ b, P (VBytes b)) (Ha : ∀ b, P (VByteArray b)) (Hn : P VNilList)
    (Hl : ∀ l, Forall P l → P (VList l)) (v : value) : P v :=
  match v with
  | VUint i => Hu i | VBool b => Hb b | VBigInt i => Hi i | VBytes b => Hs b
  | VByteArray b => Ha b | VNilList => Hn
  | VList l => Hl l ((fix all (l : list value) : Forall P l :=
      match l with
      | [] => Forall_nil_2 P
      | v :: l => Forall_cons_2 P v l (value_all P Hu Hb Hi Hs Ha Hn Hl v) (all l)
      end) l)
  end.

Lemma write_VList l w :
  write (VList l) w =
    let '(w, lh) := encbuf_list w in w ← write_all l w; listEnd w lh.
Proof. reflexivity. Qed.

Definition writes_item (v : value) : Prop := ∀ w, value_ok v →
  match to_item v with
  | Some i => ∃ w', write v w = Some w' ∧ wrote w w' (rlp i)
  | None => write v w = None
  end.

Lemma write_all_ok l w :
  Forall writes_item l → value_ok (VList l) →
  match mapM to_item l with
  | Some its => ∃ w', write_all l w = Some w' ∧ wrote w w' (concat (map rlp its))
  | None => write_all l w = None
  end.
Proof.
  intros Hl. revert w. induction Hl as [|v l Hv Hl IH]; intros w Hok; simpl.
  - exists w. split; [done|apply wrote_refl].
  - destruct Hok as [Hv' Hl']. specialize (Hv w Hv').
    destruct (to_item v) as [i|]; simpl; [|by rewrite Hv].
    destruct Hv as (w1 & -> & H1). simpl. specialize (IH w1 Hl').
    destruct (mapM to_item l) as [its|]; simpl; [|done].
    destruct IH as (w2 & -> & H2). exists w2. split; [done|]. simpl. by eapply wrote_trans.
Qed.

Lemma write_ok v : writes_item v.
Proof.
  induction v as [i|b|i|b|b| |l Hl] using value_all; intros w Hok.
  - eexists. split; [done|]. rewrite encodeUint_rlp by done. apply wrote_append.
  - eexists. split; [done|]. destruct b; apply wrote_append.
  - destruct i as [i|]; simpl; [|eexists; split; [done|apply wrote_append]].
    rewrite writeBigInt_rlp. case_if; [done|]. eexists. split; [done|apply wrote_append].
  - eexists. split; [done|]. rewrite encodeString_rlp. apply wrote_append.
  - eexists. split; [done|]. rewrite writeByteArray_rlp. apply wrote_append.
  - cbn [write to_item]. destruct (encbuf_list w) as [w1 i] eqn:E.
    destruct (wrote_list _ _ _ _ _ E (wrote_refl w1)) as (w3 & H3 & Hw). eauto.
  - rewrite write_VList. cbn [to_item]. destruct (encbuf_list w) as [w1 i] eqn:E.
    pose proof (write_all_ok l w1 Hl Hok) as H. destruct (mapM to_item l) as [its|]; simpl.
    + destruct H as (w2 & -> & Hw2). simpl.
      by apply (wrote_list _ _ _ _ _ E Hw2).
    + by rewrite H.
Qed.

(** ** Splitting undoes the format *)

Definition tag_small (k : Kind) : Z := match k with KList => 0xC0 | _ => 0x80 end.
Definition tag_large (k : Kind) : Z := match k with KList => 0xF7 | _ => 0xB7 end.

Definition item_kind (i : item) : Kind :=
  match i with
  | IStr [x] => if x <=? 0x7F then KByte else KString
  | IStr _ => KString
  | IList _ => KList
  end.
Definition item_content (i : item) : bytes :=
  match i with IStr b => b | IList l => concat (map rlp l) end.

Lemma be_encode_first n z : be_encode (S n) z !! 0%nat = Some (z / 256 ^ Z.of_nat n mod 256).
Proof.
  revert z. induction n as [|n IH]; intros z.
  - simpl. by rewrite Z.div_1_r.
  - change (be_encode (S (S n)) z) with (be_encode (S n) (z / 256) ++ [z mod 256]).
    rewrite lookup_app_l by (rewrite length_be_encode; lia). rewrite IH.
    by rewrite Z.div_div, (Nat2Z.inj_succ n), Z.pow_succ_r by lia.
Qed.

Lemma putint_size_range i : 0 < i < 2 ^ 64 →
  (1 <= putint_size i <= 8)%nat ∧
  256 ^ (Z.of_nat (putint_size i) - 1) <= i < 256 ^ Z.of_nat (putint_size i).
Proof.
  intros Hi. unfold putint_size.
  repeat case_if; zbool; (split; [lia|]);
    match goal with |- 256 ^ ?a <= _ < 256 ^ ?b =>
      let a' := eval vm_compute in (256 ^ a) in let b' := eval vm_compute in (256 ^ b) in
      change (256 ^ a) with a'; change (256 ^ b) with b' end; lia.
Qed.

Lemma putint_size_unique i k : (1 <= k <= 8)%nat →
  256 ^ (Z.of_nat k - 1) <= i < 256 ^ Z.of_nat k → 0 < i → putint_size i = k.
Proof.
  intros Hk Hi H0.
  assert (256 ^ Z.of_nat k <= 2 ^ 64).
  { change (2 ^ 64) with (256 ^ 8). apply Z.pow_le_mono_r; lia. }
  destruct (putint_size_range i ltac:(lia)) as [Hs Hr].
  destruct (Nat.lt_trichotomy (putint_size i) k) as [Hlt|[?|Hlt]]; [|done|].
  - assert (256 ^ Z.of_nat (putint_size i) <= 256 ^ (Z.of_nat k - 1))
      by (apply Z.pow_le_mono_r; lia). lia.
  - assert (256 ^ Z.of_nat k <= 256 ^ (Z.of_nat (putint_size i) - 1))
      by (apply Z.pow_le_mono_r; lia). lia.
Qed.

Lemma readSize_putint n t :
  56 <= n < 2 ^ 64 → readSize (putint n ++ t) (zlen (putint n)) = inl n.
Proof.
  intros Hn. destruct (putint_size_range n ltac:(lia)) as [Hs Hr].
  unfold readSize. pose proof (zlen_nonneg t). rewrite zlen_app, (proj2 (Z.ltb_ge _ _)) by lia.
  replace (Z.to_nat (zlen (putint n))) with (length (putint n)) by (unfold zlen; lia).
  rewrite take_app_length.
  assert (be_decode (putint n) = n) as ->.
  { unfold putint. rewrite be_decode_encode, Z.mod_small by lia. done. }
  rewrite (proj2 (Z.ltb_ge n 56)) by lia. simpl.
  destruct (putint_size n) as [|k] eqn:Hk; [lia|].
  rewrite lookup_app_l by (unfold putint; rewrite length_be_encode; lia).
  unfold putint. rewrite Hk, be_encode_first. simpl.
  replace (Z.of_nat (S k) - 1) with (Z.of_nat k) in Hr by lia.
  rewrite Nat2Z.inj_succ, Z.pow_succ_r in Hr by lia.
  assert (0 < 256 ^ Z.of_nat k) by (apply Z.pow_pos_nonneg; lia).
  assert (1 <= n / 256 ^ Z.of_nat k) by (apply Z.div_le_lower_bound; lia).
  assert (n / 256 ^ Z.of_nat k < 256) by (apply Z.div_lt_upper_bound; lia).
  rewrite Z.mod_small by lia. rewrite (proj2 (Z.eqb_neq _ _)) by lia. done.
Qed.

Lemma readSize_inv b slen s :
  1 <= slen <= 8 → Forall is_byte b → readSize b slen = inl s →
  56 <= s < 2 ^ 64 ∧ slen <= zlen b ∧ putint s = take (Z.to_nat slen) b.
Proof.
  intros Hl Hb. unfold readSize. case_if; [done|]. case_if; [done|]. intros [= <-]. zbool.
  set (l := take (Z.to_nat slen) b) in *.
  assert (Hlen : length l = Z.to_nat slen) by (unfold l, zlen in *; rewrite length_take; lia).
  assert (Hlb : Forall is_byte l) by by apply Forall_take.
  destruct (be_decode_range l Hlb) as [Hlo Hhi]. unfold zlen in Hhi. rewrite Hlen in Hhi.
  assert (256 ^ Z.of_nat (Z.to_nat slen) <= 2 ^ 64).
  { change (2 ^ 64) with (256 ^ 8). apply Z.pow_le_mono_r; lia. }
  split; [lia|]. split; [done|]. unfold putint.
  rewrite (putint_size_unique _ (Z.to_nat slen)); [by rewrite <- Hlen, be_encode_decode|lia| |lia].
  split; [|done]. destruct (Z.to_nat slen) as [|k] eqn:Hk; [lia|].
  pose proof (be_encode_first k (be_decode l)) as Hf.
  rewrite <- Hlen, be_encode_decode in Hf by done.
  replace (l !! 0%nat) with (b !! 0%nat) in Hf by (symmetry; apply lookup_take_lt; lia).
  rewrite Hf in *. simpl in *.
  destruct (Z.lt_ge_cases (be_decode l) (256 ^ Z.of_nat k)) as [Hlt|]; [|].
  - by rewrite Z.div_small in * by lia.
  - by replace (Z.of_nat (S k) - 1) with (Z.of_nat k) by lia.
Qed.

Lemma readKind_puthead k c rest :
  k ≠ KByte → (k = KString → ∀ x, c = [x] → 0x7F < x) →
  headsize (zlen c) + zlen c + zlen rest < 2 ^ 64 →
  readKind (puthead (tag_small k) (tag_large k) (zlen c) ++ c ++ rest) =
    inl (k, headsize (zlen c), zlen c).
Proof.
  intros Hk Hx Hlen. pose proof (zlen_nonneg c). pose proof (zlen_nonneg rest).
  assert (Hz : zlen (puthead (tag_small k) (tag_large k) (zlen c) ++ c ++ rest) =
    headsize (zlen c) + zlen c + zlen rest).
  { rewrite !zlen_app, zlen_puthead by lia. lia. }
  assert (Hge : 1 <= headsize (zlen c)).
  { unfold headsize. case_if; [lia|]. rewrite intsize_putint; lia. }
  assert (Hle : (sub64 (headsize (zlen c) + zlen c + zlen rest) (headsize (zlen c))
    <? zlen c) = false).
  { rewrite sub64_small by (unfold is_u64; lia). apply Z.ltb_ge. lia. }
  revert Hz Hle. unfold puthead, headsize. destruct (Z.ltb_spec (zlen c) 56); intros Hz Hle.
  - cbn [app readKind] in *. destruct k; [done| |]; simpl tag_small in *.
    + rewrite (proj2 (Z.ltb_ge _ 0x80)), (proj2 (Z.ltb_lt _ 0xB8)) by lia.
      replace (0x80 + zlen c - 0x80) with (zlen c) by lia.
      destruct ((zlen c =? 1) && _) eqn:Hone; [|cbn zeta; by rewrite Hz, Hle].
      zbool. destruct c as [|x [|y c]]; [done| |unfold zlen in *; simpl in *; lia].
      specialize (Hx eq_refl x eq_refl). simpl in *. zbool. lia.
    + rewrite (proj2 (Z.ltb_ge _ 0x80)), (proj2 (Z.ltb_ge _ 0xB8)), (proj2 (Z.ltb_ge _ 0xC0)),
        (proj2 (Z.ltb_lt _ 0xF8)) by lia.
      replace (0xC0 + zlen c - 0xC0) with (zlen c) by lia. cbn zeta. by rewrite Hz, Hle.
  - assert (Hc : 56 <= zlen c < 2 ^ 64) by lia.
    destruct (putint_size_range (zlen c) ltac:(lia)) as [Hs _].
    rewrite intsize_putint in * by lia. cbn [app readKind] in *.
    pose proof (zlen_putint (zlen c)) as Hp.
    destruct k; [done| |]; simpl tag_large in *.
    + rewrite (proj2 (Z.ltb_ge _ 0x80)), (proj2 (Z.ltb_ge _ 0xB8)), (proj2 (Z.ltb_lt _ 0xC0)) by lia.
      replace (0xB7 + zlen (putint (zlen c)) - 0xB7) with (zlen (putint (zlen c))) by lia.
      rewrite readSize_putint by done. cbn zeta. rewrite Hz, Hp.
      replace (Z.of_nat _ + 1) with (1 + Z.of_nat (putint_size (zlen c))) by lia. by rewrite Hle.
    + rewrite (proj2 (Z.ltb_ge _ 0x80)), (proj2 (Z.ltb_ge _ 0xB8)), (proj2 (Z.ltb_ge _ 0xC0)),
        (proj2 (Z.ltb_ge _ 0xF8)) by lia.
      replace (0xF7 + zlen (putint (zlen c)) - 0xF7) with (zlen (putint (zlen c))) by lia.
      rewrite readSize_putint by done. cbn zeta. rewrite Hz, Hp.
      replace (Z.of_nat _ + 1) with (1 + Z.of_nat (putint_size (zlen c))) by lia. by rewrite Hle.
Qed.

Lemma slice_middle {A} (a b c : list A) :
  slice (a ++ b ++ c) (zlen a) (zlen a + zlen b) = Some b.
Proof.
  unfold slice. pose proof (zlen_nonneg a). pose proof (zlen_nonneg b). pose proof (zlen_nonneg c).
  rewrite !zlen_app, !(proj2 (Z.leb_le _ _)) by lia. simpl. f_equal.
  replace (Z.to_nat (zlen a)) with (length a) by (unfold zlen; lia).
  replace (Z.to_nat (zlen a + zlen b - zlen a)) with (length b) by (unfold zlen; lia).
  by rewrite drop_app_length, take_app_length.
Qed.

Lemma slice_tail {A} (a b : list A) n :
  zlen a = n → slice (a ++ b) n (zlen (a ++ b)) = Some b.
Proof.
  intros <-. pose proof (slice_middle a b []) as H. by rewrite app_nil_r, <- zlen_app in H.
Qed.

(** A tag and content of the right sizes at the front of the buffer are split off. *)
Lemma Split_parts k h c rest :
  zlen (h ++ c ++ rest) < 2 ^ 64 → readKind (h ++ c ++ rest) = inl (k, zlen h, zlen c) →
  Split (h ++ c ++ rest) = Some (inl (k, c, rest)).
Proof.
  intros Hl Hk. unfold Split. rewrite Hk. rewrite !zlen_app in Hl.
  pose proof (zlen_nonneg h). pose proof (zlen_nonneg c). pose proof (zlen_nonneg rest).
  rewrite add64_small by (unfold is_u64; lia). rewrite slice_middle. cbn [mbind option_bind].
  rewrite app_assoc, slice_tail by (rewrite zlen_app; lia). done.
Qed.

(** A string that is not a byte of its own is of the kind [KString]. *)
Lemma item_kind_str b :
  item_kind (IStr b) ≠ KByte → item_kind (IStr b) = KString ∧ ∀ x, b = [x] → 0x7F < x.
Proof.
  intros Hk. destruct b as [|x [|y b]]; try (split; [done|by intros ? [=]]). simpl in *.
  destruct (x <=? 0x7F) eqn:Hx; [done|]. zbool. split; [done|]. intros ? [= <-]. lia.
Qed.

Lemma rlp_length i :
  zlen (rlp i) = (if decide (item_kind i = KByte) then 0 else headsize (zlen (item_content i)))
    + zlen (item_content i).
Proof.
  destruct i as [b|l].
  - destruct (decide _) as [Hk|Hk].
    + destruct b as [|x [|y b]]; try done. simpl in *. by destruct (x <=? 0x7F).
    + destruct (item_kind_str b Hk) as [_ Hb].
      rewrite rlp_str, zlen_app, zlen_puthead by auto using zlen_nonneg. done.
  - simpl. rewrite zlen_app, zlen_puthead by apply zlen_nonneg. done.
Qed.

Lemma readKind_rlp i rest :
  zlen (rlp i ++ rest) < 2 ^ 64 →
  ∃ h, rlp i = h ++ item_content i ∧
    readKind (rlp i ++ rest) = inl (item_kind i, zlen h, zlen (item_content i)).
Proof.
  rewrite zlen_app, rlp_length. intros Hl.
  destruct (decide (item_kind i = KByte)) as [Hk|Hk].
  - destruct i as [b|l]; [|done]. destruct b as [|x [|y b]]; try done. exists []. simpl in *.
    destruct (x <=? 0x7F) eqn:Hx; [|done]. zbool. split; [done|]. simpl.
    rewrite (proj2 (Z.ltb_lt x 0x80)) by lia. rewrite zlen_cons in *.
    pose proof (zlen_nonneg rest). unfold zlen in Hl at 1; simpl in Hl.
    rewrite sub64_small by (unfold is_u64; lia). by rewrite (proj2 (Z.ltb_ge _ _)) by lia.
  - destruct i as [b|l].
    + destruct (item_kind_str b Hk) as [-> Hb]. exists (puthead 0x80 0xB7 (zlen b)).
      rewrite rlp_str, <- app_assoc, zlen_puthead by auto using zlen_nonneg.
      split; [done|]. by apply (readKind_puthead KString).
    + exists (puthead 0xC0 0xF7 (zlen (concat (map rlp l)))). simpl in *.
      rewrite <- app_assoc, zlen_puthead by apply zlen_nonneg.
      split; [done|]. by apply (readKind_puthead KList).
Qed.

Lemma Split_rlp i rest :
  zlen (rlp i ++ rest) < 2 ^ 64 →
  Split (rlp i ++ rest) = Some (inl (item_kind i, item_content i, rest)).
Proof.
  intros Hz. destruct (readKind_rlp i rest Hz) as (h & Hh & Hk).
  rewrite Hh, <- app_assoc in *. by apply Split_parts.
Qed.

(** What a successful [readKind] says about the front of the buffer. *)
Definition parsed (b : bytes) (k : Kind) (h c rest : bytes) : Prop :=
  b = h ++ c ++ rest ∧
  match k with
  | KByte => h = [] ∧ ∃ x, c = [x] ∧ x < 0x80
  | _ => h = puthead (tag_small k) (tag_large k) (zlen c) ∧
         (k = KString → ∀ x, c = [x] → 0x7F < x)
  end.

Lemma split_at {A} (l : list A) (n m : Z) :
  0 <= n → 0 <= m → n + m <= zlen l →
  ∃ h c rest, l = h ++ c ++ rest ∧ zlen h = n ∧ zlen c = m.
Proof.
  intros. exists (take (Z.to_nat n) l), (take (Z.to_nat m) (drop (Z.to_nat n) l)),
    (drop (Z.to_nat m) (drop (Z.to_nat n) l)).
  rewrite !take_drop. unfold zlen in *. rewrite !length_take, !length_drop. split_and!; [done|lia..].
Qed.

Ltac readKind_cases H :=
  repeat match type of H with
  | context [if ?b then _ else _] => let E := fresh "E" in destruct b eqn:E; try done
  | context [readSize ?a ?b] => let E := fresh "R" in destruct (readSize a b) eqn:E; try done
  end.

(** The tag a long value starts with. *)
Lemma long_tag k b tl s : Forall is_byte tl → k ≠ KByte →
  1 <= b - tag_large k <= 8 → readSize tl (b - tag_large k) = inl s →
  (sub64 (zlen (b :: tl)) (b - tag_large k + 1) <? s) = false → zlen (b :: tl) < 2 ^ 64 →
  ∃ c rest, b :: tl = puthead (tag_small k) (tag_large k) s ++ c ++ rest ∧ zlen c = s ∧
    zlen (puthead (tag_small k) (tag_large k) s) = b - tag_large k + 1.
Proof.
  intros Htl Hk Hb Hr Hlt Hl.
  destruct (readSize_inv _ _ _ Hb Htl Hr) as (Hs & Hle & Hp). rewrite zlen_cons in *. zbool.
  rewrite sub64_small in Hlt by (unfold is_u64; lia).
  destruct (split_at tl (b - tag_large k) s) as (h & c & rest & -> & Hh & Hc); [lia..|].
  assert (Heq : putint s = h).
  { rewrite Hp. replace (Z.to_nat (b - tag_large k)) with (length h) by (unfold zlen in *; lia).
    by rewrite take_app_length. }
  assert (Hph : puthead (tag_small k) (tag_large k) s = b :: h).
  { unfold puthead. rewrite (proj2 (Z.ltb_ge s 56)), Heq by lia. f_equal. lia. }
  exists c, rest. rewrite Hph, zlen_cons. split_and!; auto; lia.
Qed.

Lemma readKind_inv b k ts cs :
  Forall is_byte b → zlen b < 2 ^ 64 → readKind b = inl (k, ts, cs) →
  ∃ h c rest, parsed b k h c rest ∧ zlen h = ts ∧ zlen c = cs.
Proof.
  intros Hb Hl H. destruct b as [|b tl]; [done|]. inversion_clear Hb as [|?? Hbb Htl].
  unfold is_byte in Hbb. cbn [readKind] in H. pose proof (zlen_nonneg tl) as Hn.
  assert (Hz : zlen (b :: tl) = zlen tl + 1) by apply zlen_cons.
  readKind_cases H; simplify_eq; zbool.
  - exists [], [b], tl. split_and!; [split_and!; eauto| |]; done.
  - rewrite sub64_small in * by (unfold is_u64; lia).
    destruct (split_at tl 0 (b - 0x80)) as (h & c & rest & -> & Hh & Hc); [lia..|].
    destruct h; [|rewrite zlen_cons in Hh; pose proof (zlen_nonneg h); lia]. simpl in *.
    exists [b], c, rest. split_and!; try done.
    split_and!; [done| |].
    + unfold puthead. rewrite Hc, (proj2 (Z.ltb_lt _ 56)) by lia. simpl. f_equal. lia.
    + intros _ x ->. simpl in *.
      match goal with E : _ && _ = false |- _ => rewrite <- Hc in E; simpl in E end. zbool. lia.
  - destruct (long_tag KString b tl cs) as (c & rest & Ht & Hc & Hp); simpl; try done; try lia.
    exists (puthead 0x80 0xB7 cs), c, rest. split_and!; [split_and!|..]; try done.
    + simpl. by rewrite Hc.
    + destruct (readSize_inv tl (b - 0xB7) cs ltac:(lia) Htl ltac:(done)) as (Hs & _).
      intros _ x ->. change (zlen [x]) with 1 in Hc. lia.
  - rewrite sub64_small in * by (unfold is_u64; lia).
    destruct (split_at tl 0 (b - 0xC0)) as (h & c & rest & -> & Hh & Hc); [lia..|].
    destruct h; [|rewrite zlen_cons in Hh; pose proof (zlen_nonneg h); lia]. simpl in *.
    exists [b], c, rest. split_and!; try done. split_and!; [done| |done].
    unfold puthead. rewrite Hc, (proj2 (Z.ltb_lt _ 56)) by lia. simpl. f_equal. lia.
  - destruct (long_tag KList b tl cs) as (c & rest & Ht & Hc & Hp); simpl; try done; try lia.
    exists (puthead 0xC0 0xF7 cs), c, rest. split_and!; [split_and!|..]; try done.
    simpl. by rewrite Hc.
Qed.

(** The induction principle that goes into the list of an item. *)
Fixpoint item_all (P : item → Prop) (Hs : ∀ b, P (IStr b))
    (Hl : ∀ l, Forall P l → P (IList l)) (i : item) : P i :=
  match i with
  | IStr b => Hs b
  | IList l => Hl l ((fix all (l : list item) : Forall P l :=
      match l with
      | [] => Forall_nil_2 P
      | i :: l => Forall_cons_2 P i l (item_all P Hs Hl i) (all l)
      end) l)
  end.

Lemma headsize_pos n : 0 <= n → 1 <= headsize n.
Proof. intros. unfold headsize. case_if; [lia|]. rewrite intsize_putint; lia. Qed.

Lemma headsize_le n : 0 <= n → headsize n <= 9.
Proof.
  intros. unfold headsize. case_if; [lia|]. rewrite intsize_putint by done.
  unfold putint_size. repeat case_if; lia.
Qed.

Lemma zlen_be_min_le z k : 0 <= z < 2 ^ (8 * k) → 0 <= k → zlen (be_min z) <= k.
Proof.
  intros Hz Hk. rewrite zlen_be_min by lia. unfold BitLen.
  destruct (Z.leb_spec z 0); [apply (Z.le_trans _ 0); [done|lia]|].
  assert (Z.log2 z < 8 * k) by (apply Z.log2_lt_pow2; lia).
  assert ((Z.log2 z + 1 + 7) / 8 < k + 1); [|lia]. apply Z.div_lt_upper_bound; lia.
Qed.

Lemma rlp_pos i : 1 <= zlen (rlp i).
Proof.
  rewrite rlp_length. pose proof (zlen_nonneg (item_content i)) as Hn.
  pose proof (headsize_pos _ Hn). destruct (decide _) as [Hk|]; [|lia].
  destruct i as [b|l]; [|done]. destruct b as [|x [|y b]]; done.
Qed.

Definition prefix_free (i : item) : Prop := ∀ j r r',
  zlen (rlp i ++ r) < 2 ^ 64 → rlp i ++ r = rlp j ++ r' → i = j ∧ r = r'.

Lemma concat_rlp_inj l l' :
  Forall prefix_free l → zlen (concat (map rlp l)) < 2 ^ 64 →
  concat (map rlp l) = concat (map rlp l') → l = l'.
Proof.
  intros Hl. revert l'. induction Hl as [|i l Hi Hl IH]; intros [|j l'] Hz Heq; simpl in *; [done|..].
  - pose proof (rlp_pos j). destruct (rlp j); [unfold zlen in *; simpl in *; lia|done].
  - pose proof (rlp_pos i). destruct (rlp i); [unfold zlen in *; simpl in *; lia|done].
  - destruct (Hi j _ _ Hz Heq) as [<- Heq']. f_equal. apply IH; [|done].
    rewrite zlen_app in Hz. pose proof (zlen_nonneg (rlp i)). lia.
Qed.

Lemma rlp_prefix_free i : prefix_free i.
Proof.
  induction i as [b|l Hl] using item_all; intros j r r' Hz Heq;
    pose proof (Split_rlp _ _ Hz) as H1; rewrite Heq in Hz, H1;
    rewrite (Split_rlp _ _ Hz) in H1; injection H1 as Hk Hc ->; (split; [|done]).
  - destruct j as [b'|l']; simpl in Hc; [by rewrite Hc|].
    destruct b as [|x [|y b]]; simpl in Hk; try done. by destruct (x <=? 0x7F).
  - destruct j as [b'|l'].
    + destruct b' as [|x [|y b']]; simpl in Hk; try done. by destruct (x <=? 0x7F).
    + f_equal. apply concat_rlp_inj; [done| |done]. rewrite <- Heq, zlen_app in Hz.
      pose proof (rlp_length (IList l)) as Hr. cbn [item_kind item_content] in Hr.
      rewrite decide_False in Hr by done. pose proof (zlen_nonneg r).
      pose proof (headsize_pos (zlen (concat (map rlp l))) (zlen_nonneg _)). lia.
Qed.

Lemma CountValues_loop_rlp l fuel n :
  zlen (concat (map rlp l)) < 2 ^ 64 → (length l < fuel)%nat →
  CountValues_loop fuel n (concat (map rlp l)) = Some (inl (n + zlen l)).
Proof.
  revert l n. induction fuel as [|fuel IH]; intros l n Hz Hf; [lia|].
  destruct l as [|i l]; simpl in *; [by rewrite Z.add_0_r|].
  destruct (readKind_rlp i _ Hz) as (h & Hh & Hk). pose proof (rlp_pos i) as Hp.
  destruct (rlp i ++ _) as [|x b] eqn:Hb.
  { apply app_eq_nil in Hb as [Hb _]. rewrite Hb in Hp. done. }
  rewrite Hk, <- Hb. rewrite <- Hb, zlen_app in Hz.
  pose proof (zlen_nonneg h). pose proof (zlen_nonneg (item_content i)).
  pose proof (zlen_nonneg (concat (map rlp l))).
  assert (Hs : zlen (rlp i) = zlen h + zlen (item_content i)) by (rewrite Hh; apply zlen_app).
  rewrite add64_small by (unfold is_u64; lia). rewrite slice_tail by done. cbn [mbind option_bind].
  rewrite IH by lia. rewrite zlen_cons. do 2 f_equal. lia.
Qed.

Lemma rlp_concat_length l : zlen l <= zlen (concat (map rlp l)).
Proof.
  induction l as [|i l IH]; simpl; [done|]. rewrite zlen_cons, zlen_app.
  pose proof (rlp_pos i). lia.
Qed.

Lemma AppendUint64_putint b i :
  is_u64 i → AppendUint64 b i = b ++ rlp (IStr (be_min i)).
Proof.
  intros Hi. pose proof (encodeUint_rlp empty_encbuf i Hi) as H.
  assert (Hinj : ∀ x y, append_str empty_encbuf x = append_str empty_encbuf y → x = y)
    by (intros x y [= ->]; done).
  unfold AppendUint64. unfold encodeUint in H. rewrite zlen_putint in H.
  destruct (i =? 0); [by rewrite <- (Hinj _ _ H)|].
  destruct (i <? 128); by rewrite <- (Hinj _ _ H).
Qed.

Lemma EncodeToBytes_ok v : value_ok v → EncodeToBytes v = rlp <$> to_item v.
Proof.
  intros Hok. pose proof (write_ok v empty_encbuf Hok) as H. unfold EncodeToBytes.
  destruct (to_item v) as [i|]; [|by rewrite H].
  destruct H as (w & -> & s & hs & Es & El & _ & Hin & Hr). simpl in *.
  unfold toBytes. rewrite Es, El. change (zlen []) with 0 in *.
  pose proof (toBytes_render_gen [] s hs Hin) as Ht. simpl in Ht. change (zlen []) with 0 in Ht.
  by rewrite Ht, Hr.
Qed.

(** ** Properties *)

(** C27 Encoding a value through the buffer, whose list headers are only put in at the
    end, gives the recursive-length-prefix form of that value, of exactly the size the
    buffer announces, and fails exactly on negative numbers. *)
Theorem EncodeToBytes_format (v : value) :
  value_ok v → EncodeToBytes v = rlp <$> to_item v.
Proof. apply EncodeToBytes_ok. Qed.

(** Splitting the encoding of an item off a buffer gives back its kind, its content
    and the bytes after it. *)
Theorem Split_encode (i : item) (rest : bytes) :
  zlen (rlp i ++ rest) < 2 ^ 64 →
  Split (rlp i ++ rest) = Some (inl (item_kind i, item_content i, rest)).
Proof. apply Split_rlp. Qed.

(** C38 Only canonical input is split: the bytes consumed are the one encoding of a string
    with that content, or the one list header for a payload of that length.  No input
    makes [Split] slice out of range. *)
Theorem Split_canonical (b : bytes) :
  Forall is_byte b → zlen b < 2 ^ 64 →
  match Split b with
  | Some (inl (KList, content, rest)) =>
      b = puthead 0xC0 0xF7 (zlen content) ++ content ++ rest
  | Some (inl (_, content, rest)) => b = rlp (IStr content) ++ rest
  | Some (inr _) => True
  | None => False
  end.
Proof.
  intros Hb Hl. destruct (readKind b) as [[[k ts] cs]|e] eqn:Hk; [|unfold Split; by rewrite Hk].
  destruct (readKind_inv _ _ _ _ Hb Hl Hk) as (h & c & rest & [-> Hp] & <- & <-).
  rewrite (Split_parts k h c rest Hl Hk). destruct k.
  - destruct Hp as (-> & x & -> & Hx). simpl. by rewrite (proj2 (Z.leb_le x 0x7F)) by lia.
  - destruct Hp as [-> Hx]. by rewrite rlp_str, <- app_assoc by auto.
  - by destruct Hp as [-> _].
Qed.

(** The format is prefix-free: two items encode to the same bytes, whatever follows
    them, only when they are equal. *)
Theorem rlp_injective (i j : item) (r r' : bytes) :
  zlen (rlp i ++ r) < 2 ^ 64 → rlp i ++ r = rlp j ++ r' → i = j ∧ r = r'.
Proof. apply rlp_prefix_free. Qed.

(** [CountValues] counts the items of a payload, for any number of them. *)
Theorem CountValues_correct (l : list item) :
  zlen (concat (map rlp l)) < 2 ^ 64 →
  CountValues (concat (map rlp l)) = Some (inl (zlen l)).
Proof.
  intros Hz. unfold CountValues. pose proof (rlp_concat_length l).
  rewrite CountValues_loop_rlp; [done|done|]. unfold zlen in *. lia.
Qed.

(** [SplitUint64] reads back what [AppendUint64] wrote, for every [uint64]. *)
Theorem SplitUint64_AppendUint64 (i : Z) (rest : bytes) :
  is_u64 i → zlen rest < 2 ^ 63 →
  SplitUint64 (AppendUint64 [] i ++ rest) = Some (inl (i, rest)).
Proof.
  intros Hi Hz. rewrite AppendUint64_putint by done. unfold SplitUint64, SplitString.
  unfold is_u64 in Hi. cbn [app].
  assert (Hb : zlen (be_min i) <= 8 ∧ (0 < i → putint i = be_min i ∧ (1 <= length (be_min i))%nat)).
  { destruct (Z.eq_dec i 0) as [->|]; [split; [done|lia]|].
    rewrite <- putint_be_min, zlen_putint by lia.
    destruct (putint_size_range i ltac:(lia)) as [Hs _]. split; [lia|]. intros _.
    split; [done|]. unfold putint. rewrite length_be_encode. lia. }
  destruct Hb as [Hb Hp]. rewrite Split_rlp.
  2:{ rewrite zlen_app, rlp_length. cbn [item_content]. unfold headsize.
      rewrite (proj2 (Z.ltb_lt _ 56)) by lia. destruct (decide _); lia. }
  cbn [mbind option_bind]. rewrite decide_False.
  2:{ destruct (be_min i) as [|x [|y l]]; simpl; try done. by destruct (x <=? 0x7F). }
  cbn [item_content mbind option_bind]. destruct (Z.eq_dec i 0) as [->|Hn]; [done|].
  destruct (Hp ltac:(lia)) as [Hpi Hlen].
  destruct (Z.lt_ge_cases i 256); [rewrite be_min_small by lia; by rewrite (proj2 (Z.eqb_neq i 0)) by lia|].
  pose proof (readSize_putint i [] ltac:(lia)) as Hr. rewrite app_nil_r, Hpi in Hr.
  destruct (be_min i) as [|x [|y l]] eqn:E; [simpl in *; lia| |].
  - apply (f_equal zlen) in Hpi. rewrite zlen_putint in Hpi.
    destruct (putint_size_range i ltac:(lia)) as [_ Hsz]. rewrite Hpi in Hsz.
    change (256 ^ zlen [x]) with 256 in Hsz. lia.
  - rewrite (proj2 (Z.ltb_ge 8 _)) by lia. by rewrite Hr.
Qed.

Lemma EncodeToBytes_format_witness :
  value_ok (VList [VUint 1024; VBytes [1; 2]; VList []; VBigInt (Some (2 ^ 70))]) ∧
  EncodeToBytes (VList [VUint 1024; VBytes [1; 2]; VList []; VBigInt (Some (2 ^ 70))]) =
    Some [209; 130; 4; 0; 130; 1; 2; 192; 137; 64; 0; 0; 0; 0; 0; 0; 0; 0].
Proof.
  assert (H : value_ok (VList [VUint 1024; VBytes [1; 2]; VList []; VBigInt (Some (2 ^ 70))])).
  { repeat split; try lia. repeat constructor; unfold is_byte; lia. }
  split; [exact H|]. rewrite (EncodeToBytes_format _ H). vm_compute. reflexivity.
Defined.

Lemma Split_encode_witness :
  zlen (rlp (IList [IStr [7]; IStr [200; 9]]) ++ [5; 5]) < 2 ^ 64 ∧
  Split (rlp (IList [IStr [7]; IStr [200; 9]]) ++ [5; 5]) =
    Some (inl (KList, [7; 130; 200; 9], [5; 5])).
Proof. split; [vm_compute; reflexivity|]. apply Split_encode. vm_compute. reflexivity. Defined.

Lemma Split_canonical_witness :
  (Forall is_byte [130; 200; 9; 1] ∧ zlen [130; 200; 9; 1] < 2 ^ 64) ∧
  [130; 200; 9; 1] = rlp (IStr [200; 9]) ++ [1].
Proof.
  assert (H : Forall is_byte [130; 200; 9; 1]) by (repeat constructor; unfold is_byte; lia).
  split; [split; [exact H|reflexivity]|].
  exact (Split_canonical [130; 200; 9; 1] H eq_refl).
Defined.

Lemma rlp_injective_witness :
  IList [IStr [1]; IStr []] = IList [IStr [1]; IStr []] ∧ [3] = [3].
Proof. apply rlp_injective; vm_compute; reflexivity. Defined.

Lemma CountValues_correct_witness :
  CountValues [1; 128; 193; 5] = Some (inl 3).
Proof. apply (CountValues_correct [IStr [1]; IStr []; IList [IStr [5]]]). vm_compute. reflexivity. Defined.

Lemma SplitUint64_AppendUint64_witness :
  SplitUint64 ([130; 4; 0] ++ [7]) = Some (inl (1024, [7])).
Proof. apply (SplitUint64_AppendUint64 1024 [7]); [unfold is_u64; lia|reflexivity]. Defined.
