(* ===== verification/RlpStream.v ===== *)
(** * The decoding stream ([rlp/decode.go])

    The [Stream] reads values off an input byte by byte, with the sizes of the lists it
    is inside of on a stack; the decoders of the kinds of types are built on it.
    [DecodeBytes] is proved to accept exactly what [EncodeToBytes] writes. *)

From S2P Require Import Prelude Rlp.

(** ** The stream *)

(** The errors of the package; [SErr] are those it shares with [raw.go].  A
    [decodeError] keeps only its message, not the type and the context it names. *)
Inductive decode_msg :=
| NonCanonicalInteger | NonCanonicalSize | ExpectedList | ExpectedString
| InputStringTooLong | InputStringTooShort | TooManyElements | TooFewElements
| ListTooShort | InvalidBoolean (n : Z).
Inductive stream_error :=
| SErr (e : rlp_error)
| EOL
| io_EOF
| ErrElemTooLarge
| ErrMoreThanOneValue
| errNotInList
| errNotAtEOL
| decodeError (m : decode_msg).
#[export] Instance rlp_error_eq_dec : EqDecision rlp_error.
Proof. solve_decision. Defined.
#[export] Instance decode_msg_eq_dec : EqDecision decode_msg.
Proof. solve_decision. Defined.
#[export] Instance stream_error_eq_dec : EqDecision stream_error.
Proof. solve_decision. Defined.

(** [st_r] is what the reader has left; the innermost list is the head of [st_stack];
    [st_kind] is [None] for the value -1 that means "not read yet". *)
Record Stream := {
  st_r : bytes;
  st_remaining : Z;
  st_size : Z;
  st_kinderr : option stream_error;
  st_stack : list Z;
  st_kind : option Kind;
  st_byteval : Z;
  st_limited : bool;
}.

Abbreviation DM := (M stream_error Stream).

Definition set_kind (k : option Kind) (s : Stream) : Stream := {|
  st_r := st_r s; st_remaining := st_remaining s; st_size := st_size s;
  st_kinderr := st_kinderr s; st_stack := st_stack s; st_kind := k;
  st_byteval := st_byteval s; st_limited := st_limited s |}.
Definition set_reader (r : bytes) (s : Stream) : Stream := {|
  st_r := r; st_remaining := st_remaining s; st_size := st_size s;
  st_kinderr := st_kinderr s; st_stack := st_stack s; st_kind := st_kind s;
  st_byteval := st_byteval s; st_limited := st_limited s |}.
Definition set_limits (stack : list Z) (remaining : Z) (s : Stream) : Stream := {|
  st_r := st_r s; st_remaining := remaining; st_size := st_size s;
  st_kinderr := st_kinderr s; st_stack := stack; st_kind := st_kind s;
  st_byteval := st_byteval s; st_limited := st_limited s |}.
Definition set_byteval (b : Z) (s : Stream) : Stream := {|
  st_r := st_r s; st_remaining := st_remaining s; st_size := st_size s;
  st_kinderr := st_kinderr s; st_stack := st_stack s; st_kind := st_kind s;
  st_byteval := b; st_limited := st_limited s |}.
Definition set_ahead (k : option Kind) (size : Z) (e : option stream_error) (s : Stream) : Stream := {|
  st_r := st_r s; st_remaining := st_remaining s; st_size := size;
  st_kinderr := e; st_stack := st_stack s; st_kind := k;
  st_byteval := st_byteval s; st_limited := st_limited s |}.

(** [Reset] on a reader of a byte slice, and [DecodeBytes]' limit. *)
Definition Stream_Reset (r : bytes) : Stream := {|
  st_r := r; st_remaining := zlen r; st_size := 0; st_kinderr := None; st_stack := [];
  st_kind := None; st_byteval := 0; st_limited := true |}.

(** [s.kind = -1]. *)
Definition rearm : DM unit := modify (set_kind None).

(** [None] outside of any list. *)
Definition listLimit (s : Stream) : option Z := head (st_stack s).

Definition willRead (n : Z) : DM unit :=
  do! rearm in
  let! s := gets id in
  let! stack :=
    match st_stack s with
    | [] => ret []
    | limit :: outer => if limit <? n then fail ErrElemTooLarge else ret ((limit - n) :: outer)
    end in
  do! modify (set_limits stack (st_remaining s)) in
  if st_limited s then
    if st_remaining s <? n then fail (SErr ErrValueTooLarge)
    else modify (set_limits stack (st_remaining s - n))
  else ret tt.

Definition readByte : DM Z :=
  do! willRead 1 in
  let! s := gets id in
  match st_r s with
  | [] => fail (SErr ErrUnexpectedEOF)
  | b :: r => do! modify (set_reader r) in ret b
  end.

(** The reader fills the buffer or is left empty. *)
Definition readFull (n : Z) : DM bytes :=
  do! willRead n in
  let! s := gets id in
  do! modify (set_reader (drop (Z.to_nat n) (st_r s))) in
  when! zlen (st_r s) <? n raise (SErr ErrUnexpectedEOF) in
  ret (take (Z.to_nat n) (st_r s)).

Definition Stream_readUint (size : Z) : DM Z :=
  if size =? 0 then do! rearm in ret 0
  else if size =? 1 then readByte
  else
    let! buffer := readFull size in
    when! default 0 (head buffer) =? 0 raise (SErr ErrCanonSize) in
    ret (be_decode buffer).

(** What [readByte] failing means at the top level. *)
Definition toplevel_error (s : Stream) (e : stream_error) : stream_error :=
  match st_stack s with
  | [] => if decide (e = SErr ErrUnexpectedEOF) then io_EOF
          else if decide (e = SErr ErrValueTooLarge) then io_EOF else e
  | _ => e
  end.

(** The kind and the size of the value, and the error, which comes with a kind. *)
Definition Stream_readKind : DM (Kind * Z * option stream_error) :=
  let long (k : Kind) (n : Z) : DM (Kind * Z * option stream_error) :=
    let! r := try (Stream_readUint n) in
    match r with
    | inl size => ret (k, size, if size <? 56 then Some (SErr ErrCanonSize) else None)
    | inr e => ret (k, 0, Some e)
    end in
  let! b := try readByte in
  match b with
  | inr e => let! s := gets id in ret (KByte, 0, Some (toplevel_error s e))
  | inl b =>
      do! modify (set_byteval 0) in
      if b <? 0x80 then do! modify (set_byteval b) in ret (KByte, 0, None)
      else if b <? 0xB8 then ret (KString, b - 0x80, None)
      else if b <? 0xC0 then long KString (b - 0xB7)
      else if b <? 0xF8 then ret (KList, b - 0xC0, None)
      else long KList (b - 0xF7)
  end.

(** The results cached in the stream are those returned. *)
Definition ahead (k : Kind) (size : Z) (e : option stream_error) : DM (Kind * Z) :=
  match e with None => ret (k, size) | Some e => fail e end.

Definition Stream_Kind : DM (Kind * Z) :=
  let! s := gets id in
  match st_kind s with
  | Some k => ahead k (st_size s) (st_kinderr s)
  | None =>
      if decide (listLimit s = Some 0) then fail EOL
      else
        let! (k, size, e) := Stream_readKind in
        let! s' := gets id in
        let e :=
          match e with
          | Some e => Some e
          | None =>
              if match listLimit s with Some limit => limit <? size | None => false end
              then Some ErrElemTooLarge
              else if st_limited s' && (st_remaining s' <? size) then Some (SErr ErrValueTooLarge)
              else None
          end in
        do! modify (set_ahead (Some k) size e) in
        ahead k size e
  end.

Definition Stream_Bytes : DM bytes :=
  let! (kind, size) := Stream_Kind in
  match kind with
  | KByte => let! b := gets st_byteval in do! rearm in ret [b]
  | KString =>
      let! b := readFull size in
      when! (size =? 1) && (default 0 (head b) <? 128) raise (SErr ErrCanonSize) in
      ret b
  | KList => fail (SErr ErrExpectedString)
  end.

Definition Stream_uint (maxbits : Z) : DM Z :=
  let! (kind, size) := Stream_Kind in
  match kind with
  | KByte =>
      let! b := gets st_byteval in
      when! b =? 0 raise (SErr ErrCanonInt) in
      do! rearm in
      ret b
  | KString =>
      when! maxbits / 8 <? size raise (SErr errUintOverflow) in
      let! r := try (Stream_readUint size) in
      match r with
      | inl v => when! (0 <? size) && (v <? 128) raise (SErr ErrCanonSize) in ret v
      | inr e => if decide (e = SErr ErrCanonSize) then fail (SErr ErrCanonInt) else fail e
      end
  | KList => fail (SErr ErrExpectedString)
  end.
Definition Stream_Uint : DM Z := Stream_uint 64.

Definition Stream_Bool : DM bool :=
  let! num := Stream_uint 8 in
  if num =? 0 then ret false
  else if num =? 1 then ret true
  else fail (decodeError (InvalidBoolean num)).

Definition Stream_List : DM Z :=
  let! (kind, size) := Stream_Kind in
  when! negb (bool_decide (kind = KList)) raise (SErr ErrExpectedList) in
  let! s := gets id in
  let outer := match st_stack s with [] => [] | limit :: o => sub64 limit size :: o end in
  do! modify (set_limits (size :: outer) (st_remaining s)) in
  do! modify (set_ahead None 0 (st_kinderr s)) in
  ret size.

Definition Stream_ListEnd : DM unit :=
  let! s := gets id in
  match st_stack s with
  | [] => fail errNotInList
  | limit :: outer =>
      when! 0 <? limit raise errNotAtEOL in
      do! modify (set_limits outer (st_remaining s)) in
      modify (set_ahead None 0 (st_kinderr s))
  end.

(** ** Decoders *)

Definition wrapStreamError (e : stream_error) : stream_error :=
  match e with
  | SErr ErrCanonInt => decodeError NonCanonicalInteger
  | SErr ErrCanonSize => decodeError NonCanonicalSize
  | SErr ErrExpectedList => decodeError ExpectedList
  | SErr ErrExpectedString => decodeError ExpectedString
  | SErr errUintOverflow => decodeError InputStringTooLong
  | errNotAtEOL => decodeError TooManyElements
  | _ => e
  end.
(** [return wrapStreamError(err, typ)]. *)
Definition wrapping {A} (m : DM A) : DM A :=
  let! r := try m in match r with inl a => ret a | inr e => fail (wrapStreamError e) end.

Definition decodeUint (bits : Z) : DM value := let! n := wrapping (Stream_uint bits) in ret (VUint n).
Definition decodeBool : DM value := let! b := wrapping Stream_Bool in ret (VBool b).
Definition decodeByteSlice : DM value := let! b := wrapping Stream_Bytes in ret (VBytes b).

(** The bytes of the integer. *)
Definition bigint_buffer : DM bytes :=
  let! (kind, size) := Stream_Kind in
  match kind with
  | KList => fail (SErr ErrExpectedString)
  | KByte => let! b := gets st_byteval in do! rearm in ret [b]
  | KString =>
      if size =? 0 then do! rearm in ret []
      else
        let! buffer := readFull size in
        when! (size =? 1) && (default 0 (head buffer) <? 128) raise (SErr ErrCanonSize) in
        ret buffer
  end.
Definition decodeBigInt : DM value :=
  wrapping (
    let! buffer := bigint_buffer in
    when! bool_decide (head buffer = Some 0) raise (SErr ErrCanonInt) in
    ret (VBigInt (Some (be_decode buffer)))).

(** [len] is the length of the array. *)
Definition decodeByteArray (len : Z) : DM value :=
  let! (kind, size) := Stream_Kind in
  match kind with
  | KByte =>
      when! len =? 0 raise decodeError InputStringTooLong in
      when! 1 <? len raise decodeError InputStringTooShort in
      let! b := gets st_byteval in
      do! rearm in
      ret (VByteArray [b])
  | KString =>
      when! len <? size raise decodeError InputStringTooLong in
      when! size <? len raise decodeError InputStringTooShort in
      let! b := readFull len in
      when! (size =? 1) && (default 0 (head b) <? 128) raise decodeError NonCanonicalSize in
      ret (VByteArray b)
  | KList => fail (decodeError ExpectedString)
  end.

(** The loop ends at the end of the list; an element has at least one byte. *)
Fixpoint decodeSliceElems (fuel : nat) (elemdec : DM value) : DM (list value) :=
  match fuel with
  | O => λ _, NoFuel
  | S fuel =>
      let! r := try elemdec in
      match r with
      | inl v => let! vs := decodeSliceElems fuel elemdec in ret (v :: vs)
      | inr e => if decide (e = EOL) then ret [] else fail e
      end
  end.

Definition decodeListSlice (elemdec : DM value) : DM value :=
  let! size := wrapping Stream_List in
  if size =? 0 then do! Stream_ListEnd in ret (VList [])
  else
    let! s := gets id in
    let! vs := decodeSliceElems (S (length (st_r s))) elemdec in
    do! Stream_ListEnd in
    ret (VList vs).

(** The types [makeDecoder] distinguishes, among those the client decodes. *)
Inductive rtype :=
| TUint (bits : Z)
| TBool
| TBigInt
| TByteSlice
| TByteArray (len : Z)
| TStruct (fields : list rtype)
| TSlice (elem : rtype).

(** The closure [makeStructDecoder] returns, over the decoders of the fields. *)
Fixpoint decode_fields (decs : list (DM value)) : DM (list value) :=
  match decs with
  | [] => ret []
  | dec :: decs =>
      let! r := try dec in
      match r with
      | inl v => let! vs := decode_fields decs in ret (v :: vs)
      | inr e => if decide (e = EOL) then fail (decodeError TooFewElements) else fail e
      end
  end.
Definition decode_struct (decs : list (DM value)) : DM value :=
  do! wrapping Stream_List in
  let! vs := decode_fields decs in
  do! wrapping Stream_ListEnd in
  ret (VList vs).

Fixpoint makeDecoder (t : rtype) : DM value :=
  match t with
  | TUint bits => decodeUint bits
  | TBool => decodeBool
  | TBigInt => decodeBigInt
  | TByteSlice => decodeByteSlice
  | TByteArray len => decodeByteArray len
  | TStruct fields => decode_struct (map makeDecoder fields)
  | TSlice elem => decodeListSlice (makeDecoder elem)
  end.

Definition DecodeBytes (t : rtype) (b : bytes) : outcome stream_error Stream value :=
  (let! v := makeDecoder t in
   let! s := gets id in
   when! 0 <? zlen (st_r s) raise ErrMoreThanOneValue in
   ret v) (Stream_Reset b).

Example decode_pair :
  match DecodeBytes (TStruct [TUint 64; TSlice TByteSlice]) [0xC6; 130; 4; 0; 0xC2; 1; 2] with
  | Ret v _ => v = VList [VUint 1024; VList [VBytes [1]; VBytes [2]]]
  | _ => False
  end.
Proof. vm_compute. reflexivity. Qed.

(** ** Reading *)

(** The stream has read nothing of the value ahead, its limit is the length of the input,
    and the sizes on the stack are machine words. *)
Record ready (s : Stream) : Prop := {
  rd_limited : st_limited s = true;
  rd_remaining : st_remaining s = zlen (st_r s);
  rd_small : zlen (st_r s) < 2 ^ 63;
  rd_bytes : Forall is_byte (st_r s);
  rd_stack : Forall is_u64 (st_stack s);
}.

(** The size of the innermost list less [n]. *)
Definition eat_stack (n : Z) (stack : list Z) : list Z :=
  match stack with [] => [] | l :: o => sub64 l n :: o end.
(** The bytes [w] of the input are read, and nothing is known of what follows. *)
Record eats (s : Stream) (w : bytes) (s' : Stream) : Prop := {
  ea_r : st_r s = w ++ st_r s';
  ea_stack : st_stack s' = eat_stack (zlen w) (st_stack s);
  ea_ready : ready s';
}.
(** So many bytes can be read. *)
Definition fits (n : Z) (s : Stream) : Prop :=
  0 <= n <= zlen (st_r s) ∧ ∀ l, head (st_stack s) = Some l → n <= l.

#[export] Instance fits_dec n s : Decision (fits n s).
Proof.
  unfold fits. destruct (decide (0 <= n <= zlen (st_r s))) as [Hn|Hn]; [|right; tauto].
  destruct (st_stack s) as [|l o].
  - left. split; [done|]. intros l [=].
  - destruct (decide (n <= l)) as [Hl|Hl].
    + left. split; [done|]. by intros ? [= <-].
    + right. intros [_ H]. by apply Hl, H.
Defined.

Lemma eat_stack_add a b l : eat_stack b (eat_stack a l) = eat_stack (a + b) l.
Proof.
  destruct l as [|x l]; [done|]. unfold eat_stack, sub64, u64. f_equal.
  rewrite Zminus_mod_idemp_l. f_equal. lia.
Qed.

Lemma eat_stack_0 l : Forall is_u64 l → eat_stack 0 l = l.
Proof.
  destruct 1 as [|x l Hx]; [done|]. unfold eat_stack. rewrite sub64_small; [f_equal; lia| |done].
  unfold is_u64 in Hx. lia.
Qed.

Lemma eat_stack_words n l : Forall is_u64 l → Forall is_u64 (eat_stack n l).
Proof. destruct 1; constructor; [apply u64_range|done]. Qed.

Lemma eats_trans s w1 s1 w2 s2 : eats s w1 s1 → eats s1 w2 s2 → eats s (w1 ++ w2) s2.
Proof.
  intros [R1 T1 _] [R2 T2 G]. split; [by rewrite R1, R2, app_assoc| |done].
  by rewrite T2, T1, eat_stack_add, zlen_app.
Qed.

Lemma eats_refl s : ready s → eats s [] s.
Proof. intros H. split; [done| |done]. symmetry. apply eat_stack_0. by destruct H. Qed.

(** What is cached about the value ahead plays no part. *)
Lemma eats_ahead s w s' k n e :
  eats s w s' → eats s w (set_ahead k n e s').
Proof. intros [? ? []]. by split. Qed.
Lemma eats_rearm s w s' : eats s w s' → eats s w (set_kind None s').
Proof. intros [? ? []]. by split. Qed.

Definition advance (n : Z) (s : Stream) : Stream :=
  set_kind None (set_reader (drop (Z.to_nat n) (st_r s))
    (set_limits (eat_stack n (st_stack s)) (st_remaining s - n) s)).

Lemma advance_eats n s :
  ready s → 0 <= n <= zlen (st_r s) → eats s (take (Z.to_nat n) (st_r s)) (advance n s).
Proof.
  intros [H1 H2 H3 H4 H5] Hn. split; simpl.
  - by rewrite take_drop.
  - f_equal. unfold zlen in *. rewrite length_take. lia.
  - split; simpl; [done| | | |].
    + rewrite H2. unfold zlen in *. rewrite length_drop. lia.
    + unfold zlen in *. rewrite length_drop. lia.
    + by apply Forall_drop.
    + by apply eat_stack_words.
Qed.

Lemma willRead_ok n s : ready s → fits n s →
  willRead n s = Ret tt (set_kind None (set_limits (eat_stack n (st_stack s)) (st_remaining s - n) s)).
Proof.
  intros [H1 H2 H3 H4 H5] [Hn Hl]. unfold willRead, rearm, bind, gets, modify, id. simpl.
  destruct (st_stack s) as [|l o] eqn:Hs; simpl.
  - unfold ret. simpl. rewrite H1, (proj2 (Z.ltb_ge _ _)) by lia. done.
  - specialize (Hl l eq_refl). inversion_clear H5. unfold is_u64 in *.
    rewrite (proj2 (Z.ltb_ge l n)) by lia. unfold ret. simpl.
    rewrite H1, (proj2 (Z.ltb_ge _ _)) by lia. unfold sub64.
    rewrite u64_small by (unfold is_u64; lia). done.
Qed.

(** What does not fit is refused before anything is read. *)
Lemma willRead_too_much n s : ready s → 0 <= n → ¬ fits n s →
  ∃ s', willRead n s = Fail ErrElemTooLarge s' ∨ willRead n s = Fail (SErr ErrValueTooLarge) s'.
Proof.
  intros [H1 H2 H3 H4 H5] Hn Hf. unfold willRead, rearm, bind, gets, modify, id. simpl.
  assert (Hv : (∀ l, head (st_stack s) = Some l → n <= l) → (st_remaining s <? n) = true).
  { intros Hl. apply Z.ltb_lt. destruct (Z.lt_ge_cases (st_remaining s) n); [done|].
    exfalso. apply Hf. split; [lia|done]. }
  destruct (st_stack s) as [|l o] eqn:Hs; simpl.
  - unfold ret. simpl. rewrite H1, Hv by (intros l E; simpl in E; done). eauto.
  - destruct (Z.ltb_spec l n); [by eauto|]. unfold ret. simpl. rewrite H1, Hv; [by eauto|].
    intros l' [= <-]. lia.
Qed.

Lemma readByte_ok b r s : ready s → st_r s = b :: r → (∀ l, head (st_stack s) = Some l → 1 <= l) →
  readByte s = Ret b (advance 1 s).
Proof.
  intros Hr Hs Hl. unfold readByte, bind. rewrite willRead_ok; [|done|].
  - unfold gets, id. simpl. rewrite Hs. unfold advance. simpl. by rewrite Hs.
  - split; [|done]. rewrite Hs, zlen_cons. pose proof (zlen_nonneg r). lia.
Qed.

Lemma readFull_ok n s : ready s → fits n s →
  readFull n s = Ret (take (Z.to_nat n) (st_r s)) (advance n s).
Proof.
  intros Hr Hf. unfold readFull, bind. rewrite willRead_ok by done. unfold gets, id. simpl.
  destruct Hf as [Hn _]. rewrite (proj2 (Z.ltb_ge _ n)) by lia. done.
Qed.

(** A read returns or fails, and never with [EOL]. *)
Lemma wp_readByte s : ready s →
  wp readByte (λ b s', eats s [b] s' ∧ st_kind s' = None) (λ e _, e ≠ EOL) (λ _, False) s.
Proof.
  intros Hr. destruct (decide (fits 1 s)) as [Hf|Hf].
  - destruct (st_r s) as [|b r] eqn:Hs.
    { destruct Hf as [Hf _]. rewrite Hs in Hf. change (zlen []) with 0 in Hf. lia. }
    unfold wp. rewrite (readByte_ok b r) by (done || apply Hf). split; [|done].
    pose proof (advance_eats 1 s Hr ltac:(apply Hf)) as Ha. by rewrite Hs in Ha.
  - unfold wp, readByte, bind. destruct (willRead_too_much 1 s Hr ltac:(lia) Hf) as (s' & [-> | ->]); done.
Qed.

Lemma wp_readFull n s : ready s → 0 <= n →
  wp (readFull n) (λ b s', eats s b s' ∧ st_kind s' = None ∧ zlen b = n) (λ e _, e ≠ EOL) (λ _, False) s.
Proof.
  intros Hr Hn. destruct (decide (fits n s)) as [Hf|Hf].
  - unfold wp. rewrite readFull_ok by done. destruct Hf as [Hf _].
    split_and!; [by apply advance_eats|done|]. unfold zlen in *. rewrite length_take. lia.
  - unfold wp, readFull, bind. destruct (willRead_too_much n s Hr Hn Hf) as (s' & [-> | ->]); done.
Qed.

(** The number read, and the bytes that spell it. *)
Definition spells (n : Z) (b : bytes) (v : Z) : Prop :=
  zlen b = n ∧ v = be_decode b ∧ (2 <= n → head b ≠ Some 0).

Lemma wp_readUint n s : ready s → 0 <= n →
  wp (Stream_readUint n) (λ v s', ∃ b, eats s b s' ∧ st_kind s' = None ∧ spells n b v)
    (λ e _, e ≠ EOL) (λ _, False) s.
Proof.
  intros Hr Hn. unfold Stream_readUint. case_if; zbool; subst.
  { repeat wp_step. exists []. split_and!; [|done|split_and!; [done|done|lia]].
    by apply eats_rearm, eats_refl. }
  case_if; zbool; subst.
  { eapply wp_mono; [by apply wp_readByte|..]; simpl; try done.
    intros b s' [He Hk]. exists [b]. split_and!; [done|done|split_and!; [done|done|lia]]. }
  wp_step. eapply wp_mono; [by apply wp_readFull|..]; simpl; try done.
  intros b s' (He & Hk & Hz). repeat wp_step; [done|]. exists b. split_and!; try done.
  split_and!; [done|done|]. intros _ Hh. rewrite Hh in Hif1. done.
Qed.

(** The bytes that announce a value of the kind and size. *)
Definition announces (k : Kind) (size : Z) (h : bytes) (byteval : Z) : Prop :=
  0 <= size < 2 ^ 64 ∧
  match k with
  | KByte => h = [byteval] ∧ 0 <= byteval < 0x80 ∧ size = 0
  | _ => h = puthead (tag_small k) (tag_large k) size
  end.

Lemma long_head k b h size : Forall is_byte h → k ≠ KByte → 1 <= b - tag_large k <= 8 →
  spells (b - tag_large k) h size → 56 <= size → announces k size (b :: h) 0.
Proof.
  intros Hh Hk Hb (Hl & -> & Hnz) Hs.
  assert (Hr : readSize h (b - tag_large k) = inl (be_decode h)).
  { unfold readSize. rewrite Hl, (proj2 (Z.ltb_ge _ _)) by lia. rewrite <- Hl.
    replace (Z.to_nat (zlen h)) with (length h) by (unfold zlen; lia). rewrite take_ge by lia.
    rewrite (proj2 (Z.ltb_ge _ 56)) by lia. simpl. destruct (Z.eqb_spec (default 0 (h !! 0%nat)) 0); [|done].
    exfalso. destruct h as [|x [|y h]]; simpl in *; subst; [unfold be_decode in Hs; simpl in Hs; lia| |].
    - unfold be_decode in Hs. simpl in Hs. lia.
    - apply Hnz; [|done]. rewrite <- Hl, !zlen_cons. pose proof (zlen_nonneg h). lia. }
  destruct (readSize_inv _ _ _ Hb Hh Hr) as (Hs2 & _ & Hp). split; [lia|].
  destruct k; [done| |]; unfold puthead; rewrite (proj2 (Z.ltb_ge _ 56)), Hp by lia;
    rewrite <- Hl; replace (Z.to_nat (zlen h)) with (length h) by (unfold zlen; lia);
    rewrite take_ge by lia; f_equal; simpl in *; lia.
Qed.

Ltac long_case k He b :=
  zbool; eapply wp_mono; [apply (wp_readUint _ _ (ea_ready _ _ _ He)); lia|..];
  cbn beta; [|by intros; repeat wp_step|done];
  intros v s2 (h & Hh & _ & Hv); repeat wp_step; cbn [fst snd]; case_if; [done|]; zbool;
  pose proof (rd_bytes _ (ea_ready _ _ _ He)) as Hbs; rewrite (ea_r _ _ _ Hh) in Hbs;
  apply Forall_app in Hbs as [Hbs _];
  destruct (long_head k b h v) as [Hl Hph]; simpl; try done; try lia;
  exists (b :: h); split; [by apply (eats_trans _ [b] _ h _ He)|split; done].

Lemma wp_readKind s : ready s →
  wp Stream_readKind
    (λ r s', match r.2 with
       | None => ∃ h, eats s h s' ∧ announces r.1.1 r.1.2 h (st_byteval s')
       | Some e => e ≠ EOL end) (λ _ _, False) (λ _, False) s.
Proof.
  intros Hr. unfold Stream_readKind. repeat wp_step.
  eapply wp_mono; [by apply wp_readByte|..]; cbn beta; [| |done].
  2:{ intros e s' He. repeat wp_step. cbn [fst snd]. unfold toplevel_error.
      repeat case_match; subst; done. }
  intros b s1 [He Hk]. pose proof He as [Hs _ Hr1].
  assert (Hb : 0 <= b < 256).
  { pose proof (rd_bytes _ Hr) as Hb. rewrite Hs in Hb. by inversion_clear Hb. }
  assert (He0 : eats s [b] (set_byteval 0 s1)) by (destruct He as [? ? []]; by split).
  repeat wp_step.
  - cbn [fst snd]. exists [b]. zbool. split; [destruct He as [? ? []]; by split|].
    split; [lia|]. simpl. split_and!; [done|lia|lia|done].
  - cbn [fst snd]. exists [b]. split; [done|]. zbool. split; [lia|]. unfold puthead.
    rewrite (proj2 (Z.ltb_lt _ 56)) by lia. f_equal. simpl. lia.
  - long_case KString He0 b.
  - cbn [fst snd]. exists [b]. split; [done|]. zbool. split; [lia|]. unfold puthead.
    rewrite (proj2 (Z.ltb_lt _ 56)) by lia. f_equal. simpl. lia.
  - long_case KList He0 b.
Qed.

(** Reading fails with [EOL] only at the end of a list, before anything is read. *)
Definition EOL_at (s : Stream) (e : stream_error) (s' : Stream) : Prop :=
  e = EOL → s' = s ∧ head (st_stack s) = Some 0.

Lemma wp_Kind s : ready s → st_kind s = None →
  wp Stream_Kind
    (λ r s', ∃ h, eats s h s' ∧ announces r.1 r.2 h (st_byteval s') ∧ r.2 <= zlen (st_r s'))
    (EOL_at s) (λ _, False) s.
Proof.
  intros Hr Hk. unfold Stream_Kind. repeat wp_step. unfold id. rewrite Hk.
  destruct (decide (listLimit s = Some 0)) as [Hz|Hz]; [apply wp_fail; by intros _|].
  repeat wp_step. eapply wp_mono; [by apply wp_readKind|..]; cbn beta; try done.
  intros [[k n] e] s1 He. cbn [fst snd] in He. repeat wp_step. unfold id.
  destruct e as [e|]; [apply wp_fail; by intros ->|]. destruct He as (h & He & Ha).
  repeat case_match; try (apply wp_fail; by intros).
  all: apply wp_ret; exists h; split; [by apply eats_ahead|].
  all: (split; [exact Ha|]); simpl; destruct (ea_ready _ _ _ He) as [E1 E2 _ _ _].
  all: rewrite E1, E2 in *; simpl in *; zbool; simpl; lia.
Qed.

Lemma be_min_decode b : Forall is_byte b → head b ≠ Some 0 → be_min (be_decode b) = b.
Proof.
  intros Hb Hh. destruct b as [|x b]; [done|].
  transitivity (be_encode (length (x :: b)) (be_decode (x :: b))); [|by apply be_encode_decode].
  unfold be_min. f_equal.
  pose proof (be_decode_range _ Hb) as [_ Hhi]. pose proof (zlen_nonneg b) as Hn.
  assert (Hlo : 256 ^ zlen b <= be_decode (x :: b)).
  { inversion_clear Hb as [|?? Hx Hb']. unfold is_byte in Hx.
    assert (x ≠ 0) by (intros ->; by apply Hh).
    assert (Hf : ∀ l a, 0 <= a → Forall is_byte l →
      a * 256 ^ zlen l <= fold_left (λ acc b, acc * 256 + b) l a).
    { clear. induction l as [|y l IH]; intros a Ha Hl; simpl; [unfold zlen; simpl; lia|].
      inversion_clear Hl as [|?? Hy Hl']. unfold is_byte in Hy.
      rewrite zlen_cons. pose proof (zlen_nonneg l).
      specialize (IH (a * 256 + y) ltac:(lia) Hl'). rewrite Z.pow_add_r by lia.
      assert (0 <= y * 256 ^ zlen l) by (apply Z.mul_nonneg_nonneg; lia). nia. }
    specialize (Hf b x ltac:(lia) Hb'). unfold be_decode. cbn [fold_left]. rewrite Z.mul_0_l, Z.add_0_l.
    assert (0 < 256 ^ zlen b) by (apply Z.pow_pos_nonneg; lia). nia. }
  rewrite zlen_cons in Hhi.
  assert (Hp : 0 < 256 ^ zlen b) by (apply Z.pow_pos_nonneg; lia).
  unfold BitLen. rewrite (proj2 (Z.leb_gt _ 0)) by lia.
  set (v := be_decode (x :: b)) in *.
  change 256 with (2 ^ 8) in Hlo, Hhi. rewrite <- Z.pow_mul_r in Hlo, Hhi by lia.
  assert (0 < v) by (assert (0 < 2 ^ (8 * zlen b)) by (apply Z.pow_pos_nonneg; lia); lia).
  apply Z.log2_le_pow2 in Hlo; [|lia]. apply Z.log2_lt_pow2 in Hhi; [|lia].
  replace (length (x :: b)) with (Z.to_nat (zlen b + 1)) by (unfold zlen; simpl; lia). f_equal.
  symmetry. apply Z.div_unique with (r := Z.log2 v + 1 + 7 - 8 * (zlen b + 1)); lia.
Qed.

(** A string is what its header announces, or a single small byte. *)
Lemma string_rlp h c s1 s2 s n bv :
  eats s h s1 → announces KString n h bv → eats s1 c s2 → zlen c = n →
  (n =? 1) && (default 0 (head c) <? 128) = false → eats s (rlp (IStr c)) s2.
Proof.
  intros H1 [_ Hh] H2 Hz Hc. rewrite rlp_str.
  - rewrite Hz. simpl in Hh. rewrite <- Hh. by eapply eats_trans.
  - intros x ->. change (zlen [x]) with 1 in Hz. subst n. simpl in Hc. apply Z.ltb_ge in Hc. lia.
Qed.
Lemma byte_rlp h n s1 s : eats s h s1 → announces KByte n h (st_byteval s1) →
  eats s (rlp (IStr [st_byteval s1])) s1.
Proof.
  intros He (_ & -> & Hb & _). simpl. by rewrite (proj2 (Z.leb_le _ 0x7F)) by lia.
Qed.

Lemma wp_Bytes s : ready s → st_kind s = None →
  wp Stream_Bytes (λ b s', eats s (rlp (IStr b)) s' ∧ st_kind s' = None) (EOL_at s) (λ _, False) s.
Proof.
  intros Hr Hk. unfold Stream_Bytes. wp_step. eapply wp_mono; [by apply wp_Kind|..]; try done.
  intros [k n] s1 (h & He & Ha & Hn). cbn [fst snd] in *. destruct k.
  - repeat wp_step. split; [|done]. apply eats_rearm. by eapply byte_rlp.
  - wp_step. eapply wp_mono; [apply wp_readFull; [apply He|apply Ha]|..]; cbn beta; try done.
    intros b s2 (H2 & Hk2 & Hz). repeat wp_step; [by intros ?|]. split; [|done].
    by eapply string_rlp.
  - apply wp_fail. by intros ?.
Qed.

Lemma wp_bigint_buffer s : ready s → st_kind s = None →
  wp bigint_buffer (λ b s', eats s (rlp (IStr b)) s' ∧ st_kind s' = None) (EOL_at s) (λ _, False) s.
Proof.
  intros Hr Hk. unfold bigint_buffer. wp_step. eapply wp_mono; [by apply wp_Kind|..]; try done.
  intros [k n] s1 (h & He & Ha & Hn). cbn [fst snd] in *. destruct k.
  - repeat wp_step. split; [|done]. apply eats_rearm. by eapply byte_rlp.
  - wp_step.
    + zbool. subst. repeat wp_step. split; [|done]. apply eats_rearm.
      eapply (string_rlp h []); try done. by apply eats_refl, (ea_ready _ _ _ He).
    + wp_step. eapply wp_mono; [apply wp_readFull; [apply He|apply Ha]|..]; cbn beta; try done.
      intros b s2 (H2 & Hk2 & Hz). repeat wp_step; [by intros ?|]. split; [|done].
      by eapply string_rlp.
  - apply wp_fail. by intros ?.
Qed.

Lemma wp_uint bits s : ready s → st_kind s = None → 0 < bits <= 64 → bits mod 8 = 0 →
  wp (Stream_uint bits) (λ n s', eats s (rlp (IStr (be_min n))) s' ∧ st_kind s' = None ∧ 0 <= n < 2 ^ bits)
    (EOL_at s) (λ _, False) s.
Proof.
  intros Hr Hk Hb Hm. unfold Stream_uint. wp_step. eapply wp_mono; [by apply wp_Kind|..]; try done.
  intros [k n] s1 (h & He & Ha & Hn). cbn [fst snd] in *.
  assert (H8 : 2 ^ 8 <= 2 ^ bits).
  { apply Z.pow_le_mono_r; [lia|]. pose proof (Z.div_mod bits 8 ltac:(lia)). nia. }
  destruct k.
  - repeat wp_step; [by intros ?|]. zbool. pose proof Ha as (_ & _ & Hbv & _).
    unfold rearm. repeat wp_step. rewrite be_min_small by lia. split_and!; [|done|lia..]. apply eats_rearm. by eapply byte_rlp.
  - wp_step; [apply wp_fail; by intros ?|]. zbool. apply wp_bind, wp_try.
    eapply wp_mono; [apply wp_readUint; [apply He|apply Ha]|..]; cbn beta; try done.
    + intros v s2 (b & H2 & Hk2 & Hz & -> & Hnz). repeat wp_step; [by intros ?|].
      assert (Hbs : Forall is_byte b).
      { pose proof (rd_bytes _ (ea_ready _ _ _ He)) as Hbs. rewrite (ea_r _ _ _ H2) in Hbs.
        by apply Forall_app in Hbs as [? _]. }
      assert (Hlen : n <= bits / 8) by lia.
      pose proof (be_decode_range _ Hbs) as Hrange. rewrite Hz in Hrange.
      assert (256 ^ n <= 2 ^ bits).
      { change 256 with (2 ^ 8). destruct Ha as [Ha _]. rewrite <- Z.pow_mul_r by lia.
        apply Z.pow_le_mono_r; [lia|]. pose proof (Z.div_mod bits 8 ltac:(lia)). lia. }
      split_and!; [|done|lia..]. rewrite be_min_decode; [|done|].
      * eapply string_rlp; try done. apply andb_false_iff.
        destruct b as [|x [|y b]]; simpl in *; [by left; subst|right|left].
        -- subst n. apply andb_false_iff in Hif0 as [Hif0|Hif0]; [done|]. unfold be_decode in Hif0. by simpl in Hif0.
        -- rewrite <- Hz, !zlen_cons. apply Z.eqb_neq. pose proof (zlen_nonneg b). lia.
      * destruct b as [|x [|y b]]; [done| |].
        -- subst n. apply andb_false_iff in Hif0 as [Hif0|Hif0]; [done|]. unfold be_decode in Hif0.
           simpl in Hif0. zbool. simpl. intros [= ->]. lia.
        -- apply Hnz. rewrite <- Hz, !zlen_cons. pose proof (zlen_nonneg b). lia.
    + intros e s2 He2. repeat case_match; apply wp_fail; intros Hd; by simplify_eq.
  - apply wp_fail. by intros ?.
Qed.

Lemma wp_List s : ready s → st_kind s = None →
  wp Stream_List
    (λ n s', ∃ h, h = puthead 0xC0 0xF7 n ∧ 0 <= n < 2 ^ 64 ∧ st_r s = h ++ st_r s' ∧
       st_stack s' = n :: eat_stack (zlen h + n) (st_stack s) ∧ ready s' ∧ st_kind s' = None ∧
       n <= zlen (st_r s'))
    (EOL_at s) (λ _, False) s.
Proof.
  intros Hr Hk. unfold Stream_List. wp_step. eapply wp_mono; [by apply wp_Kind|..]; try done.
  intros [k n] s1 (h & He & Ha & Hn). cbn [fst snd] in *.
  destruct (decide (k = KList)) as [->|Hne];
    [rewrite bool_decide_true by done|rewrite bool_decide_false by done; apply wp_fail; by intros ?].
  repeat wp_step; [done|]. exists h. destruct Ha as [Hn64 ->]. pose proof He as [H1 H2 [R1 R2 R3 R4 R5]]. cbn [tag_small tag_large] in *.
  split_and!; try done; try lia; unfold id.
  - rewrite <- eat_stack_add, <- H2. done.
  - split; simpl; try done. constructor; [done|]. change (Forall is_u64 (eat_stack n (st_stack s1))).
    by apply eat_stack_words.
Qed.

Lemma wp_ListEnd s : ready s →
  wp Stream_ListEnd
    (λ _ s', ∃ o, st_stack s = 0 :: o ∧ st_r s' = st_r s ∧ st_stack s' = o ∧ ready s' ∧ st_kind s' = None)
    (λ e _, e ≠ EOL) (λ _, False) s.
Proof.
  intros [R1 R2 R3 R4 R5]. unfold Stream_ListEnd. repeat wp_step. unfold id.
  destruct (st_stack s) as [|l o] eqn:Hs; [by apply wp_fail|]. inversion_clear R5 as [|?? Hl Ho].
  repeat wp_step; [done|]. zbool. unfold is_u64 in Hl. assert (l = 0) as -> by lia.
  exists o. by split_and!.
Qed.

Lemma wp_wrapping {A} (m : DM A) Q s : wp m Q (EOL_at s) (λ _, False) s →
  wp (wrapping m) Q (EOL_at s) (λ _, False) s.
Proof.
  intros H. unfold wrapping. apply wp_bind, wp_try. eapply wp_mono; [exact H|..]; try done.
  intros e s' He. apply wp_fail. intros Hw. apply He.
  destruct e as [[]| | | | | | |]; simpl in Hw; congruence.
Qed.

Lemma wp_wrapping_ne {A} (m : DM A) Q s : wp m Q (λ e _, e ≠ EOL) (λ _, False) s →
  wp (wrapping m) Q (λ e _, e ≠ EOL) (λ _, False) s.
Proof.
  intros H. unfold wrapping. apply wp_bind, wp_try. eapply wp_mono; [exact H|..]; try done.
  intros e s' He. apply wp_fail. destruct e as [[]| | | | | | |]; simpl; congruence.
Qed.

(** ** What the decoders accept *)

(** The values of a type. *)
Inductive typed : rtype → value → Prop :=
| ty_uint bits n : 0 <= n < 2 ^ bits → typed (TUint bits) (VUint n)
| ty_bool b : typed TBool (VBool b)
| ty_bigint n : 0 <= n → typed TBigInt (VBigInt (Some n))
| ty_bytes b : Forall is_byte b → typed TByteSlice (VBytes b)
| ty_array len b : zlen b = len → Forall is_byte b → typed (TByteArray len) (VByteArray b)
| ty_struct ts vs : Forall2 typed ts vs → typed (TStruct ts) (VList vs)
| ty_slice t vs : Forall (typed t) vs → typed (TSlice t) (VList vs).

(** The widths Go has. *)
Fixpoint rtype_ok (t : rtype) : Prop :=
  match t with
  | TUint bits => 0 < bits <= 64 ∧ bits mod 8 = 0
  | TByteArray len => 0 <= len
  | TStruct ts => fold_right (λ t P, rtype_ok t ∧ P) True ts
  | TSlice t => rtype_ok t
  | _ => True
  end.

Lemma rtype_nested_ind (P : rtype → Prop) :
  (∀ bits, P (TUint bits)) → P TBool → P TBigInt → P TByteSlice → (∀ len, P (TByteArray len)) →
  (∀ ts, Forall P ts → P (TStruct ts)) → (∀ t, P t → P (TSlice t)) → ∀ t, P t.
Proof.
  intros H1 H2 H3 H4 H5 H6 H7. fix IH 1. intros [bits| | | |len|ts|t];
    [apply H1|apply H2|apply H3|apply H4|apply H5| |apply H7, IH].
  apply H6. induction ts as [|t ts IHts]; constructor; [apply IH|apply IHts].
Qed.

Definition reads (dec : DM value) (ok : value → Prop) : Prop := ∀ s, ready s → st_kind s = None →
  wp dec (λ v s', ok v ∧ st_kind s' = None ∧ ∃ i, to_item v = Some i ∧ eats s (rlp i) s')
    (EOL_at s) (λ _, False) s.

Lemma eats_bytes s w s' : ready s → eats s w s' → Forall is_byte w.
Proof. intros [_ _ _ Hb _] [H _ _]. rewrite H in Hb. by apply Forall_app in Hb as [? _]. Qed.

#[local] Instance small_byte_dec (b : bytes) : Decision (∃ x, b = [x] ∧ x <= 0x7F).
Proof.
  destruct b as [|x [|y b]]; [right; by intros (? & ? & _)| |right; by intros (? & ? & _)].
  destruct (decide (x <= 0x7F)); [left; eauto|right; by intros (? & [= <-] & ?)].
Defined.

Lemma rlp_str_bytes b : Forall is_byte (rlp (IStr b)) → Forall is_byte b.
Proof.
  destruct (decide (∃ x, b = [x] ∧ x <= 0x7F)) as [(x & -> & Hx)|Hne].
  - simpl. by rewrite (proj2 (Z.leb_le x 0x7F)).
  - rewrite rlp_str; [intros H; by apply Forall_app in H as [_ H]|].
    intros x ->. destruct (Z.lt_ge_cases 0x7F x); [done|]. exfalso. apply Hne. eauto.
Qed.

Lemma reads_uint bits : 0 < bits <= 64 → bits mod 8 = 0 → reads (decodeUint bits) (typed (TUint bits)).
Proof.
  intros Hb Hm s Hr Hk. unfold decodeUint. wp_step.
  eapply wp_mono; [by apply wp_wrapping, wp_uint|..]; try done.
  intros n s' (He & Hk' & Hn). apply wp_ret. split_and!; [by constructor|done|]. by eexists.
Qed.

Lemma reads_bool : reads decodeBool (typed TBool).
Proof.
  intros s Hr Hk. unfold decodeBool. wp_step. eapply wp_mono; [apply wp_wrapping|..]; try done.
  - unfold Stream_Bool. wp_step. eapply wp_mono; [by apply (wp_uint 8)|..]; try done.
    intros n s' (He & Hk' & Hn). repeat wp_step; zbool; subst; cbn beta.
    + instantiate (1 := λ b s', st_kind s' = None ∧ eats s (rlp (IStr (if b then [1] else []))) s'). done.
    + done.
    + by intros ?.
  - intros b s' [Hk' He]. apply wp_ret. split_and!; [constructor|done|]. by eexists.
Qed.

Lemma reads_bytes : reads decodeByteSlice (typed TByteSlice).
Proof.
  intros s Hr Hk. unfold decodeByteSlice. wp_step. eapply wp_mono; [by apply wp_wrapping, wp_Bytes|..]; try done.
  intros b s' [He Hk']. apply wp_ret. split_and!; [|done|by eexists].
  constructor. by eapply rlp_str_bytes, eats_bytes.
Qed.

Lemma reads_bigint : reads decodeBigInt (typed TBigInt).
Proof.
  intros s Hr Hk. apply wp_wrapping. wp_step. eapply wp_mono; [by apply wp_bigint_buffer|..]; try done.
  intros b s' [He Hk']. repeat wp_step; [by intros ?|].
  assert (Hb : Forall is_byte b) by (by eapply rlp_str_bytes, eats_bytes).
  pose proof (be_decode_range _ Hb). apply bool_decide_eq_false in Hif.
  split_and!; [constructor; lia|done|]. exists (IStr b). split; [|done]. simpl.
  rewrite (proj2 (Z.ltb_ge _ 0)), be_min_decode by (done || lia). done.
Qed.

Lemma reads_array len : 0 <= len → reads (decodeByteArray len) (typed (TByteArray len)).
Proof.
  intros Hlen s Hr Hk. unfold decodeByteArray. wp_step. eapply wp_mono; [by apply wp_Kind|..]; try done.
  intros [k n] s1 (h & He & Ha & Hn). cbn [fst snd] in *. destruct k.
  - repeat wp_step; try (by intros ?). unfold rearm. repeat wp_step. zbool.
    assert (Hx : eats s (rlp (IStr [st_byteval s1])) s1) by (by eapply byte_rlp).
    split_and!; [|done|].
    + constructor; [change (zlen [st_byteval s1]) with 1; lia|]. by eapply rlp_str_bytes, eats_bytes.
    + eexists. split; [done|]. by apply eats_rearm.
  - repeat wp_step; try (by intros ?). zbool. assert (n = len) as -> by lia.
    eapply wp_mono; [apply wp_readFull; [apply He|done]|..]; cbn beta; try done.
    intros b s2 (H2 & Hk2 & Hz). repeat wp_step; [by intros ?|].
    assert (Hx : eats s (rlp (IStr b)) s2) by (by eapply string_rlp).
    split_and!; [|done|by eexists]. constructor; [done|]. by eapply rlp_str_bytes, eats_bytes.
  - apply wp_fail. by intros ?.
Qed.

Lemma zero_of_words a b : 0 <= a < 2 ^ 64 → 0 <= b < 2 ^ 64 → sub64 a b = 0 → a = b.
Proof.
  intros Ha Hb H. unfold sub64, u64 in H. apply Z.mod_divide in H as [q Hq]; [|lia]. nia.
Qed.

(** The elements read so far, and what they leave of the list. *)
Definition payload (vs : list value) (w : bytes) : Prop :=
  ∃ l, mapM to_item vs = Some l ∧ w = concat (map rlp l).

Lemma payload_cons v vs i w : to_item v = Some i → payload vs w → payload (v :: vs) (rlp i ++ w).
Proof.
  intros Hv (l & Hm & ->). exists (i :: l). simpl. rewrite Hv. simpl. by rewrite Hm.
Qed.

Lemma wp_elems dec ok fuel s : reads dec ok → ready s → st_kind s = None → (length (st_r s) < fuel)%nat →
  wp (decodeSliceElems fuel dec)
    (λ vs s', Forall ok vs ∧ st_kind s' = None ∧ head (st_stack s') = Some 0 ∧
       ∃ w, payload vs w ∧ eats s w s') (λ e _, e ≠ EOL) (λ _, False) s.
Proof.
  intros Hd. revert s. induction fuel as [|fuel IH]; intros s Hr Hk Hf; [lia|].
  cbn [decodeSliceElems]. apply wp_bind, wp_try. eapply wp_mono; [by apply Hd|..]; cbn beta; try done.
  - intros v s1 (Hv & Hk1 & i & Hi & He). wp_step. pose proof (ea_ready _ _ _ He) as Hr1.
    eapply wp_mono; [apply IH|..]; cbn beta; try done.
    + rewrite (ea_r _ _ _ He), length_app in Hf. pose proof (rlp_pos i). unfold zlen in *. lia.
    + intros vs s2 (Hvs & Hk2 & Hz & w & Hw & He2). apply wp_ret. split_and!; [by constructor|done|done|].
      exists (rlp i ++ w). split; [by apply payload_cons|]. by eapply eats_trans.
  - intros e s1 He. case_match; [|by apply wp_fail]. subst. destruct (He eq_refl) as [-> Hz].
    apply wp_ret. split_and!; [constructor|done|done|]. exists []. split; [by exists []|by apply eats_refl].
Qed.

Lemma wp_fields decs oks s : Forall2 reads decs oks → ready s → st_kind s = None →
  wp (decode_fields decs)
    (λ vs s', Forall2 (λ (ok : value → Prop) v, ok v) oks vs ∧ st_kind s' = None ∧ ∃ w, payload vs w ∧ eats s w s')
    (λ e _, e ≠ EOL) (λ _, False) s.
Proof.
  intros Hd. revert s. induction Hd as [|dec ok decs oks Hd _ IH]; intros s Hr Hk.
  { apply wp_ret. split_and!; [constructor|done|]. exists []. split; [by exists []|by apply eats_refl]. }
  cbn [decode_fields]. apply wp_bind, wp_try. eapply wp_mono; [by apply Hd|..]; cbn beta; try done.
  - intros v s1 (Hv & Hk1 & i & Hi & He). wp_step. pose proof (ea_ready _ _ _ He) as Hr1.
    eapply wp_mono; [by apply IH|..]; cbn beta; try done.
    intros vs s2 (Hvs & Hk2 & w & Hw & He2). apply wp_ret. split_and!; [by constructor|done|].
    exists (rlp i ++ w). split; [by apply payload_cons|]. by eapply eats_trans.
  - intros e s1 He. case_match; by apply wp_fail.
Qed.

(** A list, from its header to its end. *)
Lemma list_item s n s1 vs w s2 o :
  ready s →
  st_r s = puthead 0xC0 0xF7 n ++ st_r s1 → 0 <= n < 2 ^ 64 → ready s1 →
  st_stack s1 = n :: eat_stack (zlen (puthead 0xC0 0xF7 n) + n) (st_stack s) →
  payload vs w → st_r s1 = w ++ st_r s2 → 0 :: o = eat_stack (zlen w) (st_stack s1) →
  ready s2 → st_stack s2 = o →
  ∃ i, to_item (VList vs) = Some i ∧ eats s (rlp i) s2.
Proof.
  intros Hr Hh Hn Hr1 Hs1 (l & Hm & ->) Hw Ho Hr2 Hs2. exists (IList l). split; [simpl; by rewrite Hm|].
  rewrite Hs1 in Ho. cbn [eat_stack] in Ho. injection Ho as Hz ->.
  set (w := concat (map rlp l)) in *. pose proof (rd_small _ Hr1) as Hsm. rewrite Hw, zlen_app in Hsm.
  pose proof (zlen_nonneg w). pose proof (zlen_nonneg (st_r s2)).
  assert (n = zlen w) as -> by (apply zero_of_words; [done|lia|done]).
  split; [|by rewrite Hs2; cbn [rlp]; fold w; rewrite zlen_app|done].
  cbn [rlp]. fold w. by rewrite Hh, Hw, app_assoc.
Qed.

Lemma reads_slice dec ok : reads dec ok →
  reads (decodeListSlice dec) (λ v, ∃ vs, v = VList vs ∧ Forall ok vs).
Proof.
  intros Hd s Hr Hk. unfold decodeListSlice. wp_step.
  eapply wp_mono; [by apply wp_wrapping, wp_List|..]; cbn beta; try done.
  intros n s1 (h & -> & Hn & Hh & Hs1 & Hr1 & Hk1 & _). wp_step.
  - zbool. subst. wp_step. eapply wp_mono; [by apply wp_ListEnd|..]; cbn beta; try done.
    intros [] s2 (o & Ho & H2 & Hs2 & Hr2 & Hk2). apply wp_ret. split_and!; [by exists []|done|].
    eapply (list_item s 0 s1 [] []); try done; [by exists []|].
    rewrite Ho. symmetry. apply eat_stack_0. rewrite <- Ho. apply Hr1.
  - wp_step. wp_step. wp_step. unfold id. eapply wp_mono; [apply (wp_elems dec ok); try done; lia|..]; cbn beta; try done.
    + intros vs s2 (Hvs & Hk2 & Hz & w & Hw & He). wp_step. pose proof (ea_ready _ _ _ He) as Hr2.
      eapply wp_mono; [by apply wp_ListEnd|..]; cbn beta; try done.
      intros [] s3 (o & Ho & H3 & Hs3 & Hr3 & Hk3). apply wp_ret. split_and!; [by exists vs|done|].
      eapply (list_item s n s1 vs w); try done.
      * by rewrite H3, (ea_r _ _ _ He).
      * by rewrite <- Ho, (ea_stack _ _ _ He).
Qed.

Lemma reads_struct decs oks : Forall2 reads decs oks →
  reads (decode_struct decs) (λ v, ∃ vs, v = VList vs ∧ Forall2 (λ (ok : value → Prop) v, ok v) oks vs).
Proof.
  intros Hd s Hr Hk. unfold decode_struct. wp_step.
  eapply wp_mono; [by apply wp_wrapping, wp_List|..]; cbn beta; try done.
  intros n s1 (h & -> & Hn & Hh & Hs1 & Hr1 & Hk1 & _). wp_step.
  eapply wp_mono; [by apply (wp_fields decs oks)|..]; cbn beta; try done.
  intros vs s2 (Hvs & Hk2 & w & Hw & He). wp_step. pose proof (ea_ready _ _ _ He) as Hr2.
  eapply wp_mono; [by apply wp_wrapping_ne, wp_ListEnd|..]; cbn beta; try done.
  intros [] s3 (o & Ho & H3 & Hs3 & Hr3 & Hk3). apply wp_ret. split_and!; [by exists vs|done|].
  eapply (list_item s n s1 vs w); try done.
  - by rewrite H3, (ea_r _ _ _ He).
  - by rewrite <- Ho, (ea_stack _ _ _ He).
Qed.

Lemma reads_makeDecoder t : rtype_ok t → reads (makeDecoder t) (typed t).
Proof.
  induction t as [bits| | | |len|ts IH|t IH] using rtype_nested_ind; cbn [rtype_ok makeDecoder].
  - intros [? ?]. by apply reads_uint.
  - intros _. apply reads_bool.
  - intros _. apply reads_bigint.
  - intros _. apply reads_bytes.
  - apply reads_array.
  - intros Hok. assert (Hd : Forall2 reads (map makeDecoder ts) (map typed ts)).
    { induction IH as [|t ts Ht _ IHts]; [constructor|]. destruct Hok. constructor; auto. }
    intros s Hr Hk. eapply wp_mono; [by apply (reads_struct _ _ Hd)|..]; cbn beta; try done.
    intros v s' ((vs & -> & Hvs) & Hrest). split; [|done]. constructor.
    by apply Forall2_fmap_l in Hvs.
  - intros Hok s Hr Hk. eapply wp_mono; [by apply (reads_slice _ _ (IH Hok))|..]; cbn beta; try done.
    intros v s' ((vs & -> & Hvs) & Hrest). split; [by constructor|done].
Qed.

(** ** What the decoders read back *)

Lemma readUint_ok n b tl s : ready s → st_r s = b ++ tl → zlen b = n → 1 <= n →
  (2 <= n → head b ≠ Some 0) → fits n s → Stream_readUint n s = Ret (be_decode b) (advance n s).
Proof.
  intros Hr Hs Hz Hn Hnz Hf. unfold Stream_readUint. rewrite (proj2 (Z.eqb_neq n 0)) by lia.
  case_if; zbool.
  - subst n. destruct b as [|x [|y b]]; rewrite ?zlen_cons in *; try (change (zlen []) with 0 in *; lia).
    + rewrite (readByte_ok x tl) by (try done; rewrite ?Hs, ?Hif; try done; intros; by apply Hf).
      by rewrite Hif.
    + pose proof (zlen_nonneg b). lia.
  - unfold bind. rewrite readFull_ok by done. rewrite Hs.
    assert (Ht : take (Z.to_nat n) (b ++ tl) = b).
    { replace (Z.to_nat n) with (length b) by (unfold zlen in *; lia). apply take_app_length. }
    rewrite Ht. destruct (head b) as [x|] eqn:Hh.
    + simpl. rewrite (proj2 (Z.eqb_neq x 0)); [done|]. intros ->. apply Hnz; [lia|done].
    + destruct b; [change (zlen []) with 0 in Hz; lia|done].
Qed.

Lemma putint_head n : 56 <= n < 2 ^ 64 → head (putint n) ≠ Some 0 ∧ be_decode (putint n) = n.
Proof.
  intros Hn. pose proof (readSize_putint n [] Hn) as H. rewrite app_nil_r in H. unfold readSize in H.
  rewrite (proj2 (Z.ltb_ge _ _)) in H by lia.
  replace (Z.to_nat (zlen (putint n))) with (length (putint n)) in H by (unfold zlen; lia).
  rewrite take_ge in H by lia. destruct (_ || _) eqn:E in H; [done|]. injection H as H. zbool.
  split; [|done]. destruct (putint n); [done|]. simpl in *. congruence.
Qed.

Lemma fits_advance a n s : 0 <= a → 0 <= n → ready s → fits (a + n) s → fits n (advance a s).
Proof.
  intros Ha Hn Hr [Hb Hl]. split; simpl.
  - unfold zlen in *. rewrite length_drop. lia.
  - intros l. pose proof (rd_stack _ Hr) as Hs. destruct (st_stack s) as [|x o]; [done|].
    intros [= <-]. inversion_clear Hs as [|?? Hx _]. specialize (Hl x eq_refl). unfold is_u64 in Hx.
    rewrite sub64_small by (unfold is_u64; lia). lia.
Qed.

Ltac long_readKind s n tl Hr Hs Hf :=
  destruct (putint_size_range n ltac:(lia)) as [Hsz _]; pose proof (zlen_putint n) as Hp;
  destruct (putint_head n ltac:(lia)) as [Hnz Hd];
  repeat (rewrite (proj2 (Z.ltb_ge _ _)) by lia); repeat (rewrite (proj2 (Z.ltb_lt _ _)) by lia);
  rewrite Z.add_simpl_l;
  assert (Hr1 : ready (set_byteval 0 (advance 1 s)))
    by (destruct (advance_eats 1 s Hr ltac:(destruct Hf; lia)) as [_ _ []]; by split);
  rewrite (readUint_ok (zlen (putint n)) (putint n) tl); simpl; try done; try lia;
  [rewrite Hd, (proj2 (Z.ltb_ge n 56)) by lia; by eexists
  |by rewrite Hs
  |eapply (fits_advance 1); try lia; try done; destruct Hf as [Hf1 Hf2]; split; [lia|intros l Hl; apply Hf2 in Hl; lia]].

Lemma readKind_ok k n h bv tl s : ready s → st_r s = h ++ tl → announces k n h bv →
  fits (zlen h + n) s → ∃ s', Stream_readKind s = Ret (k, n, None) s'.
Proof.
  intros Hr Hs [Hn Ha] Hf. pose proof (zlen_nonneg tl) as Htl.
  assert (Hh : ∃ b h', h = b :: h' ∧ match k with
    | KByte => b < 0x80 ∧ n = 0 | _ => b = (if n <? 56 then tag_small k + n else tag_large k + zlen (putint n)) ∧
       h' = (if n <? 56 then [] else putint n) end).
  { destruct k; [destruct Ha as (-> & ? & ->); eexists _, _; split_and!; [done|lia|done]|..]; subst h; unfold puthead;
      destruct (n <? 56); by eexists _, _. }
  destruct Hh as (b & h' & -> & Hk). simpl in Hs. rewrite zlen_cons in Hf. pose proof (zlen_nonneg h') as Hh'.
  unfold Stream_readKind, bind, try.
  rewrite (readByte_ok b (h' ++ tl)) by (try done; intros l Hl; apply Hf in Hl; lia).
  unfold modify. destruct k.
  { destruct Hk as [Hb ->]. rewrite (proj2 (Z.ltb_lt b 0x80)) by lia. by eexists. }
  all: destruct Hk as [-> ->]; destruct (Z.ltb_spec n 56) as [Hlt|Hge]; cbn [tag_small tag_large].
  - rewrite (proj2 (Z.ltb_ge _ 0x80)), (proj2 (Z.ltb_lt _ 0xB8)) by lia.
    replace (0x80 + n - 0x80) with n by lia. by eexists.
  - long_readKind s n tl Hr Hs Hf.
  - rewrite (proj2 (Z.ltb_ge _ 0x80)), (proj2 (Z.ltb_ge _ 0xB8)), (proj2 (Z.ltb_ge _ 0xC0)), (proj2 (Z.ltb_lt _ 0xF8)) by lia.
    replace (0xC0 + n - 0xC0) with n by lia. by eexists.
  - long_readKind s n tl Hr Hs Hf.
Qed.

Lemma Kind_ok k n h bv tl s : ready s → st_kind s = None → st_r s = h ++ tl → announces k n h bv →
  fits (zlen h + n) s →
  ∃ s', Stream_Kind s = Ret (k, n) s' ∧ eats s h s' ∧ (k = KByte → st_byteval s' = bv) ∧ fits n s'.
Proof.
  intros Hr Hk Hs Ha Hf.
  assert (Hh1 : 1 <= zlen h).
  { destruct Ha as [Hn Ha]. destruct k; [destruct Ha as (-> & _); done|..]; subst h;
      rewrite zlen_puthead by lia; apply headsize_pos; lia. }
  pose proof Ha as [Hn _].
  assert (HK : ∃ s', Stream_Kind s = Ret (k, n) s').
  { destruct (readKind_ok k n h bv tl s) as (s1 & H1); try done.
    pose proof (wp_Ret _ _ _ _ _ _ _ (wp_readKind s Hr) H1) as (h' & [E1 E2 [R1 R2 _ _ _]] & Ha').
    cbn [fst snd] in *. assert (Hz : zlen h' = zlen h).
    { destruct Ha as [_ Ha]; destruct Ha' as [_ Ha']. destruct k; [|by rewrite Ha, Ha'|by rewrite Ha, Ha'].
      destruct Ha as (-> & _); destruct Ha' as (-> & _). done. }
    unfold Stream_Kind, bind, gets, id. rewrite Hk. rewrite decide_False.
    2:{ intros Hz0. unfold listLimit in Hz0. apply Hf in Hz0. lia. }
    rewrite H1. unfold modify. rewrite R1. simpl.
    assert (Hlim : match listLimit s with Some limit => limit <? n | None => false end = false).
    { destruct (listLimit s) as [l|] eqn:El; [|done]. apply Z.ltb_ge. apply Hf in El. lia. }
    rewrite Hlim, R2. rewrite (proj2 (Z.ltb_ge _ n)); [by eexists|].
    destruct Hf as [Hf _]. apply (f_equal zlen) in E1. rewrite zlen_app in E1. lia. }
  destruct HK as (s' & HK). exists s'. split; [done|].
  pose proof (wp_Ret _ _ _ _ _ _ _ (wp_Kind s Hr Hk) HK) as (h' & He & Ha' & Hn'). cbn [fst snd] in *.
  assert (h' = h ∧ (k = KByte → st_byteval s' = bv)) as [-> Hb].
  { destruct Ha as [_ Ha]; destruct Ha' as [_ Ha']. destruct k; [|split; [congruence|done]|split; [congruence|done]].
    destruct Ha as (-> & _); destruct Ha' as (-> & _). pose proof (ea_r _ _ _ He) as Hs'.
    rewrite Hs in Hs'. simpl in Hs'. injection Hs' as <- _. done. }
  split_and!; try done. split; [lia|]. intros l Hl. rewrite (ea_stack _ _ _ He) in Hl.
  pose proof (rd_stack _ Hr) as Hu. destruct (st_stack s) as [|x o] eqn:Es; [done|].
  simpl in Hl. injection Hl as <-. inversion_clear Hu as [|?? Hx _]. unfold is_u64 in Hx.
  destruct Hf as [_ Hf]. rewrite Es in Hf. specialize (Hf x eq_refl).
  rewrite sub64_small by (unfold is_u64; lia). lia.
Qed.

(** A string ahead: a small byte, or its header and then its bytes. *)
Lemma Kind_string c rest s : ready s → st_kind s = None → Forall is_byte c →
  st_r s = rlp (IStr c) ++ rest → fits (zlen (rlp (IStr c))) s →
  (∃ x s', c = [x] ∧ 0 <= x < 0x80 ∧ Stream_Kind s = Ret (KByte, 0) s' ∧ st_byteval s' = x) ∨
  (∃ s', (∀ x, c = [x] → 0x7F < x) ∧ Stream_Kind s = Ret (KString, zlen c) s' ∧
     ready s' ∧ fits (zlen c) s' ∧ st_r s' = c ++ rest).
Proof.
  intros Hr Hk Hc Hs Hf. destruct (decide (∃ x, c = [x] ∧ x <= 0x7F)) as [(x & -> & Hx)|Hne].
  - left. simpl in *. rewrite (proj2 (Z.leb_le x 0x7F)) in * by done.
    inversion_clear Hc as [|?? Hb _]. unfold is_byte in Hb.
    destruct (Kind_ok KByte 0 [x] x rest s) as (s' & H1 & _ & H2 & _); try done.
    { split; [lia|]. by split_and!; try lia. }
    exists x, s'. split_and!; auto; lia.
  - right. assert (Hx : ∀ x, c = [x] → 0x7F < x).
    { intros x ->. destruct (Z.lt_ge_cases 0x7F x); [done|]. exfalso. apply Hne. eauto. }
    rewrite (rlp_str c Hx) in Hs, Hf. rewrite zlen_app in Hf. rewrite <- app_assoc in Hs.
    pose proof (zlen_nonneg c). pose proof (zlen_nonneg (puthead 0x80 0xB7 (zlen c))).
    destruct (Kind_ok KString (zlen c) (puthead 0x80 0xB7 (zlen c)) 0 (c ++ rest) s)
      as (s' & H1 & H2 & _ & H3); try done.
    { split; [|done]. pose proof (rd_small _ Hr). destruct Hf as [Hf _]. lia. }
    exists s'. split_and!; try done; [apply H2|]. pose proof (ea_r _ _ _ H2) as E.
    rewrite Hs in E. by apply app_inv_head in E.
Qed.

Lemma readFull_app c rest s : ready s → fits (zlen c) s → st_r s = c ++ rest →
  readFull (zlen c) s = Ret c (advance (zlen c) s).
Proof.
  intros Hr Hf Hs. rewrite readFull_ok, Hs by done. f_equal.
  replace (Z.to_nat (zlen c)) with (length c) by (unfold zlen; lia). apply take_app_length.
Qed.

Lemma not_small c : (∀ x, c = [x] → 0x7F < x) → (zlen c =? 1) && (default 0 (head c) <? 128) = false.
Proof.
  intros Hx. destruct c as [|x [|y c]]; [done| |].
  - simpl. apply Z.ltb_ge. specialize (Hx x eq_refl). lia.
  - rewrite (proj2 (Z.eqb_neq _ 1)); [done|]. rewrite !zlen_cons. pose proof (zlen_nonneg c). lia.
Qed.

Lemma Bytes_ok c rest s : ready s → st_kind s = None → Forall is_byte c →
  st_r s = rlp (IStr c) ++ rest → fits (zlen (rlp (IStr c))) s → ∃ s', Stream_Bytes s = Ret c s'.
Proof.
  intros Hr Hk Hc Hs Hf. unfold Stream_Bytes, bind.
  destruct (Kind_string c rest s) as [(x & s' & -> & _ & -> & <-)|(s' & Hx & -> & Hr' & Hf' & Hs')];
    try done; [by eexists|].
  rewrite (readFull_app c rest) by done. rewrite not_small by done. by eexists.
Qed.

Lemma bigint_buffer_ok c rest s : ready s → st_kind s = None → Forall is_byte c →
  st_r s = rlp (IStr c) ++ rest → fits (zlen (rlp (IStr c))) s → ∃ s', bigint_buffer s = Ret c s'.
Proof.
  intros Hr Hk Hc Hs Hf. unfold bigint_buffer, bind.
  destruct (Kind_string c rest s) as [(x & s' & -> & _ & -> & <-)|(s' & Hx & -> & Hr' & Hf' & Hs')];
    try done; [by eexists|].
  destruct (Z.eqb_spec (zlen c) 0) as [Hz|]; [destruct c; [by eexists|rewrite zlen_cons in Hz; pose proof (zlen_nonneg c); lia]|].
  rewrite (readFull_app c rest) by done. rewrite not_small by done. by eexists.
Qed.

Lemma be_min_head n : 0 <= n → head (be_min n) ≠ Some 0.
Proof.
  intros Hn. destruct (Z.eq_dec n 0) as [->|Hnz]; [done|]. unfold be_min, BitLen.
  rewrite (proj2 (Z.leb_gt n 0)) by lia. pose proof (Z.log2_nonneg n) as Hl.
  replace (Z.log2 n + 1 + 7) with (Z.log2 n + 1 * 8) by lia. rewrite Z.div_add by lia.
  pose proof (Z.div_pos (Z.log2 n) 8 ltac:(lia) ltac:(lia)) as Hd.
  set (k := Z.to_nat (Z.log2 n / 8)).
  replace (Z.to_nat (Z.log2 n / 8 + 1)) with (S k) by (unfold k; lia).
  pose proof (be_encode_first k n) as Hf.
  destruct (be_encode (S k) n) as [|x t]; [done|]. simpl in *. injection Hf as ->. intros [= Hz].
  assert (Hk : Z.of_nat k = Z.log2 n / 8) by (unfold k; lia).
  pose proof (Z.div_mod (Z.log2 n) 8 ltac:(lia)). pose proof (Z.mod_pos_bound (Z.log2 n) 8 ltac:(lia)).
  assert (Hlo : 256 ^ Z.of_nat k <= n).
  { change 256 with (2 ^ 8). rewrite <- Z.pow_mul_r by lia. apply Z.log2_le_pow2; lia. }
  assert (Hhi : n < 256 ^ Z.of_nat k * 256).
  { change 256 with (2 ^ 8). rewrite <- Z.pow_mul_r, <- Z.pow_add_r by lia. apply Z.log2_lt_pow2; lia. }
  assert (0 < 256 ^ Z.of_nat k) by (apply Z.pow_pos_nonneg; lia).
  assert (1 <= n / 256 ^ Z.of_nat k) by (apply Z.div_le_lower_bound; lia).
  assert (n / 256 ^ Z.of_nat k < 256) by (apply Z.div_lt_upper_bound; lia).
  rewrite Z.mod_small in Hz by lia. lia.
Qed.

Lemma uint_ok bits n rest s : ready s → st_kind s = None → 0 < bits <= 64 → bits mod 8 = 0 →
  0 <= n < 2 ^ bits → st_r s = rlp (IStr (be_min n)) ++ rest → fits (zlen (rlp (IStr (be_min n)))) s →
  ∃ s', Stream_uint bits s = Ret n s'.
Proof.
  intros Hr Hk Hb Hm Hn Hs Hf. unfold Stream_uint, bind.
  pose proof (be_decode_be_min n ltac:(lia)) as Hd.
  destruct (Kind_string (be_min n) rest s) as [(x & s' & Hx & Hx2 & -> & Hbv)|(s' & Hx & -> & Hr' & Hf' & Hs')];
    try done; [apply be_encode_bytes|..].
  - unfold gets. rewrite Hbv. rewrite Hx in Hd. unfold be_decode in Hd. simpl in Hd.
    assert (Hnz : n ≠ 0) by (intros ->; done). assert (x = n) as -> by lia.
    rewrite (proj2 (Z.eqb_neq n 0)) by done. by eexists.
  - assert (Hlen : zlen (be_min n) <= bits / 8).
    { pose proof (Z.div_mod bits 8 ltac:(lia)) as Hdm. rewrite zlen_be_min by lia.
      unfold BitLen. destruct (Z.leb_spec n 0); [by apply Z.div_le_mono; lia|].
      assert (Z.log2 n < bits) by (apply Z.log2_lt_pow2; lia).
      apply Z.le_trans with ((bits + 7) / 8); [apply Z.div_le_mono; lia|].
      apply Z.lt_succ_r. apply Z.div_lt_upper_bound; lia. }
    rewrite (proj2 (Z.ltb_ge _ _)) by done. unfold try.
    destruct (Z.eq_dec n 0) as [->|Hnz]; [by eexists|].
    assert (1 <= zlen (be_min n)).
    { rewrite zlen_be_min by lia. unfold BitLen. rewrite (proj2 (Z.leb_gt n 0)) by lia.
      pose proof (Z.log2_nonneg n). apply Z.div_le_lower_bound; lia. }
    rewrite (readUint_ok _ (be_min n) rest); try done; [|intros _; apply be_min_head; lia].
    rewrite Hd. rewrite (proj2 (Z.ltb_ge n 128)); [rewrite andb_false_r; by eexists|].
    destruct (Z.lt_ge_cases n 128); [|lia]. specialize (Hx n ltac:(apply be_min_small; lia)). lia.
Qed.

(** At the end of a list every decoder says so. *)
Lemma Kind_EOL s : st_kind s = None → head (st_stack s) = Some 0 → Stream_Kind s = Fail EOL s.
Proof.
  intros Hk Hz. unfold Stream_Kind, bind, gets, id. rewrite Hk. by rewrite decide_True.
Qed.

Lemma makeDecoder_EOL t s :
  st_kind s = None → head (st_stack s) = Some 0 → makeDecoder t s = Fail EOL s.
Proof.
  intros Hk Hz. pose proof (Kind_EOL s Hk Hz) as H.
  destruct t; cbn [makeDecoder]; unfold decodeUint, decodeBool, decodeBigInt, decodeByteSlice,
    decodeByteArray, decode_struct, decodeListSlice, wrapping, Stream_Bool, Stream_uint, Stream_Bytes,
    bigint_buffer, Stream_List, try, bind; by rewrite H.
Qed.

Lemma List_ok payload rest s : ready s → st_kind s = None →
  st_r s = (puthead 0xC0 0xF7 (zlen payload) ++ payload) ++ rest →
  fits (zlen (puthead 0xC0 0xF7 (zlen payload) ++ payload)) s →
  ∃ s', Stream_List s = Ret (zlen payload) s' ∧ ready s' ∧ st_kind s' = None ∧
    st_r s' = payload ++ rest ∧ ∃ o, st_stack s' = zlen payload :: o.
Proof.
  intros Hr Hk Hs Hf. set (n := zlen payload) in *. set (h := puthead 0xC0 0xF7 n) in *.
  rewrite zlen_app in Hf. fold n in Hf. rewrite <- app_assoc in Hs.
  assert (Hn : 0 <= n < 2 ^ 64).
  { pose proof (zlen_nonneg payload). pose proof (zlen_nonneg h). pose proof (rd_small _ Hr).
    destruct Hf as [Hf _]. unfold n in *. lia. }
  destruct (Kind_ok KList n h 0 (payload ++ rest) s) as (s1 & HK & _); try done.
  assert (HL : ∃ s', Stream_List s = Ret n s').
  { unfold Stream_List, bind. rewrite HK. by eexists. }
  destruct HL as (s' & HL). exists s'. split; [done|].
  pose proof (wp_Ret _ _ _ _ _ _ _ (wp_List s Hr Hk) HL) as (h' & -> & _ & E & Hst & Hr' & Hk' & _).
  split_and!; try done; [|by eexists]. rewrite Hs in E. by apply app_inv_head in E.
Qed.

Lemma ListEnd_ok s o : st_stack s = 0 :: o → ∃ s', Stream_ListEnd s = Ret tt s'.
Proof. intros Hs. unfold Stream_ListEnd, bind, gets, id. rewrite Hs. by eexists. Qed.

(** Reads back a value of the type. *)
Definition reads_back (t : rtype) (v : value) : Prop := ∀ i rest s, to_item v = Some i →
  ready s → st_kind s = None → st_r s = rlp i ++ rest → fits (zlen (rlp i)) s →
  ∃ s', makeDecoder t s = Ret v s'.

(** A value that is read back leaves what follows it. *)
Lemma reads_back_eats t v i rest s : rtype_ok t → reads_back t v → to_item v = Some i →
  ready s → st_kind s = None → st_r s = rlp i ++ rest → fits (zlen (rlp i)) s →
  ∃ s', makeDecoder t s = Ret v s' ∧ eats s (rlp i) s' ∧ st_kind s' = None.
Proof.
  intros Ht Hv Hi Hr Hk Hs Hf. destruct (Hv i rest s) as (s' & HD); try done. exists s'. split; [done|].
  pose proof (wp_Ret _ _ _ _ _ _ _ (reads_makeDecoder t Ht s Hr Hk) HD) as (_ & Hk' & j & Hj & He).
  simplify_eq. done.
Qed.

Lemma fits_list s a b rest l o : 0 <= zlen b → st_r s = (a ++ b) ++ rest → st_stack s = l :: o →
  zlen (a ++ b) <= l → fits (zlen a) s.
Proof.
  intros Hb Hs Hl Hle. rewrite zlen_app in Hle. pose proof (zlen_nonneg a). pose proof (zlen_nonneg rest).
  split; [rewrite Hs, !zlen_app; lia|]. rewrite Hl. intros l' [= <-]. lia.
Qed.

(** The first element of a payload that fills the list. *)
Lemma head_element t v i items rest s o : rtype_ok t → reads_back t v → to_item v = Some i →
  ready s → st_kind s = None → st_r s = (rlp i ++ concat (map rlp items)) ++ rest →
  st_stack s = zlen (rlp i ++ concat (map rlp items)) :: o →
  ∃ s', makeDecoder t s = Ret v s' ∧ ready s' ∧ st_kind s' = None ∧
    st_r s' = concat (map rlp items) ++ rest ∧ st_stack s' = zlen (concat (map rlp items)) :: o.
Proof.
  intros Ht Hv Hi Hr Hk Hs Ho. set (w := concat (map rlp items)) in *. pose proof (zlen_nonneg w).
  destruct (reads_back_eats t v i (w ++ rest) s) as (s' & HD & He & Hk'); try done.
  { by rewrite Hs, app_assoc. }
  { by apply (fits_list s (rlp i) w rest (zlen (rlp i ++ w)) o). }
  exists s'. split_and!; try done; [apply He|..].
  - pose proof (ea_r _ _ _ He) as E. rewrite Hs, <- app_assoc in E. by apply app_inv_head in E.
  - rewrite (ea_stack _ _ _ He), Ho. cbn [eat_stack]. f_equal. pose proof (rd_small _ Hr) as Hsm.
    rewrite Hs in Hsm. rewrite !zlen_app in *. pose proof (zlen_nonneg (rlp i)). pose proof (zlen_nonneg rest).
    rewrite sub64_small by (unfold is_u64; lia). lia.
Qed.

Lemma elems_ok t vs items rest s o fuel : rtype_ok t → Forall (reads_back t) vs →
  mapM to_item vs = Some items → ready s → st_kind s = None →
  st_r s = concat (map rlp items) ++ rest → st_stack s = zlen (concat (map rlp items)) :: o →
  (length (st_r s) < fuel)%nat →
  ∃ s', decodeSliceElems fuel (makeDecoder t) s = Ret vs s' ∧ st_stack s' = 0 :: o.
Proof.
  intros Ht Hvs. revert items s fuel. induction Hvs as [|v vs Hv _ IH]; intros items s fuel Hm Hr Hk Hs Ho Hf.
  - injection Hm as <-. simpl in Ho. destruct fuel as [|fuel]; [lia|].
    exists s. split; [|exact Ho]. cbn [decodeSliceElems]. unfold bind, try.
    rewrite makeDecoder_EOL; [done|done|]. by rewrite Ho.
  - simpl in Hm. destruct (to_item v) as [i|] eqn:Hi; [|done]. simpl in Hm.
    destruct (mapM to_item vs) as [items'|] eqn:Hm'; [|done]. injection Hm as <-.
    destruct fuel as [|fuel]; [lia|]. cbn [map concat] in *.
    destruct (head_element t v i items' rest s o) as (s1 & HD & Hr1 & Hk1 & Hs1 & Ho1); try done.
    destruct (IH items' s1 fuel) as (s2 & HE & Ho2); try done.
    { rewrite Hs in Hf. rewrite Hs1. pose proof (rlp_pos i). unfold zlen in *. rewrite !length_app in *. lia. }
    exists s2. split; [|done]. cbn [decodeSliceElems]. unfold bind, try. rewrite HD. fold (@bind stream_error Stream).
    unfold bind. by rewrite HE.
Qed.

Lemma fields_ok ts vs items rest s o : Forall rtype_ok ts → Forall2 reads_back ts vs →
  mapM to_item vs = Some items → ready s → st_kind s = None →
  st_r s = concat (map rlp items) ++ rest → st_stack s = zlen (concat (map rlp items)) :: o →
  ∃ s', decode_fields (map makeDecoder ts) s = Ret vs s' ∧ st_stack s' = 0 :: o.
Proof.
  intros Ht Hvs. revert items s Ht. induction Hvs as [|t v ts vs Hv _ IH]; intros items s Ht Hm Hr Hk Hs Ho.
  - injection Hm as <-. simpl in Ho. by exists s.
  - simpl in Hm. destruct (to_item v) as [i|] eqn:Hi; [|done]. simpl in Hm.
    destruct (mapM to_item vs) as [items'|] eqn:Hm'; [|done]. injection Hm as <-.
    inversion_clear Ht as [|?? Ht1 Hts]. cbn [map concat] in *.
    destruct (head_element t v i items' rest s o) as (s1 & HD & Hr1 & Hk1 & Hs1 & Ho1); try done.
    destruct (IH items' s1) as (s2 & HE & Ho2); try done.
    exists s2. split; [|done]. cbn [decode_fields]. unfold bind, try. rewrite HD. by rewrite HE.
Qed.

Lemma rtype_ok_struct ts : rtype_ok (TStruct ts) → Forall rtype_ok ts.
Proof. induction ts as [|t ts IH]; [constructor|]. intros [? ?]. constructor; auto. Qed.

Lemma list_reads_back t vs : rtype_ok t → Forall (reads_back t) vs → reads_back (TSlice t) (VList vs).
Proof.
  intros Ht Hvs i rest s Hi Hr Hk Hs Hf. simpl in Hi.
  destruct (mapM to_item vs) as [items|] eqn:Hm; [|done]. simpl in Hi. simplify_eq.
  cbn [rlp] in *. set (w := concat (map rlp items)) in *.
  destruct (List_ok w rest s) as (s1 & HL & Hr1 & Hk1 & Hs1 & o & Ho); try done.
  cbn [makeDecoder]. unfold decodeListSlice, bind, wrapping, try. unfold bind. rewrite HL. cbn beta iota.
  change (ret (zlen w) s1) with (@Ret stream_error _ _ (zlen w) s1). cbn beta iota.
  destruct (Z.eqb_spec (zlen w) 0) as [Hz|Hz].
  - rewrite Hz in Ho. destruct (ListEnd_ok s1 o Ho) as (s2 & ->).
    destruct vs as [|v vs]; [by eexists|]. exfalso. simpl in Hm.
    destruct (to_item v) as [i|]; [|done]. simpl in Hm.
    destruct (mapM to_item vs) as [l|]; [|done]. injection Hm as <-.
    unfold w in Hz. cbn [map concat] in Hz. rewrite zlen_app in Hz. pose proof (rlp_pos i).
    pose proof (zlen_nonneg (concat (map rlp l))). lia.
  - unfold gets, id. destruct (elems_ok t vs items rest s1 o (S (length (st_r s1)))) as (s2 & -> & Ho2); try done; [lia|].
    destruct (ListEnd_ok s2 o Ho2) as (s3 & ->). by eexists.
Qed.

Lemma struct_reads_back ts vs :
  Forall rtype_ok ts → Forall2 reads_back ts vs → reads_back (TStruct ts) (VList vs).
Proof.
  intros Ht Hvs i rest s Hi Hr Hk Hs Hf. simpl in Hi.
  destruct (mapM to_item vs) as [items|] eqn:Hm; [|done]. simpl in Hi. simplify_eq.
  cbn [rlp] in *. set (w := concat (map rlp items)) in *.
  destruct (List_ok w rest s) as (s1 & HL & Hr1 & Hk1 & Hs1 & o & Ho); try done.
  cbn [makeDecoder]. unfold decode_struct, bind, wrapping, try. unfold bind. rewrite HL. cbn beta iota.
  change (ret (zlen w) s1) with (@Ret stream_error _ _ (zlen w) s1). cbn beta iota.
  destruct (fields_ok ts vs items rest s1 o) as (s2 & -> & Ho2); try done.
  destruct (ListEnd_ok s2 o Ho2) as (s3 & ->). by eexists.
Qed.

Lemma typed_reads_back t : rtype_ok t → ∀ v, typed t v → reads_back t v.
Proof.
  induction t as [bits| | | |len|ts IH|t IH] using rtype_nested_ind; intros Ht v Hv; inversion Hv; subst.
  - intros i rest s [= <-] Hr Hk Hs Hf. destruct Ht. cbn [makeDecoder].
    destruct (uint_ok bits n rest s) as (s' & H'); try done. exists s'.
    unfold decodeUint, wrapping, try, bind. by rewrite H'.
  - intros i rest s [= <-] Hr Hk Hs Hf. cbn [makeDecoder].
    destruct (uint_ok 8 (if b then 1 else 0) rest s) as (s' & H'); try done; try (by destruct b).
    exists s'. unfold decodeBool, Stream_Bool, wrapping, try, bind. rewrite H'. by destruct b.
  - intros i rest s Hi Hr Hk Hs Hf. simpl in Hi. rewrite (proj2 (Z.ltb_ge n 0)) in Hi by lia.
    injection Hi as <-. cbn [makeDecoder].
    destruct (bigint_buffer_ok (be_min n) rest s) as (s' & H'); try done; [apply be_encode_bytes|].
    exists s'. unfold decodeBigInt, wrapping, try, bind. rewrite H'.
    rewrite bool_decide_false by (by apply be_min_head). rewrite be_decode_be_min by lia. done.
  - intros i rest s [= <-] Hr Hk Hs Hf. cbn [makeDecoder].
    destruct (Bytes_ok b rest s) as (s' & H'); try done. exists s'.
    unfold decodeByteSlice, wrapping, try, bind. by rewrite H'.
  - intros i rest s [= <-] Hr Hk Hs Hf. cbn [makeDecoder]. unfold decodeByteArray, bind.
    destruct (Kind_string b rest s) as [(x & s' & -> & _ & -> & <-)|(s' & Hx & -> & Hr' & Hf' & Hs')]; try done.
    + change (zlen [st_byteval s']) with 1. by eexists.
    + rewrite Z.ltb_irrefl. rewrite (readFull_app b rest) by done. rewrite not_small by done. by eexists.
  - apply rtype_ok_struct in Ht. apply struct_reads_back; [done|].
    clear Hv. match goal with H : Forall2 typed _ _ |- _ => induction H as [|t v ts vs Htv _ IHf] end; [constructor|].
    inversion_clear IH. inversion_clear Ht. constructor; auto.
  - apply list_reads_back; [done|]. eapply Forall_impl; [eassumption|]. intros v. by apply IH.
Qed.

Lemma Reset_ready b : Forall is_byte b → zlen b < 2 ^ 63 → ready (Stream_Reset b).
Proof. intros Hb Hl. by split. Qed.

Lemma typed_value_ok t : rtype_ok t → ∀ v, typed t v → value_ok v.
Proof.
  induction t as [bits| | | |len|ts IH|t IH] using rtype_nested_ind; intros Ht v Hv; inversion Hv; subst; simpl; try done.
  - destruct Ht. unfold is_u64. assert (2 ^ bits <= 2 ^ 64) by (apply Z.pow_le_mono_r; lia). lia.
  - clear Hv. apply rtype_ok_struct in Ht.
    match goal with H : Forall2 typed _ _ |- _ => induction H as [|t v ts vs Htv _ IHf] end; [done|].
    inversion_clear IH. inversion_clear Ht. simpl. auto.
  - clear Hv. match goal with H : Forall _ _ |- _ => induction H as [|v vs Htv _ IHf] end; [done|]. simpl. auto.
Qed.

(** ** Properties *)

(** C32 The decoder accepts exactly the encodings: it returns a value of the type for the
    bytes [EncodeToBytes] gives for that value and for no others, and on every other
    input it returns an error.  It always returns. *)
Theorem DecodeBytes_exact (t : rtype) (b : bytes) (v : value) :
  rtype_ok t → Forall is_byte b → zlen b < 2 ^ 63 →
  ((∃ s, DecodeBytes t b = Ret v s) ↔ typed t v ∧ EncodeToBytes v = Some b) ∧
  match DecodeBytes t b with Ret _ _ | Fail _ _ => True | Panic _ | NoFuel => False end.
Proof.
  intros Ht Hb Hl. pose proof (Reset_ready b Hb Hl) as Hr.
  assert (Hwp : wp (makeDecoder t) (λ v s', typed t v ∧ st_kind s' = None ∧
    ∃ i, to_item v = Some i ∧ eats (Stream_Reset b) (rlp i) s') (EOL_at (Stream_Reset b)) (λ _, False) (Stream_Reset b))
    by by apply reads_makeDecoder.
  unfold DecodeBytes, bind, gets, id. split.
  - split.
    + intros [s Hd]. destruct (makeDecoder t (Stream_Reset b)) as [v' s'| | |] eqn:E; try done.
      pose proof (wp_Ret _ _ _ _ _ _ _ Hwp E) as (Hv & _ & i & Hi & He).
      destruct (Z.ltb_spec 0 (zlen (st_r s'))) as [|Hz]; [done|]. injection Hd as -> ->.
      split; [done|]. rewrite EncodeToBytes_ok, Hi by by eapply typed_value_ok. simpl. f_equal.
      pose proof (ea_r _ _ _ He) as Hs. simpl in Hs. rewrite Hs.
      destruct (st_r s); [by rewrite app_nil_r|]. rewrite zlen_cons in Hz. pose proof (zlen_nonneg l). lia.
    + intros [Hv He]. rewrite EncodeToBytes_ok in He by by eapply typed_value_ok.
      destruct (to_item v) as [i|] eqn:Hi; [|done]. injection He as <-.
      destruct (reads_back_eats t v i [] (Stream_Reset (rlp i))) as (s' & HD & He & _); try done.
      * by apply typed_reads_back.
      * simpl. by rewrite app_nil_r.
      * split; [simpl; pose proof (zlen_nonneg (rlp i)); lia|by intros l].
      * exists s'. rewrite HD. pose proof (ea_r _ _ _ He) as Hs. simpl in Hs.
        apply (f_equal zlen) in Hs. rewrite zlen_app in Hs.
        rewrite (proj2 (Z.ltb_ge 0 _)) by lia. done.
  - unfold wp in Hwp. destruct (makeDecoder t (Stream_Reset b)); try done. by destruct (_ <? _).
Qed.

(** An account as the state trie stores it: nonce, balance, storage root, code hash. *)
Lemma DecodeBytes_exact_witness :
  let t := TStruct [TUint 64; TBigInt; TByteArray 2; TByteSlice] in
  let v := VList [VUint 7; VBigInt (Some (2 ^ 70)); VByteArray [1; 2]; VBytes [200]] in
  ∃ s, DecodeBytes t [208; 7; 137; 64; 0; 0; 0; 0; 0; 0; 0; 0; 130; 1; 2; 129; 200] = Ret v s.
Proof.
  intros t v. apply (DecodeBytes_exact t _ v).
  - unfold t. simpl. repeat split; lia.
  - repeat constructor; unfold is_byte; lia.
  - vm_compute. reflexivity.
  - split; [|vm_compute; reflexivity]. unfold t, v.
    repeat constructor; unfold is_byte; lia.
Defined.
