(* ===== verification/Header.v ===== *)
(** * Block headers and their hashes ([core/types/block.go], [core/types/hashing.go],
      [consensus/parlia/parlia.go])

    The header record, the values it is encoded as, [Header.Hash], and the encoding a
    validator signs ([encodeSigHeader]), which leaves the seal out. *)

From S2P Require Import Prelude Rlp.

Definition extraVanity : Z := 32.
Definition extraSeal : Z := 65.
Definition nextForkHashSize : Z := 4.
Definition validatorBytesLength : Z := AddressLength.
Definition BloomByteLength : Z := 256.

(** [Bloom] and [BlockNonce] are byte arrays; [*big.Int] may be nil. *)
Record Header := {
  ParentHash : Hash;
  UncleHash : Hash;
  Coinbase : Address;
  Root : Hash;
  TxHash : Hash;
  ReceiptHash : Hash;
  Bloom : bytes;
  Difficulty : option Z;
  Number : option Z;
  GasLimit : Z;
  GasUsed : Z;
  Time : Z;
  Extra : bytes;
  MixDigest : Hash;
  Nonce : bytes;
}.

#[export] Instance Header_eq_dec : EqDecision Header.
Proof. solve_decision. Defined.

(** [header.Number.Uint64()]: the low 64 bits of the magnitude; [None] is the nil
    dereference. *)
Definition Number_Uint64 (h : Header) : option Z := u64 ∘ Z.abs <$> Number h.

Definition VHash (h : Hash) : value := VByteArray (be_encode 32 h).
Definition VAddress (a : Address) : value := VByteArray (be_encode 20 a).

(** The struct writer: the fields in order. *)
Definition header_value (h : Header) : value :=
  VList [VHash (ParentHash h); VHash (UncleHash h); VAddress (Coinbase h); VHash (Root h);
         VHash (TxHash h); VHash (ReceiptHash h); VByteArray (Bloom h);
         VBigInt (Difficulty h); VBigInt (Number h); VUint (GasLimit h); VUint (GasUsed h);
         VUint (Time h); VBytes (Extra h); VHash (MixDigest h); VByteArray (Nonce h)].

(** The header without its seal, as [encodeSigHeader] lists it; [None] is the panic of
    slicing an [Extra] that is too short. *)
Definition sig_header_value (h : Header) (chainId : option Z) : option value :=
  extra ← slice (Extra h) 0 (zlen (Extra h) - 65);
  Some (VList [VBigInt chainId; VHash (ParentHash h); VHash (UncleHash h); VAddress (Coinbase h);
         VHash (Root h); VHash (TxHash h); VHash (ReceiptHash h); VByteArray (Bloom h);
         VBigInt (Difficulty h); VBigInt (Number h); VUint (GasLimit h); VUint (GasUsed h);
         VUint (Time h); VBytes extra; VHash (MixDigest h); VByteArray (Nonce h)]).

(** [encodeSigHeader]; an encoding error is a panic too. *)
Definition encodeSigHeader (h : Header) (chainId : option Z) : option bytes :=
  v ← sig_header_value h chainId; EncodeToBytes v.

Definition ParliaRLP := encodeSigHeader.

Section hashes.
(** [golang.org/x/crypto/sha3]. *)
Variable Keccak256 : bytes → Hash.

(** [rlpHash] ignores the encoder's error: nothing was written, and the hash is that of
    no bytes. *)
Definition rlpHash (v : value) : Hash := Keccak256 (default [] (EncodeToBytes v)).

Definition Header_Hash (h : Header) : Hash := rlpHash (header_value h).

Definition SealHash (h : Header) (chainId : option Z) : option Hash :=
  Keccak256 <$> encodeSigHeader h chainId.

(** [types.CalcUncleHash(nil)]: the hash of an empty list of headers. *)
Definition uncleHash : Hash := rlpHash (VList []).
End hashes.

(** The values a header can hold. *)
Definition header_ok (h : Header) : Prop :=
  Forall (λ x, 0 <= x < 256 ^ 32)
    [ParentHash h; UncleHash h; Root h; TxHash h; ReceiptHash h; MixDigest h] ∧
  0 <= Coinbase h < 256 ^ 20 ∧
  (Forall is_byte (Bloom h) ∧ zlen (Bloom h) = BloomByteLength) ∧
  (Forall is_byte (Nonce h) ∧ zlen (Nonce h) = 8) ∧
  Forall is_byte (Extra h) ∧ zlen (Extra h) < 2 ^ 63 ∧
  (∃ n, Number h = Some n ∧ 0 <= n < 2 ^ 64) ∧ (∃ d, Difficulty h = Some d ∧ 0 <= d < 2 ^ 80) ∧
  is_u64 (GasLimit h) ∧ is_u64 (GasUsed h) ∧ is_u64 (Time h).

(** The header with its seal blanked. *)
Definition without_seal (h : Header) : bytes := take (length (Extra h) - 65) (Extra h).

(** ** What a hash binds *)

Lemma be_min_inj x y : 0 <= x → 0 <= y → be_min x = be_min y → x = y.
Proof. intros Hx Hy H%(f_equal be_decode). by rewrite !be_decode_be_min in H. Qed.

(** The fields both encodings share. *)
Definition same_fields (h h' : Header) : Prop :=
  ParentHash h = ParentHash h' ∧ UncleHash h = UncleHash h' ∧ Coinbase h = Coinbase h' ∧
  Root h = Root h' ∧ TxHash h = TxHash h' ∧ ReceiptHash h = ReceiptHash h' ∧
  Bloom h = Bloom h' ∧ Difficulty h = Difficulty h' ∧ Number h = Number h' ∧
  GasLimit h = GasLimit h' ∧ GasUsed h = GasUsed h' ∧ Time h = Time h' ∧
  MixDigest h = MixDigest h' ∧ Nonce h = Nonce h'.

Lemma rlp_le i : zlen (rlp i) <= 9 + zlen (item_content i).
Proof.
  rewrite rlp_length. pose proof (headsize_le _ (zlen_nonneg (item_content i))).
  destruct (decide _); lia.
Qed.

Lemma payload_le l :
  zlen (concat (map rlp l)) <= fold_right (λ i n, 9 + zlen (item_content i) + n) 0 l.
Proof.
  induction l as [|i l IH]; simpl; [done|]. rewrite zlen_app. pose proof (rlp_le i). lia.
Qed.

Lemma zlen_be_encode n z : zlen (be_encode n z) = Z.of_nat n.
Proof. unfold zlen. by rewrite length_be_encode. Qed.

(** The items of the fields that both encodings have, around a given extra field. *)
Definition field_items (h : Header) (d n : Z) (extra : bytes) : list item :=
  [IStr (be_encode 32 (ParentHash h)); IStr (be_encode 32 (UncleHash h));
   IStr (be_encode 20 (Coinbase h)); IStr (be_encode 32 (Root h)); IStr (be_encode 32 (TxHash h));
   IStr (be_encode 32 (ReceiptHash h)); IStr (Bloom h); IStr (be_min d); IStr (be_min n);
   IStr (be_min (GasLimit h)); IStr (be_min (GasUsed h)); IStr (be_min (Time h)); IStr extra;
   IStr (be_encode 32 (MixDigest h)); IStr (Nonce h)].

Lemma IStr_eq a b : IStr a = IStr b ↔ a = b.
Proof. split; [by intros [=]|by intros ->]. Qed.

Lemma field_items_inj h h' d d' n n' x x' :
  header_ok h → header_ok h' → Difficulty h = Some d → Difficulty h' = Some d' →
  Number h = Some n → Number h' = Some n' →
  field_items h d n x = field_items h' d' n' x' → same_fields h h' ∧ x = x'.
Proof.
  intros Hh Hh' Ed Ed' En En' H. apply list_eq_Forall2 in H. unfold field_items in H.
  rewrite !Forall2_cons, !IStr_eq in H.
  destruct H as (E1 & E2 & E3 & E4 & E5 & E6 & E7 & E8 & E9 & E10 & E11 & E12 & E13 & E14 & E15 & _).
  destruct Hh as (Hs & Hc & _ & _ & _ & _ & (n0 & En0 & Hn) & (d0 & Ed0 & Hd) & Hgl & Hgu & Ht).
  destruct Hh' as (Hs' & Hc' & _ & _ & _ & _ & (n1 & En1 & Hn') & (d1 & Ed1 & Hd') & Hgl' & Hgu' & Ht').
  rewrite !Forall_cons in Hs, Hs'. unfold is_u64 in *.
  assert (d0 = d ∧ n0 = n ∧ d1 = d' ∧ n1 = n') as (-> & -> & -> & ->) by (split_and!; congruence).
  apply be_min_inj in E8, E9, E10, E11, E12; [|lia..]. subst.
  apply (be_encode_inj 32) in E1, E2, E4, E5, E6, E14; [|naive_solver..].
  apply (be_encode_inj 20) in E3; [|done..].
  unfold same_fields. by rewrite Ed, Ed', En, En'.
Qed.

Lemma field_items_size h d n x :
  header_ok h → Difficulty h = Some d → Number h = Some n → zlen x < 2 ^ 63 →
  zlen (concat (map rlp (field_items h d n x))) < 2 ^ 63 + 1000.
Proof.
  intros Hh Ed En Hx. eapply Z.le_lt_trans; [apply payload_le|]. cbn [field_items fold_right item_content].
  destruct Hh as (_ & _ & [_ Hb] & [_ Ho] & _ & _ & (n0 & En0 & Hn) & (d0 & Ed0 & Hd) & Hgl & Hgu & Ht).
  unfold is_u64 in *. assert (d0 = d ∧ n0 = n) as [-> ->] by (split; congruence). rewrite !zlen_be_encode, Hb, Ho.
  pose proof (zlen_be_min_le d 10 ltac:(lia) ltac:(lia)).
  pose proof (zlen_be_min_le n 8 ltac:(lia) ltac:(lia)).
  pose proof (zlen_be_min_le (GasLimit h) 8 ltac:(lia) ltac:(lia)).
  pose proof (zlen_be_min_le (GasUsed h) 8 ltac:(lia) ltac:(lia)).
  pose proof (zlen_be_min_le (Time h) 8 ltac:(lia) ltac:(lia)).
  unfold BloomByteLength. lia.
Qed.

Lemma rlp_list_inj l l' :
  zlen (concat (map rlp l)) < 2 ^ 64 - 9 → rlp (IList l) = rlp (IList l') → l = l'.
Proof.
  intros Hz H. destruct (rlp_prefix_free (IList l) (IList l') [] []) as [[= ->] _]; [|by rewrite H|done].
  rewrite app_nil_r. pose proof (rlp_le (IList l)). cbn [item_content] in *. lia.
Qed.

Lemma header_value_item h d n :
  header_ok h → Difficulty h = Some d → Number h = Some n →
  EncodeToBytes (header_value h) = Some (rlp (IList (field_items h d n (Extra h)))).
Proof.
  intros Hh Ed En. pose proof Hh as Hh'.
  destruct Hh' as (_ & _ & [Hb _] & [Ho _] & Hx & _ & (n0 & En0 & Hn) & (d0 & Ed0 & Hd) & Hgl & Hgu & Ht).
  assert (d0 = d ∧ n0 = n) as [-> ->] by (split; congruence). rewrite EncodeToBytes_ok.
  - unfold header_value. rewrite Ed, En. cbn [to_item mapM VHash VAddress].
    rewrite !(proj2 (Z.ltb_ge _ 0)) by lia. done.
  - cbn [header_value value_ok fold_right VHash VAddress]. auto 30 using be_encode_bytes.
Qed.

Lemma sig_header_item h c d n :
  header_ok h → Difficulty h = Some d → Number h = Some n → 65 <= zlen (Extra h) → 0 <= c →
  encodeSigHeader h (Some c) =
    Some (rlp (IList (IStr (be_min c) :: field_items h d n (without_seal h)))).
Proof.
  intros Hh Ed En Hlen Hc. pose proof Hh as Hh'.
  destruct Hh' as (_ & _ & [Hb _] & [Ho _] & Hx & _ & (n0 & En0 & Hn) & (d0 & Ed0 & Hd) & Hgl & Hgu & Ht).
  assert (d0 = d ∧ n0 = n) as [-> ->] by (split; congruence). unfold encodeSigHeader, sig_header_value.
  assert (slice (Extra h) 0 (zlen (Extra h) - 65) = Some (without_seal h)) as ->.
  { unfold slice. rewrite !(proj2 (Z.leb_le _ _)) by lia. simpl. f_equal. unfold without_seal.
    rewrite drop_0. f_equal. unfold zlen. lia. }
  cbn [mbind option_bind]. rewrite EncodeToBytes_ok.
  - rewrite Ed, En. cbn [to_item mapM VHash VAddress].
    rewrite !(proj2 (Z.ltb_ge _ 0)) by lia. done.
  - assert (Hw : Forall is_byte (without_seal h)) by by apply Forall_take.
    cbn [value_ok fold_right VHash VAddress]. auto 30 using be_encode_bytes.
Qed.

(** ** Properties *)

(** C34 The hash of a header binds every field: two headers with the same encoding are
    equal. *)
Theorem header_encoding_injective (h h' : Header) :
  header_ok h → header_ok h' →
  EncodeToBytes (header_value h) = EncodeToBytes (header_value h') → h = h'.
Proof.
  intros Hh Hh'. pose proof Hh as (_ & _ & _ & _ & _ & Hl & (n & En & _) & (d & Ed & _) & _).
  pose proof Hh' as (_ & _ & _ & _ & _ & _ & (n' & En' & _) & (d' & Ed' & _) & _).
  rewrite (header_value_item h d n), (header_value_item h' d' n') by assumption. intros H%(inj Some).
  pose proof (field_items_size h d n (Extra h) Hh Ed En Hl).
  apply rlp_list_inj in H; [|lia].
  apply field_items_inj in H as [Hs Hx]; try assumption. unfold same_fields in Hs.
  destruct h, h'. simpl in *. naive_solver.
Qed.

(** What a validator signs binds the chain and every field of the header, and the
    vanity and validators of the extra field, but not the seal itself. *)
Theorem signed_header_binds (h h' : Header) (c c' : Z) :
  header_ok h → header_ok h' → 65 <= zlen (Extra h) → 65 <= zlen (Extra h') →
  0 <= c < 2 ^ 256 → 0 <= c' < 2 ^ 256 →
  encodeSigHeader h (Some c) = encodeSigHeader h' (Some c') ↔
  c = c' ∧ same_fields h h' ∧ without_seal h = without_seal h'.
Proof.
  intros Hh Hh' Hx Hx' Hc Hc'.
  pose proof Hh as (_ & _ & _ & _ & _ & Hl & (n & En & _) & (d & Ed & _) & _).
  pose proof Hh' as (_ & _ & _ & _ & _ & _ & (n' & En' & _) & (d' & Ed' & _) & _).
  rewrite (sig_header_item h c d n), (sig_header_item h' c' d' n') by (assumption || lia).
  split.
  - intros H%(inj Some). apply rlp_list_inj in H.
    + apply (inj2 cons) in H as [Hcc Hf]. apply IStr_eq, be_min_inj in Hcc; [|lia..].
      apply field_items_inj in Hf as [Hs Hw]; auto.
    + cbn [map concat]. rewrite zlen_app. pose proof (rlp_le (IStr (be_min c))) as Hcl.
      pose proof (zlen_be_min_le c 32 Hc ltac:(lia)). cbn [item_content] in Hcl.
      pose proof (field_items_size h d n (without_seal h) Hh Ed En) as Hs.
      assert (zlen (without_seal h) < 2 ^ 63).
      { unfold without_seal, zlen in *. rewrite length_take. lia. }
      specialize (Hs ltac:(assumption)). lia.
  - intros (-> & Hs & Hw). unfold same_fields in Hs.
    destruct Hs as (E1 & E2 & E3 & E4 & E5 & E6 & E7 & E8 & E9 & E10 & E11 & E12 & E13 & E14).
    unfold field_items. rewrite E1, E2, E3, E4, E5, E6, E7, E10, E11, E12, E13, E14, Hw. congruence.
Qed.

(** A header of a concrete block, three seconds after its parent. *)
Definition toy_header (n : Z) (parent coinbase : Z) (extra : bytes) : Header := {|
  ParentHash := parent; UncleHash := 192; Coinbase := coinbase; Root := 1; TxHash := 2;
  ReceiptHash := 3; Bloom := zeros 256; Difficulty := Some 2; Number := Some n;
  GasLimit := 30000000; GasUsed := 21000; Time := 1000 + 3 * n; Extra := extra; MixDigest := 0;
  Nonce := zeros 8 |}.

Lemma zeros_bytes n : Forall is_byte (zeros n).
Proof. apply Forall_replicate. unfold is_byte. lia. Qed.

Lemma toy_header_ok n p c x :
  0 <= n < 2 ^ 32 → 0 <= p < 256 ^ 32 → 0 <= c < 256 ^ 20 → Forall is_byte x → zlen x < 2 ^ 63 →
  header_ok (toy_header n p c x).
Proof.
  intros. unfold header_ok, is_u64, BloomByteLength. simpl.
  rewrite !Forall_cons, !zlen_zeros by lia.
  split_and!; auto using zeros_bytes; try lia; eexists; (split; [done|lia]).
Qed.

Lemma header_encoding_injective_witness :
  toy_header 5 9 1 [] = toy_header 5 9 1 [].
Proof.
  apply header_encoding_injective; [apply toy_header_ok; try lia; constructor..|reflexivity].
Defined.

(** Two headers that differ in the seal only. *)
Lemma signed_header_binds_witness :
  encodeSigHeader (toy_header 5 9 1 (zeros 100)) (Some 56) =
  encodeSigHeader (toy_header 5 9 1 (zeros 35 ++ replicate 65 1)) (Some 56).
Proof.
  apply (signed_header_binds (toy_header 5 9 1 (zeros 100))
    (toy_header 5 9 1 (zeros 35 ++ replicate 65 1)) 56 56); try (split; lia).
  - apply toy_header_ok; try lia; [apply zeros_bytes|reflexivity].
  - apply toy_header_ok; try lia; [|reflexivity].
    apply Forall_app. split; [apply zeros_bytes|]. apply Forall_replicate. unfold is_byte. lia.
  - vm_compute. discriminate.
  - vm_compute. discriminate.
  - split; [reflexivity|]. split; [repeat split|reflexivity].
Defined.
