(* ===== verification/Hexutil.v ===== *)
(** * Hexadecimal and decimal texts ([common/hexutil/json.go], [common/hexutil/hexutil.go])

    The texts hashes and addresses are stored as, with what [encoding/hex] and [strconv]
    do for them.  Characters are carried by their codes. *)

From S2P Require Import Prelude.

(** [encoding/hex.EncodeToString]. *)
Definition hex_digit (d : Z) : Z := if d <? 10 then 48 + d else 87 + d.
Definition hex_EncodeToString (b : bytes) : bytes :=
  concat (map (λ x, [hex_digit (x / 16); hex_digit (x mod 16)]) b).

(** [None] is [badNibble]. *)
Definition decodeNibble (c : Z) : option Z :=
  if (48 <=? c) && (c <=? 57) then Some (c - 48)
  else if (65 <=? c) && (c <=? 70) then Some (c - 65 + 10)
  else if (97 <=? c) && (c <=? 102) then Some (c - 97 + 10)
  else None.

(** [encoding/hex.Decode] on an even number of digits. *)
Fixpoint hex_Decode (raw : bytes) : option bytes :=
  match raw with
  | hi :: lo :: raw =>
      a ← decodeNibble hi; b ← decodeNibble lo; l ← hex_Decode raw; Some (a * 16 + b :: l)
  | _ => Some []
  end.

(** [Bytes.MarshalText]: "0x" and the digits. *)
Definition Bytes_MarshalText (b : bytes) : bytes := 48 :: 120 :: hex_EncodeToString b.

Inductive hex_error := ErrMissingPrefix | ErrOddLength | ErrSyntax | errLength.

Definition bytesHave0xPrefix (input : bytes) : bool :=
  match input with 48 :: x :: _ => (x =? 120) || (x =? 88) | _ => false end.

Definition checkText (input : bytes) (wantPrefix : bool) : bytes + hex_error :=
  if zlen input =? 0 then inl []
  else
    let has := bytesHave0xPrefix input in
    if negb has && wantPrefix then inr ErrMissingPrefix
    else
      let input := if has then drop 2 input else input in
      if negb (zlen input mod 2 =? 0) then inr ErrOddLength else inl input.

(** The [n] bytes the text spells. *)
Definition UnmarshalFixedText (n : Z) (input : bytes) : bytes + hex_error :=
  match checkText input true with
  | inr e => inr e
  | inl raw =>
      if negb (zlen raw / 2 =? n) then inr errLength
      else match hex_Decode raw with Some b => inl b | None => inr ErrSyntax end
  end.

(** [strconv.FormatUint(n, 10)]; a [uint64] has at most twenty digits. *)
Fixpoint digits (fuel : nat) (n : Z) : bytes :=
  match fuel with
  | O => []
  | S fuel => if n <? 10 then [48 + n] else digits fuel (n / 10) ++ [48 + n mod 10]
  end.
Definition FormatUint (n : Z) : bytes := digits 20 n.

Definition digit_step (acc : option Z) (c : Z) : option Z :=
  n ← acc; if (48 <=? c) && (c <=? 57) then Some (n * 10 + (c - 48)) else None.
(** [strconv.ParseUint(s, 10, 64)]; [None] is a syntax or range error. *)
Definition ParseUint (s : bytes) : option Z :=
  if zlen s =? 0 then None
  else n ← fold_left digit_step s (Some 0); if n <? 2 ^ 64 then Some n else None.

(** ** Texts read back *)

Lemma decodeNibble_digit d : 0 <= d < 16 → decodeNibble (hex_digit d) = Some d.
Proof.
  intros Hd. unfold hex_digit, decodeNibble.
  destruct (Z.ltb_spec d 10); repeat case_if; zbool; try (f_equal; lia); lia.
Qed.

Lemma hex_Decode_Encode b : Forall is_byte b → hex_Decode (hex_EncodeToString b) = Some b.
Proof.
  induction 1 as [|x b Hx _ IH]; [done|]. unfold is_byte in Hx.
  cbn [hex_EncodeToString map concat app hex_Decode].
  rewrite !decodeNibble_digit
    by (first [apply Z.mod_pos_bound; lia | split; [apply Z.div_pos; lia|apply Z.div_lt_upper_bound; lia]]).
  cbn [mbind option_bind]. change (concat (map ?f b)) with (hex_EncodeToString b). rewrite IH.
  cbn [mbind option_bind]. f_equal. f_equal. pose proof (Z.div_mod x 16). lia.
Qed.

Lemma zlen_hex_Encode b : zlen (hex_EncodeToString b) = 2 * zlen b.
Proof.
  unfold hex_EncodeToString. induction b as [|x b IH]; [done|].
  cbn [map concat]. rewrite zlen_app, (zlen_cons x b), IH. change (zlen [_; _]) with 2. lia.
Qed.

Lemma digits_bytes fuel n : 0 <= n → n < 10 ^ Z.of_nat fuel → (0 < fuel)%nat →
  digits fuel n ≠ [] ∧ fold_left digit_step (digits fuel n) (Some 0) = Some n.
Proof.
  revert n. induction fuel as [|fuel IH]; intros n Hn Hf; [lia|]. intros _.
  cbn [digits]. destruct (Z.ltb_spec n 10) as [Hlt|Hge].
  - split; [done|]. cbn. rewrite (proj2 (Z.leb_le 48 _)), (proj2 (Z.leb_le _ 57)) by lia.
    cbn. f_equal. lia.
  - rewrite Nat2Z.inj_succ, Z.pow_succ_r in Hf by lia.
    pose proof (Z.div_mod n 10 ltac:(lia)) as Hdm. pose proof (Z.mod_pos_bound n 10 ltac:(lia)).
    destruct fuel as [|fuel]; [change (10 ^ Z.of_nat 0) with 1 in Hf; lia|].
    destruct (IH (n / 10)) as [_ Hd]; [lia..|].
    split; [by destruct (digits (S fuel) (n / 10))|].
    rewrite fold_left_app, Hd. cbn [fold_left digit_step mbind option_bind].
    rewrite (proj2 (Z.leb_le 48 _)), (proj2 (Z.leb_le _ 57)) by lia. cbn. f_equal. lia.
Qed.

Lemma ParseUint_FormatUint n : is_u64 n → ParseUint (FormatUint n) = Some n.
Proof.
  unfold is_u64. intros Hn. destruct (digits_bytes 20 n) as [Hne Hd]; [lia..|].
  unfold ParseUint, FormatUint. rewrite Hd. cbn [mbind option_bind].
  rewrite (proj2 (Z.ltb_lt n _)) by lia.
  destruct (digits 20 n) as [|d l]; [done|]. rewrite zlen_cons. pose proof (zlen_nonneg l).
  by rewrite (proj2 (Z.eqb_neq _ 0)) by lia.
Qed.

Lemma UnmarshalFixedText_Marshal n b : Forall is_byte b → zlen b = n →
  UnmarshalFixedText n (Bytes_MarshalText b) = inl b.
Proof.
  intros Hb Hn. unfold UnmarshalFixedText, checkText, Bytes_MarshalText.
  pose proof (zlen_nonneg b). pose proof (zlen_hex_Encode b) as Hz.
  assert (zlen (hex_EncodeToString b) mod 2 = 0 ∧ zlen (hex_EncodeToString b) / 2 = zlen b) as [Hm Hd].
  { rewrite Hz, Z.mul_comm. split; [apply Z.mod_mul|apply Z.div_mul]; lia. }
  rewrite !zlen_cons, (proj2 (Z.eqb_neq _ 0)) by lia.
  cbn [bytesHave0xPrefix Z.eqb Pos.eqb orb negb andb drop].
  rewrite drop_0, Hm. cbn [Z.eqb negb]. rewrite Hd, Hn, Z.eqb_refl. cbn [negb]. by rewrite hex_Decode_Encode.
Qed.

(** [hex_Decode] gives back as many bytes as there are pairs, and the text of what it
    returns is the lower-case spelling of what it read. *)
Lemma decodeNibble_range c d : decodeNibble c = Some d → 0 <= d < 16.
Proof. unfold decodeNibble. repeat case_if; zbool; intros [= <-]; lia. Qed.

Lemma hex_Decode_spec raw b : hex_Decode raw = Some b →
  Forall is_byte b ∧ zlen b = zlen raw / 2.
Proof.
  revert b. induction raw as [raw IH] using (induction_ltof1 _ (@length Z)).
  intros b. destruct raw as [|hi [|lo raw]]; simpl.
  - intros [= <-]. by split.
  - intros [= <-]. by split.
  - destruct (decodeNibble hi) as [a|] eqn:Ha; [|done]. destruct (decodeNibble lo) as [c|] eqn:Hc; [|done].
    cbn [mbind option_bind]. destruct (hex_Decode raw) as [l|] eqn:Hl; [|done]. intros [= <-].
    destruct (IH raw ltac:(unfold ltof; simpl; lia) l Hl) as [Hb Hz].
    apply decodeNibble_range in Ha, Hc. split.
    + constructor; [|done]. unfold is_byte. lia.
    + rewrite !zlen_cons, Hz. replace (zlen raw + 1 + 1) with (zlen raw + 1 * 2) by lia.
      by rewrite Z.div_add.
Qed.
