(* ===== verification/Uint256.v ===== *)
(** * The 256-bit integer library the EVM computes with

    [github.com/holiman/uint256] is not part of the repository: the model takes it
    as the class [Uint256] of its operations, with [Uint256Laws] stating the
    documented behaviour of the operations the EVM relies on.  [Z_uint256] is a
    concrete implementation on integers; it discharges the laws, so every theorem
    stated for an arbitrary lawful library has an instance that computes. *)

From S2P Require Import Prelude.

Definition W256 : Z := 2 ^ 256.

(** Two's-complement value of a 256-bit word. *)
Definition sval (z : Z) : Z := if z <? 2 ^ 255 then z else z - 2 ^ 256.

Class Uint256 := {
  Int : Type;
  ival : Int → Z;
  Add : Int → Int → Int;   Sub : Int → Int → Int;   Mul : Int → Int → Int;
  Div : Int → Int → Int;   SDiv : Int → Int → Int;
  Mod : Int → Int → Int;   SMod : Int → Int → Int;
  Exp : Int → Int → Int;   ExtendSign : Int → Int → Int;
  AddMod : Int → Int → Int → Int;   MulMod : Int → Int → Int → Int;
  Not : Int → Int;
  And : Int → Int → Int;   Or : Int → Int → Int;   Xor : Int → Int → Int;
  Byte : Int → Int → Int;
  Lsh : Int → Z → Int;   Rsh : Int → Z → Int;   SRsh : Int → Z → Int;
  Lt : Int → Int → bool;   Gt : Int → Int → bool;
  Slt : Int → Int → bool;  Sgt : Int → Int → bool;
  Eq : Int → Int → bool;   IsZero : Int → bool;
  LtUint64 : Int → Z → bool;   GtUint64 : Int → Z → bool;
  Sign : Int → Z;
  IsUint64 : Int → bool;   Uint64 : Int → Z;   Uint64WithOverflow : Int → Z * bool;
  BitLen : Int → Z;
  IntZero : Int;   IntOne : Int;   IntAllOne : Int;   (* Clear, SetOne, SetAllOne *)
  SetUint64 : Z → Int;   SetBytes : bytes → Int;   FromBig : Z → Int;
  ToBig : Int → Z;
  Bytes20 : Int → Address;   Bytes32 : Int → Hash;
  WriteToSlice : Int → bytes → bytes;
}.

Class Uint256Laws (U : Uint256) : Prop := {
  ival_range x : 0 <= ival x < W256;
  Add_spec x y : ival (Add x y) = (ival x + ival y) mod W256;
  Sub_spec x y : ival (Sub x y) = (ival x - ival y) mod W256;
  Mul_spec x y : ival (Mul x y) = (ival x * ival y) mod W256;
  Div_spec x y : ival (Div x y) = if ival y =? 0 then 0 else ival x / ival y;
  Mod_spec x y : ival (Mod x y) = if ival y =? 0 then 0 else ival x mod ival y;
  AddMod_spec x y m : ival m ≠ 0 → ival (AddMod x y m) = (ival x + ival y) mod ival m;
  Lsh_spec x n : 0 <= n < 2 ^ 64 → ival (Lsh x n) = Z.shiftl (ival x) n mod W256;
  Rsh_spec x n : 0 <= n < 2 ^ 64 → ival (Rsh x n) = Z.shiftr (ival x) n;
  SRsh_spec x n : 0 <= n < 2 ^ 64 → ival (SRsh x n) = Z.shiftr (sval (ival x)) n mod W256;
  Lt_spec x y : Lt x y = (ival x <? ival y);
  Gt_spec x y : Gt x y = (ival y <? ival x);
  Slt_spec x y : Slt x y = (sval (ival x) <? sval (ival y));
  Eq_spec x y : Eq x y = (ival x =? ival y);
  IsZero_spec x : IsZero x = (ival x =? 0);
  LtUint64_spec x n : LtUint64 x n = (ival x <? n);
  GtUint64_spec x n : GtUint64 x n = (n <? ival x);
  Sign_spec x : Sign x = Z.sgn (sval (ival x));
  IsUint64_spec x : IsUint64 x = (ival x <? 2 ^ 64);
  Uint64_spec x : Uint64 x = ival x mod 2 ^ 64;
  Uint64WithOverflow_spec x : Uint64WithOverflow x = (ival x mod 2 ^ 64, 2 ^ 64 <=? ival x);
  BitLen_range x : 0 <= BitLen x <= 256;
  IntZero_spec : ival IntZero = 0;
  IntOne_spec : ival IntOne = 1;
  IntAllOne_spec : ival IntAllOne = W256 - 1;
  SetUint64_spec z : is_u64 z → ival (SetUint64 z) = z;
  FromBig_spec z : ival (FromBig z) = z mod W256;
  ToBig_spec x : ToBig x = ival x;
  Bytes20_spec x : Bytes20 x = ival x mod 2 ^ 160;
  Bytes32_spec x : Bytes32 x = ival x;
  (* fills the first 32 bytes of a destination of at least 32 bytes *)
  WriteToSlice_spec x d : 32 <= zlen d →
    WriteToSlice x d = be_encode 32 (ival x) ++ drop 32 d;
}.

Section consequences.
Context `{UL : Uint256Laws}.

Lemma Uint64_range x : is_u64 (Uint64 x).
Proof. rewrite Uint64_spec. apply u64_range. Qed.

Lemma Uint64WithOverflow_ok x z :
  Uint64WithOverflow x = (z, false) → z = ival x ∧ Uint64 x = ival x ∧ is_u64 z.
Proof.
  rewrite Uint64WithOverflow_spec, Uint64_spec. intros [= <- H]. zbool.
  pose proof (ival_range x). rewrite !Z.mod_small by lia. unfold is_u64. lia.
Qed.

Lemma IsUint64_true x : IsUint64 x = true → Uint64 x = ival x.
Proof.
  rewrite IsUint64_spec, Uint64_spec. intros H. zbool.
  pose proof (ival_range x). rewrite Z.mod_small; lia.
Qed.

Lemma Sign_zero x : Sign x = 0 ↔ ival x = 0.
Proof.
  rewrite Sign_spec, Z.sgn_null_iff. pose proof (ival_range x).
  unfold sval, W256 in *. destruct (Z.ltb_spec (ival x) (2 ^ 255)); lia.
Qed.

Lemma zlen_WriteToSlice x d : 32 <= zlen d → zlen (WriteToSlice x d) = zlen d.
Proof.
  intros. rewrite WriteToSlice_spec, zlen_app by done. unfold zlen in *.
  rewrite length_be_encode, length_drop. lia.
Qed.
End consequences.
#[export] Hint Resolve Uint64_range : dexit.

(** ** An implementation on integers *)

Definition w256 (z : Z) : Z := z mod W256.

Definition Z_ExtendSign (x b : Z) : Z :=
  if 31 <? b then x
  else let k := 8 * b + 7 in
       let m := x mod 2 ^ (k + 1) in
       if Z.testbit x k then w256 (m - 2 ^ (k + 1)) else m.

Definition Z_Byte (x n : Z) : Z :=
  if n <? 32 then Z.land (Z.shiftr x (8 * (31 - n))) 255 else 0.

(** Square-and-multiply modulo [2^256]. *)
Fixpoint pow_pos_w (b : Z) (p : positive) : Z :=
  match p with
  | xH => w256 b
  | xO q => let r := pow_pos_w b q in w256 (r * r)
  | xI q => let r := pow_pos_w b q in w256 (w256 (r * r) * b)
  end.
Definition Z_Exp (b e : Z) : Z := match e with Zpos p => pow_pos_w b p | _ => 1 end.

#[export] Instance Z_uint256 : Uint256 := {|
  Int := Z;
  ival := w256;
  Add x y := w256 (x + y);  Sub x y := w256 (x - y);  Mul x y := w256 (x * y);
  Div x y := if w256 y =? 0 then 0 else w256 x / w256 y;
  SDiv x y := if w256 y =? 0 then 0 else w256 (Z.quot (sval (w256 x)) (sval (w256 y)));
  Mod x y := if w256 y =? 0 then 0 else w256 x mod w256 y;
  SMod x y := if w256 y =? 0 then 0 else w256 (Z.rem (sval (w256 x)) (sval (w256 y)));
  Exp x y := Z_Exp (w256 x) (w256 y);
  ExtendSign x b := Z_ExtendSign (w256 x) (w256 b);
  AddMod x y m := if w256 m =? 0 then 0 else (w256 x + w256 y) mod w256 m;
  MulMod x y m := if w256 m =? 0 then 0 else (w256 x * w256 y) mod w256 m;
  Not x := W256 - 1 - w256 x;
  And x y := Z.land (w256 x) (w256 y);
  Or x y := Z.lor (w256 x) (w256 y);
  Xor x y := Z.lxor (w256 x) (w256 y);
  Byte x n := Z_Byte (w256 x) (w256 n);
  Lsh x n := w256 (Z.shiftl (w256 x) n);
  Rsh x n := Z.shiftr (w256 x) n;
  SRsh x n := w256 (Z.shiftr (sval (w256 x)) n);
  Lt x y := w256 x <? w256 y;  Gt x y := w256 y <? w256 x;
  Slt x y := sval (w256 x) <? sval (w256 y);
  Sgt x y := sval (w256 y) <? sval (w256 x);
  Eq x y := w256 x =? w256 y;
  IsZero x := w256 x =? 0;
  LtUint64 x n := w256 x <? n;  GtUint64 x n := n <? w256 x;
  Sign x := Z.sgn (sval (w256 x));
  IsUint64 x := w256 x <? 2 ^ 64;
  Uint64 x := w256 x mod 2 ^ 64;
  Uint64WithOverflow x := (w256 x mod 2 ^ 64, 2 ^ 64 <=? w256 x);
  BitLen x := if w256 x =? 0 then 0 else Z.log2 (w256 x) + 1;
  IntZero := 0;  IntOne := 1;  IntAllOne := W256 - 1;
  SetUint64 z := z;
  SetBytes l := w256 (be_decode l);
  FromBig z := w256 z;
  ToBig x := w256 x;
  Bytes20 x := w256 x mod 2 ^ 160;
  Bytes32 x := w256 x;
  WriteToSlice x d := be_encode 32 (w256 x) ++ drop 32 d;
|}.

Lemma w256_range z : 0 <= w256 z < W256.
Proof. apply Z.mod_pos_bound. unfold W256. lia. Qed.

Lemma w256_small z : 0 <= z < W256 → w256 z = z.
Proof. apply Z.mod_small. Qed.

Lemma w256_idem z : w256 (w256 z) = w256 z.
Proof. apply w256_small, w256_range. Qed.

Lemma w256_div_small x y : w256 y ≠ 0 → 0 <= w256 x / w256 y < W256.
Proof.
  intros. pose proof (w256_range x). pose proof (w256_range y).
  split; [apply Z.div_pos; lia|].
  apply Z.div_lt_upper_bound; [lia|]. nia.
Qed.

Lemma w256_mod_small x y : w256 y ≠ 0 → 0 <= x mod w256 y < W256.
Proof.
  intros. pose proof (w256_range y).
  pose proof (Z.mod_pos_bound x (w256 y) ltac:(lia)). lia.
Qed.

#[export] Instance Z_uint256_laws : Uint256Laws Z_uint256.
Proof.
  constructor; cbn -[W256 be_encode Z.pow]; intros;
    repeat first [rewrite w256_idem | done].
  - apply w256_range.
  - unfold w256. by rewrite <- Zplus_mod.
  - unfold w256. by rewrite <- Zminus_mod.
  - unfold w256. by rewrite <- Zmult_mod.
  - destruct (Z.eqb_spec (w256 y) 0) as [E|E]; [done|].
    apply w256_small, w256_div_small, E.
  - destruct (Z.eqb_spec (w256 y) 0) as [E|E]; [done|].
    apply w256_small, w256_mod_small, E.
  - destruct (Z.eqb_spec (w256 m) 0) as [E|E]; [done|].
    apply w256_small, w256_mod_small, E.
  - apply w256_small. pose proof (w256_range x).
    assert (0 < 2 ^ n) by (apply Z.pow_pos_nonneg; lia).
    rewrite Z.shiftr_div_pow2 by lia. split; [apply Z.div_pos; lia|].
    apply Z.div_lt_upper_bound; [lia|].
    apply Z.lt_le_trans with (1 * W256); [lia|].
    apply Z.mul_le_mono_nonneg_r; lia.
  - pose proof (w256_range x). destruct (Z.eqb_spec (w256 x) 0); [lia|].
    pose proof (Z.log2_nonneg (w256 x)).
    assert (Z.log2 (w256 x) < 256); [|lia].
    apply Z.log2_lt_pow2; unfold W256 in *; lia.
  - apply w256_small. unfold is_u64, W256 in *. lia.
Qed.
