(* ===== verification/Params.v ===== *)
(** * Chain parameters and fork schedule ([params/protocol_params.go], [params/config.go])

    The protocol constants the other files use, the chain configuration, the fork
    predicates and [Rules] the EVM is instantiated with, and the compatibility
    check a node runs when its stored configuration and the new one differ.

    A nilable [*big.Int] is an [option Z].  The error messages of [fmt.Errorf] are
    kept as the name of the fork they are about. *)

From S2P Require Import Prelude.

Definition GasLimitBoundDivisor : Z := 256.
Definition MinGasLimit : Z := 5000.
Definition CallValueTransferGas : Z := 9000.
Definition CallNewAccountGas : Z := 25000.
Definition TxGas : Z := 21000.
Definition SystemTxsGas : Z := 500000.
Definition TxGasContractCreation : Z := 53000.
Definition TxDataZeroGas : Z := 4.
Definition QuadCoeffDiv : Z := 512.
Definition LogDataGas : Z := 8.
Definition CallStipend : Z := 2300.
Definition Sha3Gas : Z := 30.
Definition Sha3WordGas : Z := 6.
Definition SstoreSetGas : Z := 20000.
Definition SstoreResetGas : Z := 5000.
Definition SstoreClearGas : Z := 5000.
Definition SstoreRefundGas : Z := 15000.
Definition NetSstoreNoopGas : Z := 200.
Definition NetSstoreInitGas : Z := 20000.
Definition NetSstoreCleanGas : Z := 5000.
Definition NetSstoreDirtyGas : Z := 200.
Definition NetSstoreClearRefund : Z := 15000.
Definition NetSstoreResetRefund : Z := 4800.
Definition NetSstoreResetClearRefund : Z := 19800.
Definition SstoreSentryGasEIP2200 : Z := 2300.
Definition SstoreSetGasEIP2200 : Z := 20000.
Definition SstoreResetGasEIP2200 : Z := 5000.
Definition SstoreClearsScheduleRefundEIP2200 : Z := 15000.
Definition JumpdestGas : Z := 1.
Definition CreateDataGas : Z := 200.
Definition CallCreateDepth : Z := 1024.
Definition ExpGas : Z := 10.
Definition LogGas : Z := 375.
Definition CopyGas : Z := 3.
Definition StackLimit : Z := 1024.
Definition LogTopicGas : Z := 375.
Definition CreateGas : Z := 32000.
Definition Create2Gas : Z := 32000.
Definition SelfdestructRefundGas : Z := 24000.
Definition MemoryGas : Z := 3.
Definition TxDataNonZeroGasFrontier : Z := 68.
Definition TxDataNonZeroGasEIP2028 : Z := 16.
Definition TxAccessListAddressGas : Z := 2400.
Definition TxAccessListStorageKeyGas : Z := 1900.
Definition CallGasFrontier : Z := 40.
Definition CallGasEIP150 : Z := 700.
Definition BalanceGasFrontier : Z := 20.
Definition BalanceGasEIP150 : Z := 400.
Definition BalanceGasEIP1884 : Z := 700.
Definition ExtcodeSizeGasFrontier : Z := 20.
Definition ExtcodeSizeGasEIP150 : Z := 700.
Definition SloadGasFrontier : Z := 50.
Definition SloadGasEIP150 : Z := 200.
Definition SloadGasEIP1884 : Z := 800.
Definition SloadGasEIP2200 : Z := 800.
Definition ExtcodeHashGasConstantinople : Z := 400.
Definition ExtcodeHashGasEIP1884 : Z := 700.
Definition SelfdestructGasEIP150 : Z := 5000.
Definition ExpByteFrontier : Z := 10.
Definition ExpByteEIP158 : Z := 50.
Definition ExtcodeCopyBaseFrontier : Z := 20.
Definition ExtcodeCopyBaseEIP150 : Z := 700.
Definition CreateBySelfdestructGas : Z := 25000.
Definition MaxCodeSize : Z := 24576.

(** ** Configuration *)

Record ParliaConfig := { Period : Z; Epoch : Z }.

Record ChainConfig := {
  ChainID : option Z;
  HomesteadBlock : option Z;
  DAOForkBlock : option Z;
  DAOForkSupport : bool;
  EIP150Block : option Z;
  EIP150Hash : Hash;
  EIP155Block : option Z;
  EIP158Block : option Z;
  ByzantiumBlock : option Z;
  ConstantinopleBlock : option Z;
  PetersburgBlock : option Z;
  IstanbulBlock : option Z;
  MuirGlacierBlock : option Z;
  BerlinBlock : option Z;
  YoloV3Block : option Z;
  EWASMBlock : option Z;
  CatalystBlock : option Z;
  RamanujanBlock : option Z;
  NielsBlock : option Z;
  MirrorSyncBlock : option Z;
  BrunoBlock : option Z;
  EulerBlock : option Z;
  ClassicBlock : option Z;
  Parlia : option ParliaConfig;
}.

(** [chainConfig.Parlia = p]. *)
Definition set_Parlia (p : ParliaConfig) (c : ChainConfig) : ChainConfig := {|
  ChainID := ChainID c; HomesteadBlock := HomesteadBlock c; DAOForkBlock := DAOForkBlock c;
  DAOForkSupport := DAOForkSupport c; EIP150Block := EIP150Block c; EIP150Hash := EIP150Hash c;
  EIP155Block := EIP155Block c; EIP158Block := EIP158Block c; ByzantiumBlock := ByzantiumBlock c;
  ConstantinopleBlock := ConstantinopleBlock c; PetersburgBlock := PetersburgBlock c; IstanbulBlock := IstanbulBlock c;
  MuirGlacierBlock := MuirGlacierBlock c; BerlinBlock := BerlinBlock c; YoloV3Block := YoloV3Block c;
  EWASMBlock := EWASMBlock c; CatalystBlock := CatalystBlock c; RamanujanBlock := RamanujanBlock c;
  NielsBlock := NielsBlock c; MirrorSyncBlock := MirrorSyncBlock c; BrunoBlock := BrunoBlock c;
  EulerBlock := EulerBlock c; ClassicBlock := ClassicBlock c;
  Parlia := Some p |}.

(** [isForked]: whether a fork scheduled at [s] is active at [head]. *)
Definition isForked (s head : option Z) : bool :=
  match s, head with
  | Some s, Some h => s <=? h
  | _, _ => false
  end.

Definition configNumEqual (x y : option Z) : bool :=
  match x, y with
  | None, None => true
  | None, Some _ => false
  | Some _, None => false
  | Some a, Some b => a =? b
  end.

Definition isForkIncompatible (s1 s2 head : option Z) : bool :=
  (isForked s1 head || isForked s2 head) && negb (configNumEqual s1 s2).

Section forks.
Variable c : ChainConfig.
Variable num : Z.

Definition IsHomestead : bool := isForked (HomesteadBlock c) (Some num).
Definition IsDAOFork : bool := isForked (DAOForkBlock c) (Some num).
Definition IsEIP150 : bool := isForked (EIP150Block c) (Some num).
Definition IsEIP155 : bool := isForked (EIP155Block c) (Some num).
Definition IsEIP158 : bool := isForked (EIP158Block c) (Some num).
Definition IsByzantium : bool := isForked (ByzantiumBlock c) (Some num).
Definition IsConstantinople : bool := isForked (ConstantinopleBlock c) (Some num).
Definition IsRamanujan : bool := isForked (RamanujanBlock c) (Some num).
Definition IsClassic : bool := isForked (ClassicBlock c) (Some num).
Definition IsMuirGlacier : bool := isForked (MuirGlacierBlock c) (Some num).
Definition IsPetersburg : bool :=
  isForked (PetersburgBlock c) (Some num)
  || (match PetersburgBlock c with None => true | Some _ => false end
      && isForked (ConstantinopleBlock c) (Some num)).
Definition IsIstanbul : bool := isForked (IstanbulBlock c) (Some num).
Definition IsBerlin : bool :=
  isForked (BerlinBlock c) (Some num) || isForked (YoloV3Block c) (Some num).
Definition IsCatalyst : bool := isForked (CatalystBlock c) (Some num).
Definition IsEWASM : bool := isForked (EWASMBlock c) (Some num).
End forks.

(** The rule flags of one block. *)
Record Rules := {
  rChainID : Z;
  rIsHomestead : bool; rIsEIP150 : bool; rIsEIP155 : bool; rIsEIP158 : bool;
  rIsByzantium : bool; rIsConstantinople : bool; rIsPetersburg : bool;
  rIsIstanbul : bool; rIsBerlin : bool; rIsCatalyst : bool;
}.

Definition mkRules (c : ChainConfig) (num : Z) : Rules := {|
  rChainID := default 0 (ChainID c);
  rIsHomestead := IsHomestead c num;
  rIsEIP150 := IsEIP150 c num;
  rIsEIP155 := IsEIP155 c num;
  rIsEIP158 := IsEIP158 c num;
  rIsByzantium := IsByzantium c num;
  rIsConstantinople := IsConstantinople c num;
  rIsPetersburg := IsPetersburg c num;
  rIsIstanbul := IsIstanbul c num;
  rIsBerlin := IsBerlin c num;
  rIsCatalyst := IsCatalyst c num;
|}.

(** ** Compatibility of two configurations *)

Record ConfigCompatError := {
  What : string;
  StoredConfig : option Z;
  NewConfig : option Z;
  RewindTo : Z;
}.

Definition newCompatError (what : string) (stored new : option Z) : ConfigCompatError :=
  let rew := match stored, new with
             | None, _ => new
             | Some _, None => stored
             | Some s, Some n => if s <? n then stored else new
             end in
  {| What := what; StoredConfig := stored; NewConfig := new;
     RewindTo := match rew with
                 | Some r => if 0 <? r then sub64 (u64 r) 1 else 0
                 | None => 0
                 end |}.

(** One [if] of [checkCompatible], and the way the method chains them. *)
Definition incompat (b : bool) (what : string) (s n : option Z)
    (rest : option ConfigCompatError) : option ConfigCompatError :=
  if b then Some (newCompatError what s n) else rest.

Definition checkCompatible (c n : ChainConfig) (head : Z) : option ConfigCompatError :=
  let bad s1 s2 := isForkIncompatible s1 s2 (Some head) in
  let fork what s1 s2 rest := incompat (bad s1 s2) what s1 s2 rest in
  fork "Homestead fork block"%string (HomesteadBlock c) (HomesteadBlock n) (
  fork "DAO fork block"%string (DAOForkBlock c) (DAOForkBlock n) (
  incompat (IsDAOFork c head && negb (Bool.eqb (DAOForkSupport c) (DAOForkSupport n)))
    "DAO fork support flag"%string (DAOForkBlock c) (DAOForkBlock n) (
  fork "EIP150 fork block"%string (EIP150Block c) (EIP150Block n) (
  fork "EIP155 fork block"%string (EIP155Block c) (EIP155Block n) (
  fork "EIP158 fork block"%string (EIP158Block c) (EIP158Block n) (
  incompat (IsEIP158 c head && negb (configNumEqual (ChainID c) (ChainID n)))
    "EIP158 chain ID"%string (EIP158Block c) (EIP158Block n) (
  fork "Byzantium fork block"%string (ByzantiumBlock c) (ByzantiumBlock n) (
  fork "Constantinople fork block"%string (ConstantinopleBlock c) (ConstantinopleBlock n) (
  incompat (bad (PetersburgBlock c) (PetersburgBlock n)
            && bad (ConstantinopleBlock c) (PetersburgBlock n))
    "Petersburg fork block"%string (PetersburgBlock c) (PetersburgBlock n) (
  fork "Istanbul fork block"%string (IstanbulBlock c) (IstanbulBlock n) (
  fork "Muir Glacier fork block"%string (MuirGlacierBlock c) (MuirGlacierBlock n) (
  fork "Berlin fork block"%string (BerlinBlock c) (BerlinBlock n) (
  fork "YOLOv3 fork block"%string (YoloV3Block c) (YoloV3Block n) (
  fork "ewasm fork block"%string (EWASMBlock c) (EWASMBlock n) (
  fork "ramanujan fork block"%string (RamanujanBlock c) (RamanujanBlock n) (
  fork "mirrorSync fork block"%string (MirrorSyncBlock c) (MirrorSyncBlock n) (
  fork "bruno fork block"%string (BrunoBlock c) (BrunoBlock n) (
  fork "euler fork block"%string (EulerBlock c) (EulerBlock n) (
  fork "ClassicBlock fork block"%string (ClassicBlock c) (ClassicBlock n) (
  None)))))))))))))))))))).

(** The loop of [CheckCompatible]: [None] only when the fuel is exhausted. *)
Fixpoint CheckCompatible_loop (fuel : nat) (c n : ChainConfig) (bhead : Z)
    (lasterr : option ConfigCompatError) : option (option ConfigCompatError) :=
  match fuel with
  | O => None
  | S fuel =>
      match checkCompatible c n bhead with
      | None => Some lasterr
      | Some err =>
          if match lasterr with Some l => RewindTo err =? RewindTo l | None => false end
          then Some lasterr
          else CheckCompatible_loop fuel c n (RewindTo err) (Some err)
      end
  end.

Definition CheckCompatible (fuel : nat) (c n : ChainConfig) (height : Z) :=
  CheckCompatible_loop fuel c n height None.

(** [CheckConfigForkOrder]: the forks that must be enabled in this order. *)
Definition forkOrder (c : ChainConfig) : list (string * option Z) :=
  [("mirrorSyncBlock"%string, MirrorSyncBlock c); ("brunoBlock"%string, BrunoBlock c);
   ("berlinBlock"%string, BerlinBlock c); ("classicBlock"%string, ClassicBlock c)].

Fixpoint forkOrder_loop (lastFork : option (option Z)) (l : list (string * option Z)) : bool :=
  match l with
  | [] => true
  | (_, cur) :: rest =>
      match lastFork with
      | Some None => match cur with Some _ => false | None => forkOrder_loop (Some cur) rest end
      | Some (Some b) =>
          match cur with
          | Some b' => if b' <? b then false else forkOrder_loop (Some cur) rest
          | None => forkOrder_loop (Some cur) rest
          end
      | None => forkOrder_loop (Some cur) rest
      end
  end.

(** [true] when the method returns [nil]. *)
Definition CheckConfigForkOrder (c : ChainConfig) : bool := forkOrder_loop None (forkOrder c).

(** ** Termination and meaning of the compatibility check *)

(** Every reported error names a fork that is already active at the head it was
    computed for, so rewinding goes strictly below that head. *)
Definition rewinds (head : Z) (o : option ConfigCompatError) : Prop :=
  match o with
  | Some e => 0 <= RewindTo e ∧ (RewindTo e < head ∨ RewindTo e = 0)
  | None => True
  end.

Lemma newCompatError_rewinds what s n head :
  0 <= head < 2 ^ 64 → isForked s (Some head) || isForked n (Some head) = true →
  rewinds head (Some (newCompatError what s n)).
Proof.
  intros Hh H. unfold newCompatError, isForked in *; simpl.
  destruct s as [s|], n as [n|]; simpl in *; try discriminate;
    rewrite ?orb_false_r in H; try apply orb_true_iff in H;
    try destruct (Z.ltb_spec s n);
    repeat match goal with
    | |- context [0 <? ?r] => destruct (Z.ltb_spec 0 r)
    | |- context [sub64 (u64 ?r) 1] =>
        assert (r <= head) by (rewrite ?Z.leb_le in H; lia);
        rewrite (u64_small r), (sub64_small r 1) by (unfold is_u64; lia)
    end; lia.
Qed.

Lemma incompat_rewinds b what s n rest head :
  0 <= head < 2 ^ 64 →
  (b = true → isForked s (Some head) || isForked n (Some head) = true) →
  rewinds head rest → rewinds head (incompat b what s n rest).
Proof.
  intros Hh Hb Hr. unfold incompat. destruct b; [|done].
  apply newCompatError_rewinds; auto.
Qed.

Lemma checkCompatible_rewinds c n head :
  0 <= head < 2 ^ 64 → rewinds head (checkCompatible c n head).
Proof.
  intros Hh. unfold checkCompatible.
  repeat (apply incompat_rewinds; [done| |];
    [unfold isForkIncompatible, IsDAOFork, IsEIP158; intros ?; zbool;
     repeat match goal with H : _ = true |- _ => rewrite H end; done|]).
  done.
Qed.

Lemma CheckCompatible_loop_total c n fuel bhead last :
  0 <= bhead < 2 ^ 64 → (Z.to_nat bhead + 1 < fuel)%nat ∨
    (bhead = 0 ∧ (0 < fuel)%nat ∧ ∃ l, last = Some l ∧ RewindTo l = 0) →
  ∃ r, CheckCompatible_loop fuel c n bhead last = Some r.
Proof.
  revert bhead last. induction fuel as [|fuel IH]; intros bhead last Hb Hf; [lia|].
  simpl. pose proof (checkCompatible_rewinds c n bhead Hb) as Hrw.
  destruct (checkCompatible c n bhead) as [err|] eqn:E; [|eauto].
  destruct Hrw as [Hpos Hlt].
  destruct Hf as [Hf|(-> & Hf & l & -> & Hl)].
  - match goal with |- context [if ?b then _ else _] => destruct b end; [eauto|].
    apply IH; [lia|]. destruct Hlt as [Hlt|Hlt]; [left; lia|].
    destruct (decide (bhead = 0)) as [->|]; [|left; lia].
    right. split; [done|]. split; [lia|]. eauto.
  - rewrite (proj2 (Z.eqb_eq _ _)) by lia. eauto.
Qed.

Lemma CheckCompatible_loop_Some c n fuel bhead l r :
  CheckCompatible_loop fuel c n bhead (Some l) = Some r → r ≠ None.
Proof.
  revert bhead l. induction fuel as [|fuel IH]; intros bhead l H; [done|].
  simpl in H. destruct (checkCompatible c n bhead) as [err|]; [|congruence].
  destruct (RewindTo err =? RewindTo l); [congruence|eauto].
Qed.

(** What the loop returns is either the verdict at the original head or an error
    whose rewind target is a head the check has nothing more to say about. *)
Definition settled (c n : ChainConfig) (r : option ConfigCompatError) (height : Z) : Prop :=
  match r with
  | None => checkCompatible c n height = None
  | Some e => match checkCompatible c n (RewindTo e) with
              | None => True
              | Some e' => RewindTo e' = RewindTo e
              end
  end.

Lemma CheckCompatible_loop_settled c n fuel bhead last r :
  (∀ l, last = Some l → bhead = RewindTo l) →
  CheckCompatible_loop fuel c n bhead last = Some r → settled c n r bhead.
Proof.
  revert bhead last. induction fuel as [|fuel IH]; intros bhead last Hl H; [done|].
  simpl in H. destruct (checkCompatible c n bhead) as [err|] eqn:E.
  - destruct last as [l|].
    + destruct (Z.eqb_spec (RewindTo err) (RewindTo l)) as [Heq|Hne].
      * injection H as <-. simpl. rewrite <- (Hl l eq_refl), E.
        rewrite (Hl l eq_refl). done.
      * pose proof (CheckCompatible_loop_Some _ _ _ _ _ _ H).
        apply IH in H; [|by intros ? [= <-]]. by destruct r.
    + pose proof (CheckCompatible_loop_Some _ _ _ _ _ _ H).
      apply IH in H; [|by intros ? [= <-]]. by destruct r.
  - injection H as <-. destruct last as [l|]; simpl; [|done].
    rewrite <- (Hl l eq_refl), E. done.
Qed.

(** ** Properties *)

(** The fork blocks the compatibility check compares one to one. *)
Definition checked_forks : list (ChainConfig → option Z) :=
  [HomesteadBlock; DAOForkBlock; EIP150Block; EIP155Block; EIP158Block; ByzantiumBlock;
   ConstantinopleBlock; IstanbulBlock; MuirGlacierBlock; BerlinBlock; YoloV3Block; EWASMBlock;
   RamanujanBlock; MirrorSyncBlock; BrunoBlock; EulerBlock; ClassicBlock].

Lemma incompat_None b what s n rest : incompat b what s n rest = None → b = false ∧ rest = None.
Proof. unfold incompat. by destruct b. Qed.

(** C36 A configuration accepted at [head] schedules every checked fork that has
    happened, in either configuration, at the same block. *)
Theorem checkCompatible_sound (c n : ChainConfig) (head : Z) :
  checkCompatible c n head = None →
  ∀ fork, fork ∈ checked_forks →
    isForked (fork c) (Some head) = true ∨ isForked (fork n) (Some head) = true →
    fork c = fork n.
Proof.
  intros H.
  assert (Hall : ∀ fork, fork ∈ checked_forks →
    isForkIncompatible (fork c) (fork n) (Some head) = false).
  { unfold checkCompatible in H.
    repeat match goal with
    | H : incompat _ _ _ _ _ = None |- _ => apply incompat_None in H as [? ?]
    end.
    intros fork Hf. unfold checked_forks in Hf. rewrite !elem_of_cons in Hf.
    destruct_or! Hf; subst; try assumption. by apply not_elem_of_nil in Hf. }
  intros fork Hf Hact. specialize (Hall fork Hf). unfold isForkIncompatible in Hall.
  destruct (isForked (fork c) (Some head) || isForked (fork n) (Some head)) eqn:Ho.
  - cbn [andb] in Hall. zbool. unfold configNumEqual in Hall.
    destruct (fork c), (fork n); try done. zbool. congruence.
  - apply orb_false_iff in Ho as [Ho1 Ho2]. destruct Hact; congruence.
Qed.

(** [CheckCompatible] terminates, within [height + 2] rounds, and its answer is
    stable: rewinding the chain to the block it names leaves nothing to report below
    that block. *)
Theorem CheckCompatible_settles (c n : ChainConfig) (height : Z) (fuel : nat) :
  0 <= height < 2 ^ 64 → (Z.to_nat height + 1 < fuel)%nat →
  ∃ r, CheckCompatible fuel c n height = Some r ∧ settled c n r height.
Proof.
  intros Hh Hf. destruct (CheckCompatible_loop_total c n fuel height None Hh) as [r Hr].
  { by left. }
  exists r. split; [done|]. eapply CheckCompatible_loop_settled; [|exact Hr]. done.
Qed.

Definition with_NielsBlock (c : ChainConfig) (b : option Z) : ChainConfig := {|
  ChainID := ChainID c; HomesteadBlock := HomesteadBlock c; DAOForkBlock := DAOForkBlock c;
  DAOForkSupport := DAOForkSupport c; EIP150Block := EIP150Block c; EIP150Hash := EIP150Hash c;
  EIP155Block := EIP155Block c; EIP158Block := EIP158Block c;
  ByzantiumBlock := ByzantiumBlock c; ConstantinopleBlock := ConstantinopleBlock c;
  PetersburgBlock := PetersburgBlock c; IstanbulBlock := IstanbulBlock c;
  MuirGlacierBlock := MuirGlacierBlock c; BerlinBlock := BerlinBlock c;
  YoloV3Block := YoloV3Block c; EWASMBlock := EWASMBlock c; CatalystBlock := CatalystBlock c;
  RamanujanBlock := RamanujanBlock c; NielsBlock := b; MirrorSyncBlock := MirrorSyncBlock c;
  BrunoBlock := BrunoBlock c; EulerBlock := EulerBlock c; ClassicBlock := ClassicBlock c;
  Parlia := Parlia c |}.

(** The Niels fork is not among them: moving its block, even below the head, is
    never reported. *)
Theorem NielsBlock_unchecked (c : ChainConfig) (b : option Z) (head : Z) :
  checkCompatible c (with_NielsBlock c b) head = None.
Proof.
  assert (He : ∀ s, isForkIncompatible s s (Some head) = false).
  { intros s. unfold isForkIncompatible, configNumEqual.
    destruct s; rewrite ?Z.eqb_refl; apply andb_false_r. }
  unfold checkCompatible. cbn. rewrite !He. unfold incompat. cbn.
  rewrite Bool.eqb_reflx, andb_false_r.
  replace (configNumEqual (ChainID c) (ChainID c)) with true
    by (unfold configNumEqual; destruct (ChainID c); rewrite ?Z.eqb_refl; done).
  by rewrite andb_false_r.
Qed.

(** ** Instances *)

Definition toy_config (berlin : option Z) : ChainConfig := {|
  ChainID := Some 56; HomesteadBlock := Some 0; DAOForkBlock := None; DAOForkSupport := false;
  EIP150Block := Some 0; EIP150Hash := 0; EIP155Block := Some 0; EIP158Block := Some 0;
  ByzantiumBlock := Some 0; ConstantinopleBlock := Some 0; PetersburgBlock := Some 0;
  IstanbulBlock := Some 0; MuirGlacierBlock := Some 0; BerlinBlock := berlin;
  YoloV3Block := None; EWASMBlock := None; CatalystBlock := None; RamanujanBlock := Some 0;
  NielsBlock := Some 0; MirrorSyncBlock := Some 5; BrunoBlock := Some 5; EulerBlock := None;
  ClassicBlock := None; Parlia := None |}.

Lemma checkCompatible_sound_witness :
  checkCompatible (toy_config None) (toy_config (Some 100)) 50 = None ∧
  BrunoBlock (toy_config None) = BrunoBlock (toy_config (Some 100)).
Proof.
  split; [reflexivity|].
  apply (checkCompatible_sound (toy_config None) (toy_config (Some 100)) 50).
  - reflexivity.
  - unfold checked_forks. set_solver.
  - left. reflexivity.
Defined.

Lemma CheckCompatible_settles_witness :
  ∃ r, CheckCompatible 60 (toy_config (Some 30)) (toy_config (Some 40)) 50 = Some r ∧
       settled (toy_config (Some 30)) (toy_config (Some 40)) r 50.
Proof. apply (CheckCompatible_settles (toy_config (Some 30)) (toy_config (Some 40)) 50 60); lia. Defined.
