(* ===== verification/VmData.v ===== *)
(** * EVM data ([core/vm]: errors, opcodes, stack, memory, sizes, contract)

    The data the interpreter works on, each operation translated from the method
    of the same name.  [None] results are run-time panics; which panic it is
    (operand stack, memory, ...) is decided by the caller that lifts the operation
    into the execution monad of [VmState]. *)

From S2P Require Import Prelude Uint256 Params.

(** ** Errors ([errors.go]) *)

Inductive vmerror : Type :=
| ErrOutOfGas
| ErrCodeStoreOutOfGas
| ErrDepth
| ErrInsufficientBalance
| ErrContractAddressCollision
| ErrExecutionReverted
| ErrMaxCodeSizeExceeded
| ErrInvalidJump
| ErrWriteProtection
| ErrReturnDataOutOfBounds
| ErrGasUintOverflow
| ErrStackUnderflow (stackLen required : Z)
| ErrStackOverflow (stackLen limit : Z)
| ErrInvalidOpCode (opcode : Z)
| ErrReentrancySentry        (* errors.New("not enough gas for reentrancy sentry") *)
| ErrPrecompile (code : Z).  (* an error returned by a precompiled contract *)

#[export] Instance vmerror_eq_dec : EqDecision vmerror.
Proof. solve_decision. Defined.

(** ** Opcodes ([opcodes.go]) *)

Definition STOP : Z := 0x0.
Definition ADD : Z := 0x1.
Definition MUL : Z := 0x2.
Definition SUB : Z := 0x3.
Definition DIV : Z := 0x4.
Definition SDIV : Z := 0x5.
Definition MOD : Z := 0x6.
Definition SMOD : Z := 0x7.
Definition ADDMOD : Z := 0x8.
Definition MULMOD : Z := 0x9.
Definition EXP : Z := 0xa.
Definition SIGNEXTEND : Z := 0xb.
Definition LT : Z := 0x10.
Definition GT : Z := 0x11.
Definition SLT : Z := 0x12.
Definition SGT : Z := 0x13.
Definition EQ : Z := 0x14.
Definition ISZERO : Z := 0x15.
Definition AND : Z := 0x16.
Definition OR : Z := 0x17.
Definition XOR : Z := 0x18.
Definition NOT : Z := 0x19.
Definition BYTE : Z := 0x1a.
Definition SHL : Z := 0x1b.
Definition SHR : Z := 0x1c.
Definition SAR : Z := 0x1d.
Definition SHA3 : Z := 0x20.
Definition ADDRESS : Z := 0x30.
Definition BALANCE : Z := 0x31.
Definition ORIGIN : Z := 0x32.
Definition CALLER : Z := 0x33.
Definition CALLVALUE : Z := 0x34.
Definition CALLDATALOAD : Z := 0x35.
Definition CALLDATASIZE : Z := 0x36.
Definition CALLDATACOPY : Z := 0x37.
Definition CODESIZE : Z := 0x38.
Definition CODECOPY : Z := 0x39.
Definition GASPRICE : Z := 0x3a.
Definition EXTCODESIZE : Z := 0x3b.
Definition EXTCODECOPY : Z := 0x3c.
Definition RETURNDATASIZE : Z := 0x3d.
Definition RETURNDATACOPY : Z := 0x3e.
Definition EXTCODEHASH : Z := 0x3f.
Definition BLOCKHASH : Z := 0x40.
Definition COINBASE : Z := 0x41.
Definition TIMESTAMP : Z := 0x42.
Definition NUMBER : Z := 0x43.
Definition DIFFICULTY : Z := 0x44.
Definition GASLIMIT : Z := 0x45.
Definition CHAINID : Z := 0x46.
Definition SELFBALANCE : Z := 0x47.
Definition POP : Z := 0x50.
Definition MLOAD : Z := 0x51.
Definition MSTORE : Z := 0x52.
Definition MSTORE8 : Z := 0x53.
Definition SLOAD : Z := 0x54.
Definition SSTORE : Z := 0x55.
Definition JUMP : Z := 0x56.
Definition JUMPI : Z := 0x57.
Definition PC : Z := 0x58.
Definition MSIZE : Z := 0x59.
Definition GAS : Z := 0x5a.
Definition JUMPDEST : Z := 0x5b.
Definition PUSH1 : Z := 0x60.
Definition PUSH2 : Z := 0x61.
Definition PUSH3 : Z := 0x62.
Definition PUSH4 : Z := 0x63.
Definition PUSH5 : Z := 0x64.
Definition PUSH6 : Z := 0x65.
Definition PUSH7 : Z := 0x66.
Definition PUSH8 : Z := 0x67.
Definition PUSH9 : Z := 0x68.
Definition PUSH10 : Z := 0x69.
Definition PUSH11 : Z := 0x6a.
Definition PUSH12 : Z := 0x6b.
Definition PUSH13 : Z := 0x6c.
Definition PUSH14 : Z := 0x6d.
Definition PUSH15 : Z := 0x6e.
Definition PUSH16 : Z := 0x6f.
Definition PUSH17 : Z := 0x70.
Definition PUSH18 : Z := 0x71.
Definition PUSH19 : Z := 0x72.
Definition PUSH20 : Z := 0x73.
Definition PUSH21 : Z := 0x74.
Definition PUSH22 : Z := 0x75.
Definition PUSH23 : Z := 0x76.
Definition PUSH24 : Z := 0x77.
Definition PUSH25 : Z := 0x78.
Definition PUSH26 : Z := 0x79.
Definition PUSH27 : Z := 0x7a.
Definition PUSH28 : Z := 0x7b.
Definition PUSH29 : Z := 0x7c.
Definition PUSH30 : Z := 0x7d.
Definition PUSH31 : Z := 0x7e.
Definition PUSH32 : Z := 0x7f.
Definition DUP1 : Z := 0x80.
Definition DUP2 : Z := 0x81.
Definition DUP3 : Z := 0x82.
Definition DUP4 : Z := 0x83.
Definition DUP5 : Z := 0x84.
Definition DUP6 : Z := 0x85.
Definition DUP7 : Z := 0x86.
Definition DUP8 : Z := 0x87.
Definition DUP9 : Z := 0x88.
Definition DUP10 : Z := 0x89.
Definition DUP11 : Z := 0x8a.
Definition DUP12 : Z := 0x8b.
Definition DUP13 : Z := 0x8c.
Definition DUP14 : Z := 0x8d.
Definition DUP15 : Z := 0x8e.
Definition DUP16 : Z := 0x8f.
Definition SWAP1 : Z := 0x90.
Definition SWAP2 : Z := 0x91.
Definition SWAP3 : Z := 0x92.
Definition SWAP4 : Z := 0x93.
Definition SWAP5 : Z := 0x94.
Definition SWAP6 : Z := 0x95.
Definition SWAP7 : Z := 0x96.
Definition SWAP8 : Z := 0x97.
Definition SWAP9 : Z := 0x98.
Definition SWAP10 : Z := 0x99.
Definition SWAP11 : Z := 0x9a.
Definition SWAP12 : Z := 0x9b.
Definition SWAP13 : Z := 0x9c.
Definition SWAP14 : Z := 0x9d.
Definition SWAP15 : Z := 0x9e.
Definition SWAP16 : Z := 0x9f.
Definition LOG0 : Z := 0xa0.
Definition LOG1 : Z := 0xa1.
Definition LOG2 : Z := 0xa2.
Definition LOG3 : Z := 0xa3.
Definition LOG4 : Z := 0xa4.
Definition PUSH : Z := 0xb0.
Definition DUP : Z := 0xb1.
Definition SWAP : Z := 0xb2.
Definition CREATE : Z := 0xf0.
Definition CALL : Z := 0xf1.
Definition CALLCODE : Z := 0xf2.
Definition RETURN : Z := 0xf3.
Definition DELEGATECALL : Z := 0xf4.
Definition CREATE2 : Z := 0xf5.
Definition STATICCALL : Z := 0xfa.
Definition REVERT : Z := 0xfd.
Definition SELFDESTRUCT : Z := 0xff.

(** The disassembler table and its inverse; a Go map literal as an association list. *)
Definition opCodeToString : list (Z * string) :=
  [(STOP, "STOP"%string); (ADD, "ADD"%string); (MUL, "MUL"%string);
   (SUB, "SUB"%string); (DIV, "DIV"%string); (SDIV, "SDIV"%string);
   (MOD, "MOD"%string); (SMOD, "SMOD"%string); (EXP, "EXP"%string);
   (NOT, "NOT"%string); (LT, "LT"%string); (GT, "GT"%string);
   (SLT, "SLT"%string); (SGT, "SGT"%string); (EQ, "EQ"%string);
   (ISZERO, "ISZERO"%string); (SIGNEXTEND, "SIGNEXTEND"%string); (AND, "AND"%string);
   (OR, "OR"%string); (XOR, "XOR"%string); (BYTE, "BYTE"%string);
   (SHL, "SHL"%string); (SHR, "SHR"%string); (SAR, "SAR"%string);
   (ADDMOD, "ADDMOD"%string); (MULMOD, "MULMOD"%string); (SHA3, "SHA3"%string);
   (ADDRESS, "ADDRESS"%string); (BALANCE, "BALANCE"%string); (ORIGIN, "ORIGIN"%string);
   (CALLER, "CALLER"%string); (CALLVALUE, "CALLVALUE"%string); (CALLDATALOAD, "CALLDATALOAD"%string);
   (CALLDATASIZE, "CALLDATASIZE"%string); (CALLDATACOPY, "CALLDATACOPY"%string); (CODESIZE, "CODESIZE"%string);
   (CODECOPY, "CODECOPY"%string); (GASPRICE, "GASPRICE"%string); (EXTCODESIZE, "EXTCODESIZE"%string);
   (EXTCODECOPY, "EXTCODECOPY"%string); (RETURNDATASIZE, "RETURNDATASIZE"%string); (RETURNDATACOPY, "RETURNDATACOPY"%string);
   (EXTCODEHASH, "EXTCODEHASH"%string); (BLOCKHASH, "BLOCKHASH"%string); (COINBASE, "COINBASE"%string);
   (TIMESTAMP, "TIMESTAMP"%string); (NUMBER, "NUMBER"%string); (DIFFICULTY, "DIFFICULTY"%string);
   (GASLIMIT, "GASLIMIT"%string); (CHAINID, "CHAINID"%string); (SELFBALANCE, "SELFBALANCE"%string);
   (POP, "POP"%string); (MLOAD, "MLOAD"%string); (MSTORE, "MSTORE"%string);
   (MSTORE8, "MSTORE8"%string); (SLOAD, "SLOAD"%string); (SSTORE, "SSTORE"%string);
   (JUMP, "JUMP"%string); (JUMPI, "JUMPI"%string); (PC, "PC"%string);
   (MSIZE, "MSIZE"%string); (GAS, "GAS"%string); (JUMPDEST, "JUMPDEST"%string);
   (PUSH1, "PUSH1"%string); (PUSH2, "PUSH2"%string); (PUSH3, "PUSH3"%string);
   (PUSH4, "PUSH4"%string); (PUSH5, "PUSH5"%string); (PUSH6, "PUSH6"%string);
   (PUSH7, "PUSH7"%string); (PUSH8, "PUSH8"%string); (PUSH9, "PUSH9"%string);
   (PUSH10, "PUSH10"%string); (PUSH11, "PUSH11"%string); (PUSH12, "PUSH12"%string);
   (PUSH13, "PUSH13"%string); (PUSH14, "PUSH14"%string); (PUSH15, "PUSH15"%string);
   (PUSH16, "PUSH16"%string); (PUSH17, "PUSH17"%string); (PUSH18, "PUSH18"%string);
   (PUSH19, "PUSH19"%string); (PUSH20, "PUSH20"%string); (PUSH21, "PUSH21"%string);
   (PUSH22, "PUSH22"%string); (PUSH23, "PUSH23"%string); (PUSH24, "PUSH24"%string);
   (PUSH25, "PUSH25"%string); (PUSH26, "PUSH26"%string); (PUSH27, "PUSH27"%string);
   (PUSH28, "PUSH28"%string); (PUSH29, "PUSH29"%string); (PUSH30, "PUSH30"%string);
   (PUSH31, "PUSH31"%string); (PUSH32, "PUSH32"%string); (DUP1, "DUP1"%string);
   (DUP2, "DUP2"%string); (DUP3, "DUP3"%string); (DUP4, "DUP4"%string);
   (DUP5, "DUP5"%string); (DUP6, "DUP6"%string); (DUP7, "DUP7"%string);
   (DUP8, "DUP8"%string); (DUP9, "DUP9"%string); (DUP10, "DUP10"%string);
   (DUP11, "DUP11"%string); (DUP12, "DUP12"%string); (DUP13, "DUP13"%string);
   (DUP14, "DUP14"%string); (DUP15, "DUP15"%string); (DUP16, "DUP16"%string);
   (SWAP1, "SWAP1"%string); (SWAP2, "SWAP2"%string); (SWAP3, "SWAP3"%string);
   (SWAP4, "SWAP4"%string); (SWAP5, "SWAP5"%string); (SWAP6, "SWAP6"%string);
   (SWAP7, "SWAP7"%string); (SWAP8, "SWAP8"%string); (SWAP9, "SWAP9"%string);
   (SWAP10, "SWAP10"%string); (SWAP11, "SWAP11"%string); (SWAP12, "SWAP12"%string);
   (SWAP13, "SWAP13"%string); (SWAP14, "SWAP14"%string); (SWAP15, "SWAP15"%string);
   (SWAP16, "SWAP16"%string); (LOG0, "LOG0"%string); (LOG1, "LOG1"%string);
   (LOG2, "LOG2"%string); (LOG3, "LOG3"%string); (LOG4, "LOG4"%string);
   (CREATE, "CREATE"%string); (CALL, "CALL"%string); (RETURN, "RETURN"%string);
   (CALLCODE, "CALLCODE"%string); (DELEGATECALL, "DELEGATECALL"%string); (CREATE2, "CREATE2"%string);
   (STATICCALL, "STATICCALL"%string); (REVERT, "REVERT"%string); (SELFDESTRUCT, "SELFDESTRUCT"%string);
   (PUSH, "PUSH"%string); (DUP, "DUP"%string); (SWAP, "SWAP"%string)].

Definition stringToOp : list (string * Z) :=
  [("STOP"%string, STOP); ("ADD"%string, ADD); ("MUL"%string, MUL);
   ("SUB"%string, SUB); ("DIV"%string, DIV); ("SDIV"%string, SDIV);
   ("MOD"%string, MOD); ("SMOD"%string, SMOD); ("EXP"%string, EXP);
   ("NOT"%string, NOT); ("LT"%string, LT); ("GT"%string, GT);
   ("SLT"%string, SLT); ("SGT"%string, SGT); ("EQ"%string, EQ);
   ("ISZERO"%string, ISZERO); ("SIGNEXTEND"%string, SIGNEXTEND); ("AND"%string, AND);
   ("OR"%string, OR); ("XOR"%string, XOR); ("BYTE"%string, BYTE);
   ("SHL"%string, SHL); ("SHR"%string, SHR); ("SAR"%string, SAR);
   ("ADDMOD"%string, ADDMOD); ("MULMOD"%string, MULMOD); ("SHA3"%string, SHA3);
   ("ADDRESS"%string, ADDRESS); ("BALANCE"%string, BALANCE); ("ORIGIN"%string, ORIGIN);
   ("CALLER"%string, CALLER); ("CALLVALUE"%string, CALLVALUE); ("CALLDATALOAD"%string, CALLDATALOAD);
   ("CALLDATASIZE"%string, CALLDATASIZE); ("CALLDATACOPY"%string, CALLDATACOPY); ("CHAINID"%string, CHAINID);
   ("DELEGATECALL"%string, DELEGATECALL); ("STATICCALL"%string, STATICCALL); ("CODESIZE"%string, CODESIZE);
   ("CODECOPY"%string, CODECOPY); ("GASPRICE"%string, GASPRICE); ("EXTCODESIZE"%string, EXTCODESIZE);
   ("EXTCODECOPY"%string, EXTCODECOPY); ("RETURNDATASIZE"%string, RETURNDATASIZE); ("RETURNDATACOPY"%string, RETURNDATACOPY);
   ("EXTCODEHASH"%string, EXTCODEHASH); ("BLOCKHASH"%string, BLOCKHASH); ("COINBASE"%string, COINBASE);
   ("TIMESTAMP"%string, TIMESTAMP); ("NUMBER"%string, NUMBER); ("DIFFICULTY"%string, DIFFICULTY);
   ("GASLIMIT"%string, GASLIMIT); ("SELFBALANCE"%string, SELFBALANCE); ("POP"%string, POP);
   ("MLOAD"%string, MLOAD); ("MSTORE"%string, MSTORE); ("MSTORE8"%string, MSTORE8);
   ("SLOAD"%string, SLOAD); ("SSTORE"%string, SSTORE); ("JUMP"%string, JUMP);
   ("JUMPI"%string, JUMPI); ("PC"%string, PC); ("MSIZE"%string, MSIZE);
   ("GAS"%string, GAS); ("JUMPDEST"%string, JUMPDEST); ("PUSH1"%string, PUSH1);
   ("PUSH2"%string, PUSH2); ("PUSH3"%string, PUSH3); ("PUSH4"%string, PUSH4);
   ("PUSH5"%string, PUSH5); ("PUSH6"%string, PUSH6); ("PUSH7"%string, PUSH7);
   ("PUSH8"%string, PUSH8); ("PUSH9"%string, PUSH9); ("PUSH10"%string, PUSH10);
   ("PUSH11"%string, PUSH11); ("PUSH12"%string, PUSH12); ("PUSH13"%string, PUSH13);
   ("PUSH14"%string, PUSH14); ("PUSH15"%string, PUSH15); ("PUSH16"%string, PUSH16);
   ("PUSH17"%string, PUSH17); ("PUSH18"%string, PUSH18); ("PUSH19"%string, PUSH19);
   ("PUSH20"%string, PUSH20); ("PUSH21"%string, PUSH21); ("PUSH22"%string, PUSH22);
   ("PUSH23"%string, PUSH23); ("PUSH24"%string, PUSH24); ("PUSH25"%string, PUSH25);
   ("PUSH26"%string, PUSH26); ("PUSH27"%string, PUSH27); ("PUSH28"%string, PUSH28);
   ("PUSH29"%string, PUSH29); ("PUSH30"%string, PUSH30); ("PUSH31"%string, PUSH31);
   ("PUSH32"%string, PUSH32); ("DUP1"%string, DUP1); ("DUP2"%string, DUP2);
   ("DUP3"%string, DUP3); ("DUP4"%string, DUP4); ("DUP5"%string, DUP5);
   ("DUP6"%string, DUP6); ("DUP7"%string, DUP7); ("DUP8"%string, DUP8);
   ("DUP9"%string, DUP9); ("DUP10"%string, DUP10); ("DUP11"%string, DUP11);
   ("DUP12"%string, DUP12); ("DUP13"%string, DUP13); ("DUP14"%string, DUP14);
   ("DUP15"%string, DUP15); ("DUP16"%string, DUP16); ("SWAP1"%string, SWAP1);
   ("SWAP2"%string, SWAP2); ("SWAP3"%string, SWAP3); ("SWAP4"%string, SWAP4);
   ("SWAP5"%string, SWAP5); ("SWAP6"%string, SWAP6); ("SWAP7"%string, SWAP7);
   ("SWAP8"%string, SWAP8); ("SWAP9"%string, SWAP9); ("SWAP10"%string, SWAP10);
   ("SWAP11"%string, SWAP11); ("SWAP12"%string, SWAP12); ("SWAP13"%string, SWAP13);
   ("SWAP14"%string, SWAP14); ("SWAP15"%string, SWAP15); ("SWAP16"%string, SWAP16);
   ("LOG0"%string, LOG0); ("LOG1"%string, LOG1); ("LOG2"%string, LOG2);
   ("LOG3"%string, LOG3); ("LOG4"%string, LOG4); ("CREATE"%string, CREATE);
   ("CREATE2"%string, CREATE2); ("CALL"%string, CALL); ("RETURN"%string, RETURN);
   ("CALLCODE"%string, CALLCODE); ("REVERT"%string, REVERT); ("SELFDESTRUCT"%string, SELFDESTRUCT)].

Definition IsPush (op : Z) : bool := (PUSH1 <=? op) && (op <=? PUSH32).
Definition IsStaticJump (op : Z) : bool := op =? JUMP.

Fixpoint assoc {A B} `{EqDecision A} (k : A) (l : list (A * B)) : option B :=
  match l with
  | [] => None
  | (k', v) :: l => if decide (k' = k) then Some v else assoc k l
  end.

(** [None] is the fallback text "opcode 0x.. not defined". *)
Definition OpCode_String (op : Z) : option string := assoc op opCodeToString.

(** A missing key of the Go map reads as the zero value, which is [STOP]. *)
Definition StringToOp (s : string) : Z := default 0 (assoc s stringToOp).

(** ** Stack limits ([stack_table.go]) *)

Definition maxStack (pop push : Z) : Z := StackLimit + pop - push.
Definition minStack (pops push : Z) : Z := pops.
Definition minSwapStack (n : Z) : Z := minStack n n.
Definition maxSwapStack (n : Z) : Z := maxStack n n.
Definition minDupStack (n : Z) : Z := minStack n (n + 1).
Definition maxDupStack (n : Z) : Z := maxStack n (n + 1).

(** ** Word counts and input slicing ([common.go]) *)

Definition toWordSize (size : Z) : Z :=
  if MaxUint64 - 31 <? size then MaxUint64 / 32 + 1 else (size + 31) / 32.

(** [None] is the slice panic of [data[start:end]]: [end] is computed with
    wrap-around. *)
Definition getData (data : bytes) (start size : Z) : option bytes :=
  let length := zlen data in
  let start := if length <? start then length else start in
  let stop := add64 start size in
  let stop := if length <? stop then length else stop in
  d ← slice data start stop; Some (RightPadBytes d (s64 size)).

Definition allZero (b : bytes) : bool := forallb (λ x, x =? 0) b.

Section vm_data.
Context {U : Uint256}.

Definition calcMemSize64WithUint (off : Int) (length64 : Z) : Z * bool :=
  if length64 =? 0 then (0, false)
  else
    let '(offset64, overflow) := Uint64WithOverflow off in
    if overflow : bool then (0, true)
    else
      let val := add64 offset64 length64 in
      (val, val <? offset64).

Definition calcMemSize64 (off l : Int) : Z * bool :=
  if negb (IsUint64 l) then (0, true) else calcMemSize64WithUint off (Uint64 l).

(** ** Stack ([stack.go]): the slice read from its end, so the head is the top *)

Definition Stack : Type := list Int.

Definition push (st : Stack) (d : Int) : Stack := d :: st.
Definition pop (st : Stack) : option (Int * Stack) :=
  match st with x :: r => Some (x, r) | [] => None end.
Definition len (st : Stack) : Z := zlen st.
Definition Back (st : Stack) (n : nat) : option Int := st !! n.
Definition peek (st : Stack) : option Int := st !! 0%nat.
(** [*st.peek() = x]. *)
Definition set_peek (st : Stack) (x : Int) : option Stack :=
  match st with _ :: r => Some (x :: r) | [] => None end.
Definition dup (st : Stack) (n : nat) : option Stack :=
  match n with O => None | S i => x ← st !! i; Some (x :: st) end.
Definition swap (st : Stack) (n : nat) : option Stack :=
  match n with
  | O => None
  | S i => x ← st !! i; y ← st !! 0%nat; Some (<[i:=y]> (<[0%nat:=x]> st))
  end.

(** ** Memory ([memory.go]) *)

Record Memory := { store : bytes; lastGasCost : Z }.
Definition NewMemory : Memory := {| store := []; lastGasCost := 0 |}.
Definition Len (m : Memory) : Z := zlen (store m).
Definition set_store (m : Memory) (s : bytes) : Memory :=
  {| store := s; lastGasCost := lastGasCost m |}.

(** Overwrites [store[lo:hi]] through [copy]. *)
Definition copy_into (s : bytes) (lo hi : Z) (value : bytes) : option bytes :=
  d ← slice s lo hi;
  Some (take (Z.to_nat lo) s ++ go_copy d value ++ drop (Z.to_nat hi) s).

Definition Memory_Set (m : Memory) (offset size : Z) (value : bytes) : option Memory :=
  if 0 <? size then
    if Len m <? add64 offset size then None
    else set_store m <$> copy_into (store m) offset (add64 offset size) value
  else Some m.

Definition Memory_Set32 (m : Memory) (offset : Z) (val : Int) : option Memory :=
  if Len m <? add64 offset 32 then None
  else
    s ← copy_into (store m) offset (add64 offset 32) (zeros 32);
    d ← slice s offset (zlen s);
    Some (set_store m (take (Z.to_nat offset) s ++ WriteToSlice val d)).

Definition Resize (m : Memory) (size : Z) : Memory :=
  if Len m <? size then set_store m (store m ++ zeros (size - Len m)) else m.

Definition GetCopy (m : Memory) (offset size : Z) : option bytes :=
  if size =? 0 then Some []
  else if offset <? Len m then
    (* make([]byte, size) panics on a negative size *)
    if size <? 0 then None
    else d ← slice (store m) offset (offset + size); Some (go_copy (zeros size) d)
  else Some [].

Definition GetPtr (m : Memory) (offset size : Z) : option bytes :=
  if size =? 0 then Some []
  else if offset <? Len m then slice (store m) offset (offset + size)
  else Some [].

(** [m.store[off] = b]. *)
Definition Memory_SetByte (m : Memory) (off b : Z) : option Memory :=
  set_store m <$> set_index (store m) off b.

(** ** Memory needed by an instruction ([memory_table.go]); [None] is a stack panic *)

Definition memSize2 (st : Stack) (i j : nat) : option (Z * bool) :=
  off ← Back st i; l ← Back st j; Some (calcMemSize64 off l).

Definition memorySha3 (st : Stack) := memSize2 st 0 1.
Definition memoryCallDataCopy (st : Stack) := memSize2 st 0 2.
Definition memoryReturnDataCopy (st : Stack) := memSize2 st 0 2.
Definition memoryCodeCopy (st : Stack) := memSize2 st 0 2.
Definition memoryExtCodeCopy (st : Stack) := memSize2 st 1 3.
Definition memoryMLoad (st : Stack) : option (Z * bool) :=
  off ← Back st 0; Some (calcMemSize64WithUint off 32).
Definition memoryMStore8 (st : Stack) : option (Z * bool) :=
  off ← Back st 0; Some (calcMemSize64WithUint off 1).
Definition memoryMStore (st : Stack) : option (Z * bool) :=
  off ← Back st 0; Some (calcMemSize64WithUint off 32).
Definition memoryCreate (st : Stack) := memSize2 st 1 2.
Definition memoryCreate2 (st : Stack) := memSize2 st 1 2.
Definition memoryReturn (st : Stack) := memSize2 st 0 1.
Definition memoryRevert (st : Stack) := memSize2 st 0 1.
Definition memoryLog (st : Stack) := memSize2 st 0 1.

(** The larger of the output and the input region of a call. *)
Definition memSizeMax (st : Stack) (oi ol ii il : nat) : option (Z * bool) :=
  p ← memSize2 st oi ol;
  if p.2 : bool then Some (0, true)
  else
    q ← memSize2 st ii il;
    if q.2 : bool then Some (0, true)
    else if q.1 <? p.1 then Some (p.1, false) else Some (q.1, false).
Definition memoryCall (st : Stack) := memSizeMax st 5 6 3 4.
Definition memoryDelegateCall (st : Stack) := memSizeMax st 4 5 2 3.
Definition memoryStaticCall (st : Stack) := memSizeMax st 4 5 2 3.

(** ** Gas handed to a call ([gas.go]) *)

Definition GasQuickStep : Z := 2.
Definition GasFastestStep : Z := 3.
Definition GasFastStep : Z := 5.
Definition GasMidStep : Z := 8.
Definition GasSlowStep : Z := 10.
Definition GasExtStep : Z := 20.

Definition callGas (isEip150 : bool) (availableGas base : Z) (callCost : Int) : Z + vmerror :=
  let availableGas := if isEip150 then sub64 availableGas base else availableGas in
  let gas := sub64 availableGas (availableGas / 64) in
  if isEip150 && (negb (IsUint64 callCost) || (gas <? Uint64 callCost)) then inl gas
  else if negb (IsUint64 callCost) then inr ErrGasUintOverflow
  else inl (Uint64 callCost).

(** ** Contract ([contract.go]) *)

(** A [ContractRef] is an account, or a running contract, of which only the
    address, the caller and the value are read through the reference. *)
Inductive ContractRef : Type :=
| AccountRef (a : Address)
| ContractOf (addr callerAddress : Address) (val : Z).
Definition ContractRef_Address (r : ContractRef) : Address :=
  match r with AccountRef a => a | ContractOf a _ _ => a end.

Record Contract := {
  CallerAddress : Address;
  caller : ContractRef;
  self : ContractRef;
  analysis : option bytes;
  Code : bytes;
  CodeHash : Hash;
  CodeAddr : option Address;
  Input : bytes;
  Gas : Z;
  value : Z;
}.

Definition Contract_Address (c : Contract) : Address := ContractRef_Address (self c).
Definition Caller (c : Contract) : Address := CallerAddress c.
Definition as_ref (c : Contract) : ContractRef :=
  ContractOf (Contract_Address c) (CallerAddress c) (value c).

Definition NewContract (caller object : ContractRef) (value gas : Z) : Contract := {|
  CallerAddress := ContractRef_Address caller;
  caller := caller;
  self := object;
  analysis := None;
  Code := [];
  CodeHash := 0;
  CodeAddr := None;
  Input := [];
  Gas := gas;
  value := value;
|}.

Definition set_Gas (c : Contract) (g : Z) : Contract := {|
  CallerAddress := CallerAddress c; caller := caller c; self := self c;
  analysis := analysis c; Code := Code c; CodeHash := CodeHash c;
  CodeAddr := CodeAddr c; Input := Input c; Gas := g; value := value c |}.
Definition set_Input (c : Contract) (i : bytes) : Contract := {|
  CallerAddress := CallerAddress c; caller := caller c; self := self c;
  analysis := analysis c; Code := Code c; CodeHash := CodeHash c;
  CodeAddr := CodeAddr c; Input := i; Gas := Gas c; value := value c |}.
Definition set_analysis (c : Contract) (a : option bytes) : Contract := {|
  CallerAddress := CallerAddress c; caller := caller c; self := self c;
  analysis := a; Code := Code c; CodeHash := CodeHash c;
  CodeAddr := CodeAddr c; Input := Input c; Gas := Gas c; value := value c |}.

(** [c.caller] must be a contract, which is the type assertion's panic. *)
Definition AsDelegate (c : Contract) : option Contract :=
  match caller c with
  | ContractOf _ parentCaller parentValue => Some {|
      CallerAddress := parentCaller; caller := caller c; self := self c;
      analysis := analysis c; Code := Code c; CodeHash := CodeHash c;
      CodeAddr := CodeAddr c; Input := Input c; Gas := Gas c; value := parentValue |}
  | AccountRef _ => None
  end.

Definition SetCallCode (c : Contract) (addr : Address) (hash : Hash) (code : bytes) : Contract := {|
  CallerAddress := CallerAddress c; caller := caller c; self := self c;
  analysis := analysis c; Code := code; CodeHash := hash;
  CodeAddr := Some addr; Input := Input c; Gas := Gas c; value := value c |}.

Definition GetByte (c : Contract) (n : Z) : Z :=
  if n <? zlen (Code c) then default 0 (index (Code c) n) else 0.
Definition GetOp (c : Contract) (n : Z) : Z := GetByte c n.

(** [None] when the gas does not suffice. *)
Definition UseGas (c : Contract) (gas : Z) : option Contract :=
  if Gas c <? gas then None else Some (set_Gas c (Gas c - gas)).
End vm_data.
