(* ===== verification/VmAnalysis.v ===== *)
(** * Jump-destination analysis ([core/vm/analysis.go])

    [codeBitmap] marks every byte of a program that is the operand of a PUSH in a
    packed bit vector, eight and sixteen bits at a time.  The reference definition
    [push_data] walks the code one byte at a time; the main lemma of the file,
    [codeBitmap_spec], says the packed vector agrees with it at every position. *)

From S2P Require Import Prelude Uint256 Params VmData.

(** ** The bit vector; [None] is an out-of-range panic *)

Definition set2BitsMask : Z := 0xC000.
Definition set3BitsMask : Z := 0xE000.
Definition set4BitsMask : Z := 0xF000.
Definition set5BitsMask : Z := 0xF800.
Definition set6BitsMask : Z := 0xFC00.
Definition set7BitsMask : Z := 0xFE00.

Definition lookup_tbl : bytes := [0x80; 0x40; 0x20; 0x10; 0x8; 0x4; 0x2; 0x1].

(** [bits[i] |= a]. *)
Definition or_byte (bits : bytes) (i a : Z) : option bytes :=
  b ← index bits i; set_index bits i (Z.lor b a).

Definition set1 (bits : bytes) (pos : Z) : option bytes :=
  a ← index lookup_tbl (pos mod 8); or_byte bits (pos / 8) a.

Definition setN (flag : Z) (bits : bytes) (pos : Z) : option bytes :=
  let a := Z.shiftr flag (pos mod 8) in
  bits ← or_byte bits (pos / 8) (Z.shiftr a 8 mod 256);
  let b := a mod 256 in
  if negb (b =? 0) then set_index bits (pos / 8 + 1) b else Some bits.

Definition set8 (bits : bytes) (pos : Z) : option bytes :=
  let a := Z.shiftr 0xFF (pos mod 8) in
  bits ← or_byte bits (pos / 8) a;
  set_index bits (pos / 8 + 1) (Z.lxor a 0xFF).

Definition set16 (bits : bytes) (pos : Z) : option bytes :=
  let a := Z.shiftr 0xFF (pos mod 8) in
  bits ← or_byte bits (pos / 8) a;
  bits ← set_index bits (pos / 8 + 1) 0xFF;
  set_index bits (pos / 8 + 2) (Z.lxor a 0xFF).

Definition codeSegment (bits : bytes) (pos : Z) : option bool :=
  b ← index bits (pos / 8); Some (Z.land b (Z.shiftr 0x80 (pos mod 8)) =? 0).

(** The two inner [for] loops; [numbits] is at most 32, so four turns suffice. *)
Fixpoint bulk (width : Z) (set : bytes → Z → option bytes) (turns : nat)
    (bits : bytes) (pc numbits : Z) : option (bytes * Z * Z) :=
  match turns with
  | O => Some (bits, pc, numbits)
  | S t => if width <=? numbits
           then bits ← set bits pc; bulk width set t bits (pc + width) (numbits - width)
           else Some (bits, pc, numbits)
  end.

(** The [switch numbits] that ends one turn of the outer loop. *)
Definition set_rest (bits : bytes) (pc numbits : Z) : option (bytes * Z) :=
  let adv o := (λ b, (b, pc + numbits)) <$> o in
  match numbits with
  | 1 => adv (set1 bits pc)
  | 2 => adv (setN set2BitsMask bits pc)
  | 3 => adv (setN set3BitsMask bits pc)
  | 4 => adv (setN set4BitsMask bits pc)
  | 5 => adv (setN set5BitsMask bits pc)
  | 6 => adv (setN set6BitsMask bits pc)
  | 7 => adv (setN set7BitsMask bits pc)
  | _ => Some (bits, pc)
  end.

Definition mark_push (bits : bytes) (pc numbits : Z) : option (bytes * Z) :=
  p ← (if 8 <=? numbits then
         p ← bulk 16 set16 4 bits pc numbits;
         let '(bits, pc, numbits) := p in bulk 8 set8 4 bits pc numbits
       else Some (bits, pc, numbits));
  let '(bits, pc, numbits) := p in set_rest bits pc numbits.

Fixpoint codeBitmapInternal (fuel : nat) (code bits : bytes) (pc : Z) : option bytes :=
  match fuel with
  | O => None
  | S fuel =>
      if pc <? zlen code then
        op ← index code pc;
        let pc := pc + 1 in
        if (op <? PUSH1) || (PUSH32 <? op) then codeBitmapInternal fuel code bits pc
        else
          p ← mark_push bits pc (op - PUSH1 + 1);
          codeBitmapInternal fuel code p.1 p.2
      else Some bits
  end.

Definition codeBitmap (code : bytes) : option bytes :=
  codeBitmapInternal (S (length code)) code (zeros (zlen code / 8 + 1 + 4)) 0.

(** ** Reference: which bytes are PUSH operands *)

Definition push_size (op : Z) : nat :=
  if (op <? PUSH1) || (PUSH32 <? op) then 0%nat else Z.to_nat (op - PUSH1 + 1).

Fixpoint push_data (skip : nat) (code : bytes) : list bool :=
  match code with
  | [] => []
  | b :: code =>
      match skip with
      | S k => true :: push_data k code
      | O => false :: push_data (push_size b) code
      end
  end.

(** [pos] is the start of an instruction. *)
Definition is_opcode (code : bytes) (pos : Z) : bool :=
  match push_data 0 code !! Z.to_nat pos with Some d => negb d | None => false end.

(** ** Bits of the packed vector *)

Definition bit (bits : bytes) (i : Z) : bool :=
  match bits !! Z.to_nat (i / 8) with
  | Some b => Z.testbit b (7 - i mod 8)
  | None => false
  end.

Definition clear_from (bits : bytes) (pos : Z) : Prop := ∀ i, pos <= i → bit bits i = false.

(** [bits'] is [bits] with the [k] bits from [pos] on set. *)
Definition sets (bits bits' : bytes) (pos k : Z) : Prop :=
  length bits' = length bits ∧
  ∀ i, 0 <= i → bit bits' i = bit bits i || ((pos <=? i) && (i <? pos + k)).

Lemma zeros_clear n pos : 0 <= pos → clear_from (zeros n) pos.
Proof.
  intros Hp i Hi. unfold bit, zeros.
  destruct (replicate _ _ !! _) as [b|] eqn:E; [|done].
  apply lookup_replicate in E as [-> _]. apply Z.testbit_0_l.
Qed.

(** A write of the bytes [A], [B], [C] over the byte of [pos] and its two
    neighbours sets exactly the bits of the range, provided it does so within
    those bytes. *)
Definition pattern_ok (r k A B C : Z) : bool :=
  forallb (λ j, Bool.eqb (Z.testbit A (7 - j)) ((r <=? j) && (j <? r + k))
             && Bool.eqb (Z.testbit B (7 - j)) (j + 8 <? r + k)
             && Bool.eqb (Z.testbit C (7 - j)) (j + 16 <? r + k))
    [0; 1; 2; 3; 4; 5; 6; 7].

Lemma pattern_ok_spec r k A B C j :
  pattern_ok r k A B C = true → 0 <= j < 8 →
  Z.testbit A (7 - j) = (r <=? j) && (j <? r + k) ∧
  Z.testbit B (7 - j) = (j + 8 <? r + k) ∧
  Z.testbit C (7 - j) = (j + 16 <? r + k).
Proof.
  unfold pattern_ok. rewrite forallb_forall. intros H Hj.
  specialize (H j). rewrite !andb_true_iff, !Bool.eqb_true_iff in H.
  apply and_assoc, H.
  assert (j = 0 ∨ j = 1 ∨ j = 2 ∨ j = 3 ∨ j = 4 ∨ j = 5 ∨ j = 6 ∨ j = 7) by lia.
  simpl. intuition.
Qed.

Section pattern.
Variables (bits : bytes) (pos k : Z).
Hypothesis Hpos : 0 <= pos.
Hypothesis Hk : 0 <= k <= 16.
Hypothesis Hclear : clear_from bits pos.

(** The bytes of the vector after such a write; a byte the code does not touch
    keeps the value zero it has after [pos]. *)
Lemma pattern_sets bits' A B C :
  length bits' = length bits →
  (∃ b, bits !! Z.to_nat (pos / 8) = Some b ∧
        bits' !! Z.to_nat (pos / 8) = Some (Z.lor b A)) →
  (∀ j, 0 <= j < 8 → bit bits' (8 * (pos / 8 + 1) + j) = Z.testbit B (7 - j)) →
  (∀ j, 0 <= j < 8 → bit bits' (8 * (pos / 8 + 2) + j) = Z.testbit C (7 - j)) →
  (∀ q, 0 <= q → q ≠ pos / 8 → q ≠ pos / 8 + 1 → q ≠ pos / 8 + 2 →
        bits' !! Z.to_nat q = bits !! Z.to_nat q) →
  pattern_ok (pos mod 8) k A B C = true → sets bits bits' pos k.
Proof.
  intros Hlen (b & Hb & Hb') HB HC Hrest Hpat. split; [done|]. intros i Hi.
  pose proof (Z.div_mod pos 8 ltac:(lia)) as Ep.
  pose proof (Z.mod_pos_bound pos 8 ltac:(lia)) as Rp.
  pose proof (Z.div_mod i 8 ltac:(lia)) as Ei.
  pose proof (Z.mod_pos_bound i 8 ltac:(lia)) as Ri.
  destruct (pattern_ok_spec _ _ _ _ _ (i mod 8) Hpat Ri) as (PA & PB & PC).
  assert (Hq : 0 <= pos / 8) by (apply Z.div_pos; lia).
  destruct (decide (i / 8 = pos / 8)) as [E0|N0].
  { unfold bit. rewrite E0, Hb, Hb', Z.lor_spec, PA. f_equal.
    apply eq_true_iff_eq. rewrite !andb_true_iff, !Z.leb_le, !Z.ltb_lt. lia. }
  destruct (decide (i / 8 = pos / 8 + 1)) as [E1|N1].
  { rewrite (Hclear i) by lia. simpl.
    replace i with (8 * (pos / 8 + 1) + i mod 8) at 1 by lia.
    rewrite HB, PB by lia.
    apply eq_true_iff_eq. rewrite !andb_true_iff, !Z.leb_le, !Z.ltb_lt. lia. }
  destruct (decide (i / 8 = pos / 8 + 2)) as [E2|N2].
  { rewrite (Hclear i) by lia. simpl.
    replace i with (8 * (pos / 8 + 2) + i mod 8) at 1 by lia.
    rewrite HC, PC by lia.
    apply eq_true_iff_eq. rewrite !andb_true_iff, !Z.leb_le, !Z.ltb_lt. lia. }
  unfold bit. rewrite Hrest by (try apply Z.div_pos; lia).
  replace ((pos <=? i) && (i <? pos + k)) with false; [by rewrite orb_false_r|].
  symmetry. apply andb_false_iff. rewrite Z.leb_gt, Z.ltb_ge.
  destruct (Z.lt_ge_cases i pos); [by left|right]. lia.
Qed.
End pattern.

Definition upd {A} (l : list A) (i : nat) (o : option A) : list A :=
  match o with Some x => <[i:=x]> l | None => l end.

Lemma lookup_upd {A} (l : list A) i (o : option A) j :
  (i < length l)%nat ∨ o = None →
  upd l i o !! j = if decide (i = j) then match o with Some x => Some x | None => l !! j end
                   else l !! j.
Proof.
  intros Hi. destruct o as [x|]; simpl; [|by case_decide].
  destruct Hi as [Hi|]; [|done]. rewrite list_lookup_insert. case_decide; [|case_decide]; try done.
  all: destruct (decide (i = j)); try done; lia.
Qed.

Lemma length_upd {A} (l : list A) i (o : option A) : length (upd l i o) = length l.
Proof. destruct o; simpl; [apply length_insert|done]. Qed.

(** The common shape of the four setters: or a byte, then assign the next ones. *)
Lemma write_sets bits pos k A (oB oC : option Z) b :
  0 <= pos → 0 <= k <= 16 → clear_from bits pos →
  bits !! Z.to_nat (pos / 8) = Some b →
  (Z.to_nat (pos / 8) + 1 < length bits)%nat ∨ oB = None →
  (Z.to_nat (pos / 8) + 2 < length bits)%nat ∨ oC = None →
  pattern_ok (pos mod 8) k A (default 0 oB) (default 0 oC) = true →
  sets bits (upd (upd (<[Z.to_nat (pos / 8) := Z.lor b A]> bits)
                    (Z.to_nat (pos / 8) + 1) oB) (Z.to_nat (pos / 8) + 2) oC) pos k.
Proof.
  intros Hp Hk Hc Hb HB HC Hpat. set (q := Z.to_nat (pos / 8)) in *.
  assert (Hq : Z.of_nat q = pos / 8) by (apply Z2Nat.id, Z.div_pos; lia).
  pose proof (lookup_lt_Some _ _ _ Hb) as Hlt.
  pose proof (Z.div_mod pos 8 ltac:(lia)). pose proof (Z.mod_pos_bound pos 8 ltac:(lia)).
  set (bits1 := <[q := Z.lor b A]> bits). set (bits2 := upd bits1 (q + 1) oB).
  assert (L1 : length bits1 = length bits) by apply length_insert.
  assert (L2 : length bits2 = length bits) by (unfold bits2; rewrite length_upd; done).
  assert (Hl : ∀ j, upd bits2 (q + 2) oC !! j =
    if decide (q + 2 = j)%nat then match oC with Some x => Some x | None => bits !! j end
    else if decide (q + 1 = j)%nat then match oB with Some x => Some x | None => bits !! j end
    else if decide (q = j)%nat then Some (Z.lor b A) else bits !! j).
  { intros j. rewrite lookup_upd by (rewrite L2; done). unfold bits2.
    rewrite lookup_upd by (rewrite L1; done). unfold bits1.
    rewrite list_lookup_insert. repeat case_decide; subst; try done; try lia;
      destruct oC, oB; done. }
  assert (Hnext : ∀ (q' : nat) o j, (q < q')%nat → 0 <= j < 8 →
     upd bits2 (q + 2) oC !! q' = match o with Some x => Some x | None => bits !! q' end →
     bit (upd bits2 (q + 2) oC) (8 * Z.of_nat q' + j) = Z.testbit (default 0 o) (7 - j)).
  { intros q' o j Hlt' Hj E. unfold bit.
    replace ((8 * Z.of_nat q' + j) / 8) with (Z.of_nat q')
      by (apply Z.div_unique with j; lia).
    replace ((8 * Z.of_nat q' + j) mod 8) with j by (apply Z.mod_unique with (Z.of_nat q'); lia).
    rewrite Nat2Z.id, E. destruct o as [x|]; [done|]. simpl. rewrite Z.testbit_0_l.
    specialize (Hc (8 * Z.of_nat q' + j) ltac:(lia)). unfold bit in Hc.
    replace ((8 * Z.of_nat q' + j) / 8) with (Z.of_nat q') in Hc
      by (apply Z.div_unique with j; lia).
    replace ((8 * Z.of_nat q' + j) mod 8) with j in Hc
      by (apply Z.mod_unique with (Z.of_nat q'); lia).
    by rewrite Nat2Z.id in Hc. }
  eapply (pattern_sets bits pos k Hp Hk Hc _ A (default 0 oB) (default 0 oC)).
  - by rewrite length_upd.
  - exists b. fold q. split; [done|]. rewrite Hl. repeat case_decide; try lia; done.
  - intros j Hj. replace (pos / 8 + 1) with (Z.of_nat (q + 1)) by lia.
    apply Hnext; [lia|done|]. rewrite Hl. repeat case_decide; try lia; done.
  - intros j Hj. replace (pos / 8 + 2) with (Z.of_nat (q + 2)) by lia.
    apply Hnext; [lia|done|]. rewrite Hl. repeat case_decide; try lia; done.
  - intros q' ????. rewrite Hl. repeat case_decide; try lia; done.
  - done.
Qed.

(** Decides a statement about [pos mod 8] by its eight cases. *)
Ltac mod8 pos :=
  let H := fresh "H" in
  let C := fresh "C" in
  pose proof (Z.mod_pos_bound pos 8 ltac:(lia)) as H; revert H;
  generalize (pos mod 8); intros ? H;
  match type of H with 0 <= ?r < 8 =>
    assert (r = 0 ∨ r = 1 ∨ r = 2 ∨ r = 3 ∨ r = 4 ∨ r = 5 ∨ r = 6 ∨ r = 7) as C by lia
  end;
  clear H; destruct C as [-> | [-> | [-> | [-> | [-> | [-> | [-> | ->]]]]]]].

Lemma or_byte_ok bits i a :
  0 <= i < zlen bits →
  ∃ b, bits !! Z.to_nat i = Some b ∧ or_byte bits i a = Some (<[Z.to_nat i := Z.lor b a]> bits).
Proof.
  intros H. destruct (index_ok bits i H) as [b Hb]. exists b.
  unfold or_byte. rewrite Hb. simpl. unfold set_index.
  rewrite (proj2 (Z.leb_le 0 i)), (proj2 (Z.ltb_lt i _)) by lia.
  split; [|done]. unfold index in Hb. by rewrite (proj2 (Z.leb_le 0 i)) in Hb by lia.
Qed.

Lemma set_index_ok {A} (l : list A) i x :
  0 <= i < zlen l → set_index l i x = Some (<[Z.to_nat i := x]> l).
Proof.
  intros. unfold set_index.
  by rewrite (proj2 (Z.leb_le 0 i)), (proj2 (Z.ltb_lt i _)) by lia.
Qed.

Section setters.
Variables (bits : bytes) (pos : Z).
Hypothesis Hpos : 0 <= pos.
Hypothesis Hclear : clear_from bits pos.

Lemma set1_sets : pos / 8 < zlen bits → ∃ b', set1 bits pos = Some b' ∧ sets bits b' pos 1.
Proof using Hpos Hclear.
  intros Hlen. assert (0 <= pos / 8) by (apply Z.div_pos; lia). unfold set1.
  assert (∃ a, index lookup_tbl (pos mod 8) = Some a ∧ pattern_ok (pos mod 8) 1 a 0 0 = true)
    as (a & -> & Ha) by (mod8 pos; eexists; split; vm_compute; reflexivity).
  simpl. destruct (or_byte_ok bits (pos / 8) a ltac:(lia)) as (b & Hb & ->).
  eexists; split; [done|].
  by apply (write_sets bits pos 1 a None None b); auto; lia.
Qed.

Lemma setN_sets flag k :
  2 <= k <= 7 → flag = 0xFFFF - (2 ^ (16 - k) - 1) → pos / 8 + 1 < zlen bits →
  ∃ b', setN flag bits pos = Some b' ∧ sets bits b' pos k.
Proof using Hpos Hclear.
  intros Hk Hflag Hlen. assert (0 <= pos / 8) by (apply Z.div_pos; lia). unfold setN.
  set (a := Z.shiftr flag (pos mod 8)).
  assert (Hpat : pattern_ok (pos mod 8) k (Z.shiftr a 8 mod 256) (a mod 256) 0 = true).
  { subst a. assert (k = 2 ∨ k = 3 ∨ k = 4 ∨ k = 5 ∨ k = 6 ∨ k = 7)
      as [->|[->|[->|[->|[->| ->]]]]] by lia;
    rewrite Hflag; clear; mod8 pos; vm_compute; reflexivity. }
  destruct (or_byte_ok bits (pos / 8) (Z.shiftr a 8 mod 256) ltac:(lia)) as (b & Hb & ->).
  simpl. destruct (Z.eqb_spec (a mod 256) 0) as [E|E]; simpl.
  - eexists; split; [done|].
    apply (write_sets bits pos k _ None None b); auto; try lia. by rewrite E in Hpat.
  - rewrite set_index_ok by (unfold zlen in *; rewrite length_insert; lia).
    rewrite Z2Nat.inj_add by lia. eexists; split; [done|].
    apply (write_sets bits pos k _ (Some (a mod 256)) None b); auto; try lia.
    left. unfold zlen in Hlen. lia.
Qed.

Lemma set8_sets : pos / 8 + 1 < zlen bits → ∃ b', set8 bits pos = Some b' ∧ sets bits b' pos 8.
Proof using Hpos Hclear.
  intros Hlen. assert (0 <= pos / 8) by (apply Z.div_pos; lia). unfold set8.
  set (a := Z.shiftr 0xFF (pos mod 8)).
  assert (Hpat : pattern_ok (pos mod 8) 8 a (Z.lxor a 0xFF) 0 = true)
    by (subst a; mod8 pos; vm_compute; reflexivity).
  destruct (or_byte_ok bits (pos / 8) a ltac:(lia)) as (b & Hb & ->). simpl.
  rewrite set_index_ok by (unfold zlen in *; rewrite length_insert; lia).
  rewrite Z2Nat.inj_add by lia. eexists; split; [done|].
  apply (write_sets bits pos 8 _ (Some (Z.lxor a 0xFF)) None b); auto; try lia.
  left. unfold zlen in Hlen. lia.
Qed.

Lemma set16_sets : pos / 8 + 2 < zlen bits → ∃ b', set16 bits pos = Some b' ∧ sets bits b' pos 16.
Proof using Hpos Hclear.
  intros Hlen. assert (0 <= pos / 8) by (apply Z.div_pos; lia). unfold set16.
  set (a := Z.shiftr 0xFF (pos mod 8)).
  assert (Hpat : pattern_ok (pos mod 8) 16 a 0xFF (Z.lxor a 0xFF) = true)
    by (subst a; mod8 pos; vm_compute; reflexivity).
  destruct (or_byte_ok bits (pos / 8) a ltac:(lia)) as (b & Hb & ->). simpl.
  rewrite set_index_ok by (unfold zlen in *; rewrite length_insert; lia). simpl.
  rewrite set_index_ok by (unfold zlen in *; rewrite !length_insert; lia).
  rewrite !Z2Nat.inj_add by lia. eexists; split; [done|].
  apply (write_sets bits pos 16 _ (Some 0xFF) (Some (Z.lxor a 0xFF)) b); auto; try lia;
    left; unfold zlen in Hlen; lia.
Qed.
End setters.

Lemma sets_clear bits bits' pos k :
  0 <= pos → 0 <= k → clear_from bits pos → sets bits bits' pos k → clear_from bits' (pos + k).
Proof.
  intros Hp Hk Hc [_ Hs] i Hi. rewrite Hs, Hc by lia. simpl.
  apply andb_false_iff. right. apply Z.ltb_ge. lia.
Qed.

Lemma sets_trans b0 b1 b2 p k1 k2 :
  0 <= k1 → 0 <= k2 → sets b0 b1 p k1 → sets b1 b2 (p + k1) k2 → sets b0 b2 p (k1 + k2).
Proof.
  intros ?? [L1 H1] [L2 H2]. split; [congruence|]. intros i Hi.
  rewrite H2, H1 by done. rewrite <- orb_assoc. f_equal.
  apply eq_true_iff_eq. rewrite orb_true_iff, !andb_true_iff, !Z.leb_le, !Z.ltb_lt. lia.
Qed.

Lemma sets_refl b p : sets b b p 0.
Proof.
  split; [done|]. intros i _. symmetry. rewrite <- (orb_false_r (bit b i)) at 2. f_equal.
  apply andb_false_iff. rewrite Z.leb_gt, Z.ltb_ge. lia.
Qed.

Lemma bulk_sets w set L stop :
  0 < w →
  (∀ bits pos, length bits = L → 0 <= pos → pos + w <= stop → clear_from bits pos →
     ∃ b', set bits pos = Some b' ∧ sets bits b' pos w) →
  ∀ turns bits pc n, length bits = L → 0 <= pc → 0 <= n < w * (Z.of_nat turns + 1) →
    pc + n = stop → clear_from bits pc →
    ∃ b' pc' n', bulk w set turns bits pc n = Some (b', pc', n') ∧
      sets bits b' pc (pc' - pc) ∧ (∃ m, pc' = pc + w * m ∧ 0 <= m) ∧ 0 <= n' < w ∧
      pc' + n' = stop.
Proof.
  intros Hw Hset turns. induction turns as [|t IH]; intros bits pc n HL Hpc Hn Hstop Hc.
  - simpl. exists bits, pc, n. rewrite Z.sub_diag. split; [done|].
    split; [apply sets_refl|]. split; [exists 0; lia|lia].
  - simpl. destruct (Z.leb_spec w n) as [Hle|Hlt].
    + destruct (Hset bits pc HL Hpc ltac:(lia) Hc) as (b1 & -> & S1). simpl.
      destruct (IH b1 (pc + w) (n - w)) as (b' & pc' & n' & E & S2 & (m & ? & ?) & ? & ?).
      * destruct S1; congruence.
      * lia.
      * lia.
      * lia.
      * eapply sets_clear; eauto; lia.
      * exists b', pc', n'. split; [done|]. split; [|split; [exists (m + 1); lia|lia]].
        replace (pc' - pc) with (w + (pc' - (pc + w))) by lia.
        eapply sets_trans; eauto; nia.
    + exists bits, pc, n. rewrite Z.sub_diag. split; [done|].
      split; [apply sets_refl|]. split; [exists 0; lia|lia].
Qed.

Arguments bulk : simpl never.

Lemma set_rest_sets bits pc n :
  0 <= pc → 0 <= n < 8 → clear_from bits pc → (n = 0 ∨ pc / 8 + 1 < zlen bits) →
  ∃ b', set_rest bits pc n = Some (b', pc + n) ∧ sets bits b' pc n.
Proof.
  intros Hpc Hn Hc Hl.
  assert (n = 0 ∨ n = 1 ∨ n = 2 ∨ n = 3 ∨ n = 4 ∨ n = 5 ∨ n = 6 ∨ n = 7)
    as [->|Hn'] by lia.
  { simpl. exists bits. rewrite Z.add_0_r. split; [done|apply sets_refl]. }
  destruct Hl as [->|Hl]; [lia|].
  destruct Hn' as [->|Hn'].
  { destruct (set1_sets bits pc Hpc Hc ltac:(lia)) as (b & E & S).
    exists b. simpl. rewrite E. done. }
  assert (HN : ∀ flag, set_rest bits pc n = (λ b, (b, pc + n)) <$> setN flag bits pc →
     flag = 0xFFFF - (2 ^ (16 - n) - 1) →
     ∃ b', set_rest bits pc n = Some (b', pc + n) ∧ sets bits b' pc n).
  { intros flag E Hf. destruct (setN_sets bits pc Hpc Hc flag n) as (b & E' & S); try lia.
    exists b. rewrite E, E'. done. }
  destruct Hn' as [->|[->|[->|[->|[->| ->]]]]]; eapply HN; done.
Qed.

Lemma mark_push_sets bits pc n :
  0 <= pc → 1 <= n <= 32 → clear_from bits pc → pc / 8 + 4 < zlen bits →
  ∃ b', mark_push bits pc n = Some (b', pc + n) ∧ sets bits b' pc n.
Proof.
  intros Hpc Hn Hc Hl. unfold mark_push.
  destruct (Z.leb_spec 8 n) as [Hge|Hlt]; simpl.
  2: { apply set_rest_sets; try lia; done. }
  assert (Hdiv : ∀ p k, 0 <= k → p + 8 * k <= pc + 32 → p / 8 + k <= pc / 8 + 4).
  { intros p k Hk Hp. rewrite <- Z.div_add, <- (Z.div_add pc 4) by lia.
    apply Z.div_le_mono; lia. }
  edestruct (bulk_sets 16 set16 (length bits) (pc + n)) with (turns := 4%nat)
    (bits := bits) (pc := pc) (n := n) as (b1 & pc1 & n1 & E1 & S1 & (m1 & ? & ?) & ? & ?);
    [lia| |done|lia|lia|lia|done|].
  { intros b p Lb ?? Hcb. apply set16_sets; auto. unfold zlen in *. rewrite Lb.
    specialize (Hdiv p 2). lia. }
  rewrite E1. simpl.
  assert (Hc1 : clear_from b1 pc1).
  { replace pc1 with (pc + (pc1 - pc)) by lia. eapply sets_clear; eauto; lia. }
  assert (L1 : length b1 = length bits) by (by destruct S1).
  edestruct (bulk_sets 8 set8 (length bits) (pc + n)) with (turns := 4%nat)
    (bits := b1) (pc := pc1) (n := n1) as (b2 & pc2 & n2 & E2 & S2 & (m2 & ? & ?) & ? & ?);
    [lia| |done|lia|lia|lia|done|].
  { intros b p Lb ?? Hcb. apply set8_sets; auto. unfold zlen in *. rewrite Lb.
    specialize (Hdiv p 1). lia. }
  rewrite E2. simpl.
  assert (L2 : length b2 = length bits) by (destruct S2; congruence).
  destruct (set_rest_sets b2 pc2 n2) as (b3 & E3 & S3); [lia|lia| | |].
  { replace pc2 with (pc1 + (pc2 - pc1)) by lia. eapply sets_clear; eauto; lia. }
  { destruct (decide (n2 = 0)); [by left|right]. unfold zlen in *. rewrite L2.
    specialize (Hdiv pc2 1). lia. }
  exists b3. rewrite E3. split; [do 2 f_equal; lia|].
  replace n with ((pc1 - pc) + ((pc2 - pc1) + n2)) by lia.
  eapply sets_trans; [lia|lia|exact S1|].
  replace (pc + (pc1 - pc)) with pc1 by lia.
  eapply sets_trans; [lia|lia|exact S2|].
  by replace (pc1 + (pc2 - pc1)) with pc2 by lia.
Qed.

(** ** The whole analysis agrees with the reference *)

(** What is known after the bytes before [pc] were treated: the vector is exact
    below [pc] and clear from [pc] on. *)
Definition analysed (code bits : bytes) (pc : Z) : Prop :=
  length bits = Z.to_nat (zlen code / 8 + 1 + 4) ∧ clear_from bits pc ∧
  ∀ i, 0 <= i < pc → i < zlen code → push_data 0 code !! Z.to_nat i = Some (bit bits i).

Lemma push_data_drop code skip n :
  push_data skip code !! n =
  match n with
  | O => (λ _, match skip with S _ => true | O => false end) <$> head code
  | S m => match code with
           | [] => None
           | b :: c => push_data (match skip with S k => k | O => push_size b end) c !! m
           end
  end.
Proof. destruct code as [|b c], n, skip; done. Qed.

(** Bytes of an operand are data, and the walk resumes after them. *)
Lemma push_data_skip k code n :
  push_data k code !! n =
  if decide (n < k)%nat then (λ _, true) <$> code !! n else push_data 0 (drop k code) !! (n - k)%nat.
Proof.
  revert k n. induction code as [|b c IH]; intros k n.
  - rewrite drop_nil. simpl. case_decide; done.
  - destruct k as [|k]; [rewrite drop_0, Nat.sub_0_r; case_decide; [lia|done]|].
    destruct n as [|n]; [done|]. simpl. rewrite IH.
    repeat case_decide; try lia; done.
Qed.

(** Position [pc] is an instruction start: the walk from there is the tail. *)
Definition boundary (code : bytes) (pc : nat) : Prop :=
  ∀ n, push_data 0 code !! (pc + n)%nat = push_data 0 (drop pc code) !! n.

Lemma boundary_next code pc b :
  boundary code pc → code !! pc = Some b →
  (∀ n, push_data 0 code !! (pc + 1 + n)%nat = push_data (push_size b) (drop (pc + 1) code) !! n) ∧
  boundary code (pc + 1 + push_size b).
Proof.
  intros Hb Hc.
  assert (Hd : drop pc code = b :: drop (pc + 1) code)
    by (rewrite Nat.add_1_r; by apply drop_S).
  assert (H1 : ∀ n, push_data 0 code !! (pc + 1 + n)%nat
                    = push_data (push_size b) (drop (pc + 1) code) !! n).
  { intros n. rewrite <- Nat.add_assoc. rewrite Hb, Hd. done. }
  split; [done|]. intros n.
  rewrite <- Nat.add_assoc, H1, push_data_skip.
  case_decide; [lia|]. rewrite drop_drop. f_equal. lia.
Qed.

Lemma boundary_head code pc b :
  boundary code pc → code !! pc = Some b → push_data 0 code !! pc = Some false.
Proof.
  intros Hb Hc. rewrite <- (Nat.add_0_r pc), Hb.
  rewrite (drop_S code b pc Hc). done.
Qed.

Lemma analysed_op code bits pc :
  0 <= pc → analysed code bits pc → push_data 0 code !! Z.to_nat pc = Some false →
  analysed code bits (pc + 1).
Proof.
  intros Hpc (HL & Hc & Hd) Hpd. split; [done|]. split; [intros i ?; apply Hc; lia|].
  intros i Hi Hlt. destruct (decide (i = pc)) as [->|]; [|apply Hd; lia].
  by rewrite Hpd, Hc by lia.
Qed.

Lemma analysed_push code bits pc b n bits' :
  0 <= pc → n = Z.of_nat (push_size b) → code !! Z.to_nat pc = Some b →
  boundary code (Z.to_nat pc) →
  analysed code bits pc → sets bits bits' (pc + 1) n → analysed code bits' (pc + 1 + n).
Proof.
  intros Hpc -> Hb Hbd Ha Hs.
  destruct (boundary_next code _ b Hbd Hb) as [Hdata _].
  pose proof (boundary_head code _ b Hbd Hb) as Hhead.
  destruct (analysed_op code bits pc Hpc Ha Hhead) as (HL & Hc & Hd).
  split; [destruct Hs; congruence|]. split; [eapply sets_clear; eauto; lia|].
  intros i Hi Hlt. destruct Hs as [_ Hs]. rewrite Hs by lia.
  destruct (Z.lt_ge_cases i (pc + 1)) as [Hlt1|Hge1].
  - rewrite Hd by lia. rewrite (proj2 (Z.leb_gt _ _)), orb_false_r by lia. done.
  - rewrite (Hc i), (proj2 (Z.leb_le _ _)), (proj2 (Z.ltb_lt _ _)) by lia. simpl.
    replace (Z.to_nat i) with (Z.to_nat pc + 1 + (Z.to_nat i - Z.to_nat pc - 1))%nat by lia.
    rewrite Hdata, push_data_skip. rewrite decide_True by lia.
    rewrite lookup_drop.
    replace (Z.to_nat pc + 1 + (Z.to_nat i - Z.to_nat pc - 1))%nat with (Z.to_nat i) by lia.
    destruct (lookup_lt_is_Some_2 code (Z.to_nat i)) as [x ->]; [|done].
    unfold zlen in Hlt. lia.
Qed.

Lemma push_size_case op :
  if (op <? PUSH1) || (PUSH32 <? op) then push_size op = 0%nat
  else Z.of_nat (push_size op) = op - PUSH1 + 1 ∧ 1 <= op - PUSH1 + 1 <= 32.
Proof.
  unfold push_size. destruct ((op <? PUSH1) || (PUSH32 <? op)) eqn:E; [done|].
  zbool. unfold PUSH1, PUSH32 in *. lia.
Qed.

Lemma codeBitmapInternal_ok code fuel bits pc :
  0 <= pc → Z.max 0 (zlen code - pc) < Z.of_nat fuel → analysed code bits pc →
  boundary code (Z.to_nat pc) →
  ∃ bits' pc', codeBitmapInternal fuel code bits pc = Some bits' ∧ analysed code bits' pc'
    ∧ zlen code <= pc'.
Proof.
  revert bits pc. induction fuel as [|fuel IH]; intros bits pc Hpc Hf Ha Hb.

  { lia. }
  cbn [codeBitmapInternal].
  destruct (Z.ltb_spec pc (zlen code)) as [Hlt|Hge]; [|exists bits, pc; auto].
  destruct (index_ok code pc ltac:(lia)) as [op Hop]. rewrite Hop. cbn [mbind option_bind].
  assert (Hop' : code !! Z.to_nat pc = Some op)
    by (unfold index in Hop; by rewrite (proj2 (Z.leb_le 0 pc)) in Hop by lia).
  pose proof (push_size_case op) as Hsz.
  destruct (boundary_next code _ op Hb Hop') as [_ Hnext].
  destruct ((op <? PUSH1) || (PUSH32 <? op)).
  - apply IH; [lia|lia| |].
    + apply analysed_op; auto. by eapply boundary_head.
    + rewrite Hsz in Hnext. by replace (Z.to_nat (pc + 1)) with (Z.to_nat pc + 1 + 0)%nat by lia.
  - destruct Hsz as [Hsz Hr].
    destruct (mark_push_sets bits (pc + 1) (op - PUSH1 + 1)) as (b' & E & Hs); [lia|done| | |].
    + destruct Ha as (_ & Hc & _). intros i ?. apply Hc. lia.
    + destruct Ha as (HL & _ & _). unfold zlen at 1. rewrite HL.
      pose proof (Z.div_le_mono (pc + 1) (zlen code) 8 ltac:(lia) ltac:(lia)).
      assert (0 <= (pc + 1) / 8) by (apply Z.div_pos; lia). lia.
    + rewrite E. cbn [mbind option_bind fst snd]. apply IH; [lia|lia| |].
      * eapply analysed_push; eauto.
      * by replace (Z.to_nat (pc + 1 + (op - PUSH1 + 1)))
          with (Z.to_nat pc + 1 + push_size op)%nat by lia.
Qed.

Lemma length_push_data skip code : length (push_data skip code) = length code.
Proof. revert skip. induction code; intros [|]; simpl; auto. Qed.

Lemma land_bit b n : 0 <= n → (Z.land b (2 ^ n) =? 0) = negb (Z.testbit b n).
Proof.
  intros Hn. destruct (Z.testbit b n) eqn:E; simpl.
  - apply Z.eqb_neq. intros H. apply (f_equal (λ x, Z.testbit x n)) in H.
    rewrite Z.land_spec, Z.pow2_bits_true, E, Z.testbit_0_l in H by lia. done.
  - apply Z.eqb_eq. apply Z.bits_inj'. intros m Hm.
    rewrite Z.land_spec, Z.pow2_bits_eqb, Z.testbit_0_l by lia.
    destruct (Z.eqb_spec n m) as [->|]; [by rewrite E|apply andb_false_r].
Qed.

(** [codeSegment] reads one bit of the vector. *)
Lemma codeSegment_bit bits pos :
  0 <= pos → pos / 8 < zlen bits → codeSegment bits pos = Some (negb (bit bits pos)).
Proof.
  intros Hp Hl. assert (Hq : 0 <= pos / 8) by (apply Z.div_pos; lia).
  unfold codeSegment, index, bit. rewrite (proj2 (Z.leb_le 0 _)) by lia.
  destruct (lookup_lt_is_Some_2 bits (Z.to_nat (pos / 8))) as [b ->];
    [unfold zlen in Hl; lia|].
  simpl. f_equal. rewrite <- land_bit by (pose proof (Z.mod_pos_bound pos 8); lia).
  assert (Hpow : Z.shiftr 128 (pos mod 8) = 2 ^ (7 - pos mod 8))
    by (mod8 pos; reflexivity).
  by rewrite Hpow.
Qed.

Lemma codeBitmap_spec code :
  ∃ bits, codeBitmap code = Some bits ∧
    ∀ pos, 0 <= pos < zlen code → codeSegment bits pos = Some (is_opcode code pos).
Proof.
  pose proof (zlen_nonneg code) as Hz.
  assert (H8 : 0 <= zlen code / 8) by (apply Z.div_pos; lia).
  destruct (codeBitmapInternal_ok code (S (length code)) (zeros (zlen code / 8 + 1 + 4)) 0)
    as (bits & pc & E & (HL & _ & Hd) & Hpc).
  - lia.
  - unfold zlen. lia.
  - split; [by unfold zeros; rewrite length_replicate|]. split; [apply zeros_clear; lia|lia].
  - intros n. by rewrite drop_0.
  - exists bits. split; [exact E|]. intros pos Hp.
    pose proof (Z.div_le_mono pos (zlen code) 8 ltac:(lia) ltac:(lia)).
    assert (Hbl : zlen bits = zlen code / 8 + 5) by (unfold zlen at 1; rewrite HL; lia).
    rewrite codeSegment_bit by lia.
    unfold is_opcode. rewrite Hd by lia. done.
Qed.
