(* ===== verification/VmState.v ===== *)
(** * EVM state and execution monad ([core/vm]: interface, interpreter, contract)

    The world state is the interface [StateDB] of [interface.go], given here as a
    class of operations; the EVM only ever goes through it.  [evm] is the mutable
    part of the Go objects [EVM] and [EVMInterpreter] (one interpreter is shared by
    all frames of a transaction), [env] their constant part, and [mstate] adds what
    one run of the interpreter keeps: program counter, stack, memory, contract. *)

From S2P Require Import Prelude Uint256 Params VmData VmAnalysis.

Record Log := {
  log_Address : Address;
  log_Topics : list Hash;
  log_Data : bytes;
  log_BlockNumber : Z;
}.

(** ** The [StateDB] interface; [None] is a panic of the operation *)

Class StateDB (S : Type) := {
  CreateAccount : Address → S → S;
  SubBalance : Address → Z → S → S;
  AddBalance : Address → Z → S → S;
  GetBalance : S → Address → Z;
  GetNonce : S → Address → Z;
  SetNonce : Address → Z → S → S;
  GetCodeHash : S → Address → Hash;
  GetCode : S → Address → bytes;
  SetCode : Address → bytes → S → S;
  GetCodeSize : S → Address → Z;
  AddRefund : Z → S → S;
  SubRefund : Z → S → option S;
  GetRefund : S → Z;
  GetCommittedState : S → Address → Hash → Hash;
  GetState : S → Address → Hash → Hash;
  SetState : Address → Hash → Hash → S → S;
  Suicide : Address → S → bool * S;
  HasSuicided : S → Address → bool;
  Exist : S → Address → bool;
  Empty : S → Address → bool;
  AddressInAccessList : S → Address → bool;
  SlotInAccessList : S → Address → Hash → bool * bool;
  AddAddressToAccessList : Address → S → S;
  AddSlotToAccessList : Address → Hash → S → S;
  RevertToSnapshot : Z → S → option S;
  Snapshot : S → Z * S;
  AddLog : Log → S → S;
  AddPreimage : Hash → bytes → S → S;
}.

(** The process-wide LRU cache of jump-destination bitmaps ([hashicorp/golang-lru]). *)
Class BitmapCache (C : Type) := {
  cache_Get : Hash → C → option bytes * C;
  cache_Add : Hash → bytes → C → C;
}.

Section vm_state.
Context {U : Uint256} {S C : Type} {SDB : StateDB S} {BC : BitmapCache C}.

(** ** The constant part: block, transaction, rules, configuration, libraries *)

Record PrecompiledContract := {
  RequiredGas : bytes → Z;
  Run_precompiled : bytes → bytes * option vmerror;
}.

Record env := {
  chainRules : Rules;
  chainID : Z;
  CanTransfer : S → Address → Z → bool;
  Transfer : Address → Address → Z → S → S;
  GetHash : Z → Hash;
  Coinbase : Address;
  GasLimit : Z;
  BlockNumber : Z;
  Time : Z;
  Difficulty : Z;
  Origin : Address;
  GasPrice : Z;
  NoRecursion : bool;
  EnablePreimageRecording : bool;
  Keccak256Hash : bytes → Hash;
  CreateAddress : Address → Z → Address;
  CreateAddress2 : Address → Hash → Hash → Address;
  precompile : Address → option PrecompiledContract;
}.

(** ** The mutable part *)

Record evm := {
  sdb : S;
  depth : Z;
  callGasTemp : Z;
  readOnly : bool;
  returnData : bytes;
  jumpdests : gmap Hash bytes;
  bitmapCache : C;
}.

Record mstate := {
  pc : Z;
  stack : Stack;
  mem : Memory;
  contract : Contract;
  vm : evm;
}.

Definition set_sdb (e : evm) (s : S) : evm := {|
  sdb := s; depth := depth e; callGasTemp := callGasTemp e; readOnly := readOnly e;
  returnData := returnData e; jumpdests := jumpdests e; bitmapCache := bitmapCache e |}.
Definition set_depth (e : evm) (d : Z) : evm := {|
  sdb := sdb e; depth := d; callGasTemp := callGasTemp e; readOnly := readOnly e;
  returnData := returnData e; jumpdests := jumpdests e; bitmapCache := bitmapCache e |}.
Definition set_callGasTemp (e : evm) (g : Z) : evm := {|
  sdb := sdb e; depth := depth e; callGasTemp := g; readOnly := readOnly e;
  returnData := returnData e; jumpdests := jumpdests e; bitmapCache := bitmapCache e |}.
Definition set_readOnly (e : evm) (b : bool) : evm := {|
  sdb := sdb e; depth := depth e; callGasTemp := callGasTemp e; readOnly := b;
  returnData := returnData e; jumpdests := jumpdests e; bitmapCache := bitmapCache e |}.
Definition set_returnData (e : evm) (r : bytes) : evm := {|
  sdb := sdb e; depth := depth e; callGasTemp := callGasTemp e; readOnly := readOnly e;
  returnData := r; jumpdests := jumpdests e; bitmapCache := bitmapCache e |}.
Definition set_caches (e : evm) (j : gmap Hash bytes) (c : C) : evm := {|
  sdb := sdb e; depth := depth e; callGasTemp := callGasTemp e; readOnly := readOnly e;
  returnData := returnData e; jumpdests := j; bitmapCache := c |}.

Definition set_pc (m : mstate) (p : Z) : mstate :=
  {| pc := p; stack := stack m; mem := mem m; contract := contract m; vm := vm m |}.
Definition set_stack (m : mstate) (s : Stack) : mstate :=
  {| pc := pc m; stack := s; mem := mem m; contract := contract m; vm := vm m |}.
Definition set_mem (m : mstate) (x : Memory) : mstate :=
  {| pc := pc m; stack := stack m; mem := x; contract := contract m; vm := vm m |}.
Definition set_contract (m : mstate) (c : Contract) : mstate :=
  {| pc := pc m; stack := stack m; mem := mem m; contract := c; vm := vm m |}.
Definition set_vm (m : mstate) (e : evm) : mstate :=
  {| pc := pc m; stack := stack m; mem := mem m; contract := contract m; vm := e |}.

(** ** The calls an instruction can make back into the EVM ([evm.go])

    Each returns the output, the gas left and the error, as the Go methods do. *)

Definition EM (A : Type) : Type := M vmerror evm A.
Definition XM (A : Type) : Type := M vmerror mstate A.

Record evm_calls := {
  Call : ContractRef → Address → bytes → Z → Z → EM (bytes * Z * option vmerror);
  CallCode : ContractRef → Address → bytes → Z → Z → EM (bytes * Z * option vmerror);
  DelegateCall : ContractRef → Address → bytes → Z → EM (bytes * Z * option vmerror);
  StaticCall : ContractRef → Address → bytes → Z → EM (bytes * Z * option vmerror);
  Create : ContractRef → bytes → Z → Z → EM (bytes * Address * Z * option vmerror);
  Create2 : ContractRef → bytes → Z → Z → Int → EM (bytes * Address * Z * option vmerror);
}.

Definition lift {A} (m : EM A) : XM A := λ s,
  match m (vm s) with
  | Ret a e => Ret a (set_vm s e)
  | Fail er e => Fail er (set_vm s e)
  | Panic p => Panic p
  | NoFuel => NoFuel
  end.

(** ** Primitive actions of an instruction *)

Definition pop' : XM Int := λ s,
  match pop (stack s) with
  | Some (x, st) => Ret x (set_stack s st)
  | None => Panic PStack
  end.
Definition peek' : XM Int := λ s,
  match peek (stack s) with Some x => Ret x s | None => Panic PStack end.
Definition Back' (n : nat) : XM Int := λ s,
  match Back (stack s) n with Some x => Ret x s | None => Panic PStack end.
Definition set_peek' (x : Int) : XM unit := λ s,
  match set_peek (stack s) x with
  | Some st => Ret tt (set_stack s st)
  | None => Panic PStack
  end.
Definition push' (x : Int) : XM unit := λ s, Ret tt (set_stack s (push (stack s) x)).
Definition dup' (n : nat) : XM unit := λ s,
  match dup (stack s) n with Some st => Ret tt (set_stack s st) | None => Panic PStack end.
Definition swap' (n : nat) : XM unit := λ s,
  match swap (stack s) n with Some st => Ret tt (set_stack s st) | None => Panic PStack end.

Definition GetPtr' (offset size : Z) : XM bytes := λ s,
  match GetPtr (mem s) offset size with Some b => Ret b s | None => Panic PMemory end.
Definition GetCopy' (offset size : Z) : XM bytes := λ s,
  match GetCopy (mem s) offset size with Some b => Ret b s | None => Panic PMemory end.
Definition MemSet' (offset size : Z) (v : bytes) : XM unit := λ s,
  match Memory_Set (mem s) offset size v with
  | Some m => Ret tt (set_mem s m)
  | None => Panic PMemory
  end.
Definition MemSet32' (offset : Z) (v : Int) : XM unit := λ s,
  match Memory_Set32 (mem s) offset v with
  | Some m => Ret tt (set_mem s m)
  | None => Panic PMemory
  end.
Definition MemSetByte' (off b : Z) : XM unit := λ s,
  match Memory_SetByte (mem s) off b with
  | Some m => Ret tt (set_mem s m)
  | None => Panic PMemory
  end.

Definition get_contract : XM Contract := gets contract.
Definition get_db {A} (f : S → A) : XM A := gets (λ s, f (sdb (vm s))).
Definition upd_db (f : S → S) : XM unit :=
  modify (λ s, set_vm s (set_sdb (vm s) (f (sdb (vm s))))).
Definition upd_db_opt (f : S → option S) : XM unit := λ s,
  match f (sdb (vm s)) with
  | Some d => Ret tt (set_vm s (set_sdb (vm s) d))
  | None => Panic PStateDB
  end.
Definition put_pc (p : Z) : XM unit := modify (λ s, set_pc s p).

(** [contract.UseGas(g)], true on success. *)
Definition UseGas' (g : Z) : XM bool := λ s,
  match UseGas (contract s) g with
  | Some c => Ret true (set_contract s c)
  | None => Ret false s
  end.
(** [contract.Gas += g]. *)
Definition addGas (g : Z) : XM unit :=
  modify (λ s, set_contract s (set_Gas (contract s) (add64 (Gas (contract s)) g))).

(** ** Jump destinations ([contract.go]) *)

(** [isCode], with its three levels of caching. *)
Definition isCode (udest : Z) : XM bool := λ s,
  let c := contract s in
  let e := vm s in
  let answer (a : bytes) (e : evm) : outcome vmerror mstate bool :=
    match codeSegment a udest with
    | Some b => Ret b (set_vm (set_contract s (set_analysis c (Some a))) e)
    | None => Panic PBitmap
    end in
  match analysis c with
  | Some a => match codeSegment a udest with Some b => Ret b s | None => Panic PBitmap end
  | None =>
      if negb (CodeHash c =? 0) then
        match jumpdests e !! CodeHash c with
        | Some a => answer a e
        | None =>
            match cache_Get (CodeHash c) (bitmapCache e) with
            | (Some a, cache) => answer a (set_caches e (jumpdests e) cache)
            | (None, cache) =>
                match codeBitmap (Code c) with
                | Some a =>
                    answer a (set_caches e (<[CodeHash c := a]> (jumpdests e))
                                (cache_Add (CodeHash c) a cache))
                | None => Panic PBitmap
                end
            end
        end
      else
        match codeBitmap (Code c) with
        | Some a => answer a e
        | None => Panic PBitmap
        end
  end.

Definition validJumpdest (dest : Int) : XM bool :=
  let! c := get_contract in
  let '(udest, overflow) := Uint64WithOverflow dest in
  if overflow || (zlen (Code c) <=? udest) then ret false
  else
    let! op := or_panic PSlice (index (Code c) udest) in
    if negb (op =? JUMPDEST) then ret false
    else isCode udest.
End vm_state.

Arguments PrecompiledContract : clear implicits.
Arguments env S : clear implicits.
Arguments evm S C : clear implicits.
Arguments mstate {U} S C.
Arguments evm_calls {U} S C.
Arguments EM S C A : clear implicits.
Arguments XM {U} S C A.
