(* ===== verification/VmGas.v ===== *)
(** * Dynamic gas ([core/vm/gas_table.go], [core/vm/operations_acl.go])

    One definition per [gasFunc].  Each takes the requested memory size and runs in
    the execution monad, because the Go functions record the memory fee, move the
    refund counter, fill the access list, set [evm.callGasTemp] and, for the
    EIP-2929 call variants, charge the contract. *)

From S2P Require Import Prelude Uint256 Params VmData VmAnalysis VmState.

Section vm_gas.
Context {U : Uint256} {S C : Type} {SDB : StateDB S} {BC : BitmapCache C}.
Variable E : env S.
Implicit Types memorySize : Z.

Definition gasFunc : Type := Z → XM S C Z.

(** [if gas, overflow = math.SafeAdd(gas, x); overflow { return 0, err }]. *)
Definition safe (p : Z * bool) : XM S C Z :=
  if p.2 : bool then fail ErrGasUintOverflow else ret p.1.

Definition memoryGasCost (newMemSize : Z) : XM S C Z := λ s,
  let m := mem s in
  if newMemSize =? 0 then Ret 0 s
  else if 0x1FFFFFFFE0 <? newMemSize then Fail ErrGasUintOverflow s
  else
    let newMemSizeWords := toWordSize newMemSize in
    let newMemSize := mul64 newMemSizeWords 32 in
    if Len m <? newMemSize then
      let square := mul64 newMemSizeWords newMemSizeWords in
      let linCoef := mul64 newMemSizeWords MemoryGas in
      let quadCoef := square / QuadCoeffDiv in
      let newTotalFee := add64 linCoef quadCoef in
      let fee := sub64 newTotalFee (lastGasCost m) in
      Ret fee (set_mem s {| store := store m; lastGasCost := newTotalFee |})
    else Ret 0 s.

Definition memoryCopierGas (stackpos : nat) : gasFunc := λ memorySize,
  let! gas := memoryGasCost memorySize in
  let! w := Back' stackpos in
  let! words := safe (Uint64WithOverflow w) in
  let! words := safe (SafeMul (toWordSize words) CopyGas) in
  safe (SafeAdd gas words).

Definition gasCallDataCopy : gasFunc := memoryCopierGas 2.
Definition gasCodeCopy : gasFunc := memoryCopierGas 2.
Definition gasExtCodeCopy : gasFunc := memoryCopierGas 3.
Definition gasReturnDataCopy : gasFunc := memoryCopierGas 2.

(** The address whose storage the running contract uses. *)
Definition this : XM S C Address := gets (λ s, Contract_Address (contract s)).

Definition gasSStore : gasFunc := λ memorySize,
  let! y := Back' 1 in
  let! x := Back' 0 in
  let! addr := this in
  let! current := get_db (λ db, GetState db addr (Bytes32 x)) in
  if rIsPetersburg (chainRules E) || negb (rIsConstantinople (chainRules E)) then
    if (current =? 0) && negb (Sign y =? 0) then ret SstoreSetGas
    else if negb (current =? 0) && (Sign y =? 0) then
      do! upd_db (AddRefund SstoreRefundGas) in ret SstoreClearGas
    else ret SstoreResetGas
  else
    let val := Bytes32 y in
    if current =? val then ret NetSstoreNoopGas
    else
      let! original := get_db (λ db, GetCommittedState db addr (Bytes32 x)) in
      if original =? current then
        if original =? 0 then ret NetSstoreInitGas
        else
          do! (if val =? 0 then upd_db (AddRefund NetSstoreClearRefund) else ret tt) in
          ret NetSstoreCleanGas
      else
        do! (if negb (original =? 0) then
               if current =? 0 then upd_db_opt (SubRefund NetSstoreClearRefund)
               else if val =? 0 then upd_db (AddRefund NetSstoreClearRefund)
               else ret tt
             else ret tt) in
        do! (if original =? val then
               if original =? 0 then upd_db (AddRefund NetSstoreResetClearRefund)
               else upd_db (AddRefund NetSstoreResetRefund)
             else ret tt) in
        ret NetSstoreDirtyGas.

Definition gasSStoreEIP2200 : gasFunc := λ memorySize,
  let! c := get_contract in
  when! Gas c <=? SstoreSentryGasEIP2200 raise ErrReentrancySentry in
  let! y := Back' 1 in
  let! x := Back' 0 in
  let! addr := this in
  let! current := get_db (λ db, GetState db addr (Bytes32 x)) in
  let val := Bytes32 y in
  if current =? val then ret SloadGasEIP2200
  else
    let! original := get_db (λ db, GetCommittedState db addr (Bytes32 x)) in
    if original =? current then
      if original =? 0 then ret SstoreSetGasEIP2200
      else
        do! (if val =? 0 then upd_db (AddRefund SstoreClearsScheduleRefundEIP2200)
             else ret tt) in
        ret SstoreResetGasEIP2200
    else
      do! (if negb (original =? 0) then
             if current =? 0 then upd_db_opt (SubRefund SstoreClearsScheduleRefundEIP2200)
             else if val =? 0 then upd_db (AddRefund SstoreClearsScheduleRefundEIP2200)
             else ret tt
           else ret tt) in
      do! (if original =? val then
             if original =? 0 then
               upd_db (AddRefund (SstoreSetGasEIP2200 - SloadGasEIP2200))
             else upd_db (AddRefund (SstoreResetGasEIP2200 - SloadGasEIP2200))
           else ret tt) in
      ret SloadGasEIP2200.

Definition makeGasLog (n : Z) : gasFunc := λ memorySize,
  let! sz := Back' 1 in
  let! requestedSize := safe (Uint64WithOverflow sz) in
  let! gas := memoryGasCost memorySize in
  let! gas := safe (SafeAdd gas LogGas) in
  let! gas := safe (SafeAdd gas (mul64 n LogTopicGas)) in
  let! memorySizeGas := safe (SafeMul requestedSize LogDataGas) in
  safe (SafeAdd gas memorySizeGas).

Definition gasHashed (stackpos : nat) : gasFunc := λ memorySize,
  let! gas := memoryGasCost memorySize in
  let! w := Back' stackpos in
  let! wordGas := safe (Uint64WithOverflow w) in
  let! wordGas := safe (SafeMul (toWordSize wordGas) Sha3WordGas) in
  safe (SafeAdd gas wordGas).

Definition gasSha3 : gasFunc := gasHashed 1.
Definition gasCreate2 : gasFunc := gasHashed 2.

Definition pureMemoryGascost : gasFunc := λ memorySize, memoryGasCost memorySize.
Definition gasReturn : gasFunc := pureMemoryGascost.
Definition gasRevert : gasFunc := pureMemoryGascost.
Definition gasMLoad : gasFunc := pureMemoryGascost.
Definition gasMStore8 : gasFunc := pureMemoryGascost.
Definition gasMStore : gasFunc := pureMemoryGascost.
Definition gasCreate : gasFunc := pureMemoryGascost.

Definition gasExp (byteGas : Z) : gasFunc := λ memorySize,
  let! e := Back' 1 in
  let expByteLen := (BitLen e + 7) / 8 in
  safe (SafeAdd (mul64 expByteLen byteGas) ExpGas).
Definition gasExpFrontier : gasFunc := gasExp ExpByteFrontier.
Definition gasExpEIP158 : gasFunc := gasExp ExpByteEIP158.

(** [evm.callGasTemp, err = callGas(isEIP150, contract.Gas, gas, stack.Back(0))],
    then [gas + callGasTemp] with the overflow check. *)
Definition with_callGas (gas : Z) : XM S C Z :=
  let! c := get_contract in
  let! cost := Back' 0 in
  match callGas (rIsEIP150 (chainRules E)) (Gas c) gas cost with
  | inl g =>
      do! modify (λ s, set_vm s (set_callGasTemp (vm s) g)) in
      safe (SafeAdd gas g)
  | inr err =>
      (* the assignment also happens on the error path, with the value 0 *)
      do! modify (λ s, set_vm s (set_callGasTemp (vm s) 0)) in
      fail err
  end.

Definition gasCall : gasFunc := λ memorySize,
  let! v := Back' 2 in
  let! a := Back' 1 in
  let transfersValue := negb (IsZero v) in
  let address := Bytes20 a in
  let! db := get_db id in
  let newAccount :=
    if rIsEIP158 (chainRules E) then transfersValue && Empty db address
    else negb (Exist db address) in
  let gas := if newAccount then CallNewAccountGas else 0 in
  let gas := if transfersValue then add64 gas CallValueTransferGas else gas in
  let! memoryGas := memoryGasCost memorySize in
  let! gas := safe (SafeAdd gas memoryGas) in
  with_callGas gas.

Definition gasCallCode : gasFunc := λ memorySize,
  let! memoryGas := memoryGasCost memorySize in
  let! v := Back' 2 in
  let gas := if negb (Sign v =? 0) then CallValueTransferGas else 0 in
  let! gas := safe (SafeAdd gas memoryGas) in
  with_callGas gas.

Definition gasDelegateCall : gasFunc := λ memorySize,
  let! gas := memoryGasCost memorySize in
  with_callGas gas.

Definition gasStaticCall : gasFunc := λ memorySize,
  let! gas := memoryGasCost memorySize in
  with_callGas gas.

Definition gasSelfdestruct : gasFunc := λ memorySize,
  let! gas :=
    (if rIsEIP150 (chainRules E) then
       let! b := Back' 0 in
       let address := Bytes20 b in
       let! addr := this in
       let! db := get_db id in
       if rIsEIP158 (chainRules E) then
         ret (if Empty db address && negb (GetBalance db addr =? 0)
              then SelfdestructGasEIP150 + CreateBySelfdestructGas
              else SelfdestructGasEIP150)
       else
         ret (if negb (Exist db address)
              then SelfdestructGasEIP150 + CreateBySelfdestructGas
              else SelfdestructGasEIP150)
     else ret 0) in
  let! addr := this in
  let! done := get_db (λ db, HasSuicided db addr) in
  do! (if negb done then upd_db (AddRefund SelfdestructRefundGas) else ret tt) in
  ret gas.

(** ** EIP-2929 ([operations_acl.go]) *)

Definition ColdAccountAccessCostEIP2929 : Z := 2600.
Definition ColdSloadCostEIP2929 : Z := 2100.
Definition WarmStorageReadCostEIP2929 : Z := 100.

Definition gasSStoreEIP2929 : gasFunc := λ memorySize,
  let! c := get_contract in
  when! Gas c <=? SstoreSentryGasEIP2200 raise ErrReentrancySentry in
  let! y := Back' 1 in
  let! x := peek' in
  let slot := Bytes32 x in
  let! addr := this in
  let! current := get_db (λ db, GetState db addr slot) in
  let! present := get_db (λ db, SlotInAccessList db addr slot) in
  let! cost :=
    (if negb present.2 then
       do! upd_db (AddSlotToAccessList addr slot) in
       if negb present.1 then throw PExplicit else ret ColdSloadCostEIP2929
     else ret 0) in
  let val := Bytes32 y in
  if current =? val then ret (cost + WarmStorageReadCostEIP2929)
  else
    let! original := get_db (λ db, GetCommittedState db addr (Bytes32 x)) in
    if original =? current then
      if original =? 0 then ret (cost + SstoreSetGasEIP2200)
      else
        do! (if val =? 0 then upd_db (AddRefund SstoreClearsScheduleRefundEIP2200)
             else ret tt) in
        ret (cost + (SstoreResetGasEIP2200 - ColdSloadCostEIP2929))
    else
      do! (if negb (original =? 0) then
             if current =? 0 then upd_db_opt (SubRefund SstoreClearsScheduleRefundEIP2200)
             else if val =? 0 then upd_db (AddRefund SstoreClearsScheduleRefundEIP2200)
             else ret tt
           else ret tt) in
      do! (if original =? val then
             if original =? 0 then
               upd_db (AddRefund (SstoreSetGasEIP2200 - WarmStorageReadCostEIP2929))
             else
               upd_db (AddRefund (SstoreResetGasEIP2200 - ColdSloadCostEIP2929
                                  - WarmStorageReadCostEIP2929))
           else ret tt) in
      ret (cost + WarmStorageReadCostEIP2929).

Definition gasSLoadEIP2929 : gasFunc := λ memorySize,
  let! loc := peek' in
  let slot := Bytes32 loc in
  let! addr := this in
  let! present := get_db (λ db, SlotInAccessList db addr slot) in
  if negb present.2 then
    do! upd_db (AddSlotToAccessList addr slot) in ret ColdSloadCostEIP2929
  else ret WarmStorageReadCostEIP2929.

Definition gasExtCodeCopyEIP2929 : gasFunc := λ memorySize,
  let! gas := gasExtCodeCopy memorySize in
  let! a := peek' in
  let addr := Bytes20 a in
  let! warm := get_db (λ db, AddressInAccessList db addr) in
  if negb warm then
    do! upd_db (AddAddressToAccessList addr) in
    safe (SafeAdd gas (ColdAccountAccessCostEIP2929 - WarmStorageReadCostEIP2929))
  else ret gas.

Definition gasEip2929AccountCheck : gasFunc := λ memorySize,
  let! a := peek' in
  let addr := Bytes20 a in
  let! warm := get_db (λ db, AddressInAccessList db addr) in
  if negb warm then
    do! upd_db (AddAddressToAccessList addr) in
    ret (ColdAccountAccessCostEIP2929 - WarmStorageReadCostEIP2929)
  else ret 0.

Definition makeCallVariantGasCallEIP2929 (oldCalculator : gasFunc) : gasFunc := λ memorySize,
  let! a := Back' 1 in
  let addr := Bytes20 a in
  let! warmAccess := get_db (λ db, AddressInAccessList db addr) in
  let coldCost := ColdAccountAccessCostEIP2929 - WarmStorageReadCostEIP2929 in
  do! (if negb warmAccess then
         do! upd_db (AddAddressToAccessList addr) in
         let! ok := UseGas' coldCost in
         if negb ok then fail ErrOutOfGas else ret tt
       else ret tt) in
  let! gas := oldCalculator memorySize in
  if warmAccess : bool then ret gas
  else
    do! addGas coldCost in
    ret (add64 gas coldCost).

Definition gasCallEIP2929 : gasFunc := makeCallVariantGasCallEIP2929 gasCall.
Definition gasDelegateCallEIP2929 : gasFunc := makeCallVariantGasCallEIP2929 gasDelegateCall.
Definition gasStaticCallEIP2929 : gasFunc := makeCallVariantGasCallEIP2929 gasStaticCall.
Definition gasCallCodeEIP2929 : gasFunc := makeCallVariantGasCallEIP2929 gasCallCode.

Definition gasSelfdestructEIP2929 : gasFunc := λ memorySize,
  let! b := peek' in
  let address := Bytes20 b in
  let! addr := this in
  let! warm := get_db (λ db, AddressInAccessList db address) in
  let! gas :=
    (if negb warm then
       do! upd_db (AddAddressToAccessList address) in ret ColdAccountAccessCostEIP2929
     else ret 0) in
  let! db := get_db id in
  let gas := if Empty db address && negb (GetBalance db addr =? 0)
             then gas + CreateBySelfdestructGas else gas in
  let! done := get_db (λ db, HasSuicided db addr) in
  do! (if negb done then upd_db (AddRefund SelfdestructRefundGas) else ret tt) in
  ret gas.
End vm_gas.
