(* ===== verification/VmInstr.v ===== *)
(** * EVM instructions ([core/vm/instructions.go], and the two of [core/vm/eips.go])

    One definition per [executionFunc].  The Go functions overwrite the top of the
    stack in place through [peek]; here that is [peek'] followed by [set_peek'].  The
    instructions that re-enter the EVM take the six entry points of [evm.go] as the
    record [evm_calls].  The result is the byte slice the Go function returns
    ([[]] for [nil]). *)

From S2P Require Import Prelude Uint256 Params VmData VmAnalysis VmState.

Section vm_instr.
Context {U : Uint256} {S C : Type} {SDB : StateDB S} {BC : BitmapCache C}.
Variable E : env S.
Variable K : evm_calls S C.

Definition executionFunc : Type := XM S C bytes.

Definition nil_result : XM S C bytes := ret [].

(** [x, y := stack.pop(), stack.peek(); *y = f(x, *y)]. *)
Definition binop (f : Int → Int → Int) : executionFunc :=
  let! x := pop' in
  let! y := peek' in
  do! set_peek' (f x y) in
  nil_result.

(** [SetOne] or [Clear]. *)
Definition of_bool (b : bool) : Int := if b then IntOne else IntZero.

Definition opAdd : executionFunc := binop Add.
Definition opSub : executionFunc := binop Sub.
Definition opMul : executionFunc := binop Mul.
Definition opDiv : executionFunc := binop Div.
Definition opSdiv : executionFunc := binop SDiv.
Definition opMod : executionFunc := binop Mod.
Definition opSmod : executionFunc := binop SMod.
Definition opExp : executionFunc := binop Exp.
Definition opSignExtend : executionFunc := binop (λ back num, ExtendSign num back).
Definition opNot : executionFunc :=
  let! x := peek' in do! set_peek' (Not x) in nil_result.
Definition opLt : executionFunc := binop (λ x y, of_bool (Lt x y)).
Definition opGt : executionFunc := binop (λ x y, of_bool (Gt x y)).
Definition opSlt : executionFunc := binop (λ x y, of_bool (Slt x y)).
Definition opSgt : executionFunc := binop (λ x y, of_bool (Sgt x y)).
Definition opEq : executionFunc := binop (λ x y, of_bool (Eq x y)).
Definition opIszero : executionFunc :=
  let! x := peek' in do! set_peek' (of_bool (IsZero x)) in nil_result.
Definition opAnd : executionFunc := binop And.
Definition opOr : executionFunc := binop Or.
Definition opXor : executionFunc := binop Xor.
Definition opByte : executionFunc := binop (λ th val, Byte val th).

Definition opAddmod : executionFunc :=
  let! x := pop' in
  let! y := pop' in
  let! z := peek' in
  do! set_peek' (if IsZero z then IntZero else AddMod x y z) in
  nil_result.
Definition opMulmod : executionFunc :=
  let! x := pop' in
  let! y := pop' in
  let! z := peek' in
  do! set_peek' (MulMod x y z) in
  nil_result.

Definition opSHL : executionFunc :=
  binop (λ shift value, if LtUint64 shift 256 then Lsh value (Uint64 shift) else IntZero).
Definition opSHR : executionFunc :=
  binop (λ shift value, if LtUint64 shift 256 then Rsh value (Uint64 shift) else IntZero).
Definition opSAR : executionFunc :=
  binop (λ shift value,
    if GtUint64 shift 256
    then if 0 <=? Sign value then IntZero else IntAllOne
    else SRsh value (Uint64 shift)).

Definition opSha3 : executionFunc :=
  let! offset := pop' in
  let! size := peek' in
  let! data := GetPtr' (s64 (Uint64 offset)) (s64 (Uint64 size)) in
  let hasherBuf := Keccak256Hash E data in
  do! (if EnablePreimageRecording E then upd_db (AddPreimage hasherBuf data) else ret tt) in
  do! set_peek' (SetBytes (be_encode 32 hasherBuf)) in
  nil_result.

(** [stack.push(f(contract))]. *)
Definition pushes (f : mstate S C → Int) : executionFunc :=
  let! x := gets f in
  do! push' x in
  nil_result.

(** [new(uint256.Int).SetBytes(a.Bytes())] for an address and for a hash. *)
Definition of_address (a : Address) : Int := SetBytes (be_encode 20 a).
Definition of_hash (h : Hash) : Int := SetBytes (be_encode 32 h).

Definition opAddress : executionFunc :=
  pushes (λ s, of_address (Contract_Address (contract s))).
Definition opBalance : executionFunc :=
  let! slot := peek' in
  let! balance := get_db (λ db, GetBalance db (Bytes20 slot)) in
  do! set_peek' (FromBig balance) in
  nil_result.
Definition opOrigin : executionFunc := pushes (λ _, of_address (Origin E)).
Definition opCaller : executionFunc := pushes (λ s, of_address (Caller (contract s))).
Definition opCallValue : executionFunc := pushes (λ s, FromBig (value (contract s))).

Definition opCallDataLoad : executionFunc :=
  let! x := peek' in
  let '(offset, overflow) := Uint64WithOverflow x in
  do! (if negb overflow then
         let! c := get_contract in
         let! data := or_panic PSlice (getData (Input c) offset 32) in
         set_peek' (SetBytes data)
       else set_peek' IntZero) in
  nil_result.

Definition opCallDataSize : executionFunc :=
  pushes (λ s, SetUint64 (zlen (Input (contract s)))).

(** [getData(src, offset, length)] copied into memory; an offset that does not
    fit in 64 bits reads as [0xffffffffffffffff]. *)
Definition saturated (x : Int) : Z :=
  let '(v, overflow) := Uint64WithOverflow x in
  if overflow : bool then 0xffffffffffffffff else v.
Definition copy_data (src : bytes) (memOffset dataOffset length : Int) : XM S C unit :=
  let! data := or_panic PSlice (getData src (saturated dataOffset) (Uint64 length)) in
  MemSet' (Uint64 memOffset) (Uint64 length) data.

Definition opCallDataCopy : executionFunc :=
  let! memOffset := pop' in
  let! dataOffset := pop' in
  let! length := pop' in
  let! c := get_contract in
  do! copy_data (Input c) memOffset dataOffset length in
  nil_result.

Definition opReturnDataSize : executionFunc :=
  pushes (λ s, SetUint64 (zlen (returnData (vm s)))).

Definition opReturnDataCopy : executionFunc :=
  let! memOffset := pop' in
  let! dataOffset := pop' in
  let! length := pop' in
  let '(offset64, overflow) := Uint64WithOverflow dataOffset in
  when! overflow raise ErrReturnDataOutOfBounds in
  let '(end64, overflow) := Uint64WithOverflow (Add dataOffset length) in
  let! rd := gets (λ s, returnData (vm s)) in
  when! overflow || (zlen rd <? end64) raise ErrReturnDataOutOfBounds in
  let! d := or_panic PSlice (slice rd offset64 end64) in
  do! MemSet' (Uint64 memOffset) (Uint64 length) d in
  nil_result.

Definition opExtCodeSize : executionFunc :=
  let! slot := peek' in
  let! n := get_db (λ db, GetCodeSize db (Bytes20 slot)) in
  do! set_peek' (SetUint64 (u64 n)) in
  nil_result.

Definition opCodeSize : executionFunc :=
  pushes (λ s, SetUint64 (zlen (Code (contract s)))).

Definition opCodeCopy : executionFunc :=
  let! memOffset := pop' in
  let! codeOffset := pop' in
  let! length := pop' in
  let! c := get_contract in
  do! copy_data (Code c) memOffset codeOffset length in
  nil_result.

Definition opExtCodeCopy : executionFunc :=
  let! a := pop' in
  let! memOffset := pop' in
  let! codeOffset := pop' in
  let! length := pop' in
  let! code := get_db (λ db, GetCode db (Bytes20 a)) in
  do! copy_data code memOffset codeOffset length in
  nil_result.

Definition opExtCodeHash : executionFunc :=
  let! slot := peek' in
  let address := Bytes20 slot in
  let! db := get_db id in
  do! set_peek' (if Empty db address then IntZero
                 else of_hash (GetCodeHash db address)) in
  nil_result.

Definition opGasprice : executionFunc := pushes (λ _, FromBig (GasPrice E)).

Definition opBlockhash : executionFunc :=
  let! num := peek' in
  let '(num64, overflow) := Uint64WithOverflow num in
  if overflow : bool then do! set_peek' IntZero in nil_result
  else
    let upper := u64 (BlockNumber E) in
    let lower := if upper <? 257 then 0 else sub64 upper 256 in
    do! set_peek' (if (lower <=? num64) && (num64 <? upper)
                   then of_hash (GetHash E num64) else IntZero) in
    nil_result.

Definition opCoinbase : executionFunc := pushes (λ _, of_address (Coinbase E)).
Definition opTimestamp : executionFunc := pushes (λ _, FromBig (Time E)).
Definition opNumber : executionFunc := pushes (λ _, FromBig (BlockNumber E)).
Definition opDifficulty : executionFunc := pushes (λ _, FromBig (Difficulty E)).
Definition opGasLimit : executionFunc := pushes (λ _, SetUint64 (GasLimit E)).

Definition opPop : executionFunc := do! pop' in nil_result.

Definition opMload : executionFunc :=
  let! v := peek' in
  let! d := GetPtr' (s64 (Uint64 v)) 32 in
  do! set_peek' (SetBytes d) in
  nil_result.
Definition opMstore : executionFunc :=
  let! mStart := pop' in
  let! val := pop' in
  do! MemSet32' (Uint64 mStart) val in
  nil_result.
Definition opMstore8 : executionFunc :=
  let! off := pop' in
  let! val := pop' in
  do! MemSetByte' (Uint64 off) (Uint64 val mod 256) in
  nil_result.

Definition opSload : executionFunc :=
  let! loc := peek' in
  let! c := get_contract in
  let! val := get_db (λ db, GetState db (Contract_Address c) (Bytes32 loc)) in
  do! set_peek' (of_hash val) in
  nil_result.
Definition opSstore : executionFunc :=
  let! loc := pop' in
  let! val := pop' in
  let! c := get_contract in
  do! upd_db (SetState (Contract_Address c) (Bytes32 loc) (Bytes32 val)) in
  nil_result.

Definition opJump : executionFunc :=
  let! pos := pop' in
  let! valid := validJumpdest pos in
  when! negb valid raise ErrInvalidJump in
  do! put_pc (Uint64 pos) in
  nil_result.
Definition opJumpi : executionFunc :=
  let! pos := pop' in
  let! cond := pop' in
  if negb (IsZero cond) then
    let! valid := validJumpdest pos in
    when! negb valid raise ErrInvalidJump in
    do! put_pc (Uint64 pos) in
    nil_result
  else
    let! p := gets pc in
    do! put_pc (add64 p 1) in
    nil_result.
Definition opJumpdest : executionFunc := nil_result.

Definition opPc : executionFunc := pushes (λ s, SetUint64 (pc s)).
Definition opMsize : executionFunc := pushes (λ s, SetUint64 (Len (mem s))).
Definition opGas : executionFunc := pushes (λ s, SetUint64 (Gas (contract s))).

(** ** Contract creation *)

(** [big0], or [value.ToBig()] when it is not zero. *)
Definition bigVal (v : Int) : Z := if negb (IsZero v) then ToBig v else 0.

(** [res] when the creation was reverted, [nil] otherwise. *)
Definition revert_data (res : bytes) (suberr : option vmerror) : bytes :=
  if bool_decide (suberr = Some ErrExecutionReverted) then res else [].

Definition opCreate : executionFunc :=
  let! val := pop' in
  let! offset := pop' in
  let! size := pop' in
  let! input := GetCopy' (s64 (Uint64 offset)) (s64 (Uint64 size)) in
  let! c := get_contract in
  let gas := Gas c in
  let gas := if rIsEIP150 (chainRules E) then sub64 gas (gas / 64) else gas in
  do! UseGas' gas in
  let! (res, addr, returnGas, suberr) :=
    lift (Create K (as_ref c) input gas (bigVal val)) in
  let stackvalue :=
    if rIsHomestead (chainRules E) && bool_decide (suberr = Some ErrCodeStoreOutOfGas)
    then IntZero
    else if negb (bool_decide (suberr = None)) &&
            negb (bool_decide (suberr = Some ErrCodeStoreOutOfGas)) then IntZero
    else of_address addr in
  do! push' stackvalue in
  do! addGas returnGas in
  ret (revert_data res suberr).

Definition opCreate2 : executionFunc :=
  let! endowment := pop' in
  let! offset := pop' in
  let! size := pop' in
  let! salt := pop' in
  let! input := GetCopy' (s64 (Uint64 offset)) (s64 (Uint64 size)) in
  let! c := get_contract in
  let gas := sub64 (Gas c) (Gas c / 64) in
  do! UseGas' gas in
  let! (res, addr, returnGas, suberr) :=
    lift (Create2 K (as_ref c) input gas (bigVal endowment) salt) in
  do! push' (if bool_decide (suberr = None) then of_address addr else IntZero) in
  do! addGas returnGas in
  ret (revert_data res suberr).

(** ** Message calls *)

(** What every call does with the answer: the status word, the output copied to
    memory unless the call failed outright, the gas given back. *)
Definition finish_call (retOffset retSize : Int)
    (r : bytes * Z * option vmerror) : executionFunc :=
  let '(out, returnGas, err) := r in
  do! push' (if bool_decide (err = None) then IntOne else IntZero) in
  do! (if bool_decide (err = None) || bool_decide (err = Some ErrExecutionReverted)
       then MemSet' (Uint64 retOffset) (Uint64 retSize) out
       else ret tt) in
  do! addGas returnGas in
  ret out.

Definition stipend (v : Int) (gas : Z) : Z :=
  if negb (IsZero v) then add64 gas CallStipend else gas.

Definition opCall : executionFunc :=
  do! pop' in
  let! gas := gets (λ s, callGasTemp (vm s)) in
  let! addr := pop' in
  let! val := pop' in
  let! inOffset := pop' in
  let! inSize := pop' in
  let! retOffset := pop' in
  let! retSize := pop' in
  let! args := GetPtr' (s64 (Uint64 inOffset)) (s64 (Uint64 inSize)) in
  let! c := get_contract in
  let! r := lift (Call K (as_ref c) (Bytes20 addr) args (stipend val gas) (bigVal val)) in
  finish_call retOffset retSize r.

Definition opCallCode : executionFunc :=
  do! pop' in
  let! gas := gets (λ s, callGasTemp (vm s)) in
  let! addr := pop' in
  let! val := pop' in
  let! inOffset := pop' in
  let! inSize := pop' in
  let! retOffset := pop' in
  let! retSize := pop' in
  let! args := GetPtr' (s64 (Uint64 inOffset)) (s64 (Uint64 inSize)) in
  let! c := get_contract in
  let! r := lift (CallCode K (as_ref c) (Bytes20 addr) args (stipend val gas) (bigVal val)) in
  finish_call retOffset retSize r.

Definition opDelegateCall : executionFunc :=
  do! pop' in
  let! gas := gets (λ s, callGasTemp (vm s)) in
  let! addr := pop' in
  let! inOffset := pop' in
  let! inSize := pop' in
  let! retOffset := pop' in
  let! retSize := pop' in
  let! args := GetPtr' (s64 (Uint64 inOffset)) (s64 (Uint64 inSize)) in
  let! c := get_contract in
  let! r := lift (DelegateCall K (as_ref c) (Bytes20 addr) args gas) in
  finish_call retOffset retSize r.

Definition opStaticCall : executionFunc :=
  do! pop' in
  let! gas := gets (λ s, callGasTemp (vm s)) in
  let! addr := pop' in
  let! inOffset := pop' in
  let! inSize := pop' in
  let! retOffset := pop' in
  let! retSize := pop' in
  let! args := GetPtr' (s64 (Uint64 inOffset)) (s64 (Uint64 inSize)) in
  let! c := get_contract in
  let! r := lift (StaticCall K (as_ref c) (Bytes20 addr) args gas) in
  finish_call retOffset retSize r.

(** ** Halting *)

Definition opReturn : executionFunc :=
  let! offset := pop' in
  let! size := pop' in
  GetPtr' (s64 (Uint64 offset)) (s64 (Uint64 size)).
Definition opRevert : executionFunc :=
  let! offset := pop' in
  let! size := pop' in
  GetPtr' (s64 (Uint64 offset)) (s64 (Uint64 size)).
Definition opStop : executionFunc := nil_result.
Definition opSuicide : executionFunc :=
  let! beneficiary := pop' in
  let! c := get_contract in
  let! balance := get_db (λ db, GetBalance db (Contract_Address c)) in
  do! upd_db (AddBalance (Bytes20 beneficiary) balance) in
  do! upd_db (λ db, (Suicide (Contract_Address c) db).2) in
  nil_result.

(** ** Families of instructions *)

Fixpoint pop_topics (n : nat) : XM S C (list Hash) :=
  match n with
  | O => ret []
  | Datatypes.S n =>
      let! t := pop' in
      let! ts := pop_topics n in
      ret (Bytes32 t :: ts)
  end.
Definition makeLog (size : nat) : executionFunc :=
  let! mStart := pop' in
  let! mSize := pop' in
  let! topics := pop_topics size in
  let! d := GetCopy' (s64 (Uint64 mStart)) (s64 (Uint64 mSize)) in
  let! c := get_contract in
  do! upd_db (AddLog {| log_Address := Contract_Address c; log_Topics := topics;
                        log_Data := d; log_BlockNumber := u64 (BlockNumber E) |}) in
  nil_result.

Definition opPush1 : executionFunc :=
  let! c := get_contract in
  let codeLen := zlen (Code c) in
  let! p := gets pc in
  let p := add64 p 1 in
  do! put_pc p in
  do! (if p <? codeLen then
         let! b := or_panic PSlice (index (Code c) p) in
         push' (SetUint64 b)
       else push' IntZero) in
  nil_result.

Definition makePush (size pushByteSize : Z) : executionFunc :=
  let! c := get_contract in
  let codeLen := zlen (Code c) in
  let! p := gets pc in
  let next := s64 (add64 p 1) in
  let startMin := if next <? codeLen then next else codeLen in
  let endMin := if startMin + pushByteSize <? codeLen
                then startMin + pushByteSize else codeLen in
  let! d := or_panic PSlice (slice (Code c) startMin endMin) in
  do! push' (SetBytes (RightPadBytes d pushByteSize)) in
  do! put_pc (add64 p size) in
  nil_result.

Definition makeDup (size : nat) : executionFunc := do! dup' size in nil_result.
(** The operand is swapped with the [size + 1]st item. *)
Definition makeSwap (size : nat) : executionFunc :=
  do! swap' (Datatypes.S size) in nil_result.

(** ** [eips.go] *)

Definition opSelfBalance : executionFunc :=
  let! c := get_contract in
  let! balance := get_db (λ db, GetBalance db (Contract_Address c)) in
  do! push' (FromBig balance) in
  nil_result.
Definition opChainID : executionFunc := pushes (λ _, FromBig (chainID E)).
End vm_instr.
