(* ===== verification/VmJumpTable.v ===== *)
(** * Jump tables ([core/vm/jump_table.go], [core/vm/eips.go])

    [operation] is the struct of the same name; a [JumpTable] is the array of 256
    pointers, a missing key standing for a [nil] entry.  Every [newXInstructionSet]
    builds fresh operations, so the tables share nothing when the package is
    initialised.  [VmInterpreter] models the sharing that starts afterwards, when an
    interpreter copies one of them. *)

From S2P Require Import Prelude Uint256 Params VmData VmAnalysis VmState VmGas VmInstr.

Inductive op_flag := Halts | Jumps | Writes | Reverts | Returns.
#[export] Instance op_flag_eq_dec : EqDecision op_flag.
Proof. solve_decision. Defined.

Section jump_table.
Context {U : Uint256} {S C : Type} {SDB : StateDB S} {BC : BitmapCache C}.

Definition memorySizeFunc : Type := Stack → option (Z * bool).

Record operation := {
  execute : env S → evm_calls S C → XM S C bytes;
  constantGas : Z;
  dynamicGas : option (env S → Z → XM S C Z);
  op_minStack : Z;
  op_maxStack : Z;
  memorySize : option memorySizeFunc;
  halts : bool;
  jumps : bool;
  writes : bool;
  reverts : bool;
  returns : bool;
}.

(** A struct literal, the boolean fields given by the ones set to true. *)
Definition op_ ex gas dyn lo hi ms (fl : list op_flag) : operation := {|
  execute := ex; constantGas := gas; dynamicGas := dyn;
  op_minStack := lo; op_maxStack := hi; memorySize := ms;
  halts := bool_decide (Halts ∈ fl); jumps := bool_decide (Jumps ∈ fl);
  writes := bool_decide (Writes ∈ fl); reverts := bool_decide (Reverts ∈ fl);
  returns := bool_decide (Returns ∈ fl) |}.

Definition JumpTable : Type := gmap Z operation.

(** [jt[op].constantGas = g] and [jt[op].dynamicGas = f]. *)
Definition set_constantGas (g : Z) (o : operation) : operation := {|
  execute := execute o; constantGas := g; dynamicGas := dynamicGas o;
  op_minStack := op_minStack o; op_maxStack := op_maxStack o;
  memorySize := memorySize o; halts := halts o; jumps := jumps o;
  writes := writes o; reverts := reverts o; returns := returns o |}.
Definition set_dynamicGas (f : env S → Z → XM S C Z) (o : operation) : operation := {|
  execute := execute o; constantGas := constantGas o; dynamicGas := Some f;
  op_minStack := op_minStack o; op_maxStack := op_maxStack o;
  memorySize := memorySize o; halts := halts o; jumps := jumps o;
  writes := writes o; reverts := reverts o; returns := returns o |}.

(** ** Frontier *)

Definition frontier_part1 : list (Z * operation) := [
  (STOP, op_ (λ _ _, opStop) 0 None (minStack 0 0) (maxStack 0 0) None [Halts]);
  (ADD, op_ (λ _ _, opAdd) GasFastestStep None (minStack 2 1) (maxStack 2 1) None []);
  (MUL, op_ (λ _ _, opMul) GasFastStep None (minStack 2 1) (maxStack 2 1) None []);
  (SUB, op_ (λ _ _, opSub) GasFastestStep None (minStack 2 1) (maxStack 2 1) None []);
  (DIV, op_ (λ _ _, opDiv) GasFastStep None (minStack 2 1) (maxStack 2 1) None []);
  (SDIV, op_ (λ _ _, opSdiv) GasFastStep None (minStack 2 1) (maxStack 2 1) None []);
  (MOD, op_ (λ _ _, opMod) GasFastStep None (minStack 2 1) (maxStack 2 1) None []);
  (SMOD, op_ (λ _ _, opSmod) GasFastStep None (minStack 2 1) (maxStack 2 1) None []);
  (ADDMOD, op_ (λ _ _, opAddmod) GasMidStep None (minStack 3 1) (maxStack 3 1) None []);
  (MULMOD, op_ (λ _ _, opMulmod) GasMidStep None (minStack 3 1) (maxStack 3 1) None []);
  (EXP, op_ (λ _ _, opExp) 0 (Some (λ _, gasExpFrontier)) (minStack 2 1) (maxStack 2 1) None []);
  (SIGNEXTEND, op_ (λ _ _, opSignExtend) GasFastStep None (minStack 2 1) (maxStack 2 1) None []);
  (LT, op_ (λ _ _, opLt) GasFastestStep None (minStack 2 1) (maxStack 2 1) None []);
  (GT, op_ (λ _ _, opGt) GasFastestStep None (minStack 2 1) (maxStack 2 1) None []);
  (SLT, op_ (λ _ _, opSlt) GasFastestStep None (minStack 2 1) (maxStack 2 1) None []);
  (SGT, op_ (λ _ _, opSgt) GasFastestStep None (minStack 2 1) (maxStack 2 1) None []);
  (EQ, op_ (λ _ _, opEq) GasFastestStep None (minStack 2 1) (maxStack 2 1) None []);
  (ISZERO, op_ (λ _ _, opIszero) GasFastestStep None (minStack 1 1) (maxStack 1 1) None []);
  (AND, op_ (λ _ _, opAnd) GasFastestStep None (minStack 2 1) (maxStack 2 1) None []);
  (XOR, op_ (λ _ _, opXor) GasFastestStep None (minStack 2 1) (maxStack 2 1) None []);
  (OR, op_ (λ _ _, opOr) GasFastestStep None (minStack 2 1) (maxStack 2 1) None []);
  (NOT, op_ (λ _ _, opNot) GasFastestStep None (minStack 1 1) (maxStack 1 1) None []);
  (BYTE, op_ (λ _ _, opByte) GasFastestStep None (minStack 2 1) (maxStack 2 1) None []);
  (SHA3, op_ (λ E _, opSha3 E) Sha3Gas (Some (λ _, gasSha3)) (minStack 2 1) (maxStack 2 1) (Some memorySha3) [])
].

Definition frontier_part2 : list (Z * operation) := [
  (ADDRESS, op_ (λ _ _, opAddress) GasQuickStep None (minStack 0 1) (maxStack 0 1) None []);
  (BALANCE, op_ (λ _ _, opBalance) BalanceGasFrontier None (minStack 1 1) (maxStack 1 1) None []);
  (ORIGIN, op_ (λ E _, opOrigin E) GasQuickStep None (minStack 0 1) (maxStack 0 1) None []);
  (CALLER, op_ (λ _ _, opCaller) GasQuickStep None (minStack 0 1) (maxStack 0 1) None []);
  (CALLVALUE, op_ (λ _ _, opCallValue) GasQuickStep None (minStack 0 1) (maxStack 0 1) None []);
  (CALLDATALOAD, op_ (λ _ _, opCallDataLoad) GasFastestStep None (minStack 1 1) (maxStack 1 1) None []);
  (CALLDATASIZE, op_ (λ _ _, opCallDataSize) GasQuickStep None (minStack 0 1) (maxStack 0 1) None []);
  (CALLDATACOPY, op_ (λ _ _, opCallDataCopy) GasFastestStep (Some (λ _, gasCallDataCopy)) (minStack 3 0) (maxStack 3 0) (Some memoryCallDataCopy) []);
  (CODESIZE, op_ (λ _ _, opCodeSize) GasQuickStep None (minStack 0 1) (maxStack 0 1) None []);
  (CODECOPY, op_ (λ _ _, opCodeCopy) GasFastestStep (Some (λ _, gasCodeCopy)) (minStack 3 0) (maxStack 3 0) (Some memoryCodeCopy) []);
  (GASPRICE, op_ (λ E _, opGasprice E) GasQuickStep None (minStack 0 1) (maxStack 0 1) None []);
  (EXTCODESIZE, op_ (λ _ _, opExtCodeSize) ExtcodeSizeGasFrontier None (minStack 1 1) (maxStack 1 1) None []);
  (EXTCODECOPY, op_ (λ _ _, opExtCodeCopy) ExtcodeCopyBaseFrontier (Some (λ _, gasExtCodeCopy)) (minStack 4 0) (maxStack 4 0) (Some memoryExtCodeCopy) []);
  (BLOCKHASH, op_ (λ E _, opBlockhash E) GasExtStep None (minStack 1 1) (maxStack 1 1) None []);
  (COINBASE, op_ (λ E _, opCoinbase E) GasQuickStep None (minStack 0 1) (maxStack 0 1) None []);
  (TIMESTAMP, op_ (λ E _, opTimestamp E) GasQuickStep None (minStack 0 1) (maxStack 0 1) None []);
  (NUMBER, op_ (λ E _, opNumber E) GasQuickStep None (minStack 0 1) (maxStack 0 1) None []);
  (DIFFICULTY, op_ (λ E _, opDifficulty E) GasQuickStep None (minStack 0 1) (maxStack 0 1) None []);
  (GASLIMIT, op_ (λ E _, opGasLimit E) GasQuickStep None (minStack 0 1) (maxStack 0 1) None []);
  (POP, op_ (λ _ _, opPop) GasQuickStep None (minStack 1 0) (maxStack 1 0) None []);
  (MLOAD, op_ (λ _ _, opMload) GasFastestStep (Some (λ _, gasMLoad)) (minStack 1 1) (maxStack 1 1) (Some memoryMLoad) []);
  (MSTORE, op_ (λ _ _, opMstore) GasFastestStep (Some (λ _, gasMStore)) (minStack 2 0) (maxStack 2 0) (Some memoryMStore) [])
].

Definition frontier_part3 : list (Z * operation) := [
  (MSTORE8, op_ (λ _ _, opMstore8) GasFastestStep (Some (λ _, gasMStore8)) (minStack 2 0) (maxStack 2 0) (Some memoryMStore8) []);
  (SLOAD, op_ (λ _ _, opSload) SloadGasFrontier None (minStack 1 1) (maxStack 1 1) None []);
  (SSTORE, op_ (λ _ _, opSstore) 0 (Some gasSStore) (minStack 2 0) (maxStack 2 0) None [Writes]);
  (JUMP, op_ (λ _ _, opJump) GasMidStep None (minStack 1 0) (maxStack 1 0) None [Jumps]);
  (JUMPI, op_ (λ _ _, opJumpi) GasSlowStep None (minStack 2 0) (maxStack 2 0) None [Jumps]);
  (PC, op_ (λ _ _, opPc) GasQuickStep None (minStack 0 1) (maxStack 0 1) None []);
  (MSIZE, op_ (λ _ _, opMsize) GasQuickStep None (minStack 0 1) (maxStack 0 1) None []);
  (GAS, op_ (λ _ _, opGas) GasQuickStep None (minStack 0 1) (maxStack 0 1) None []);
  (JUMPDEST, op_ (λ _ _, opJumpdest) JumpdestGas None (minStack 0 0) (maxStack 0 0) None []);
  (PUSH1, op_ (λ _ _, opPush1) GasFastestStep None (minStack 0 1) (maxStack 0 1) None []);
  (PUSH2, op_ (λ _ _, makePush 2 2) GasFastestStep None (minStack 0 1) (maxStack 0 1) None []);
  (PUSH3, op_ (λ _ _, makePush 3 3) GasFastestStep None (minStack 0 1) (maxStack 0 1) None []);
  (PUSH4, op_ (λ _ _, makePush 4 4) GasFastestStep None (minStack 0 1) (maxStack 0 1) None []);
  (PUSH5, op_ (λ _ _, makePush 5 5) GasFastestStep None (minStack 0 1) (maxStack 0 1) None []);
  (PUSH6, op_ (λ _ _, makePush 6 6) GasFastestStep None (minStack 0 1) (maxStack 0 1) None []);
  (PUSH7, op_ (λ _ _, makePush 7 7) GasFastestStep None (minStack 0 1) (maxStack 0 1) None []);
  (PUSH8, op_ (λ _ _, makePush 8 8) GasFastestStep None (minStack 0 1) (maxStack 0 1) None []);
  (PUSH9, op_ (λ _ _, makePush 9 9) GasFastestStep None (minStack 0 1) (maxStack 0 1) None []);
  (PUSH10, op_ (λ _ _, makePush 10 10) GasFastestStep None (minStack 0 1) (maxStack 0 1) None []);
  (PUSH11, op_ (λ _ _, makePush 11 11) GasFastestStep None (minStack 0 1) (maxStack 0 1) None []);
  (PUSH12, op_ (λ _ _, makePush 12 12) GasFastestStep None (minStack 0 1) (maxStack 0 1) None []);
  (PUSH13, op_ (λ _ _, makePush 13 13) GasFastestStep None (minStack 0 1) (maxStack 0 1) None []);
  (PUSH14, op_ (λ _ _, makePush 14 14) GasFastestStep None (minStack 0 1) (maxStack 0 1) None [])
].

Definition frontier_part4 : list (Z * operation) := [
  (PUSH15, op_ (λ _ _, makePush 15 15) GasFastestStep None (minStack 0 1) (maxStack 0 1) None []);
  (PUSH16, op_ (λ _ _, makePush 16 16) GasFastestStep None (minStack 0 1) (maxStack 0 1) None []);
  (PUSH17, op_ (λ _ _, makePush 17 17) GasFastestStep None (minStack 0 1) (maxStack 0 1) None []);
  (PUSH18, op_ (λ _ _, makePush 18 18) GasFastestStep None (minStack 0 1) (maxStack 0 1) None []);
  (PUSH19, op_ (λ _ _, makePush 19 19) GasFastestStep None (minStack 0 1) (maxStack 0 1) None []);
  (PUSH20, op_ (λ _ _, makePush 20 20) GasFastestStep None (minStack 0 1) (maxStack 0 1) None []);
  (PUSH21, op_ (λ _ _, makePush 21 21) GasFastestStep None (minStack 0 1) (maxStack 0 1) None []);
  (PUSH22, op_ (λ _ _, makePush 22 22) GasFastestStep None (minStack 0 1) (maxStack 0 1) None []);
  (PUSH23, op_ (λ _ _, makePush 23 23) GasFastestStep None (minStack 0 1) (maxStack 0 1) None []);
  (PUSH24, op_ (λ _ _, makePush 24 24) GasFastestStep None (minStack 0 1) (maxStack 0 1) None []);
  (PUSH25, op_ (λ _ _, makePush 25 25) GasFastestStep None (minStack 0 1) (maxStack 0 1) None []);
  (PUSH26, op_ (λ _ _, makePush 26 26) GasFastestStep None (minStack 0 1) (maxStack 0 1) None []);
  (PUSH27, op_ (λ _ _, makePush 27 27) GasFastestStep None (minStack 0 1) (maxStack 0 1) None []);
  (PUSH28, op_ (λ _ _, makePush 28 28) GasFastestStep None (minStack 0 1) (maxStack 0 1) None []);
  (PUSH29, op_ (λ _ _, makePush 29 29) GasFastestStep None (minStack 0 1) (maxStack 0 1) None []);
  (PUSH30, op_ (λ _ _, makePush 30 30) GasFastestStep None (minStack 0 1) (maxStack 0 1) None []);
  (PUSH31, op_ (λ _ _, makePush 31 31) GasFastestStep None (minStack 0 1) (maxStack 0 1) None []);
  (PUSH32, op_ (λ _ _, makePush 32 32) GasFastestStep None (minStack 0 1) (maxStack 0 1) None []);
  (DUP1, op_ (λ _ _, makeDup 1) GasFastestStep None (minDupStack 1) (maxDupStack 1) None []);
  (DUP2, op_ (λ _ _, makeDup 2) GasFastestStep None (minDupStack 2) (maxDupStack 2) None []);
  (DUP3, op_ (λ _ _, makeDup 3) GasFastestStep None (minDupStack 3) (maxDupStack 3) None []);
  (DUP4, op_ (λ _ _, makeDup 4) GasFastestStep None (minDupStack 4) (maxDupStack 4) None []);
  (DUP5, op_ (λ _ _, makeDup 5) GasFastestStep None (minDupStack 5) (maxDupStack 5) None []);
  (DUP6, op_ (λ _ _, makeDup 6) GasFastestStep None (minDupStack 6) (maxDupStack 6) None [])
].

Definition frontier_part5 : list (Z * operation) := [
  (DUP7, op_ (λ _ _, makeDup 7) GasFastestStep None (minDupStack 7) (maxDupStack 7) None []);
  (DUP8, op_ (λ _ _, makeDup 8) GasFastestStep None (minDupStack 8) (maxDupStack 8) None []);
  (DUP9, op_ (λ _ _, makeDup 9) GasFastestStep None (minDupStack 9) (maxDupStack 9) None []);
  (DUP10, op_ (λ _ _, makeDup 10) GasFastestStep None (minDupStack 10) (maxDupStack 10) None []);
  (DUP11, op_ (λ _ _, makeDup 11) GasFastestStep None (minDupStack 11) (maxDupStack 11) None []);
  (DUP12, op_ (λ _ _, makeDup 12) GasFastestStep None (minDupStack 12) (maxDupStack 12) None []);
  (DUP13, op_ (λ _ _, makeDup 13) GasFastestStep None (minDupStack 13) (maxDupStack 13) None []);
  (DUP14, op_ (λ _ _, makeDup 14) GasFastestStep None (minDupStack 14) (maxDupStack 14) None []);
  (DUP15, op_ (λ _ _, makeDup 15) GasFastestStep None (minDupStack 15) (maxDupStack 15) None []);
  (DUP16, op_ (λ _ _, makeDup 16) GasFastestStep None (minDupStack 16) (maxDupStack 16) None []);
  (SWAP1, op_ (λ _ _, makeSwap 1) GasFastestStep None (minSwapStack 2) (maxSwapStack 2) None []);
  (SWAP2, op_ (λ _ _, makeSwap 2) GasFastestStep None (minSwapStack 3) (maxSwapStack 3) None []);
  (SWAP3, op_ (λ _ _, makeSwap 3) GasFastestStep None (minSwapStack 4) (maxSwapStack 4) None []);
  (SWAP4, op_ (λ _ _, makeSwap 4) GasFastestStep None (minSwapStack 5) (maxSwapStack 5) None []);
  (SWAP5, op_ (λ _ _, makeSwap 5) GasFastestStep None (minSwapStack 6) (maxSwapStack 6) None []);
  (SWAP6, op_ (λ _ _, makeSwap 6) GasFastestStep None (minSwapStack 7) (maxSwapStack 7) None []);
  (SWAP7, op_ (λ _ _, makeSwap 7) GasFastestStep None (minSwapStack 8) (maxSwapStack 8) None []);
  (SWAP8, op_ (λ _ _, makeSwap 8) GasFastestStep None (minSwapStack 9) (maxSwapStack 9) None []);
  (SWAP9, op_ (λ _ _, makeSwap 9) GasFastestStep None (minSwapStack 10) (maxSwapStack 10) None []);
  (SWAP10, op_ (λ _ _, makeSwap 10) GasFastestStep None (minSwapStack 11) (maxSwapStack 11) None []);
  (SWAP11, op_ (λ _ _, makeSwap 11) GasFastestStep None (minSwapStack 12) (maxSwapStack 12) None []);
  (SWAP12, op_ (λ _ _, makeSwap 12) GasFastestStep None (minSwapStack 13) (maxSwapStack 13) None []);
  (SWAP13, op_ (λ _ _, makeSwap 13) GasFastestStep None (minSwapStack 14) (maxSwapStack 14) None []);
  (SWAP14, op_ (λ _ _, makeSwap 14) GasFastestStep None (minSwapStack 15) (maxSwapStack 15) None [])
].

Definition frontier_part6 : list (Z * operation) := [
  (SWAP15, op_ (λ _ _, makeSwap 15) GasFastestStep None (minSwapStack 16) (maxSwapStack 16) None []);
  (SWAP16, op_ (λ _ _, makeSwap 16) GasFastestStep None (minSwapStack 17) (maxSwapStack 17) None []);
  (LOG0, op_ (λ E _, makeLog E 0) 0 (Some (λ _, makeGasLog 0)) (minStack 2 0) (maxStack 2 0) (Some memoryLog) [Writes]);
  (LOG1, op_ (λ E _, makeLog E 1) 0 (Some (λ _, makeGasLog 1)) (minStack 3 0) (maxStack 3 0) (Some memoryLog) [Writes]);
  (LOG2, op_ (λ E _, makeLog E 2) 0 (Some (λ _, makeGasLog 2)) (minStack 4 0) (maxStack 4 0) (Some memoryLog) [Writes]);
  (LOG3, op_ (λ E _, makeLog E 3) 0 (Some (λ _, makeGasLog 3)) (minStack 5 0) (maxStack 5 0) (Some memoryLog) [Writes]);
  (LOG4, op_ (λ E _, makeLog E 4) 0 (Some (λ _, makeGasLog 4)) (minStack 6 0) (maxStack 6 0) (Some memoryLog) [Writes]);
  (CREATE, op_ (λ E K, opCreate E K) CreateGas (Some (λ _, gasCreate)) (minStack 3 1) (maxStack 3 1) (Some memoryCreate) [Writes; Returns]);
  (CALL, op_ (λ _ K, opCall K) CallGasFrontier (Some gasCall) (minStack 7 1) (maxStack 7 1) (Some memoryCall) [Returns]);
  (CALLCODE, op_ (λ _ K, opCallCode K) CallGasFrontier (Some gasCallCode) (minStack 7 1) (maxStack 7 1) (Some memoryCall) [Returns]);
  (RETURN, op_ (λ _ _, opReturn) 0 (Some (λ _, gasReturn)) (minStack 2 0) (maxStack 2 0) (Some memoryReturn) [Halts]);
  (SELFDESTRUCT, op_ (λ _ _, opSuicide) 0 (Some gasSelfdestruct) (minStack 1 0) (maxStack 1 0) None [Halts; Writes])
].
Definition newFrontierInstructionSet : JumpTable :=
  list_to_map (frontier_part1 ++ frontier_part2 ++ frontier_part3 ++
               frontier_part4 ++ frontier_part5 ++ frontier_part6).

(** ** Changes to a table, in the order the source makes them *)

(** [AlterOp op f] is an assignment to a field of [jt[op]], through the pointer;
    [InsertOp op o] stores a fresh operation in the array. *)
Inductive patch := AlterOp (op : Z) (f : operation → operation) | InsertOp (op : Z) (o : operation).

Definition apply_patch (jt : JumpTable) (p : patch) : JumpTable :=
  match p with
  | AlterOp op f => alter f op jt
  | InsertOp op o => <[op := o]> jt
  end.
Definition apply_patches (jt : JumpTable) (ps : list patch) : JumpTable :=
  fold_left apply_patch ps jt.

Definition homestead_patch : list patch := [
  InsertOp DELEGATECALL (op_ (λ _ K, opDelegateCall K) CallGasFrontier (Some gasDelegateCall)
    (minStack 6 1) (maxStack 6 1) (Some memoryDelegateCall) [Returns])
].

Definition tangerineWhistle_patch : list patch := [
  AlterOp BALANCE (set_constantGas BalanceGasEIP150);
  AlterOp EXTCODESIZE (set_constantGas ExtcodeSizeGasEIP150);
  AlterOp SLOAD (set_constantGas SloadGasEIP150);
  AlterOp EXTCODECOPY (set_constantGas ExtcodeCopyBaseEIP150);
  AlterOp CALL (set_constantGas CallGasEIP150);
  AlterOp CALLCODE (set_constantGas CallGasEIP150);
  AlterOp DELEGATECALL (set_constantGas CallGasEIP150)
].

Definition spuriousDragon_patch : list patch := [
  AlterOp EXP (set_dynamicGas (λ _, gasExpEIP158))
].

Definition byzantium_patch : list patch := [
  InsertOp STATICCALL (op_ (λ _ K, opStaticCall K) CallGasEIP150 (Some gasStaticCall)
    (minStack 6 1) (maxStack 6 1) (Some memoryStaticCall) [Returns]);
  InsertOp RETURNDATASIZE (op_ (λ _ _, opReturnDataSize) GasQuickStep None
    (minStack 0 1) (maxStack 0 1) None []);
  InsertOp RETURNDATACOPY (op_ (λ _ _, opReturnDataCopy) GasFastestStep
    (Some (λ _, gasReturnDataCopy)) (minStack 3 0) (maxStack 3 0)
    (Some memoryReturnDataCopy) []);
  InsertOp REVERT (op_ (λ _ _, opRevert) 0 (Some (λ _, gasRevert))
    (minStack 2 0) (maxStack 2 0) (Some memoryRevert) [Reverts; Returns])
].

Definition constantinople_patch : list patch := [
  InsertOp SHL (op_ (λ _ _, opSHL) GasFastestStep None (minStack 2 1) (maxStack 2 1) None []);
  InsertOp SHR (op_ (λ _ _, opSHR) GasFastestStep None (minStack 2 1) (maxStack 2 1) None []);
  InsertOp SAR (op_ (λ _ _, opSAR) GasFastestStep None (minStack 2 1) (maxStack 2 1) None []);
  InsertOp EXTCODEHASH (op_ (λ _ _, opExtCodeHash) ExtcodeHashGasConstantinople None
    (minStack 1 1) (maxStack 1 1) None []);
  InsertOp CREATE2 (op_ (λ _ K, opCreate2 K) Create2Gas (Some (λ _, gasCreate2))
    (minStack 4 1) (maxStack 4 1) (Some memoryCreate2) [Writes; Returns])
].

(** ** EIPs that can be switched on one by one ([eips.go]) *)

Definition enable1884 : list patch := [
  AlterOp SLOAD (set_constantGas SloadGasEIP1884);
  AlterOp BALANCE (set_constantGas BalanceGasEIP1884);
  AlterOp EXTCODEHASH (set_constantGas ExtcodeHashGasEIP1884);
  InsertOp SELFBALANCE (op_ (λ _ _, opSelfBalance) GasFastStep None
    (minStack 0 1) (maxStack 0 1) None [])
].

Definition enable1344 : list patch := [
  InsertOp CHAINID (op_ (λ E _, opChainID E) GasQuickStep None
    (minStack 0 1) (maxStack 0 1) None [])
].

Definition enable2200 : list patch := [
  AlterOp SLOAD (set_constantGas SloadGasEIP2200);
  AlterOp SSTORE (set_dynamicGas (λ _, gasSStoreEIP2200))
].

Definition enable2929 : list patch := [
  AlterOp SSTORE (set_dynamicGas (λ _, gasSStoreEIP2929));
  AlterOp SLOAD (set_constantGas 0);
  AlterOp SLOAD (set_dynamicGas (λ _, gasSLoadEIP2929));
  AlterOp EXTCODECOPY (set_constantGas WarmStorageReadCostEIP2929);
  AlterOp EXTCODECOPY (set_dynamicGas (λ _, gasExtCodeCopyEIP2929));
  AlterOp EXTCODESIZE (set_constantGas WarmStorageReadCostEIP2929);
  AlterOp EXTCODESIZE (set_dynamicGas (λ _, gasEip2929AccountCheck));
  AlterOp EXTCODEHASH (set_constantGas WarmStorageReadCostEIP2929);
  AlterOp EXTCODEHASH (set_dynamicGas (λ _, gasEip2929AccountCheck));
  AlterOp BALANCE (set_constantGas WarmStorageReadCostEIP2929);
  AlterOp BALANCE (set_dynamicGas (λ _, gasEip2929AccountCheck));
  AlterOp CALL (set_constantGas WarmStorageReadCostEIP2929);
  AlterOp CALL (set_dynamicGas gasCallEIP2929);
  AlterOp CALLCODE (set_constantGas WarmStorageReadCostEIP2929);
  AlterOp CALLCODE (set_dynamicGas gasCallCodeEIP2929);
  AlterOp STATICCALL (set_constantGas WarmStorageReadCostEIP2929);
  AlterOp STATICCALL (set_dynamicGas gasStaticCallEIP2929);
  AlterOp DELEGATECALL (set_constantGas WarmStorageReadCostEIP2929);
  AlterOp DELEGATECALL (set_dynamicGas gasDelegateCallEIP2929);
  AlterOp SELFDESTRUCT (set_constantGas SelfdestructGasEIP150);
  AlterOp SELFDESTRUCT (set_dynamicGas (λ _, gasSelfdestructEIP2929))
].

Definition activators : list (Z * list patch) :=
  [(2929, enable2929); (2200, enable2200); (1884, enable1884); (1344, enable1344)].

Definition ValidEip (eipNum : Z) : bool := bool_decide (is_Some (assoc eipNum activators)).

(** ** The instruction sets *)

Definition newHomesteadInstructionSet : JumpTable :=
  apply_patches newFrontierInstructionSet homestead_patch.
Definition newTangerineWhistleInstructionSet : JumpTable :=
  apply_patches newHomesteadInstructionSet tangerineWhistle_patch.
Definition newSpuriousDragonInstructionSet : JumpTable :=
  apply_patches newTangerineWhistleInstructionSet spuriousDragon_patch.
Definition newByzantiumInstructionSet : JumpTable :=
  apply_patches newSpuriousDragonInstructionSet byzantium_patch.
Definition newConstantinopleInstructionSet : JumpTable :=
  apply_patches newByzantiumInstructionSet constantinople_patch.
Definition newIstanbulInstructionSet : JumpTable :=
  apply_patches
    (apply_patches (apply_patches newConstantinopleInstructionSet enable1344) enable1884)
    enable2200.
Definition newBerlinInstructionSet : JumpTable :=
  apply_patches newIstanbulInstructionSet enable2929.
End jump_table.

Arguments operation {U} S C.
Arguments JumpTable {U} S C.
Arguments patch {U} S C.
