(* ===== verification/VmInterpreter.v ===== *)
(** * The interpreter ([core/vm/interpreter.go])

    [step] is the body of the main loop, in source order; [loop] iterates it, with
    fuel; [Run] sets a frame up and tears it down.  [NewEVMInterpreter] models the
    copy of a global jump table, whose operations stay shared with the global one,
    and the in-place activation of extra EIPs. *)

From S2P Require Import Prelude Uint256 Params VmData VmAnalysis VmState VmGas VmInstr.
From S2P Require Import VmJumpTable.

(** ** Choice and sharing of the jump table *)

Inductive fork :=
| Frontier | Homestead | TangerineWhistle | SpuriousDragon
| Byzantium | Constantinople | Istanbul | Berlin.
#[export] Instance fork_eq_dec : EqDecision fork.
Proof. solve_decision. Defined.

(** The [switch] of [NewEVMInterpreter]. *)
Definition select_fork (r : Rules) : fork :=
  if rIsBerlin r then Berlin
  else if rIsIstanbul r then Istanbul
  else if rIsConstantinople r then Constantinople
  else if rIsByzantium r then Byzantium
  else if rIsEIP158 r then SpuriousDragon
  else if rIsEIP150 r then TangerineWhistle
  else if rIsHomestead r then Homestead
  else Frontier.

Section tables.
Context {U : Uint256} {S C : Type} {SDB : StateDB S} {BC : BitmapCache C}.

(** The package-level variables [frontierInstructionSet], ..., as initialised. *)
Definition instructionSet (f : fork) : JumpTable S C :=
  match f with
  | Frontier => newFrontierInstructionSet
  | Homestead => newHomesteadInstructionSet
  | TangerineWhistle => newTangerineWhistleInstructionSet
  | SpuriousDragon => newSpuriousDragonInstructionSet
  | Byzantium => newByzantiumInstructionSet
  | Constantinople => newConstantinopleInstructionSet
  | Istanbul => newIstanbulInstructionSet
  | Berlin => newBerlinInstructionSet
  end.

(** Their current contents. *)
Definition globals : Type := fork → JumpTable S C.
Definition set_global (g : globals) (f : fork) (jt : JumpTable S C) : globals :=
  λ f', if decide (f' = f) then jt else g f'.

(** [jt := xInstructionSet] copies the array of pointers: an entry of the copy
    still designates the global operation until it is replaced. *)
Inductive entry := Shared | Own (o : operation S C).
Definition table_copy : Type := gmap Z entry.
Definition copy_of (jt : JumpTable S C) : table_copy := fmap (M := gmap Z) (λ _, Shared) jt.

(** The table an interpreter sees. *)
Definition view (jt : JumpTable S C) (l : table_copy) : JumpTable S C :=
  map_imap (M := gmap Z) (λ op e, match e with Shared => jt !! op | Own o => Some o end) l.

(** [None] is the nil-pointer panic of a field assignment to a missing operation. *)
Definition patch_copy (st : JumpTable S C * table_copy) (p : patch S C) :
    option (JumpTable S C * table_copy) :=
  let '(jt, l) := st in
  match p with
  | InsertOp op o => Some (jt, <[op := Own o]> l)
  | AlterOp op f =>
      match l !! op with
      | None => None
      | Some Shared => Some (alter f op jt, l)
      | Some (Own o) => Some (jt, <[op := Own (f o)]> l)
      end
  end.

Fixpoint patches_copy (st : JumpTable S C * table_copy) (ps : list (patch S C)) :
    option (JumpTable S C * table_copy) :=
  match ps with
  | [] => Some st
  | p :: ps => st ← patch_copy st p; patches_copy st ps
  end.

(** [EnableEIP]: [inr] is the error "undefined eip". *)
Definition EnableEIP (eipNum : Z) (st : JumpTable S C * table_copy) :
    option ((JumpTable S C * table_copy) + unit) :=
  match assoc eipNum activators with
  | Some enablerFn => inl <$> patches_copy st enablerFn
  | None => Some (inr ())
  end.

(** [append(s[:i], s[i+1:]...)] on the slice of length [n] over the array [arr]:
    the tail is moved down inside the array. *)
Definition remove_at (arr : list Z) (n i : nat) : option (list Z * nat) :=
  if decide (i + 1 <= n)%nat
  then Some (take i arr ++ take (n - i - 1) (drop (i + 1) arr) ++ drop (n - 1) arr, n - 1)%nat
  else None.

(** The [range] loop over [cfg.ExtraEips]: the bounds are those of the slice
    before the loop, the elements are read from the array as it is now. *)
Fixpoint enable_extra (k i : nat) (arr : list Z) (n : nat)
    (st : JumpTable S C * table_copy) : option (list Z * (JumpTable S C * table_copy)) :=
  match k with
  | O => Some (take n arr, st)
  | Datatypes.S k =>
      eip ← arr !! i;
      r ← EnableEIP eip st;
      match r with
      | inl st => enable_extra k (i + 1) arr n st
      | inr _ => '(arr, n) ← remove_at arr n i; enable_extra k (i + 1) arr n st
      end
  end.

(** The new globals, the EIPs left in the configuration and the interpreter's own
    table; [None] is a run-time panic.  A configuration whose table is already set
    keeps it. *)
Definition NewEVMInterpreter (g : globals) (r : Rules) (cfgTable : option table_copy)
    (ExtraEips : list Z) : option (globals * list Z * table_copy) :=
  match cfgTable with
  | Some l => Some (g, ExtraEips, l)
  | None =>
      let f := select_fork r in
      '(eips, (jt, l)) ← enable_extra (length ExtraEips) 0 ExtraEips (length ExtraEips)
                           (g f, copy_of (g f));
      Some (set_global g f jt, eips, l)
  end.
End tables.

Section interpreter.
Context {U : Uint256} {S C : Type} {SDB : StateDB S} {BC : BitmapCache C}.
Variable E : env S.
Variable jt : JumpTable S C.
(** [atomic.LoadInt32(&in.evm.abort) != 0], another goroutine's choice. *)
Variable abort : Z → mstate S C → bool.
Variable K : evm_calls S C.

(** The end of an iteration: [None] goes on, [Some (ret, err)] leaves the loop. *)
Definition verdict : Type := option (bytes * option vmerror).

(** Stack validation and write protection. *)
Definition validate (op : Z) (o : operation S C) : XM S C unit :=
  let! sLen := gets (λ s, len (stack s)) in
  when! sLen <? op_minStack o raise ErrStackUnderflow sLen (op_minStack o) in
  when! op_maxStack o <? sLen raise ErrStackOverflow sLen (op_maxStack o) in
  let! ro := gets (λ s, readOnly (vm s)) in
  if ro && rIsByzantium (chainRules E) then
    if writes o then fail ErrWriteProtection
    else if op =? CALL then
      let! v := Back' 2 in
      when! negb (Sign v =? 0) raise ErrWriteProtection in ret tt
    else ret tt
  else ret tt.

Definition charge (gas : Z) : XM S C unit :=
  let! ok := UseGas' gas in
  if ok : bool then ret tt else fail ErrOutOfGas.

(** The memory the operation asks for, in whole words, in bytes. *)
Definition required_memory (o : operation S C) : XM S C Z :=
  match memorySize o with
  | None => ret 0
  | Some f =>
      let! st := gets stack in
      let! (memSize, overflow) := or_panic PStack (f st) in
      when! overflow raise ErrGasUintOverflow in
      let '(size, overflow) := SafeMul (toWordSize memSize) 32 in
      when! overflow raise ErrGasUintOverflow in
      ret size
  end.

(** Any error of the gas function is reported as [ErrOutOfGas]. *)
Definition charge_dynamic (o : operation S C) (size : Z) : XM S C unit :=
  match dynamicGas o with
  | None => ret tt
  | Some f =>
      let! r := try (f E size) in
      match r with
      | inl cost => charge cost
      | inr _ => fail ErrOutOfGas
      end
  end.

Definition resize (size : Z) : XM S C unit :=
  if 0 <? size then modify (λ s, set_mem s (Resize (mem s) size)) else ret tt.

(** [in.returnData = res] also when the operation failed, where [res] is nil. *)
Definition execute_op (o : operation S C) : XM S C bytes :=
  let! r := try (execute o E K) in
  let res := match r with inl res => res | inr _ => [] end in
  do! (if returns o then modify (λ s, set_vm s (set_returnData (vm s) res)) else ret tt) in
  match r with inl res => ret res | inr err => fail err end.

Definition step : XM S C verdict :=
  let! op := gets (λ s, GetOp (contract s) (pc s)) in
  let! o := or_fail (ErrInvalidOpCode op) (jt !! op) in
  do! validate op o in
  do! charge (constantGas o) in
  let! size := required_memory o in
  do! charge_dynamic o size in
  do! resize size in
  let! res := execute_op o in
  if reverts o then ret (Some (res, Some ErrExecutionReverted))
  else if halts o then ret (Some (res, None))
  else
    do! (if negb (jumps o) then modify (λ s, set_pc s (add64 (pc s) 1)) else ret tt) in
    ret None.

Fixpoint loop (fuel : nat) (steps : Z) : XM S C (bytes * option vmerror) :=
  match fuel with
  | O => λ _, NoFuel
  | Datatypes.S fuel =>
      let steps := steps + 1 in
      let! aborted := gets (abort steps) in
      if (steps mod 1000 =? 0) && aborted then ret ([], None)
      else
        let! v := step in
        match v with
        | Some r => ret r
        | None => loop fuel steps
        end
  end.

(** [Run]: depth, the read-only flag and the return data around the loop; the
    contract is returned because the caller reads the gas left in it. *)
Definition Run (fuel : nat) (c : Contract) (input : bytes) (ro : bool) :
    EM S C (bytes * option vmerror * Contract) := λ e,
  let set := ro && negb (readOnly e) in
  let e1 := set_depth e (depth e + 1) in
  let e2 := if set then set_readOnly e1 true else e1 in
  let e3 := set_returnData e2 [] in
  let leave (e : evm S C) : evm S C :=
    let e := if set then set_readOnly e false else e in
    set_depth e (depth e - 1) in
  match loop fuel 0 {| pc := 0; stack := []; mem := NewMemory;
                       contract := set_Input c input; vm := e3 |} with
  | Ret (res, err) s => Ret (res, err, contract s) (leave (vm s))
  | Fail err s => Ret ([], Some err, contract s) (leave (vm s))
  | Panic p => Panic p
  | NoFuel => NoFuel
  end.
End interpreter.
