(* ===== verification/VmEvm.v ===== *)
(** * The EVM entry points ([core/vm/evm.go], [core/evm.go])

    [Call], [CallCode], [DelegateCall], [StaticCall], [create], [Create] and [Create2]
    over an interpreter [run]; [calls d] ties the recursion between them and the
    interpreter, to a nesting of at most [d] further frames.  [run] returns [NoFuel]
    when [d] is exhausted; the depth check of the code makes [1026 - depth]
    sufficient. *)

From S2P Require Import Prelude Uint256 Params VmData VmAnalysis VmState VmGas VmInstr.
From S2P Require Import VmJumpTable VmInterpreter.

(** [core.CanTransfer] and [core.Transfer], the functions the client puts in the
    block context. *)
Definition core_CanTransfer {S} `{StateDB S} (db : S) (addr : Address) (amount : Z) : bool :=
  amount <=? GetBalance db addr.
Definition core_Transfer {S} `{StateDB S} (sender recipient : Address) (amount : Z) (db : S) : S :=
  AddBalance recipient amount (SubBalance sender amount db).

Definition RunPrecompiledContract (p : PrecompiledContract) (input : bytes) (suppliedGas : Z) :
    bytes * Z * option vmerror :=
  let gasCost := RequiredGas p input in
  if suppliedGas <? gasCost then ([], 0, Some ErrOutOfGas)
  else
    let '(output, err) := Run_precompiled p input in
    (output, suppliedGas - gasCost, err).

Section evm_calls.
Context {U : Uint256} {S C : Type} {SDB : StateDB S} {BC : BitmapCache C}.
Variable E : env S.
Variable run : Contract → bytes → bool → EM S C (bytes * option vmerror * Contract).

Definition result : Type := bytes * Z * option vmerror.
Definition create_result : Type := bytes * Address * Z * option vmerror.

Definition db_get {A} (f : S → A) : EM S C A := gets (λ e, f (sdb e)).
Definition db_mod (f : S → S) : EM S C unit := modify (λ e, set_sdb e (f (sdb e))).
Definition take_snapshot : EM S C Z := λ e,
  let '(id, s) := Snapshot (sdb e) in Ret id (set_sdb e s).
Definition revert_to (id : Z) : EM S C unit := λ e,
  match RevertToSnapshot id (sdb e) with
  | Some s => Ret tt (set_sdb e s)
  | None => Panic PRevision
  end.

(** [NewContract] gives the frame of an account's call a fresh [jumpdests] map. *)
Definition new_jumpdests (caller : ContractRef) : EM S C unit :=
  modify (λ e, match caller with
               | AccountRef _ => set_caches e ∅ (bitmapCache e)
               | ContractOf _ _ _ => e
               end).

(** [run] followed by [gas = contract.Gas]. *)
Definition run_contract (c : Contract) (input : bytes) (ro : bool) : EM S C result :=
  do! new_jumpdests (caller c) in
  let! (res, err, c) := run c input ro in
  ret (res, Gas c, err).

(** The end of every call: on error the state goes back to the snapshot, and the
    gas is consumed unless the callee asked for the revert. *)
Definition settle (snapshot : Z) (r : result) : EM S C result :=
  let '(res, gas, err) := r in
  match err with
  | None => ret (res, gas, None)
  | Some e =>
      do! revert_to snapshot in
      ret (res, if decide (e = ErrExecutionReverted) then gas else 0, Some e)
  end.

(** The two guards every call starts with. *)
Definition recursion_off : EM S C bool :=
  gets (λ e, NoRecursion E && (0 <? depth e)).
Definition too_deep : EM S C bool := gets (λ e, CallCreateDepth <? depth e).

Definition evm_Call (caller : ContractRef) (addr : Address) (input : bytes)
    (gas value : Z) : EM S C result :=
  let! off := recursion_off in
  if off : bool then ret ([], gas, None) else
  let! deep := too_deep in
  if deep : bool then ret ([], gas, Some ErrDepth) else
  let! db := db_get id in
  if negb (value =? 0) && negb (CanTransfer E db (ContractRef_Address caller) value)
  then ret ([], gas, Some ErrInsufficientBalance) else
  let! snapshot := take_snapshot in
  let p := precompile E addr in
  let! existing := db_get (λ db, Exist db addr) in
  if negb existing && bool_decide (p = None) && rIsEIP158 (chainRules E) && (value =? 0)
  then ret ([], gas, None) else
  do! (if negb existing then db_mod (CreateAccount addr) else ret tt) in
  do! db_mod (Transfer E (ContractRef_Address caller) addr value) in
  let! r :=
    match p with
    | Some p => ret (RunPrecompiledContract p input gas)
    | None =>
        let! code := db_get (λ db, GetCode db addr) in
        if zlen code =? 0 then ret ([], gas, None)
        else
          let! hash := db_get (λ db, GetCodeHash db addr) in
          run_contract (SetCallCode (NewContract caller (AccountRef addr) value gas)
                          addr hash code) input false
    end in
  settle snapshot r.

Definition evm_CallCode (caller : ContractRef) (addr : Address) (input : bytes)
    (gas value : Z) : EM S C result :=
  let! off := recursion_off in
  if off : bool then ret ([], gas, None) else
  let! deep := too_deep in
  if deep : bool then ret ([], gas, Some ErrDepth) else
  let! db := db_get id in
  if negb (CanTransfer E db (ContractRef_Address caller) value)
  then ret ([], gas, Some ErrInsufficientBalance) else
  let! snapshot := take_snapshot in
  let! r :=
    match precompile E addr with
    | Some p => ret (RunPrecompiledContract p input gas)
    | None =>
        let! hash := db_get (λ db, GetCodeHash db addr) in
        let! code := db_get (λ db, GetCode db addr) in
        run_contract (SetCallCode
            (NewContract caller (AccountRef (ContractRef_Address caller)) value gas)
            addr hash code) input false
    end in
  settle snapshot r.

Definition evm_DelegateCall (caller : ContractRef) (addr : Address) (input : bytes)
    (gas : Z) : EM S C result :=
  let! off := recursion_off in
  if off : bool then ret ([], gas, None) else
  let! deep := too_deep in
  if deep : bool then ret ([], gas, Some ErrDepth) else
  let! snapshot := take_snapshot in
  let! r :=
    match precompile E addr with
    | Some p => ret (RunPrecompiledContract p input gas)
    | None =>
        (* the value is nil until AsDelegate sets it to the parent's *)
        let! c := or_panic PNil (AsDelegate
            (NewContract caller (AccountRef (ContractRef_Address caller)) 0 gas)) in
        let! hash := db_get (λ db, GetCodeHash db addr) in
        let! code := db_get (λ db, GetCode db addr) in
        run_contract (SetCallCode c addr hash code) input false
    end in
  settle snapshot r.

Definition evm_StaticCall (caller : ContractRef) (addr : Address) (input : bytes)
    (gas : Z) : EM S C result :=
  let! off := recursion_off in
  if off : bool then ret ([], gas, None) else
  let! deep := too_deep in
  if deep : bool then ret ([], gas, Some ErrDepth) else
  let! snapshot := take_snapshot in
  do! db_mod (AddBalance addr 0) in
  let! r :=
    match precompile E addr with
    | Some p => ret (RunPrecompiledContract p input gas)
    | None =>
        let! hash := db_get (λ db, GetCodeHash db addr) in
        let! code := db_get (λ db, GetCode db addr) in
        run_contract (SetCallCode (NewContract caller (AccountRef addr) 0 gas)
                        addr hash code) input true
    end in
  settle snapshot r.

(** [emptyCodeHash]. *)
Definition emptyCodeHash : Hash := Keccak256Hash E [].

(** The second half of [create]: run the deployment code in the new account, store
    what it returns, undo everything on failure.  [codeHash] is the hash of the
    code, or [0] when [Hash()] has not been called. *)
Definition create_deploy (caller : ContractRef) (code : bytes) (codeHash : Hash)
    (gas value : Z) (address : Address) (snapshot : Z) : EM S C create_result :=
  let c := SetCallCode (NewContract caller (AccountRef address) value gas)
             address codeHash code in
  let! off := recursion_off in
  if off : bool then ret ([], address, gas, None) else
  do! new_jumpdests caller in
  let! (res, err, c) := run c [] false in
  let err := if bool_decide (err = None) && rIsEIP158 (chainRules E) && (MaxCodeSize <? zlen res)
             then Some ErrMaxCodeSizeExceeded else err in
  let! (err, c) :=
    match err with
    | None =>
        let createDataGas := mul64 (zlen res) CreateDataGas in
        match UseGas c createDataGas with
        | Some c => do! db_mod (SetCode address res) in ret (None, c)
        | None => ret (Some ErrCodeStoreOutOfGas, c)
        end
    | Some e => ret (Some e, c)
    end in
  match err with
  | Some e =>
      if rIsHomestead (chainRules E) || negb (bool_decide (e = ErrCodeStoreOutOfGas)) then
        do! revert_to snapshot in
        let c := if decide (e = ErrExecutionReverted) then c
                 else default c (UseGas c (Gas c)) in
        ret (res, address, Gas c, Some e)
      else ret (res, address, Gas c, Some e)
  | None => ret (res, address, Gas c, None)
  end.

Definition create (caller : ContractRef) (code : bytes) (codeHash : Hash) (gas value : Z)
    (address : Address) : EM S C create_result :=
  let! deep := too_deep in
  if deep : bool then ret ([], 0, gas, Some ErrDepth) else
  let! db := db_get id in
  if negb (CanTransfer E db (ContractRef_Address caller) value)
  then ret ([], 0, gas, Some ErrInsufficientBalance) else
  let! nonce := db_get (λ db, GetNonce db (ContractRef_Address caller)) in
  do! db_mod (SetNonce (ContractRef_Address caller) (add64 nonce 1)) in
  do! (if rIsBerlin (chainRules E) then db_mod (AddAddressToAccessList address)
       else ret tt) in
  let! contractHash := db_get (λ db, GetCodeHash db address) in
  let! n := db_get (λ db, GetNonce db address) in
  if negb (n =? 0) || (negb (contractHash =? 0) && negb (contractHash =? emptyCodeHash))
  then ret ([], 0, 0, Some ErrContractAddressCollision) else
  let! snapshot := take_snapshot in
  do! db_mod (CreateAccount address) in
  do! (if rIsEIP158 (chainRules E) then db_mod (SetNonce address 1) else ret tt) in
  do! db_mod (Transfer E (ContractRef_Address caller) address value) in
  create_deploy caller code codeHash gas value address snapshot.

Definition evm_Create (caller : ContractRef) (code : bytes) (gas value : Z) :
    EM S C create_result :=
  let! nonce := db_get (λ db, GetNonce db (ContractRef_Address caller)) in
  create caller code 0 gas value (CreateAddress E (ContractRef_Address caller) nonce).

Definition evm_Create2 (caller : ContractRef) (code : bytes) (gas endowment : Z) (salt : Int) :
    EM S C create_result :=
  let hash := Keccak256Hash E code in
  create caller code hash gas endowment
    (CreateAddress2 E (ContractRef_Address caller) (Bytes32 salt) hash).

Definition entry_points : evm_calls S C := {|
  Call := evm_Call;
  CallCode := evm_CallCode;
  DelegateCall := evm_DelegateCall;
  StaticCall := evm_StaticCall;
  Create := evm_Create;
  Create2 := evm_Create2;
|}.
End evm_calls.

Section knot.
Context {U : Uint256} {S C : Type} {SDB : StateDB S} {BC : BitmapCache C}.
Variable E : env S.
Variable jt : JumpTable S C.
Variable abort : Z → mstate S C → bool.

(** Gas pays for every iteration but the last, so it bounds them. *)
Definition run_fuel (c : Contract) : nat := Z.to_nat (Gas c + 1).

Fixpoint calls (d : nat) : evm_calls S C :=
  entry_points E (λ c input ro,
    match d with
    | O => λ _, NoFuel
    | Datatypes.S d => Run E jt abort (calls d) (run_fuel c) c input ro
    end).
End knot.
