(* ===== verification/VmSpec.v ===== *)
(** * Specification of the EVM against the [StateDB] interface

    What a frame may do to the world state ([dbop], [dbsteps], indexed by whether
    state changes are forbidden), what the EVM expects of the libraries and of the
    state database ([env_ok], [RevertLaws], [CacheLaws]), and the invariants of a
    running frame that [VmFrame] and [VmSafety] prove. *)

From S2P Require Import Prelude Uint256 Params VmData VmAnalysis VmState VmGas VmInstr.
From S2P Require Import VmJumpTable VmInterpreter VmEvm.

Section spec.
Context {U : Uint256} {S C : Type} {SDB : StateDB S} {BC : BitmapCache C}.
Variable E : env S.

(** ** Changes of the world state *)

(** A single mutation.  With [ro] only touches, value transfers of zero, warm
    access-list entries, preimages, and the creation of an empty account (a
    precompile, or any account before EIP-158) remain. *)
Inductive dbop (ro : bool) (s : S) : S → Prop :=
| db_touch a : dbop ro s (AddBalance a 0 s)
| db_transfer0 a b : dbop ro s (Transfer E a b 0 s)
| db_create_empty a :
    Exist s a = false → is_Some (precompile E a) ∨ rIsEIP158 (chainRules E) = false →
    dbop ro s (CreateAccount a s)
| db_warm_address a : dbop ro s (AddAddressToAccessList a s)
| db_warm_slot a k : dbop ro s (AddSlotToAccessList a k s)
| db_preimage h d : dbop ro s (AddPreimage h d s)
| db_create a : ro = false → dbop ro s (CreateAccount a s)
| db_transfer a b v : ro = false → dbop ro s (Transfer E a b v s)
| db_addBalance a v : ro = false → dbop ro s (AddBalance a v s)
| db_setNonce a n : ro = false → dbop ro s (SetNonce a n s)
| db_setCode a c : ro = false → dbop ro s (SetCode a c s)
| db_setState a k v : ro = false → dbop ro s (SetState a k v s)
| db_suicide a : ro = false → dbop ro s (Suicide a s).2
| db_log l : ro = false → dbop ro s (AddLog l s)
| db_addRefund g : ro = false → dbop ro s (AddRefund g s)
| db_subRefund g s' : ro = false → SubRefund g s = Some s' → dbop ro s s'.

(** Sequences of mutations in which every revert goes back to a snapshot taken in
    the same sequence. *)
Inductive dbsteps (ro : bool) : S → S → Prop :=
| ds_refl s : dbsteps ro s s
| ds_op s s1 s2 : dbsteps ro s s1 → dbop ro s1 s2 → dbsteps ro s s2
| ds_snapshot s s1 id s2 : dbsteps ro s s1 → Snapshot s1 = (id, s2) → dbsteps ro s s2
| ds_revert s s1 id s2 s3 s4 :
    dbsteps ro s s1 → Snapshot s1 = (id, s2) → dbsteps ro s2 s3 →
    RevertToSnapshot id s3 = Some s4 → dbsteps ro s s4.

Lemma dbsteps_trans ro s1 s2 s3 : dbsteps ro s1 s2 → dbsteps ro s2 s3 → dbsteps ro s1 s3.
Proof. intros H1 H2. induction H2; eauto using dbsteps. Qed.

Lemma dbop_mono s s' : dbop true s s' → ∀ ro, dbop ro s s'.
Proof. intros [] ro; try done; by constructor. Qed.

Lemma dbsteps_mono s s' : dbsteps true s s' → ∀ ro, dbsteps ro s s'.
Proof. intros H ro. induction H; eauto using dbsteps, dbop_mono. Qed.

(** ** What the EVM relies on *)

(** Reverting undoes everything done since the snapshot, up to [same_state]. *)
Class RevertLaws := {
  same_state : S → S → Prop;
  same_state_refl s : same_state s s;
  revert_law s id s1 s2 :
    Snapshot s = (id, s1) → dbsteps false s1 s2 →
    ∃ s3, RevertToSnapshot id s2 = Some s3 ∧ same_state s s3;
}.

(** An LRU cache only ever answers with a value that was added under that key. *)
Class CacheLaws : Prop := {
  cache_Get_sub k h c b :
    (cache_Get k (cache_Get h c).2).1 = Some b → (cache_Get k c).1 = Some b;
  cache_Add_sub k h b c b' :
    (cache_Get k (cache_Add h b c)).1 = Some b' →
    (k = h ∧ b' = b) ∨ (cache_Get k c).1 = Some b';
}.

(** Byte slices are shorter than [2^63] (Go's [int]), gas prices of precompiled
    contracts are [uint64] values, the code hash is the hash of the code, and the
    hash tells codes with different jump destinations apart. *)
Record env_ok : Prop := {
  GetCode_len s a : zlen (GetCode s a) < 2 ^ 63;
  RequiredGas_u64 a p i : precompile E a = Some p → is_u64 (RequiredGas p i);
  precompile_len a p i : precompile E a = Some p → zlen (Run_precompiled p i).1 < 2 ^ 63;
  GetCodeHash_ok s a : GetCodeHash s a ≠ 0 → Keccak256Hash E (GetCode s a) = GetCodeHash s a;
  hash_bitmap c1 c2 :
    Keccak256Hash E c1 = Keccak256Hash E c2 → codeBitmap c1 = codeBitmap c2;
}.

(** ** Invariants of the mutable state *)

(** The bitmap [a] is the one of every code with hash [h]. *)
Definition bitmap_for (h : Hash) (a : bytes) : Prop :=
  ∀ code, Keccak256Hash E code = h → codeBitmap code = Some a.

Record vm_ok (e : evm S C) : Prop := {
  ok_returnData : zlen (returnData e) < 2 ^ 63;
  ok_jumpdests h a : jumpdests e !! h = Some a → bitmap_for h a;
  ok_cache h a : (cache_Get h (bitmapCache e)).1 = Some a → bitmap_for h a;
}.

(** State changes are forbidden: a read-only frame under Byzantium rules. *)
Definition is_ro (e : evm S C) : bool := readOnly e && rIsByzantium (chainRules E).

(** [e'] is reached from [e] by work at the same depth. *)
Record evm_rel (e e' : evm S C) : Prop := {
  rel_depth : depth e' = depth e;
  rel_readOnly : readOnly e' = readOnly e;
  rel_ok : vm_ok e';
  rel_db : dbsteps (is_ro e) (sdb e) (sdb e');
}.

Record contract_ok (c : Contract) : Prop := {
  ok_gas : is_u64 (Gas c);
  ok_code : zlen (Code c) < 2 ^ 63;
  ok_input : zlen (Input c) < 2 ^ 63;
  ok_hash : CodeHash c ≠ 0 → Keccak256Hash E (Code c) = CodeHash c;
  ok_analysis a : analysis c = Some a → codeBitmap (Code c) = Some a;
}.

(** The fee of [k] words of memory. *)
Definition mem_fee (k : Z) : Z := k * MemoryGas + k * k / QuadCoeffDiv.
Definition maxMemory : Z := 0x1FFFFFFFE0.

(** Whole words, never more than the gas functions let through, all paid for. *)
Definition mem_paid (m : Memory) (k : Z) : Prop :=
  (∃ j, Len m = 32 * j) ∧ Len m <= 32 * k <= maxMemory ∧ lastGasCost m = mem_fee k.
Definition mem_ok (m : Memory) : Prop := ∃ k, Len m = 32 * k ∧ mem_paid m k.

Record frame_ok (e0 : evm S C) (s : mstate S C) : Prop := {
  fr_pc : is_u64 (pc s);
  fr_stack : zlen (stack s) <= StackLimit;
  fr_mem : mem_ok (mem s);
  fr_contract : contract_ok (contract s);
  fr_vm : evm_rel e0 (vm s);
}.

(** What is left of it when the frame ends. *)
Record frame_end (e0 : evm S C) (g : Z) (s : mstate S C) : Prop := {
  end_gas : 0 <= Gas (contract s) <= g;
  end_vm : evm_rel e0 (vm s);
}.

(** The panics that remain: the refund counter of the state database, and the
    assertion of EIP-2929 that a contract's own address is always warm. *)
Definition ok_panic (p : panic) : Prop := p = PStateDB ∨ p = PExplicit.

(** ** The contract between the interpreter and the entry points *)

Definition call_post (e : evm S C) (gas : Z) (r : bytes * Z * option vmerror)
    (e' : evm S C) : Prop :=
  zlen r.1.1 < 2 ^ 63 ∧ 0 <= r.1.2 <= gas ∧ evm_rel e e'.
Definition create_post (e : evm S C) (gas : Z) (r : bytes * Address * Z * option vmerror)
    (e' : evm S C) : Prop :=
  zlen r.1.1.1 < 2 ^ 63 ∧ 0 <= r.1.2 <= gas ∧ evm_rel e e'.

(** Every entry point, called at depth [d], answers, hands back at most the gas it
    was given, and respects a read-only caller. *)
Class CallsOk (d : Z) (K : evm_calls S C) : Prop := {
  Call_ok e caller addr input gas value :
    depth e = d → vm_ok e → is_u64 gas → zlen input < 2 ^ 63 →
    (is_ro e = true → value = 0) →
    wp (Call K caller addr input gas value) (call_post e gas) (λ _ _, False) ok_panic e;
  CallCode_ok e caller addr input gas value :
    depth e = d → vm_ok e → is_u64 gas → zlen input < 2 ^ 63 →
    wp (CallCode K caller addr input gas value) (call_post e gas) (λ _ _, False) ok_panic e;
  DelegateCall_ok e a ca v addr input gas :
    depth e = d → vm_ok e → is_u64 gas → zlen input < 2 ^ 63 →
    wp (DelegateCall K (ContractOf a ca v) addr input gas)
      (call_post e gas) (λ _ _, False) ok_panic e;
  StaticCall_ok e caller addr input gas :
    depth e = d → vm_ok e → is_u64 gas → zlen input < 2 ^ 63 →
    wp (StaticCall K caller addr input gas) (call_post e gas) (λ _ _, False) ok_panic e;
  Create_ok e caller input gas value :
    depth e = d → vm_ok e → is_u64 gas → zlen input < 2 ^ 63 → is_ro e = false →
    wp (Create K caller input gas value) (create_post e gas) (λ _ _, False) ok_panic e;
  Create2_ok e caller input gas value salt :
    depth e = d → vm_ok e → is_u64 gas → zlen input < 2 ^ 63 → is_ro e = false →
    wp (Create2 K caller input gas value salt) (create_post e gas) (λ _ _, False) ok_panic e;
}.

(** ** What a jump-table entry has to satisfy *)

(** Gas that may come back into the frame when the instruction with this opcode
    runs: what was set aside for the callee, with the stipend. *)
Definition budget (op : Z) (s : mstate S C) : Z :=
  if (op =? CALL) || (op =? CALLCODE) then
    callGasTemp (vm s) +
      (if default false (negb ∘ IsZero <$> Back (stack s) 2) then CallStipend else 0)
  else if (op =? DELEGATECALL) || (op =? STATICCALL) then callGasTemp (vm s)
  else 0.

(** The memory the operation asked for has been provided. *)
Definition mem_ready (o : operation S C) (s : mstate S C) : Prop :=
  match memorySize o with
  | None => True
  | Some f => ∃ sz, f (stack s) = Some (sz, false) ∧ 0 <= sz <= Len (mem s)
  end.

(** A state-changing operation is only reached where changes are allowed. *)
Definition write_ok (op : Z) (o : operation S C) (s : mstate S C) : Prop :=
  is_ro (vm s) = true →
  writes o = false ∧
  (op = CALL → ∃ v, Back (stack s) 2 = Some v ∧ Sign v = 0).

Definition stack_ok (o : operation S C) (s : mstate S C) : Prop :=
  op_minStack o <= zlen (stack s) <= op_maxStack o.

Definition exec_ok (op : Z) (o : operation S C) : Prop :=
  ∀ K e0 s,
    CallsOk (depth e0) K → frame_ok e0 s → stack_ok o s → mem_ready o s →
    write_ok op o s → (op ≠ STOP → pc s < zlen (Code (contract s))) →
    0 <= budget op s → Gas (contract s) + budget op s < 2 ^ 64 →
    wp (execute o E K)
      (λ out s', frame_ok e0 s' ∧ zlen out < 2 ^ 63 ∧
                 Gas (contract s') <= Gas (contract s) + budget op s)
      (λ _, frame_end e0 (Gas (contract s) + budget op s)) ok_panic s.

(** While a gas function runs only the memory fee and the world state move; at its
    end the fee covers the requested size. *)
Record gas_frame (e0 : evm S C) (size : Z) (s s' : mstate S C) : Prop := {
  gf_pc : pc s' = pc s;
  gf_stack : stack s' = stack s;
  gf_contract : contract s' = contract s;
  gf_store : store (mem s') = store (mem s);
  gf_vm : evm_rel e0 (vm s');
  gf_mem : mem_paid (mem s') (Z.max (Len (mem s)) size / 32);
}.

(** The cost covers what may come back, and at least [minc] more. *)
Definition gas_post (op : Z) (e0 : evm S C) (size minc : Z) (s : mstate S C)
    (cost : Z) (s' : mstate S C) : Prop :=
  is_u64 cost ∧ 0 <= budget op s' ∧ budget op s' + minc <= cost ∧ gas_frame e0 size s s'.

Definition gas_ok (op : Z) (o : operation S C) (minc : Z) (f : env S → Z → XM S C Z) : Prop :=
  ∀ e0 s size,
    frame_ok e0 s → stack_ok o s → write_ok op o s →
    0 <= size < 2 ^ 64 → size mod 32 = 0 → (memorySize o = None → size = 0) →
    wp (f E size) (gas_post op e0 size minc s)
      (λ _, frame_end e0 (Gas (contract s))) ok_panic s.

Definition stops (o : operation S C) : bool := halts o || reverts o.

(** The dynamic part costs at least one unit when the constant part is free and
    the operation does not end the frame. *)
Definition min_cost (o : operation S C) : Z :=
  if (0 <? constantGas o) || stops o then 0 else 1.

(** The operations later forks reprice in place: operands at least, no memory,
    state-changing. *)
Definition repriced : list (Z * (Z * bool * bool)) := [
  (EXP, (2, true, false)); (BALANCE, (1, true, false)); (EXTCODESIZE, (1, true, false));
  (EXTCODEHASH, (1, true, false)); (EXTCODECOPY, (4, false, false));
  (SLOAD, (1, true, false)); (SSTORE, (2, true, true));
  (CALL, (7, false, false)); (CALLCODE, (7, false, false));
  (DELEGATECALL, (6, false, false)); (STATICCALL, (6, false, false));
  (SELFDESTRUCT, (1, true, true)) ].
Definition shape_ok (op : Z) (o : operation S C) : Prop :=
  match assoc op repriced with
  | Some (n, nomem, wr) =>
      n <= op_minStack o ∧ (nomem = true → memorySize o = None) ∧
      (wr = true → writes o = true)
  | None => True
  end.

(** The memory size is computed from operands that are there. *)
Definition mem_total (o : operation S C) : Prop :=
  match memorySize o with
  | Some f => ∀ st, op_minStack o <= zlen st →
      ∃ sz ov, f st = Some (sz, ov) ∧ (ov = false → is_u64 sz)
  | None => True
  end.

Record op_ok (op : Z) (o : operation S C) : Prop := {
  op_exec : exec_ok op o;
  op_const : is_u64 (constantGas o);
  op_gas :
    match dynamicGas o with
    | Some f => gas_ok op o (min_cost o) f
    | None => memorySize o = None ∧ min_cost o = 0 ∧ (∀ s, budget op s = 0)
    end;
  op_shape : shape_ok op o;
  op_mem : mem_total o;
}.
End spec.
