(* ===== verification/VmFrame.v ===== *)
(** * Every instruction is safe in a well-formed frame

    Rules for the primitive actions of an instruction, then [exec_ok] for each
    [executionFunc]: with the operands and the memory the jump table promises, an
    instruction never reaches past the stack, the memory or a slice, and keeps the
    frame well formed. *)

From S2P Require Import Prelude Uint256 Params VmData VmAnalysis VmState VmGas VmInstr.
From S2P Require Import VmJumpTable VmInterpreter VmEvm VmSpec.

Section regions.
Context `{UL : Uint256Laws}.

(** The [l] bytes at [off] lie inside the memory, or there are none. *)
Definition region (m : Memory) (off l : Int) : Prop :=
  Uint64 l = 0 ∨ Uint64 off + Uint64 l <= Len m.

Lemma calcMemSize64WithUint_ok off n sz :
  is_u64 n → calcMemSize64WithUint off n = (sz, false) →
  n = 0 ∧ sz = 0 ∨ n ≠ 0 ∧ sz = Uint64 off + n ∧ sz < 2 ^ 64.
Proof.
  unfold calcMemSize64WithUint. intros Hn. destruct (Z.eqb_spec n 0); [intros [= <-]; auto|].
  destruct (Uint64WithOverflow off) as [o ov] eqn:Ho. destruct ov; [done|].
  apply Uint64WithOverflow_ok in Ho as (-> & Hu & Ho). rewrite Hu.
  intros [= <- H]. zbool. right. unfold add64, u64, is_u64 in *.
  destruct (Z.lt_ge_cases (ival off + n) (2 ^ 64)).
  - rewrite Z.mod_small in * by lia. lia.
  - exfalso. replace (ival off + n) with ((ival off + n - 2 ^ 64) + 1 * 2 ^ 64) in H by lia.
    rewrite Z.mod_add, Z.mod_small in H by lia. lia.
Qed.

(** Sizes are 64-bit, and computable as soon as the operands exist. *)
Definition mem_total_at (n : Z) (f : Stack → option (Z * bool)) : Prop :=
  ∀ st, n <= zlen st → ∃ sz ov, f st = Some (sz, ov) ∧ (ov = false → is_u64 sz).

Lemma stack_lookup (st : Stack) (i : nat) n :
  n <= zlen st → Z.of_nat i < n → ∃ x, Back st i = Some x.
Proof. intros. apply lookup_lt_is_Some_2. unfold zlen in *. lia. Qed.

Lemma calcMemSize64WithUint_u64 off n sz ov :
  is_u64 n → calcMemSize64WithUint off n = (sz, ov) → ov = false → is_u64 sz.
Proof.
  intros Hn H ->. apply calcMemSize64WithUint_ok in H as [?|?]; [| |done]; unfold is_u64 in *;
    pose proof (Uint64_range off); unfold is_u64 in *; lia.
Qed.

Lemma memSize2_total n i j :
  Z.of_nat i < n → Z.of_nat j < n → mem_total_at n (λ st, memSize2 st i j).
Proof.
  intros Hi Hj st Hst. unfold memSize2.
  destruct (stack_lookup st i n Hst Hi) as [x ->]. destruct (stack_lookup st j n Hst Hj) as [y ->].
  simpl. destruct (calcMemSize64 x y) as [sz ov] eqn:Hc. exists sz, ov. split; [done|].
  unfold calcMemSize64 in Hc. destruct (IsUint64 y); [|by injection Hc as <- <-].
  eapply calcMemSize64WithUint_u64; [apply Uint64_range|exact Hc].
Qed.

Lemma memSizeMax_total n a b c d :
  Z.of_nat a < n → Z.of_nat b < n → Z.of_nat c < n → Z.of_nat d < n →
  mem_total_at n (λ st, memSizeMax st a b c d).
Proof.
  intros Ha Hb Hc Hd st Hst. unfold memSizeMax.
  destruct (memSize2_total n a b Ha Hb st Hst) as (x & bx & -> & Hx).
  destruct (memSize2_total n c d Hc Hd st Hst) as (y & by_ & -> & Hy). simpl.
  destruct bx; [by eexists _, _|]. destruct by_; [by eexists _, _|].
  case_if; eexists _, _; (split; [done|]); auto.
Qed.

Lemma memFixed_total n i k :
  Z.of_nat i < n → is_u64 k →
  mem_total_at n (λ st, off ← Back st i; Some (calcMemSize64WithUint off k)).
Proof.
  intros Hi Hk st Hst. destruct (stack_lookup st i n Hst Hi) as [x ->]. simpl.
  destruct (calcMemSize64WithUint x k) as [sz ov] eqn:Hc. exists sz, ov. split; [done|].
  by eapply calcMemSize64WithUint_u64.
Qed.

Lemma calcMemSize64_region m off l sz :
  calcMemSize64 off l = (sz, false) → sz <= Len m → region m off l.
Proof.
  unfold calcMemSize64, region. destruct (IsUint64 l) eqn:Hl; [|done].
  intros H%calcMemSize64WithUint_ok Hsz; [|apply Uint64_range]. simpl in H. lia.
Qed.

Lemma memSize2_region m st i j sz off l :
  memSize2 st i j = Some (sz, false) → sz <= Len m →
  st !! i = Some off → st !! j = Some l → region m off l.
Proof.
  unfold memSize2, Back. intros H Hsz Hi Hj. rewrite Hi, Hj in H. simpl in H.
  injection H as H. by eapply calcMemSize64_region.
Qed.

Lemma memSizeMax_region m st oi ol ii il sz off l off' l' :
  memSizeMax st oi ol ii il = Some (sz, false) → sz <= Len m →
  st !! oi = Some off → st !! ol = Some l → st !! ii = Some off' → st !! il = Some l' →
  region m off l ∧ region m off' l'.
Proof.
  unfold memSizeMax. intros H Hsz H1 H2 H3 H4.
  destruct (memSize2 st oi ol) as [[x bx]|] eqn:Hx; [|done]. simpl in H.
  destruct bx; [done|].
  destruct (memSize2 st ii il) as [[y by_]|] eqn:Hy; [|done]. simpl in H.
  destruct by_; [done|].
  assert (x <= sz ∧ y <= sz) by (destruct (Z.ltb_spec y x); injection H as <-; lia).
  split; [apply (memSize2_region m st oi ol x)|apply (memSize2_region m st ii il y)];
    done || lia.
Qed.

Lemma slice_len {A} (l : list A) lo hi d : slice l lo hi = Some d → zlen d = hi - lo ∧ 0 <= lo <= hi ∧ hi <= zlen l.
Proof.
  unfold slice. case_if; [|done]. intros [= <-]. zbool.
  unfold zlen in *. rewrite length_take, length_drop. lia.
Qed.

Lemma zlen_take_drop (s : bytes) lo hi (d : bytes) :
  0 <= lo <= hi → hi <= zlen s → zlen d = hi - lo →
  zlen (take (Z.to_nat lo) s ++ d ++ drop (Z.to_nat hi) s) = zlen s.
Proof.
  intros. rewrite !zlen_app. unfold zlen in *.
  rewrite length_take, length_drop. lia.
Qed.

Lemma copy_into_ok s lo hi d :
  0 <= lo <= hi → hi <= zlen s → ∃ s', copy_into s lo hi d = Some s' ∧ zlen s' = zlen s.
Proof.
  intros. unfold copy_into. destruct (slice_ok s lo hi) as (x & -> & Hx); [lia..|].
  simpl. eexists. split; [done|]. apply zlen_take_drop; [lia..|].
  by rewrite zlen_go_copy.
Qed.
End regions.

Section frame.
Context `{UL : Uint256Laws} {S C : Type} {SDB : StateDB S} {BC : BitmapCache C}.
Context {CL : CacheLaws (C := C)}.
Variable E : env S.
Context (EOK : env_ok E).

Implicit Types s : mstate S C.
Implicit Types e : evm S C.

Lemma mem_ok_len m : mem_ok m → 0 <= Len m <= maxMemory.
Proof. intros (k & H & _ & ? & _). split; [apply zlen_nonneg|lia]. Qed.

Lemma mem_ok_same m m' :
  mem_ok m → Len m' = Len m → lastGasCost m' = lastGasCost m → mem_ok m'.
Proof. intros (k & ? & [j ?] & ? & ?) ??. exists k. repeat split; [lia|exists j; lia|lia..]. Qed.

(** ** Primitive actions *)

Section prims.
Context {QE : vmerror → mstate S C → Prop} {QP : panic → Prop}.

Lemma wp_pop Q s x st :
  stack s = x :: st → Q x (set_stack s st) → wp pop' Q QE QP s.
Proof. unfold wp, pop'. intros ->. done. Qed.
Lemma wp_peek Q s x st : stack s = x :: st → Q x s → wp peek' Q QE QP s.
Proof. unfold wp, peek'. intros ->. done. Qed.
Lemma wp_Back (n : nat) Q s x : stack s !! n = Some x → Q x s → wp (Back' n) Q QE QP s.
Proof. unfold wp, Back', Back. intros ->. done. Qed.
Lemma wp_set_peek Q s x y st :
  stack s = x :: st → Q tt (set_stack s (y :: st)) → wp (set_peek' y) Q QE QP s.
Proof. unfold wp, set_peek'. intros ->. done. Qed.
Lemma wp_push Q s x : Q tt (set_stack s (x :: stack s)) → wp (push' x) Q QE QP s.
Proof. done. Qed.
Lemma wp_get_db {A} (f : S → A) Q s : Q (f (sdb (vm s))) s → wp (get_db f) Q QE QP s.
Proof. done. Qed.
Lemma wp_upd_db (f : S → S) Q s :
  Q tt (set_vm s (set_sdb (vm s) (f (sdb (vm s))))) → wp (upd_db f) Q QE QP s.
Proof. done. Qed.
Lemma wp_upd_db_opt (f : S → option S) Q s :
  (∀ d, f (sdb (vm s)) = Some d → Q tt (set_vm s (set_sdb (vm s) d))) → QP PStateDB →
  wp (upd_db_opt f) Q QE QP s.
Proof. unfold wp, upd_db_opt. intros H ?. by destruct (f _); [apply H|]. Qed.
Lemma wp_get_contract Q s : Q (contract s) s → wp get_contract Q QE QP s.
Proof. done. Qed.
Lemma wp_put_pc p Q s : Q tt (set_pc s p) → wp (put_pc p) Q QE QP s.
Proof. done. Qed.
Lemma wp_addGas g Q s :
  Q tt (set_contract s (set_Gas (contract s) (add64 (Gas (contract s)) g))) →
  wp (addGas g) Q QE QP s.
Proof. done. Qed.
Lemma wp_UseGas g Q s :
  (g <= Gas (contract s) → Q true (set_contract s (set_Gas (contract s) (Gas (contract s) - g)))) →
  (Gas (contract s) < g → Q false s) → wp (UseGas' g) Q QE QP s.
Proof.
  unfold wp, UseGas', UseGas. intros H1 H2.
  destruct (Z.ltb_spec (Gas (contract s)) g); [by apply H2|by apply H1].
Qed.
Lemma wp_lift {A} (m : EM S C A) Q s :
  wp m (λ a e, Q a (set_vm s e)) (λ er e, QE er (set_vm s e)) QP (vm s) →
  wp (lift m) Q QE QP s.
Proof. unfold wp, lift. by destruct (m (vm s)). Qed.

Lemma wp_GetPtr off l Q s :
  mem_ok (mem s) → region (mem s) off l →
  (∀ d, zlen d < 2 ^ 63 → Q d s) →
  wp (GetPtr' (s64 (Uint64 off)) (s64 (Uint64 l))) Q QE QP s.
Proof.
  intros Hm%mem_ok_len Hr HQ. unfold wp, GetPtr', GetPtr, maxMemory in *.
  pose proof (Uint64_range off). pose proof (Uint64_range l). unfold is_u64 in *.
  destruct Hr as [->|Hr]; [by apply HQ|].
  rewrite !s64_small by lia. destruct (Z.eqb_spec (Uint64 l) 0); [by apply HQ|].
  destruct (Z.ltb_spec (Uint64 off) (Len (mem s))); [|lia].
  destruct (slice_ok (store (mem s)) (Uint64 off) (Uint64 off + Uint64 l)) as (d & -> & ?);
    unfold Len in *; [lia..|]. apply HQ. lia.
Qed.

Lemma wp_GetCopy off l Q s :
  mem_ok (mem s) → region (mem s) off l →
  (∀ d, zlen d < 2 ^ 63 → Q d s) →
  wp (GetCopy' (s64 (Uint64 off)) (s64 (Uint64 l))) Q QE QP s.
Proof.
  intros Hm%mem_ok_len Hr HQ. unfold wp, GetCopy', GetCopy, maxMemory in *.
  pose proof (Uint64_range off). pose proof (Uint64_range l). unfold is_u64 in *.
  destruct Hr as [->|Hr]; [by apply HQ|].
  rewrite !s64_small by lia. destruct (Z.eqb_spec (Uint64 l) 0); [by apply HQ|].
  destruct (Z.ltb_spec (Uint64 off) (Len (mem s))); [|lia].
  destruct (Z.ltb_spec (Uint64 l) 0); [lia|].
  destruct (slice_ok (store (mem s)) (Uint64 off) (Uint64 off + Uint64 l)) as (d & -> & ?);
    unfold Len in *; [lia..|]. simpl. apply HQ. rewrite zlen_go_copy, zlen_zeros; lia.
Qed.

Lemma wp_GetPtr32 off Q s :
  mem_ok (mem s) → Uint64 off + 32 <= Len (mem s) →
  (∀ d, zlen d < 2 ^ 63 → Q d s) → wp (GetPtr' (s64 (Uint64 off)) 32) Q QE QP s.
Proof.
  intros Hm%mem_ok_len Hr HQ. unfold wp, GetPtr', GetPtr, maxMemory in *.
  pose proof (Uint64_range off). unfold is_u64 in *. rewrite !s64_small by lia.
  destruct (Z.eqb_spec 32 0); [lia|].
  destruct (Z.ltb_spec (Uint64 off) (Len (mem s))); [|lia].
  destruct (slice_ok (store (mem s)) (Uint64 off) (Uint64 off + 32)) as (d & -> & ?);
    unfold Len in *; [lia..|]. apply HQ. lia.
Qed.

(** Writes keep the size of the memory and what was paid for it. *)
Definition mem_same (m m' : Memory) : Prop :=
  Len m' = Len m ∧ lastGasCost m' = lastGasCost m.

Lemma wp_MemSet off l d Q s :
  mem_ok (mem s) → region (mem s) off l →
  (∀ m, mem_same (mem s) m → Q tt (set_mem s m)) →
  wp (MemSet' (Uint64 off) (Uint64 l) d) Q QE QP s.
Proof.
  intros Hm%mem_ok_len Hr HQ. unfold wp, MemSet', Memory_Set, maxMemory in *.
  pose proof (Uint64_range off). pose proof (Uint64_range l). unfold is_u64 in *.
  destruct (Z.ltb_spec 0 (Uint64 l)); [|by apply HQ].
  destruct Hr as [Hr|Hr]; [lia|]. rewrite add64_small by (unfold is_u64; lia).
  destruct (Z.ltb_spec (Len (mem s)) (Uint64 off + Uint64 l)); [lia|].
  destruct (copy_into_ok (store (mem s)) (Uint64 off) (Uint64 off + Uint64 l) d)
    as (x & -> & ?); unfold Len in *; [lia..|]. by apply HQ.
Qed.

Lemma wp_MemSet32 off v Q s :
  mem_ok (mem s) → Uint64 off + 32 <= Len (mem s) →
  (∀ m, mem_same (mem s) m → Q tt (set_mem s m)) →
  wp (MemSet32' (Uint64 off) v) Q QE QP s.
Proof.
  intros Hm%mem_ok_len Hr HQ. unfold wp, MemSet32', Memory_Set32, maxMemory in *.
  pose proof (Uint64_range off). unfold is_u64 in *.
  rewrite add64_small by (unfold is_u64; lia).
  destruct (Z.ltb_spec (Len (mem s)) (Uint64 off + 32)); [lia|].
  destruct (copy_into_ok (store (mem s)) (Uint64 off) (Uint64 off + 32) (zeros 32))
    as (x & -> & Hx); unfold Len in *; [lia..|]. simpl.
  destruct (slice_ok x (Uint64 off) (zlen x)) as (d & -> & Hd); [lia..|]. simpl.
  apply HQ. split; [|done]. unfold Len. simpl.
  rewrite zlen_app, zlen_WriteToSlice by lia.
  rewrite Hd. unfold zlen in *. rewrite length_take. lia.
Qed.

Lemma wp_MemSetByte off b Q s :
  0 <= off < Len (mem s) → (∀ m, mem_same (mem s) m → Q tt (set_mem s m)) →
  wp (MemSetByte' off b) Q QE QP s.
Proof.
  intros Hr HQ. unfold wp, MemSetByte', Memory_SetByte, set_index, Len in *.
  rewrite (proj2 (Z.leb_le 0 off)), (proj2 (Z.ltb_lt off _)) by lia. simpl.
  apply HQ. split; [|done]. unfold Len, zlen. simpl. by rewrite length_insert.
Qed.

(** [getData] does not wrap around on a slice Go can hold and a size memory can. *)
Lemma getData_ok d start size :
  zlen d < 2 ^ 63 → 0 <= start → 0 <= size <= 2 ^ 62 →
  ∃ r, getData d start size = Some r ∧ zlen r = size.
Proof.
  intros Hd Hs Hz. pose proof (zlen_nonneg d). unfold getData.
  set (st := if zlen d <? start then _ else _).
  assert (0 <= st <= zlen d) by (subst st; case_if; zbool; lia).
  rewrite add64_small by (unfold is_u64; lia).
  set (sp := if zlen d <? st + size then _ else _).
  assert (st <= sp <= zlen d ∧ sp <= st + size) by (subst sp; case_if; zbool; lia).
  destruct (slice_ok d st sp) as (r & -> & Hr); [lia..|]. simpl.
  eexists. split; [done|]. rewrite s64_small, zlen_RightPadBytes by lia. lia.
Qed.

Lemma saturated_range (x : Int) : 0 <= saturated x.
Proof.
  unfold saturated. destruct (Uint64WithOverflow x) as [v []] eqn:H; [lia|].
  apply Uint64WithOverflow_ok in H as (? & ? & ?). unfold is_u64 in *. lia.
Qed.

Lemma wp_copy_data src mo off l Q s :
  mem_ok (mem s) → zlen src < 2 ^ 63 → region (mem s) mo l →
  (∀ m, mem_same (mem s) m → Q tt (set_mem s m)) →
  wp (copy_data src mo off l) Q QE QP s.
Proof.
  intros Hm Hs Hr HQ. unfold copy_data. apply wp_bind.
  pose proof (Uint64_range l). pose proof (Uint64_range mo). unfold is_u64 in *.
  pose proof (mem_ok_len _ Hm). unfold maxMemory in *.
  destruct (getData_ok src (saturated off) (Uint64 l)) as (d & Hd & _);
    [done|apply saturated_range|destruct Hr; lia|].
  apply wp_or_panic; [|by rewrite Hd]. intros a _. by apply wp_MemSet.
Qed.
End prims.

(** ** World state changes keep the frame *)

Lemma vm_ok_set_sdb e db : vm_ok E e → vm_ok E (set_sdb e db).
Proof. intros []. by split. Qed.

Lemma evm_rel_op e0 e db :
  evm_rel E e0 e → dbop E (is_ro E e0) (sdb e) db → evm_rel E e0 (set_sdb e db).
Proof.
  intros [] ?. split; [done..|by apply vm_ok_set_sdb|].
  by eapply ds_op.
Qed.

Lemma evm_rel_ro e0 e : evm_rel E e0 e → is_ro E e = is_ro E e0.
Proof. intros []. unfold is_ro. congruence. Qed.

Lemma evm_rel_refl e : vm_ok E e → evm_rel E e e.
Proof. intros. split; [done..|apply ds_refl]. Qed.

Lemma evm_rel_trans e0 e1 e2 : evm_rel E e0 e1 → evm_rel E e1 e2 → evm_rel E e0 e2.
Proof.
  intros H1 H2. pose proof (evm_rel_ro _ _ H1). destruct H1, H2.
  split; [congruence..|done|]. eapply dbsteps_trans; [done|]. congruence.
Qed.

Lemma vm_ok_returnData e r : vm_ok E e → zlen r < 2 ^ 63 → vm_ok E (set_returnData e r).
Proof. intros [] ?. by split. Qed.

Lemma contract_ok_set_Gas c g : contract_ok E c → is_u64 g → contract_ok E (set_Gas c g).
Proof. intros [] ?. by split. Qed.

(** ** Jump destinations *)

Lemma codeSegment_of code udest a :
  codeBitmap code = Some a → 0 <= udest < zlen code →
  codeSegment a udest = Some (is_opcode code udest).
Proof.
  intros Ha Hu. destruct (codeBitmap_spec code) as (b & Hb & H).
  rewrite Ha in Hb. injection Hb as <-. by apply H.
Qed.

Lemma bitmap_for_own c a :
  contract_ok E c → CodeHash c ≠ 0 → codeBitmap (Code c) = Some a →
  bitmap_for E (CodeHash c) a.
Proof.
  intros Hc Hh Ha code Hcode. rewrite <- Ha. apply (hash_bitmap _ EOK).
  rewrite Hcode. symmetry. by apply (ok_hash _ _ Hc).
Qed.

Lemma frame_analysis e0 s a e :
  frame_ok E e0 s → codeBitmap (Code (contract s)) = Some a → evm_rel E e0 e →
  frame_ok E e0 (set_vm (set_contract s (set_analysis (contract s) (Some a))) e).
Proof.
  intros [] Ha He. split; simpl; try done. destruct fr_contract. split; simpl; try done.
  intros ? [= <-]. done.
Qed.

(** Whatever the caches hold, [isCode] answers by the jump-destination analysis of
    the running code, and leaves the caches right. *)
Lemma wp_isCode e0 s udest Q QE QP :
  frame_ok E e0 s → 0 <= udest < zlen (Code (contract s)) →
  (∀ s', frame_ok E e0 s' → stack s' = stack s → Gas (contract s') = Gas (contract s) →
         mem s' = mem s → Q (is_opcode (Code (contract s)) udest) s') →
  wp (isCode udest) Q QE QP s.
Proof.
  intros Hf Hu HQ. pose proof Hf as [Hpc Hst Hm Hc Hv]. unfold wp, isCode.
  destruct (codeBitmap_spec (Code (contract s))) as (bits & Hbits & _).
  destruct (analysis (contract s)) as [a|] eqn:Ha.
  { rewrite (codeSegment_of (Code (contract s))) by
      (done || by apply (ok_analysis _ _ Hc)). by apply HQ. }
  assert (Hbit : ∀ a, bitmap_for E (CodeHash (contract s)) a → CodeHash (contract s) ≠ 0 →
            a = bits).
  { intros a H ?. specialize (H (Code (contract s)) (ok_hash _ _ Hc ltac:(done))). congruence. }
  assert (Hans : ∀ e, evm_rel E e0 e → match
      (match codeSegment bits udest with
       | Some b => Ret b (set_vm (set_contract s (set_analysis (contract s) (Some bits))) e)
       | None => Panic PBitmap
       end : outcome vmerror (mstate S C) bool) with
      Ret a s' => Q a s' | Fail er s' => QE er s' | Panic p => QP p | NoFuel => False end).
  { intros e He. rewrite (codeSegment_of (Code (contract s))) by done.
    apply HQ; [by apply frame_analysis|done..]. }
  destruct (Z.eqb_spec (CodeHash (contract s)) 0) as [Hz|Hz]; simpl.
  { rewrite Hbits. by apply Hans. }
  destruct Hv as [Hd Hr [Hrd Hj Hca] Hdb].
  destruct (jumpdests (vm s) !! CodeHash (contract s)) as [a|] eqn:Hjd.
  { rewrite (Hbit a) by eauto. by apply Hans. }
  destruct (cache_Get (CodeHash (contract s)) (bitmapCache (vm s))) as [[a|] cache] eqn:Hg.
  - pose proof (f_equal fst Hg) as Hg1. pose proof (f_equal snd Hg) as Hg2. simpl in *.
    rewrite (Hbit a) by eauto. apply Hans. split; simpl; try done. split; simpl; try done.
    intros h b Hb. subst cache. eapply Hca, cache_Get_sub, Hb.
  - pose proof (f_equal snd Hg) as Hg2. simpl in *. rewrite Hbits. apply Hans.
    split; simpl; try done. split; simpl; try done.
    + intros h b [[<- <-]|[? ?]]%lookup_insert_Some; [by apply bitmap_for_own|eauto].
    + intros h b [[-> ->]|Hb]%cache_Add_sub; [by apply bitmap_for_own|].
      subst cache. eapply Hca, cache_Get_sub, Hb.
Qed.

(** A jump is accepted exactly when it lands on a [JUMPDEST] that is an opcode. *)
Definition valid_dest (code : bytes) (d : Z) : bool :=
  (d <? zlen code) && bool_decide (index code d = Some JUMPDEST) && is_opcode code d.

Lemma wp_validJumpdest e0 s dest Q QE QP :
  frame_ok E e0 s →
  (∀ s', frame_ok E e0 s' → stack s' = stack s → Gas (contract s') = Gas (contract s) →
         mem s' = mem s → Q (valid_dest (Code (contract s)) (ival dest)) s') →
  wp (validJumpdest dest) Q QE QP s.
Proof.
  intros Hf HQ. unfold validJumpdest. apply wp_bind, wp_get_contract.
  pose proof (ival_range dest). pose proof (ok_code _ _ (fr_contract _ _ _ Hf)).
  destruct (Uint64WithOverflow dest) as [u ov] eqn:Hd.
  rewrite Uint64WithOverflow_spec in Hd. injection Hd as <- Hov.
  destruct ov; simpl.
  { apply wp_ret. zbool. unfold valid_dest in HQ.
    rewrite (proj2 (Z.ltb_ge (ival dest) _)) in HQ by lia. by apply HQ. }
  zbool. rewrite Z.mod_small by lia.
  destruct (Z.leb_spec (zlen (Code (contract s))) (ival dest)).
  { apply wp_ret. unfold valid_dest in HQ.
    rewrite (proj2 (Z.ltb_ge (ival dest) _)) in HQ by lia. by apply HQ. }
  unfold valid_dest in HQ. rewrite (proj2 (Z.ltb_lt (ival dest) _)) in HQ by lia.
  destruct (index_ok (Code (contract s)) (ival dest)) as [op Hop]; [lia|].
  apply wp_bind. rewrite Hop in HQ |- *. apply wp_ret.
  destruct (Z.eqb_spec op JUMPDEST) as [->|Hne]; simpl.
  - rewrite bool_decide_true in HQ by done. apply (wp_isCode e0); [done|lia|done].
  - rewrite bool_decide_false in HQ by congruence. by apply HQ.
Qed.
End frame.
