(* ===== verification/VmExec.v ===== *)
(** * [exec_ok] for every instruction

    Symbolic execution of each [executionFunc] with the rules of [VmFrame].  The
    lemmas are stated for the jump-table entries that use the function, whatever
    their gas. *)

From S2P Require Import Prelude Uint256 Params VmData VmAnalysis VmState VmGas VmInstr.
From S2P Require Import VmJumpTable VmInterpreter VmEvm VmSpec VmFrame.

Section exec.
Context `{UL : Uint256Laws} {S C : Type} {SDB : StateDB S} {BC : BitmapCache C}.
Context {CL : CacheLaws (C := C)}.
Variable E : env S.
Context (EOK : env_ok E).

Implicit Types s : mstate S C.

(** ** Updates that keep a frame well formed *)

Lemma frame_ok_stack e0 s st :
  frame_ok E e0 s → zlen st <= StackLimit → frame_ok E e0 (set_stack s st).
Proof. intros [] ?. by split. Qed.
Lemma frame_ok_mem e0 s m :
  frame_ok E e0 s → mem_same (mem s) m → frame_ok E e0 (set_mem s m).
Proof. intros [] [??]. split; try done. by eapply mem_ok_same. Qed.
Lemma frame_ok_pc e0 s p : frame_ok E e0 s → is_u64 p → frame_ok E e0 (set_pc s p).
Proof. intros [] ?. by split. Qed.
Lemma frame_ok_db e0 s db :
  frame_ok E e0 s → dbop E (is_ro E e0) (sdb (vm s)) db →
  frame_ok E e0 (set_vm s (set_sdb (vm s) db)).
Proof. intros [] ?. split; try done. by apply evm_rel_op. Qed.
Lemma frame_ok_gas e0 s g :
  frame_ok E e0 s → is_u64 g → frame_ok E e0 (set_contract s (set_Gas (contract s) g)).
Proof. intros [] ?. split; try done. by apply contract_ok_set_Gas. Qed.
Lemma frame_ok_rel e0 s e :
  frame_ok E e0 s → evm_rel E (vm s) e → frame_ok E e0 (set_vm s e).
Proof. intros [] ?. split; try done. by eapply evm_rel_trans. Qed.
Lemma frame_ok_end e0 s g :
  frame_ok E e0 s → Gas (contract s) <= g → frame_end E e0 g s.
Proof. intros [??? [[]]] ?. by split. Qed.
Lemma frame_ok_mem_ok e0 s : frame_ok E e0 s → mem_ok (mem s).
Proof. by intros []. Qed.

(** Where writes are allowed the frame is not read-only. *)
Lemma write_not_ro e0 s op (o : operation S C) :
  frame_ok E e0 s → write_ok E op o s → writes o = true → is_ro E e0 = false.
Proof.
  intros [] Hw Ho. rewrite <- (evm_rel_ro _ _ _ fr_vm). unfold write_ok in Hw.
  destruct (is_ro E (vm s)); [|done]. destruct Hw; congruence.
Qed.
End exec.

(** ** Symbolic execution *)

Ltac zlens_in_hyps :=
  repeat match goal with
  | H : context [zlen (_ :: _)] |- _ => rewrite zlen_cons in H
  | H : context [zlen (@nil _)] |- _ => rewrite zlen_nil in H
  end.

(** Splits one more operand off the stack. *)
Ltac list_tail l := lazymatch l with _ :: ?k => list_tail k | _ => l end.
Ltac operand :=
  match goal with
  | Hs : stack _ = ?l |- _ =>
      let t := list_tail l in
      destruct t; [exfalso; zlens_in_hyps; lia|]
  end.

(** Introduces the hypotheses of [exec_ok] and names the [n] operands. *)
Tactic Notation "exec_intro" integer(n) :=
  intros K e0 s HK Hf Hst Hmr Hw Hpc Hb0 Hb;
  pose proof (fr_stack _ _ _ Hf) as Hlim;
  unfold stack_ok, mem_ready in *; cbn [op_ op_minStack op_maxStack memorySize execute] in *;
  unfold minDupStack, maxDupStack, minSwapStack, maxSwapStack, minStack, maxStack, StackLimit in *;
  remember (stack s) as st eqn:Hs; symmetry in Hs;
  pose proof (zlen_nonneg st);
  do n operand;
  try destruct Hmr as (sz & Hsz & Hszle).

Ltac frame_fields := cbn [pc stack mem contract vm set_stack set_vm set_mem set_pc set_contract
  set_sdb Gas set_Gas].

Ltac region_tac :=
  frame_fields;
  first
  [ eassumption
  | match goal with
    | Hsz : _ = Some (_, false) |- _ =>
        eapply memSize2_region; [exact Hsz|lia|reflexivity|reflexivity]
    end ].
Ltac mem_ok_tac :=
  frame_fields; match goal with Hf : frame_ok _ _ ?s |- mem_ok (mem ?s) =>
    exact (frame_ok_mem_ok _ _ _ Hf) end.

(** Evaluates one primitive; memory accesses are discharged by the memory size. *)
Ltac sx1 :=
  first
  [ wp_step
  | eapply wp_pop; [first [eassumption | reflexivity]|]
  | eapply wp_peek; [first [eassumption | reflexivity]|]
  | eapply wp_set_peek; [first [eassumption | reflexivity]|]
  | apply wp_push
  | apply wp_get_contract
  | apply wp_get_db
  | apply wp_upd_db
  | apply wp_put_pc
  | apply wp_GetPtr; [mem_ok_tac|region_tac|intros ? ?]
  | apply wp_GetCopy; [mem_ok_tac|region_tac|intros ? ?]
  | apply wp_MemSet; [mem_ok_tac|region_tac|intros ? ?]
  | apply wp_copy_data;
      [mem_ok_tac|frame_fields; eauto using GetCode_len, ok_code, ok_input, fr_contract
      |region_tac|intros ? ?] ].
Ltac sx := unfold nil_result, pushes; repeat sx1.

Ltac zlens :=
  frame_fields; zlens_in_hyps;
  repeat match goal with
  | H : stack ?s = _ |- context [stack ?s] => rewrite H
  end; rewrite ?zlen_cons, ?zlen_nil; unfold StackLimit; lia.

(** The frame, length and gas parts of a postcondition. *)
Ltac finish :=
  first
  [ apply frame_ok_end; [|frame_fields; lia]
  | split_and!; [|first [done | rewrite ?zlen_nil; lia]|frame_fields; try lia]
  | idtac ];
  repeat first
    [ eassumption | apply frame_ok_stack | apply frame_ok_mem | apply frame_ok_pc
    | apply frame_ok_db | apply u64_range ];
  try solve [zlens].

Section exec_ops.
Context `{UL : Uint256Laws} {S C : Type} {SDB : StateDB S} {BC : BitmapCache C}.
Context {CL : CacheLaws (C := C)}.
Variable E : env S.
Context (EOK : env_ok E).
Implicit Types op g : Z.

(** ** Operands and stack only *)

Lemma exec_binop op f g d ms fl :
  exec_ok E op (op_ (λ _ _, binop f) g d (minStack 2 1) (maxStack 2 1) ms fl).
Proof. exec_intro 2. unfold binop. sx. finish. Qed.

Lemma exec_unop op (f : Int → Int) g d ms fl :
  exec_ok E op (op_ (λ _ _, let! x := peek' in do! set_peek' (f x) in nil_result)
                  g d (minStack 1 1) (maxStack 1 1) ms fl).
Proof. exec_intro 1. sx. finish. Qed.

Lemma exec_ternop op f g d ms fl :
  exec_ok E op (op_ (λ _ _, let! x := pop' in let! y := pop' in let! z := peek' in
                           do! set_peek' (f x y z) in nil_result)
                  g d (minStack 3 1) (maxStack 3 1) ms fl).
Proof. exec_intro 3. sx. finish. Qed.

Lemma exec_pushes op f g d ms fl :
  exec_ok E op (op_ (λ E _, pushes (f E)) g d (minStack 0 1) (maxStack 0 1) ms fl).
Proof. exec_intro 0. sx. finish. Qed.

Lemma exec_Pop op g d ms fl :
  exec_ok E op (op_ (λ _ _, opPop) g d (minStack 1 0) (maxStack 1 0) ms fl).
Proof. exec_intro 1. unfold opPop. sx. finish. Qed.

Lemma exec_nil op g d ms fl :
  exec_ok E op (op_ (λ _ _, nil_result) g d (minStack 0 0) (maxStack 0 0) ms fl).
Proof. exec_intro 0. sx. finish. Qed.

Lemma exec_Dup op (n : nat) g d ms fl :
  (0 < n)%nat →
  exec_ok E op (op_ (λ _ _, makeDup n) g d (minDupStack (Z.of_nat n))
                  (maxDupStack (Z.of_nat n)) ms fl).
Proof.
  intros Hn. exec_intro 0. unfold makeDup. apply wp_bind. unfold wp, dup', dup, Stack.
  destruct n as [|n]; [lia|]. rewrite Hs.
  destruct (lookup_lt_is_Some_2 st n) as [x ->]; [unfold zlen in *; lia|]. simpl.
  split_and!; [|done|simpl; lia]. apply frame_ok_stack; [done|]. rewrite zlen_cons.
  unfold StackLimit. lia.
Qed.

Lemma exec_Swap op (n : nat) g d ms fl :
  exec_ok E op (op_ (λ _ _, makeSwap n) g d (minSwapStack (Z.of_nat n + 1))
                  (maxSwapStack (Z.of_nat n + 1)) ms fl).
Proof.
  exec_intro 0. unfold makeSwap. apply wp_bind. unfold wp, swap', swap, Stack. rewrite Hs.
  destruct (lookup_lt_is_Some_2 st n) as [x ->]; [unfold zlen in *; lia|].
  destruct (lookup_lt_is_Some_2 st 0) as [y ->]; [unfold zlen in *; lia|]. simpl.
  split_and!; [|done|simpl; lia]. apply frame_ok_stack; [done|].
  unfold zlen, StackLimit in *. rewrite !length_insert. lia.
Qed.

(** ** Code *)

Lemma exec_Push1 op g d ms fl :
  op ≠ STOP →
  exec_ok E op (op_ (λ _ _, opPush1) g d (minStack 0 1) (maxStack 0 1) ms fl).
Proof.
  intros Hop. exec_intro 0. specialize (Hpc Hop). unfold opPush1. sx; finish.
  apply wp_or_panic.
  - intros b _. sx. finish.
  - zbool. pose proof (u64_range (pc s + 1)) as Hr. fold (add64 (pc s) 1) in Hr.
    unfold is_u64 in Hr. destruct (index_ok (Code (contract s)) (add64 (pc s) 1)); [lia|congruence].
Qed.

Lemma exec_Push op n size g d ms fl :
  0 <= n → op ≠ STOP →
  exec_ok E op (op_ (λ _ _, makePush size n) g d (minStack 0 1) (maxStack 0 1) ms fl).
Proof.
  intros Hn Hop. exec_intro 0. specialize (Hpc Hop). unfold makePush. sx.
  pose proof (fr_pc _ _ _ Hf). pose proof (ok_code _ _ (fr_contract _ _ _ Hf)).
  unfold is_u64 in *. apply wp_or_panic.
  - intros b _. sx. finish.
  - rewrite add64_small, s64_small by (unfold is_u64; lia). intros Hsl. exfalso.
    destruct (slice_ok (Code (contract s))
      (if pc s + 1 <? zlen (Code (contract s)) then pc s + 1 else zlen (Code (contract s)))
      (if (if pc s + 1 <? zlen (Code (contract s)) then pc s + 1
           else zlen (Code (contract s))) + n <? zlen (Code (contract s))
       then (if pc s + 1 <? zlen (Code (contract s)) then pc s + 1
             else zlen (Code (contract s))) + n
       else zlen (Code (contract s)))) as (? & ? & _);
      [repeat case_if; zbool; lia..|]. congruence.
Qed.

(** ** Reading the world *)

Lemma exec_peek_db op (f : S → Int → Int) g d ms fl :
  exec_ok E op (op_ (λ _ _, let! x := peek' in let! y := get_db (λ db, f db x) in
                           do! set_peek' y in nil_result)
                  g d (minStack 1 1) (maxStack 1 1) ms fl).
Proof. exec_intro 1. sx. finish. Qed.

Lemma exec_Balance op g d ms fl :
  exec_ok E op (op_ (λ _ _, opBalance) g d (minStack 1 1) (maxStack 1 1) ms fl).
Proof. exec_intro 1. unfold opBalance. sx. finish. Qed.
Lemma exec_ExtCodeSize op g d ms fl :
  exec_ok E op (op_ (λ _ _, opExtCodeSize) g d (minStack 1 1) (maxStack 1 1) ms fl).
Proof. exec_intro 1. unfold opExtCodeSize. sx. finish. Qed.
Lemma exec_ExtCodeHash op g d ms fl :
  exec_ok E op (op_ (λ _ _, opExtCodeHash) g d (minStack 1 1) (maxStack 1 1) ms fl).
Proof. exec_intro 1. unfold opExtCodeHash. sx; finish. Qed.
Lemma exec_Sload op g d ms fl :
  exec_ok E op (op_ (λ _ _, opSload) g d (minStack 1 1) (maxStack 1 1) ms fl).
Proof. exec_intro 1. unfold opSload. sx. finish. Qed.
Lemma exec_Blockhash op g d ms fl :
  exec_ok E op (op_ (λ E _, opBlockhash E) g d (minStack 1 1) (maxStack 1 1) ms fl).
Proof. exec_intro 1. unfold opBlockhash. sx; finish. Qed.
Lemma exec_SelfBalance op g d ms fl :
  exec_ok E op (op_ (λ _ _, opSelfBalance) g d (minStack 0 1) (maxStack 0 1) ms fl).
Proof. exec_intro 0. unfold opSelfBalance. sx. finish. Qed.

Lemma exec_CallDataLoad op g d ms fl :
  exec_ok E op (op_ (λ _ _, opCallDataLoad) g d (minStack 1 1) (maxStack 1 1) ms fl).
Proof.
  exec_intro 1. unfold opCallDataLoad. sx; finish.
  apply wp_or_panic; [intros; sx; finish|]. intros Hd. exfalso.
  destruct (getData_ok (Input (contract s)) z 32) as (? & ? & _);
    [apply (ok_input _ _ (fr_contract _ _ _ Hf))| |lia|congruence].
  rewrite Uint64WithOverflow_spec in Hpair. injection Hpair as <- _.
  apply Z.mod_pos_bound. lia.
Qed.

(** ** Memory *)

Lemma exec_Sha3 op g d fl :
  exec_ok E op (op_ (λ E _, opSha3 E) g d (minStack 2 1) (maxStack 2 1) (Some memorySha3) fl).
Proof. exec_intro 2. unfold opSha3. sx; finish; constructor. Qed.

Lemma exec_CallDataCopy op g d fl :
  exec_ok E op (op_ (λ _ _, opCallDataCopy) g d (minStack 3 0) (maxStack 3 0)
                  (Some memoryCallDataCopy) fl).
Proof. exec_intro 3. unfold opCallDataCopy. sx. finish. Qed.
Lemma exec_CodeCopy op g d fl :
  exec_ok E op (op_ (λ _ _, opCodeCopy) g d (minStack 3 0) (maxStack 3 0)
                  (Some memoryCodeCopy) fl).
Proof. exec_intro 3. unfold opCodeCopy. sx. finish. Qed.
Lemma exec_ExtCodeCopy op g d fl :
  exec_ok E op (op_ (λ _ _, opExtCodeCopy) g d (minStack 4 0) (maxStack 4 0)
                  (Some memoryExtCodeCopy) fl).
Proof. exec_intro 4. unfold opExtCodeCopy. sx. finish. Qed.

Lemma exec_ReturnDataCopy op g d fl :
  exec_ok E op (op_ (λ _ _, opReturnDataCopy) g d (minStack 3 0) (maxStack 3 0)
                  (Some memoryReturnDataCopy) fl).
Proof.
  exec_intro 3. unfold opReturnDataCopy. sx; finish. zbool.
  apply wp_or_panic; [intros; sx; finish|]. intros Hsl. exfalso. revert Hsl.
  frame_fields. intros Hsl. simpl in *. subst.
  apply Uint64WithOverflow_ok in Hpair as (-> & ? & ?).
  apply Uint64WithOverflow_ok in Hpair0 as (-> & ? & ?).
  (* the end does not wrap below the start: the length was checked with the memory *)
  assert (Hl : IsUint64 i1 = true).
  { unfold memoryReturnDataCopy, memSize2, calcMemSize64, Back in Hsz. simpl in Hsz.
    by destruct (IsUint64 i1). }
  rewrite IsUint64_spec in Hl. zbool. pose proof (ival_range i1). unfold is_u64 in *.
  rewrite Add_spec in *. rewrite Z.mod_small in * by (unfold W256; lia).
  destruct (slice_ok (returnData (vm s)) (ival i0) (ival i0 + ival i1)) as (? & ? & _);
    [lia..|congruence].
Qed.

Lemma memory32_ok m (x : Int) (st : list Int) sz :
  memoryMLoad (x :: st) = Some (sz, false) → sz <= Len m → Uint64 x + 32 <= Len m.
Proof.
  unfold memoryMLoad. simpl. intros [= H%calcMemSize64WithUint_ok] ?;
    [|unfold is_u64; lia]. lia.
Qed.

Lemma exec_Mload op g d fl :
  exec_ok E op (op_ (λ _ _, opMload) g d (minStack 1 1) (maxStack 1 1) (Some memoryMLoad) fl).
Proof.
  exec_intro 1. unfold opMload. sx.
  apply wp_GetPtr32; [mem_ok_tac|by eapply memory32_ok; [|apply Hszle]|]. intros. sx. finish.
Qed.
Lemma exec_Mstore op g d fl :
  exec_ok E op (op_ (λ _ _, opMstore) g d (minStack 2 0) (maxStack 2 0) (Some memoryMStore) fl).
Proof.
  exec_intro 2. unfold opMstore. sx.
  apply wp_MemSet32; [mem_ok_tac|by eapply memory32_ok; [|apply Hszle]|]. intros. sx. finish.
Qed.
Lemma exec_Mstore8 op g d fl :
  exec_ok E op (op_ (λ _ _, opMstore8) g d (minStack 2 0) (maxStack 2 0)
                  (Some memoryMStore8) fl).
Proof.
  exec_intro 2. unfold opMstore8. sx. pose proof (Uint64_range i). unfold is_u64 in *.
  unfold memoryMStore8 in Hsz. simpl in Hsz. injection Hsz as Hsz%calcMemSize64WithUint_ok;
    [|unfold is_u64; lia].
  apply wp_MemSetByte; [frame_fields; lia|]. intros. sx. finish.
Qed.

(** ** Storage, logs, self-destruction: only where writes are allowed *)

Lemma exec_Sstore op g d ms fl :
  Writes ∈ fl →
  exec_ok E op (op_ (λ _ _, opSstore) g d (minStack 2 0) (maxStack 2 0) ms fl).
Proof.
  intros Hfl. exec_intro 2. unfold opSstore. sx. finish.
  apply db_setState. eapply write_not_ro; [exact Hf|exact Hw|]. by apply bool_decide_eq_true.
Qed.

Lemma exec_Suicide op g d ms fl :
  Writes ∈ fl →
  exec_ok E op (op_ (λ _ _, opSuicide) g d (minStack 1 0) (maxStack 1 0) ms fl).
Proof.
  intros Hfl. exec_intro 1. unfold opSuicide. sx.
  assert (is_ro E e0 = false)
    by (eapply write_not_ro; [exact Hf|exact Hw|]; by apply bool_decide_eq_true).
  split_and!; [|done|frame_fields; lia].
  apply (frame_ok_db E e0 (set_vm (set_stack s st) (set_sdb (vm s) _)));
    [|by apply db_suicide].
  apply (frame_ok_db E e0 (set_stack s st)); [finish|by apply db_addBalance].
Qed.

Lemma wp_pop_topics n Q QE QP (s : mstate S C) :
  (n <= length (stack s))%nat →
  (∀ ts, Q ts (set_stack s (drop n (stack s)))) → wp (pop_topics n) Q QE QP s.
Proof.
  revert Q s. induction n as [|n IH]; intros Q s Hn HQ.
  { simpl. apply wp_ret. specialize (HQ []). rewrite drop_0 in HQ. by destruct s. }
  simpl. destruct (stack s) as [|x st] eqn:Hs; [simpl in Hn; lia|]. simpl in *.
  apply wp_bind. eapply wp_pop; [done|]. apply wp_bind. apply IH; [simpl; lia|].
  intros ts. apply wp_ret. apply HQ.
Qed.

Lemma exec_Log op (n : nat) g d fl :
  Writes ∈ fl →
  exec_ok E op (op_ (λ E _, makeLog E n) g d (minStack (Z.of_nat n + 2) 0)
                  (maxStack (Z.of_nat n + 2) 0) (Some memoryLog) fl).
Proof.
  intros Hfl. exec_intro 2. unfold makeLog. sx.
  apply wp_pop_topics; [frame_fields; zlens_in_hyps; unfold zlen in *; lia|]. intros ts. sx.
  split_and!; [|done|frame_fields; lia].
  apply (frame_ok_db E e0 (set_stack _ _)).
  - apply frame_ok_stack; [finish|]. frame_fields. zlens_in_hyps. unfold zlen, StackLimit in *.
    rewrite length_drop. lia.
  - apply db_log. eapply write_not_ro; [exact Hf|exact Hw|]. by apply bool_decide_eq_true.
Qed.

(** ** Jumps *)

Lemma exec_Jump op g d ms fl :
  exec_ok E op (op_ (λ _ _, opJump) g d (minStack 1 0) (maxStack 1 0) ms fl).
Proof.
  exec_intro 1. unfold opJump. sx.
  apply (wp_validJumpdest E EOK e0); [finish|].
  intros s' Hf' Hs' Hg' _. frame_fields. simpl in Hg'. sx; finish.
  apply Uint64_range.
Qed.
Lemma exec_Jumpi op g d ms fl :
  exec_ok E op (op_ (λ _ _, opJumpi) g d (minStack 2 0) (maxStack 2 0) ms fl).
Proof.
  exec_intro 2. unfold opJumpi. sx; finish.
  apply (wp_validJumpdest E EOK e0); [finish|].
  intros s' Hf' Hs' Hg' _. frame_fields. simpl in Hg'. sx; finish.
  apply Uint64_range.
Qed.

(** ** Ending the frame *)

Lemma exec_Return op g d fl :
  exec_ok E op (op_ (λ _ _, opReturn) g d (minStack 2 0) (maxStack 2 0) (Some memoryReturn) fl).
Proof. exec_intro 2. unfold opReturn. sx. finish. Qed.
Lemma exec_Revert op g d fl :
  exec_ok E op (op_ (λ _ _, opRevert) g d (minStack 2 0) (maxStack 2 0) (Some memoryRevert) fl).
Proof. exec_intro 2. unfold opRevert. sx. finish. Qed.

(** ** Calls and creations *)

(** The end of a call: [e] is the machine after the callee, [left] what it gave back. *)
Lemma wp_finish_call e0 s st e ro rs out left err b :
  frame_ok E e0 s → zlen st < StackLimit → region (mem s) ro rs →
  evm_rel E (vm s) e → zlen out < 2 ^ 63 → 0 <= left <= b →
  Gas (contract s) + b < 2 ^ 64 →
  wp (finish_call ro rs (out, left, err))
    (λ out s', frame_ok E e0 s' ∧ zlen out < 2 ^ 63 ∧
               Gas (contract s') <= Gas (contract s) + b)
    (λ _, frame_end E e0 (Gas (contract s) + b)) ok_panic (set_vm (set_stack s st) e).
Proof.
  intros Hf Hst Hr He Ho Hl Hg. unfold finish_call.
  assert (0 <= Gas (contract s)) by apply (ok_gas _ _ (fr_contract _ _ _ Hf)).
  assert (Hok : ∀ x, frame_ok E e0 (set_stack (set_vm (set_stack s st) e) (x :: st))).
  { intros x. apply frame_ok_stack; [|rewrite zlen_cons; lia].
    apply (frame_ok_rel E e0 (set_stack s st)); [|done]. apply frame_ok_stack; [done|lia]. }
  assert (Hend : ∀ s', frame_ok E e0 s' → Gas (contract s') = Gas (contract s) →
    wp (do! addGas left in ret out)
      (λ out s', frame_ok E e0 s' ∧ zlen out < 2 ^ 63 ∧
                 Gas (contract s') <= Gas (contract s) + b)
      (λ _, frame_end E e0 (Gas (contract s) + b)) ok_panic s').
  { intros s' Hs' Hgs. apply wp_bind, wp_addGas, wp_ret. rewrite Hgs.
    rewrite add64_small by (unfold is_u64; lia).
    split_and!; [apply frame_ok_gas; [done|unfold is_u64; lia]|done|frame_fields; lia]. }
  apply wp_bind, wp_push, wp_bind.
  destruct (bool_decide (err = None) || bool_decide (err = Some ErrExecutionReverted)).
  - apply wp_MemSet; [apply (frame_ok_mem_ok E e0 s Hf)|done|]. intros m Hm.
    apply Hend; [|done]. by apply frame_ok_mem.
  - apply wp_ret, Hend; done.
Qed.

(** A call whose callee keeps the promise [call_post], then [finish_call]. *)
Lemma wp_call_finish e0 s st (m : EM S C (bytes * Z * option vmerror)) ro rs b :
  frame_ok E e0 s → zlen st < StackLimit → region (mem s) ro rs →
  Gas (contract s) + b < 2 ^ 64 →
  wp m (call_post E (vm s) b) (λ _ _, False) ok_panic (vm s) →
  wp (lift m)
    (λ r, wp (finish_call ro rs r)
       (λ out s', frame_ok E e0 s' ∧ zlen out < 2 ^ 63 ∧
                  Gas (contract s') <= Gas (contract s) + b)
       (λ _, frame_end E e0 (Gas (contract s) + b)) ok_panic)
    (λ _, frame_end E e0 (Gas (contract s) + b)) ok_panic (set_stack s st).
Proof.
  intros Hf Hst Hr Hg Hm. apply wp_lift.
  eapply wp_mono; [exact Hm| |done|done].
  intros [[out left] err] e (Ho & Hl & He). simpl in *. by apply wp_finish_call.
Qed.

Lemma stipend_budget v t :
  0 <= t + (if negb (IsZero v) then CallStipend else 0) < 2 ^ 64 →
  stipend v t = t + (if negb (IsZero v) then CallStipend else 0).
Proof. intros. unfold stipend. case_if; [by apply add64_small|lia]. Qed.

Lemma IsZero_Sign (v : Int) : Sign v = 0 → IsZero v = true.
Proof. rewrite Sign_zero, IsZero_spec, Z.eqb_eq. done. Qed.

(** The side conditions shared by the four calls: gas is never negative. *)
Ltac call_setup :=
  match goal with Hf : frame_ok _ _ ?s |- _ =>
    let H := fresh "Hgas" in
    assert (H : 0 <= Gas (contract s)) by apply (ok_gas _ _ (fr_contract _ _ _ Hf))
  end;
  match goal with Hsz : _ = Some (_, false), Hle : _ <= ?sz <= Len _ |- _ =>
    destruct (memSizeMax_region _ _ _ _ _ _ _ _ _ _ _ Hsz (proj2 Hle)
                eq_refl eq_refl eq_refl eq_refl) as [? ?]
  end.
Ltac call_rel Hf :=
  first [ apply (rel_depth _ _ _ (fr_vm _ _ _ Hf)) | apply (rel_ok _ _ _ (fr_vm _ _ _ Hf)) ].

Lemma exec_Call g d fl :
  exec_ok E CALL (op_ (λ _ K, opCall K) g d (minStack 7 1) (maxStack 7 1)
                    (Some memoryCall) fl).
Proof.
  exec_intro 7. call_setup. unfold opCall.
  change (budget CALL s) with (callGasTemp (vm s) +
    (if default false (negb ∘ IsZero <$> Back (stack s) 2) then CallStipend else 0)) in *.
  rewrite Hs in *. change (default false (negb ∘ IsZero <$> Back (i :: i0 :: i1 :: i2 :: i3 :: i4 :: i5 :: st) 2))
    with (negb (IsZero i1)) in *.
  sx. frame_fields. rewrite stipend_budget by lia.
  apply (wp_call_finish e0 s st); [done|zlens|done|lia|].
  apply (Call_ok _ (CallsOk := HK)); [call_rel Hf|call_rel Hf|unfold is_u64; lia|done|].
  intros Hro. apply Hw in Hro as [_ Hv]. destruct (Hv eq_refl) as (v & Hv1 & Hv2).
  rewrite Hs in Hv1. injection Hv1 as <-. unfold bigVal. by rewrite (IsZero_Sign i1).
Qed.

Lemma exec_CallCode g d fl :
  exec_ok E CALLCODE (op_ (λ _ K, opCallCode K) g d (minStack 7 1) (maxStack 7 1)
                    (Some memoryCall) fl).
Proof.
  exec_intro 7. call_setup. unfold opCallCode.
  change (budget CALLCODE s) with (callGasTemp (vm s) +
    (if default false (negb ∘ IsZero <$> Back (stack s) 2) then CallStipend else 0)) in *.
  rewrite Hs in *. change (default false (negb ∘ IsZero <$> Back (i :: i0 :: i1 :: i2 :: i3 :: i4 :: i5 :: st) 2))
    with (negb (IsZero i1)) in *.
  sx. frame_fields. rewrite stipend_budget by lia.
  apply (wp_call_finish e0 s st); [done|zlens|done|lia|].
  apply (CallCode_ok _ (CallsOk := HK)); [call_rel Hf|call_rel Hf|unfold is_u64; lia|done].
Qed.

Lemma exec_DelegateCall g d fl :
  exec_ok E DELEGATECALL (op_ (λ _ K, opDelegateCall K) g d (minStack 6 1) (maxStack 6 1)
                    (Some memoryDelegateCall) fl).
Proof.
  exec_intro 6. call_setup. unfold opDelegateCall.
  change (budget DELEGATECALL s) with (callGasTemp (vm s)) in *.
  sx. frame_fields. apply (wp_call_finish e0 s st); [done|zlens|done|lia|].
  apply (DelegateCall_ok _ (CallsOk := HK)); [call_rel Hf|call_rel Hf|unfold is_u64; lia|done].
Qed.

Lemma exec_StaticCall g d fl :
  exec_ok E STATICCALL (op_ (λ _ K, opStaticCall K) g d (minStack 6 1) (maxStack 6 1)
                    (Some memoryStaticCall) fl).
Proof.
  exec_intro 6. call_setup. unfold opStaticCall.
  change (budget STATICCALL s) with (callGasTemp (vm s)) in *.
  sx. frame_fields. apply (wp_call_finish e0 s st); [done|zlens|done|lia|].
  apply (StaticCall_ok _ (CallsOk := HK)); [call_rel Hf|call_rel Hf|unfold is_u64; lia|done].
Qed.

(** A creation spends [gas] of the frame and gets back what is left of it. *)
Lemma wp_create_finish e0 s st gas (m : EM S C (bytes * Address * Z * option vmerror)) f
    (h : bytes → option vmerror → bytes) b :
  frame_ok E e0 s → zlen st < StackLimit → 0 <= gas <= Gas (contract s) → 0 <= b →
  wp m (create_post E (vm s) gas) (λ _ _, False) ok_panic (vm s) →
  (∀ (res : bytes) (suberr : option vmerror), zlen res < 2 ^ 63 → zlen (h res suberr) < 2 ^ 63) →
  wp (UseGas' gas)
    (λ _, wp (let! (res, addr, returnGas, suberr) := lift m in
              do! push' (f addr suberr) in
              do! addGas returnGas in
              ret (h res suberr))
       (λ out s', frame_ok E e0 s' ∧ zlen out < 2 ^ 63 ∧
                  Gas (contract s') <= Gas (contract s) + b)
       (λ _, frame_end E e0 (Gas (contract s) + b)) ok_panic)
    (λ _, frame_end E e0 (Gas (contract s) + b)) ok_panic (set_stack s st).
Proof.
  intros Hf Hst Hg Hb Hm Hh. pose proof (ok_gas _ _ (fr_contract _ _ _ Hf)) as Hu.
  unfold is_u64 in Hu. apply wp_UseGas; frame_fields; [intros _|lia].
  apply wp_bind, wp_lift. eapply wp_mono; [exact Hm| |done|done].
  intros [[[out addr] left] err] e (Ho & Hl & He). simpl in *.
  apply wp_bind, wp_push, wp_bind, wp_addGas, wp_ret. simpl.
  rewrite add64_small by (unfold is_u64; lia).
  split_and!; [|by apply Hh|frame_fields; lia].
  destruct Hf. split; simpl; try done.
  - rewrite zlen_cons. lia.
  - destruct fr_contract. split; simpl; try done. unfold is_u64; lia.
  - by eapply evm_rel_trans.
Qed.

Lemma revert_data_len (res : bytes) suberr :
  zlen res < 2 ^ 63 → zlen (revert_data res suberr) < 2 ^ 63.
Proof. intros. unfold revert_data. case_if; [done|]. rewrite zlen_nil. lia. Qed.

Lemma sub64_div64 x : is_u64 x → 0 <= sub64 x (x / 64) <= x.
Proof.
  unfold is_u64. intros. pose proof (Z.div_pos x 64). pose proof (Z.div_le_upper_bound x 64 x).
  rewrite sub64_small by (unfold is_u64; lia). lia.
Qed.

Lemma exec_Create op g d fl :
  Writes ∈ fl →
  exec_ok E op (op_ (λ E K, opCreate E K) g d (minStack 3 1) (maxStack 3 1)
                    (Some memoryCreate) fl).
Proof.
  intros Hfl. exec_intro 3. unfold opCreate. sx. frame_fields.
  pose proof (ok_gas _ _ (fr_contract _ _ _ Hf)) as Hu.
  assert (Hro : is_ro E e0 = false)
    by (eapply write_not_ro; [exact Hf|exact Hw|]; by apply bool_decide_eq_true).
  rewrite <- (evm_rel_ro _ _ _ (fr_vm _ _ _ Hf)) in Hro.
  set (gas := if rIsEIP150 (chainRules E) then _ else _).
  assert (0 <= gas <= Gas (contract s)).
  { subst gas. pose proof (sub64_div64 _ Hu). unfold is_u64 in Hu. case_if; lia. }
  eapply (wp_create_finish e0 s st gas _ (λ addr suberr, _) revert_data);
    [done|zlens|done|done| |apply revert_data_len].
  apply (Create_ok _ (CallsOk := HK)); [call_rel Hf|call_rel Hf| |done|done]. unfold is_u64 in *; lia.
Qed.

Lemma exec_Create2 op g d fl :
  Writes ∈ fl →
  exec_ok E op (op_ (λ _ K, opCreate2 K) g d (minStack 4 1) (maxStack 4 1)
                    (Some memoryCreate2) fl).
Proof.
  intros Hfl. exec_intro 4. unfold opCreate2. sx. frame_fields.
  pose proof (ok_gas _ _ (fr_contract _ _ _ Hf)) as Hu.
  assert (Hro : is_ro E e0 = false)
    by (eapply write_not_ro; [exact Hf|exact Hw|]; by apply bool_decide_eq_true).
  rewrite <- (evm_rel_ro _ _ _ (fr_vm _ _ _ Hf)) in Hro.
  pose proof (sub64_div64 _ Hu).
  eapply (wp_create_finish e0 s st _ _ (λ addr suberr, _) revert_data);
    [done|zlens|done|done| |apply revert_data_len].
  apply (Create2_ok _ (CallsOk := HK)); [call_rel Hf|call_rel Hf| |done|done]. unfold is_u64 in *; lia.
Qed.
End exec_ops.
