(* ===== verification/VmGasOk.v ===== *)
(** * Every gas function is safe and covers what it sets aside

    [memoryGasCost] charges exactly the difference of the quadratic fee; then
    [gas_ok] for each [gasFunc]: no stack panic, no wrapped cost, a cost at least as
    large as the gas that may come back from a callee. *)

From S2P Require Import Prelude Uint256 Params VmData VmAnalysis VmState VmGas VmInstr.
From S2P Require Import VmJumpTable VmInterpreter VmEvm VmSpec VmFrame VmExec.

Lemma toWordSize_div size : 0 <= size < 2 ^ 64 → size mod 32 = 0 → toWordSize size = size / 32.
Proof.
  intros H Hm. pose proof (Z.div_mod size 32). unfold toWordSize, MaxUint64.
  destruct (Z.ltb_spec (2 ^ 64 - 1 - 31) size).
  - assert (size / 32 < 2 ^ 59) by (apply Z.div_lt_upper_bound; lia). lia.
  - replace (size + 31) with (31 + size / 32 * 32) by lia.
    rewrite Z.div_add, (Z.div_small 31) by lia. lia.
Qed.

Lemma toWordSize_range z : is_u64 z → 0 <= toWordSize z <= 2 ^ 59.
Proof.
  unfold is_u64, toWordSize, MaxUint64. intros. case_if; [vm_compute; split; congruence|].
  zbool. split; [apply Z.div_pos; lia|]. apply Z.lt_succ_r.
  apply Z.div_lt_upper_bound; lia.
Qed.

Lemma mem_fee_mono j k : 0 <= j <= k → mem_fee j <= mem_fee k.
Proof.
  intros. unfold mem_fee, MemoryGas, QuadCoeffDiv.
  assert (j * j / 512 <= k * k / 512) by (apply Z.div_le_mono; nia). lia.
Qed.

Lemma mem_fee_bound k : 0 <= k → 32 * k <= maxMemory → 0 <= mem_fee k < 2 ^ 56.
Proof.
  intros ? Hk. unfold maxMemory in Hk. split.
  - unfold mem_fee, MemoryGas, QuadCoeffDiv. assert (0 <= k * k / 512) by (apply Z.div_pos; nia). lia.
  - pose proof (mem_fee_mono k 4294967295 ltac:(lia)).
    assert (mem_fee 4294967295 < 2 ^ 56) by (by vm_compute). lia.
Qed.

Section gas_ok.
Context `{UL : Uint256Laws} {S C : Type} {SDB : StateDB S} {BC : BitmapCache C}.
Variable E : env S.

Implicit Types s : mstate S C.
Implicit Types o : operation S C.

(** ** Rules *)

Lemma gas_frame_refl e0 s size :
  frame_ok E e0 s → size = 0 → gas_frame E e0 size s s.
Proof.
  intros [] ->. split; try done. destruct fr_mem as (k & Hk & Hp).
  pose proof (zlen_nonneg (store (mem s))). fold (Len (mem s)) in *.
  replace (Z.max (Len (mem s)) 0 / 32) with k; [done|].
  rewrite Z.max_l by lia. rewrite Hk, Z.mul_comm, Z.div_mul; lia.
Qed.

Lemma gas_frame_db e0 size s s' db :
  gas_frame E e0 size s s' → dbop E (is_ro E e0) (sdb (vm s')) db →
  gas_frame E e0 size s (set_vm s' (set_sdb (vm s') db)).
Proof. intros [] ?. split; try done. by apply evm_rel_op. Qed.

Lemma gas_frame_end e0 size s s' :
  frame_ok E e0 s → gas_frame E e0 size s s' → frame_end E e0 (Gas (contract s)) s'.
Proof.
  intros Hf []. split; [|done]. rewrite gf_contract.
  pose proof (ok_gas _ _ (fr_contract _ _ _ Hf)). unfold is_u64 in *. lia.
Qed.

Section rules.
Context {QE : vmerror → mstate S C → Prop} {QP : panic → Prop}.

Lemma wp_safe_add x y Q s :
  is_u64 x → is_u64 y → (is_u64 (x + y) → Q (x + y) s) → QE ErrGasUintOverflow s →
  wp (safe (SafeAdd x y)) Q QE QP s.
Proof.
  intros ?? HQ ?. destruct (SafeAdd x y) as [z []] eqn:Hz; unfold safe; simpl; [done|].
  apply SafeAdd_ok in Hz as [-> ?]; [|done..]. apply wp_ret. auto.
Qed.

Lemma wp_safe_mul x y Q s :
  is_u64 x → is_u64 y → (is_u64 (x * y) → Q (x * y) s) → QE ErrGasUintOverflow s →
  wp (safe (SafeMul x y)) Q QE QP s.
Proof.
  intros ?? HQ ?. destruct (SafeMul x y) as [z []] eqn:Hz; unfold safe; simpl; [done|].
  apply SafeMul_ok in Hz as [-> ?]; [|done..]. apply wp_ret. auto.
Qed.

Lemma wp_safe_word w Q s :
  (∀ z, is_u64 z → Q z s) → QE ErrGasUintOverflow s →
  wp (safe (Uint64WithOverflow w)) Q QE QP s.
Proof.
  intros HQ ?. destruct (Uint64WithOverflow w) as [z []] eqn:Hz; unfold safe; simpl; [done|].
  apply Uint64WithOverflow_ok in Hz as (? & ? & ?). apply wp_ret. auto.
Qed.

Lemma wp_Back_gas e0 size s s' (n : nat) Q :
  gas_frame E e0 size s s' → Z.of_nat n < zlen (stack s) →
  (∀ x, stack s !! n = Some x → Q x s') → wp (Back' n) Q QE QP s'.
Proof.
  intros Hg Hn HQ. destruct (lookup_lt_is_Some_2 (stack s) n) as [x Hx];
    [unfold zlen in *; lia|].
  eapply wp_Back; [|by apply HQ]. by rewrite (gf_stack _ _ _ _ _ Hg).
Qed.

Lemma wp_peek_gas e0 size s s' Q :
  gas_frame E e0 size s s' → 0 < zlen (stack s) →
  (∀ x, stack s !! 0%nat = Some x → Q x s') → wp peek' Q QE QP s'.
Proof. intros Hg Hn HQ. apply (wp_Back_gas e0 size s s' 0); [done|lia|done]. Qed.

(** The fee is the difference of the quadratic fees, and is recorded. *)
Lemma wp_memoryGasCost e0 size Q s :
  frame_ok E e0 s → 0 <= size < 2 ^ 64 → size mod 32 = 0 →
  (∀ fee s', 0 <= fee < 2 ^ 56 → gas_frame E e0 size s s' → vm s' = vm s →
             fee = mem_fee (Z.max (Len (mem s)) size / 32) - mem_fee (Len (mem s) / 32) →
             Q fee s') →
  QE ErrGasUintOverflow s → wp (memoryGasCost size) Q QE QP s.
Proof.
  intros Hf Hs Hm HQ HE. unfold wp, memoryGasCost.
  pose proof (fr_mem _ _ _ Hf) as (k & Hk & [j Hj] & [Hlk Hmax] & Hfee).
  pose proof (zlen_nonneg (store (mem s))) as Hnn. fold (Len (mem s)) in Hnn.
  assert (Hk32 : Len (mem s) / 32 = k) by (rewrite Hk, Z.mul_comm, Z.div_mul; lia).
  destruct (Z.eqb_spec size 0) as [->|Hne].
  { apply HQ; [lia|by apply gas_frame_refl|done|]. rewrite Z.max_l by lia. lia. }
  destruct (Z.ltb_spec 0x1FFFFFFFE0 size); [done|].
  rewrite toWordSize_div by done. pose proof (Z.div_mod size 32 ltac:(lia)) as Hdm.
  set (w := size / 32) in *. assert (0 <= w <= 4294967295) by lia.
  unfold maxMemory in *.
  rewrite (mul64_small w 32) by (unfold is_u64; lia).
  destruct (Z.ltb_spec (Len (mem s)) (w * 32)).
  - assert (Hmx : Z.max (Len (mem s)) size / 32 = w) by (rewrite Z.max_r by lia; done).
    assert (Hww : 0 <= w * w < 2 ^ 64) by nia.
    rewrite (mul64_small w w), (mul64_small w MemoryGas)
      by (unfold is_u64, MemoryGas; lia).
    pose proof (mem_fee_bound w ltac:(lia) ltac:(unfold maxMemory; lia)) as Hwb.
    pose proof (mem_fee_mono k w ltac:(lia)).
    pose proof (mem_fee_bound k ltac:(lia) ltac:(unfold maxMemory; lia)).
    assert (Hnew : add64 (w * MemoryGas) (w * w / QuadCoeffDiv) = mem_fee w)
      by (apply add64_small; unfold is_u64; fold (mem_fee w); lia).
    rewrite Hnew, Hfee. rewrite sub64_small by (unfold is_u64; lia).
    apply HQ; [lia| |done|rewrite Hmx, Hk32; lia].
    destruct Hf. split; try done. rewrite Hmx. unfold mem_paid, maxMemory, Len in *. simpl.
    split_and!; [by exists j|lia|lia|done].
  - assert (Hmx : Z.max (Len (mem s)) size / 32 = k) by (rewrite Z.max_l by lia; done).
    apply HQ; [lia| |done|rewrite Hmx, Hk32; lia].
    destruct Hf. split; try done. rewrite Hmx. unfold mem_paid, maxMemory. by eauto 10.
Qed.
End rules.

Lemma gas_post_intro op e0 size minc s cost s' :
  (∀ s, budget op s = 0) → is_u64 cost → minc <= cost →
  gas_frame E e0 size s s' → gas_post E op e0 size minc s cost s'.
Proof. intros Hb ???. unfold gas_post. rewrite Hb. split_and!; (done || lia). Qed.
End gas_ok.

(** ** Automation: the steps of a gas function *)

Ltac gas_intro :=
  let e0 := fresh "e0" in let s := fresh "s" in let size := fresh "size" in
  intros e0 s size Hf Hst Hw Hsz Hm32 Hsz0; unfold stack_ok in Hst;
  let Hfr := fresh "Hend" in
  assert (Hfr : ∀ s', gas_frame _ e0 size s s' → frame_end _ e0 (Gas (contract s)) s')
    by (intros; by eapply gas_frame_end);
  let H0 := fresh "Hrefl" in
  assert (H0 : gas_frame _ e0 0 s s) by (by apply gas_frame_refl).

Ltac gas_step :=
  first
  [ wp_step
  | apply wp_get_contract | apply wp_get_db | apply wp_upd_db
  | apply wp_safe_add; [first [done|apply u64_range|unfold is_u64 in *; lia]..|intros ?|]
  | apply wp_safe_word; [intros ? ?|]
  | eapply wp_memoryGasCost; [eassumption|assumption|assumption|intros ? ? ? ? ? ?|]
  | eapply wp_Back_gas; [eassumption|lia|intros ? ?]
  | eapply wp_peek_gas; [eassumption|lia|intros ? ?] ].

Create HintDb gas_consts.
#[export] Hint Unfold is_u64 CopyGas Sha3WordGas LogGas LogTopicGas LogDataGas ExpGas
  SstoreSetGas SstoreClearGas SstoreResetGas NetSstoreNoopGas NetSstoreInitGas
  NetSstoreCleanGas NetSstoreDirtyGas SloadGasEIP2200 SstoreSetGasEIP2200
  SstoreResetGasEIP2200 ColdSloadCostEIP2929 WarmStorageReadCostEIP2929
  ColdAccountAccessCostEIP2929 CallNewAccountGas CallValueTransferGas
  SelfdestructGasEIP150 CreateBySelfdestructGas CallStipend : gas_consts.
Ltac gas_lia := autounfold with gas_consts in *; lia.

Ltac gas_u64 :=
  first
  [ done | apply u64_range
  | match goal with H : is_u64 ?z |- is_u64 (toWordSize ?z) =>
      pose proof (toWordSize_range z H); unfold is_u64; lia end
  | gas_lia ].

(** Ends a path: an error keeps the frame's end, a result meets [gas_post]. *)
Ltac dbop_tac := first [ by constructor | eapply db_subRefund; eassumption ].
Ltac gas_frame_tac := repeat first [eassumption | apply gas_frame_db | dbop_tac].
Ltac gas_done :=
  solve
  [ apply frame_ok_end; [eassumption|lia]
  | match goal with H : ∀ s', gas_frame _ _ _ _ s' → _ |- frame_end _ _ _ _ =>
      apply H; gas_frame_tac end
  | apply gas_post_intro; [assumption|gas_u64|gas_lia|gas_frame_tac] ].

Section gas_functions.
Context `{UL : Uint256Laws} {S C : Type} {SDB : StateDB S} {BC : BitmapCache C}.
Variable E : env S.
Implicit Types s : mstate S C.
Implicit Types o : operation S C.

(** ** Functions priced by memory *)

Lemma gas_ok_memory op o :
  (∀ s, budget (C := C) op s = 0) → gas_ok E op o 0 (λ _, pureMemoryGascost).
Proof. intros Hb. gas_intro. unfold pureMemoryGascost. repeat gas_step. all: gas_done. Qed.

Lemma gas_ok_copier op o (n : nat) :
  (∀ s, budget (C := C) op s = 0) → Z.of_nat n < op_minStack o →
  gas_ok E op o 0 (λ _, memoryCopierGas n).
Proof.
  intros Hb Hn. gas_intro. unfold memoryCopierGas.
  repeat gas_step; try gas_done.
  apply wp_safe_mul; [gas_u64..|intros ?|gas_done]. repeat gas_step; gas_done.
Qed.

Lemma gas_ok_hashed op o (n : nat) :
  (∀ s, budget (C := C) op s = 0) → Z.of_nat n < op_minStack o →
  gas_ok E op o 0 (λ _, gasHashed n).
Proof.
  intros Hb Hn. gas_intro. unfold gasHashed.
  repeat gas_step; try gas_done.
  apply wp_safe_mul; [gas_u64..|intros ?|gas_done]. repeat gas_step; gas_done.
Qed.

Lemma gas_ok_log op o n :
  (∀ s, budget (C := C) op s = 0) → 2 <= op_minStack o →
  gas_ok E op o 1 (λ _, makeGasLog n).
Proof.
  intros Hb Hn. gas_intro. unfold makeGasLog. repeat gas_step; try gas_done.
  apply wp_safe_mul; [gas_u64..|intros ?|gas_done].
  pose proof (u64_range (n * LogTopicGas)) as Ht. fold (mul64 n LogTopicGas) in Ht.
  unfold LogGas in *. repeat gas_step; gas_done.
Qed.

(** ** Functions that do not touch memory *)

Lemma gas_ok_exp op o b :
  (∀ s, budget (C := C) op s = 0) → 2 <= op_minStack o → memorySize o = None →
  gas_ok E op o 1 (λ _, gasExp b).
Proof.
  intros Hb Hn Hms. gas_intro. rewrite (Hsz0 Hms) in *. unfold gasExp.
  gas_step. gas_step.
  pose proof (u64_range ((BitLen x + 7) / 8 * b)) as Ht.
  fold (mul64 ((BitLen x + 7) / 8) b) in Ht. unfold ExpGas in *.
  repeat gas_step; gas_done.
Qed.

(** The world-state updates of [SSTORE], allowed where the frame may write. *)
Lemma gas_ok_sstore op o :
  (∀ s, budget (C := C) op s = 0) → 2 <= op_minStack o → memorySize o = None →
  writes o = true → gas_ok E op o 1 gasSStore.
Proof.
  intros Hb Hn Hms Hwr. gas_intro. rewrite (Hsz0 Hms) in *.
  pose proof (write_not_ro E e0 s op o Hf Hw Hwr) as Hro. unfold gasSStore, this.
  repeat first [gas_step | apply wp_upd_db_opt; [intros ? ?|by left]]; gas_done.
Qed.

Ltac db_steps :=
  repeat first [gas_step | apply wp_upd_db_opt; [intros ? ?|by left]].

Lemma gas_ok_sstore2200 op o :
  (∀ s, budget (C := C) op s = 0) → 2 <= op_minStack o → memorySize o = None →
  writes o = true → gas_ok E op o 1 (λ _, gasSStoreEIP2200).
Proof.
  intros Hb Hn Hms Hwr. gas_intro. rewrite (Hsz0 Hms) in *.
  pose proof (write_not_ro E e0 s op o Hf Hw Hwr) as Hro. unfold gasSStoreEIP2200, this.
  db_steps; gas_done.
Qed.

Lemma gas_ok_sload2929 op o :
  (∀ s, budget (C := C) op s = 0) → 1 <= op_minStack o → memorySize o = None →
  gas_ok E op o 1 (λ _, gasSLoadEIP2929).
Proof.
  intros Hb Hn Hms. gas_intro. rewrite (Hsz0 Hms) in *. unfold gasSLoadEIP2929, this.
  db_steps; gas_done.
Qed.

Lemma gas_ok_accountCheck op o :
  (∀ s, budget (C := C) op s = 0) → 1 <= op_minStack o → memorySize o = None →
  gas_ok E op o 0 (λ _, gasEip2929AccountCheck).
Proof.
  intros Hb Hn Hms. gas_intro. rewrite (Hsz0 Hms) in *. unfold gasEip2929AccountCheck.
  db_steps; gas_done.
Qed.

Lemma gas_ok_selfdestruct op o :
  (∀ s, budget (C := C) op s = 0) → 1 <= op_minStack o → memorySize o = None →
  writes o = true → gas_ok E op o 0 gasSelfdestruct.
Proof.
  intros Hb Hn Hms Hwr. gas_intro. rewrite (Hsz0 Hms) in *.
  pose proof (write_not_ro E e0 s op o Hf Hw Hwr) as Hro. unfold gasSelfdestruct, this.
  db_steps; repeat case_if; gas_done.
Qed.

Lemma gas_ok_selfdestruct2929 op o :
  (∀ s, budget (C := C) op s = 0) → 1 <= op_minStack o → memorySize o = None →
  writes o = true → gas_ok E op o 0 (λ _, gasSelfdestructEIP2929).
Proof.
  intros Hb Hn Hms Hwr. gas_intro. rewrite (Hsz0 Hms) in *.
  pose proof (write_not_ro E e0 s op o Hf Hw Hwr) as Hro. unfold gasSelfdestructEIP2929, this.
  db_steps; repeat case_if; gas_done.
Qed.

Lemma gas_ok_extcodecopy2929 op o :
  (∀ s, budget (C := C) op s = 0) → 4 <= op_minStack o →
  gas_ok E op o 0 (λ _, gasExtCodeCopyEIP2929).
Proof.
  intros Hb Hn. gas_intro. unfold gasExtCodeCopyEIP2929. apply wp_bind.
  eapply wp_mono; [apply (gas_ok_copier op o 3 Hb ltac:(lia) e0 s size); done| |done|done].
  intros cost s' (Hc & _ & Hc' & Hfr). rewrite Hb in Hc'.
  db_steps; gas_done.
Qed.

(** [SSTORE] of EIP-2929 asserts that the contract's address is warm. *)
Lemma gas_ok_sstore2929 op o :
  (∀ s, budget (C := C) op s = 0) → 2 <= op_minStack o → memorySize o = None →
  writes o = true → gas_ok E op o 1 (λ _, gasSStoreEIP2929).
Proof.
  intros Hb Hn Hms Hwr. gas_intro. rewrite (Hsz0 Hms) in *.
  pose proof (write_not_ro E e0 s op o Hf Hw Hwr) as Hro. unfold gasSStoreEIP2929, this.
  db_steps; try gas_done; by right.
Qed.

(** ** Calls *)

Lemma callGas_u64 b avail base cost g :
  callGas b avail base cost = inl g → is_u64 g.
Proof.
  unfold callGas. repeat case_if; intros [= <-];
    first [apply u64_range | apply Uint64_range].
Qed.

(** Under EIP-150 a 64th stays behind even of a wrapped-around amount, which keeps
    the total of the call away from the end of [uint64]. *)
Lemma callGas_eip150 avail base cost g :
  callGas true avail base cost = inl g → g <= 2 ^ 64 - 2 ^ 58 + 1.
Proof.
  unfold callGas. cbn [andb]. set (a := sub64 avail base).
  pose proof (u64_range (avail - base)) as Ha. fold (sub64 avail base) in Ha. fold a in Ha.
  unfold is_u64 in Ha. pose proof (Z.div_mod a 64 ltac:(lia)).
  pose proof (Z.mod_pos_bound a 64 ltac:(lia)).
  assert (Hs : sub64 a (a / 64) = a - a / 64).
  { apply sub64_small; [|done]. split; [apply Z.div_pos; lia|].
    apply Z.div_le_upper_bound; lia. }
  rewrite Hs. repeat case_if; intros [= <-]; zbool; lia.
Qed.

Lemma gas_frame_callGasTemp e0 size s s' g :
  gas_frame E e0 size s s' →
  gas_frame E e0 size s (set_vm s' (set_callGasTemp (vm s') g)).
Proof. intros [????[?? [] ?]?]. by split. Qed.

(** What a call's gas function promises, with room for the access-list surcharge. *)
Definition call_gas_ok (op : Z) (o : operation S C) (f : env S → Z → XM S C Z) : Prop :=
  ∀ e0 s size,
    frame_ok E e0 s → stack_ok o s → write_ok E op o s →
    0 <= size < 2 ^ 64 → size mod 32 = 0 → (memorySize o = None → size = 0) →
    wp (f E size)
      (λ cost s', gas_post E op e0 size 0 s cost s' ∧
                  (rIsEIP150 (chainRules E) = true → cost < 2 ^ 64 - 2 ^ 16))
      (λ _, frame_end E e0 (Gas (contract s))) ok_panic s.

Lemma call_gas_ok_gas op o f : call_gas_ok op o f → gas_ok E op o 0 f.
Proof.
  intros H e0 s size ??????. eapply wp_mono; [by apply H| |done|done]. by intros ?? [].
Qed.

(** [extra] is the part of [gas] that comes back as a stipend. *)
Lemma wp_with_callGas op e0 size s s' gas extra :
  frame_ok E e0 s → gas_frame E e0 size s s' → 1 <= zlen (stack s) →
  0 <= extra <= gas → gas < 2 ^ 57 →
  (∀ s'', stack s'' = stack s → budget op s'' = callGasTemp (C := C) (vm s'') + extra) →
  wp (with_callGas E gas)
    (λ cost s', gas_post E op e0 size 0 s cost s' ∧
                (rIsEIP150 (chainRules E) = true → cost < 2 ^ 64 - 2 ^ 16))
    (λ _, frame_end E e0 (Gas (contract s))) ok_panic s'.
Proof.
  intros Hf Hg Hst He Hgas Hbud. unfold with_callGas.
  apply wp_bind, wp_get_contract, wp_bind.
  eapply wp_Back_gas; [exact Hg|lia|intros cost Hcost].
  destruct (callGas _ _ _ _) as [g|err] eqn:Hcg; apply wp_bind, wp_modify.
  - pose proof (callGas_u64 _ _ _ _ _ Hcg) as Hu.
    apply wp_safe_add; [gas_u64|done|intros Hsum|].
    + split; [|intros Heip; rewrite Heip in Hcg; apply callGas_eip150 in Hcg; lia].
      unfold gas_post. rewrite Hbud by apply (gf_stack _ _ _ _ _ Hg). cbn.
      unfold is_u64 in *. split_and!; try lia. by apply gas_frame_callGasTemp.
    + apply (gas_frame_end E e0 size s); [done|by apply gas_frame_callGasTemp].
  - apply wp_fail, (gas_frame_end E e0 size s); [done|by apply gas_frame_callGasTemp].
Qed.

(** The stipend comes back only with a value, which costs more. *)
Definition stip (s : mstate S C) : Z :=
  if default false (negb ∘ IsZero <$> Back (stack s) 2) then CallStipend else 0.

Lemma stip_range s : 0 <= stip s <= CallStipend.
Proof. unfold stip, CallStipend. case_if; lia. Qed.

Lemma stip_value s v :
  stack s !! 2%nat = Some v → stip s = if negb (IsZero v) then CallStipend else 0.
Proof. intros Hv. unfold stip, Back. rewrite Hv. done. Qed.

Lemma call_gas_ok_delegate op o :
  (∀ s, budget (C := C) op s = callGasTemp (vm s)) → 6 <= op_minStack o →
  call_gas_ok op o gasDelegateCall.
Proof.
  intros Hb Hn. gas_intro. unfold gasDelegateCall. repeat gas_step; try gas_done.
  apply (wp_with_callGas op e0 size s _ _ 0); [done|done|lia..|].
  intros. rewrite Hb. lia.
Qed.

Lemma call_gas_ok_static op o :
  (∀ s, budget (C := C) op s = callGasTemp (vm s)) → 6 <= op_minStack o →
  call_gas_ok op o gasStaticCall.
Proof. exact (call_gas_ok_delegate op o). Qed.

Lemma call_gas_ok_callcode op o :
  (∀ s, budget (C := C) op s = callGasTemp (vm s) + stip s) → 7 <= op_minStack o →
  call_gas_ok op o gasCallCode.
Proof.
  intros Hb Hn. gas_intro. unfold gasCallCode. repeat gas_step; try gas_done.
  apply wp_safe_add; [case_if; gas_lia|gas_lia|intros _|gas_done].
  apply (wp_with_callGas op e0 size s _ _ (stip s)); [done|done|lia| | |].
  - rewrite (stip_value s x) by done.
    destruct (Sign x =? 0) eqn:Hsg; zbool; simpl.
    + rewrite (IsZero_Sign x) by done. simpl. lia.
    + case_if; gas_lia.
  - case_if; gas_lia.
  - intros s'' Hs''. rewrite Hb. f_equal. unfold stip. by rewrite Hs''.
Qed.

Lemma call_gas_ok_call op o :
  (∀ s, budget (C := C) op s = callGasTemp (vm s) + stip s) → 7 <= op_minStack o →
  call_gas_ok op o gasCall.
Proof.
  intros Hb Hn. gas_intro. unfold gasCall. gas_step. gas_step. gas_step. gas_step.
  gas_step. gas_step.
  set (new := if rIsEIP158 (chainRules E) then _ else _).
  assert (Hadd : (if negb (IsZero x) then add64 (if new then CallNewAccountGas else 0)
     CallValueTransferGas else if new then CallNewAccountGas else 0) =
     (if negb (IsZero x) then CallValueTransferGas else 0) + (if new then CallNewAccountGas else 0)).
  { repeat case_if; try rewrite add64_small; gas_lia. }
  rewrite Hadd. gas_step. gas_step; [|gas_done].
  apply wp_bind, wp_safe_add; [repeat case_if; gas_lia|gas_lia|intros _|gas_done].
  apply (wp_with_callGas op e0 size s _ _ (stip s)); [done|done|lia| | |].
  - rewrite (stip_value s x) by done. repeat case_if; gas_lia.
  - repeat case_if; gas_lia.
  - intros s'' Hs''. rewrite Hb. f_equal. unfold stip. by rewrite Hs''.
Qed.

Lemma frame_end_mono e0 g g' s : frame_end E e0 g s → g <= g' → frame_end E e0 g' s.
Proof. intros [] ?. split; [lia|done]. Qed.

Lemma set_Gas_restore c g h : set_Gas (set_Gas c h) g = set_Gas c g.
Proof. done. Qed.
Lemma set_Gas_id c : set_Gas c (Gas c) = c.
Proof. by destruct c. Qed.

(** The surcharge for a cold account is taken before and given back after the old
    calculation, then added to its result. *)
Lemma gas_ok_call2929 op o f :
  call_gas_ok op o f → 2 <= op_minStack o → rIsEIP150 (chainRules E) = true →
  gas_ok E op o 0 (λ E, makeCallVariantGasCallEIP2929 (f E)).
Proof.
  intros Hcall Hn Heip. gas_intro. unfold makeCallVariantGasCallEIP2929.
  apply wp_bind. eapply wp_Back_gas; [exact Hrefl|lia|intros a _].
  apply wp_bind, wp_get_db.
  destruct (AddressInAccessList (sdb (vm s)) (Bytes20 a)) eqn:Hwarm; cbn [negb].
  { apply wp_bind, wp_ret, wp_bind. eapply wp_mono; [by apply Hcall| |done|done].
    intros cost s' [Hp _]. by apply wp_ret. }
  set (cold := ColdAccountAccessCostEIP2929 - WarmStorageReadCostEIP2929).
  assert (Hcold : 0 <= cold < 2 ^ 16) by (subst cold; gas_lia).
  clearbody cold.
  set (s1 := set_vm s (set_sdb (vm s) (AddAddressToAccessList (Bytes20 a) (sdb (vm s))))).
  assert (Hf1 : frame_ok E e0 s1) by (apply frame_ok_db; [done|constructor]).
  pose proof (ok_gas _ _ (fr_contract _ _ _ Hf)) as Hu. unfold is_u64 in Hu.
  apply wp_bind, wp_bind, wp_upd_db. fold s1. apply wp_bind.
  apply wp_UseGas; cbn [s1 contract set_vm]; intros Hgas; cbn [negb].
  2: { apply wp_fail, frame_ok_end; [done|]. cbn. lia. }
  apply wp_ret, wp_bind.
  set (s2 := set_contract s1 (set_Gas (contract s) (Gas (contract s) - cold))).
  assert (Hf2 : frame_ok E e0 s2)
    by (apply (frame_ok_gas E e0 s1); [done|unfold is_u64; lia]).
  eapply wp_mono; [apply (Hcall e0 s2 size); done| | |done].
  - intros cost s' [(Hc & Hb0 & Hb & Hg) Hlt]. specialize (Hlt Heip).
    apply wp_bind, wp_addGas, wp_ret. unfold is_u64 in Hc.
    rewrite (add64_small cost cold) by (unfold is_u64; lia).
    unfold gas_post. change (budget op (set_contract s' _)) with (budget op s').
    split_and!; [unfold is_u64; lia|done|lia|].
    destruct Hg. split; try done. cbn [contract set_contract].
    rewrite gf_contract. cbn [s2 contract set_contract Gas set_Gas].
    rewrite add64_small by (unfold is_u64; lia). rewrite set_Gas_restore.
    replace (Gas (contract s) - cold + cold) with (Gas (contract s)) by lia.
    apply set_Gas_id.
  - intros ? s' Hend'. eapply frame_end_mono; [exact Hend'|]. cbn. lia.
Qed.
End gas_functions.
