(* ===== verification/VmTables.v ===== *)
(** * Every jump table is well formed

    [op_ok] for the entries of the Frontier table and for every later change, so
    that each instruction set of [VmJumpTable] satisfies it. *)

From S2P Require Import Prelude Uint256 Params VmData VmAnalysis VmState VmGas VmInstr.
From S2P Require Import VmJumpTable VmInterpreter VmEvm VmSpec VmFrame VmExec VmGasOk.

Section tables_ok.
Context `{UL : Uint256Laws} {S C : Type} {SDB : StateDB S} {BC : BitmapCache C}.
Context {CL : CacheLaws (C := C)}.
Variable E : env S.
Context (EOK : env_ok E).

Definition table_ok (jt : JumpTable S C) : Prop :=
  map_Forall (op_ok E) (jt : gmap Z (operation S C)).

(** ** Entry by entry *)

Lemma gas_ok_weaken op (o : operation S C) m m' f :
  gas_ok E op o m f → m' <= m → gas_ok E op o m' f.
Proof.
  intros H Hm e0 s size ??????. eapply wp_mono; [by apply H| |done|done].
  intros cost s' (? & ? & ? & ?). split_and!; (done || lia).
Qed.

(** The instruction's own lemma, by its name; the rest are pushes and binary
    operations. *)
Ltac exec_tac :=
  lazymatch goal with
  | |- exec_ok _ _ (op_ (λ _ _, opPush1) _ _ _ _ _ _) => apply exec_Push1; by vm_compute
  | |- exec_ok _ _ (op_ (λ _ _, makePush _ _) _ _ _ _ _ _) => apply exec_Push; by vm_compute
  | |- exec_ok _ _ (op_ (λ _ _, makeDup ?n) _ _ _ _ _ _) => apply (exec_Dup E _ n); lia
  | |- exec_ok _ _ (op_ (λ _ _, makeSwap ?n) _ _ _ _ _ _) => apply (exec_Swap E _ n)
  | |- exec_ok _ _ (op_ (λ e _, makeLog e ?n) _ _ _ _ _ _) => apply (exec_Log E _ n); by constructor
  | |- exec_ok _ _ (op_ (λ _ k, opCall k) _ _ _ _ _ _) => apply exec_Call
  | |- exec_ok _ _ (op_ (λ _ k, opCallCode k) _ _ _ _ _ _) => apply exec_CallCode
  | |- exec_ok _ _ (op_ (λ _ k, opDelegateCall k) _ _ _ _ _ _) => apply exec_DelegateCall
  | |- exec_ok _ _ (op_ (λ _ k, opStaticCall k) _ _ _ _ _ _) => apply exec_StaticCall
  | |- exec_ok _ _ (op_ (λ e k, opCreate e k) _ _ _ _ _ _) => apply exec_Create; by constructor
  | |- exec_ok _ _ (op_ (λ _ k, opCreate2 k) _ _ _ _ _ _) => apply exec_Create2; by constructor
  | |- exec_ok _ _ (op_ (λ _ _, opSstore) _ _ _ _ _ _) => apply exec_Sstore; by constructor
  | |- exec_ok _ _ (op_ (λ _ _, opSuicide) _ _ _ _ _ _) => apply exec_Suicide; solve [repeat constructor]
  | |- exec_ok _ _ (op_ (λ _ _, opJump) _ _ _ _ _ _) => apply (exec_Jump E EOK)
  | |- exec_ok _ _ (op_ (λ _ _, opJumpi) _ _ _ _ _ _) => apply (exec_Jumpi E EOK)
  | |- exec_ok _ _ (op_ (λ e _, opSha3 e) _ _ _ _ _ _) => apply exec_Sha3
  | |- exec_ok _ _ (op_ (λ _ _, opCallDataCopy) _ _ _ _ _ _) => apply exec_CallDataCopy
  | |- exec_ok _ _ (op_ (λ _ _, opCodeCopy) _ _ _ _ _ _) => apply exec_CodeCopy
  | |- exec_ok _ _ (op_ (λ _ _, opExtCodeCopy) _ _ _ _ _ _) => apply (exec_ExtCodeCopy E EOK)
  | |- exec_ok _ _ (op_ (λ _ _, opReturnDataCopy) _ _ _ _ _ _) => apply exec_ReturnDataCopy
  | |- exec_ok _ _ (op_ (λ _ _, opMload) _ _ _ _ _ _) => apply exec_Mload
  | |- exec_ok _ _ (op_ (λ _ _, opMstore) _ _ _ _ _ _) => apply exec_Mstore
  | |- exec_ok _ _ (op_ (λ _ _, opMstore8) _ _ _ _ _ _) => apply exec_Mstore8
  | |- exec_ok _ _ (op_ (λ _ _, opReturn) _ _ _ _ _ _) => apply exec_Return
  | |- exec_ok _ _ (op_ (λ _ _, opRevert) _ _ _ _ _ _) => apply exec_Revert
  | |- exec_ok _ _ (op_ (λ _ _, opBalance) _ _ _ _ _ _) => apply exec_Balance
  | |- exec_ok _ _ (op_ (λ _ _, opExtCodeSize) _ _ _ _ _ _) => apply exec_ExtCodeSize
  | |- exec_ok _ _ (op_ (λ _ _, opExtCodeHash) _ _ _ _ _ _) => apply exec_ExtCodeHash
  | |- exec_ok _ _ (op_ (λ _ _, opSload) _ _ _ _ _ _) => apply exec_Sload
  | |- exec_ok _ _ (op_ (λ e _, opBlockhash e) _ _ _ _ _ _) => apply exec_Blockhash
  | |- exec_ok _ _ (op_ (λ _ _, opSelfBalance) _ _ _ _ _ _) => apply exec_SelfBalance
  | |- exec_ok _ _ (op_ (λ _ _, opCallDataLoad) _ _ _ _ _ _) => apply exec_CallDataLoad
  | |- exec_ok _ _ (op_ (λ _ _, opPop) _ _ _ _ _ _) => apply exec_Pop
  | |- exec_ok _ _ (op_ (λ _ _, opStop) _ _ _ _ _ _) => apply exec_nil
  | |- exec_ok _ _ (op_ (λ _ _, opJumpdest) _ _ _ _ _ _) => apply exec_nil
  | |- exec_ok _ _ (op_ (λ _ _, opNot) _ _ _ _ _ _) => apply exec_unop
  | |- exec_ok _ _ (op_ (λ _ _, opIszero) _ _ _ _ _ _) => apply exec_unop
  | |- exec_ok _ _ (op_ (λ _ _, opAddmod) _ _ _ _ _ _) => apply exec_ternop
  | |- exec_ok _ _ (op_ (λ _ _, opMulmod) _ _ _ _ _ _) => apply exec_ternop
  | |- exec_ok _ _ (op_ _ _ _ (minStack 0 1) _ _ _) =>
      first [apply (exec_pushes E _ (λ _, _)) | apply (exec_pushes E)]
  | _ => apply exec_binop
  end.

Ltac nobudget := (intros; reflexivity).
Ltac opers := vm_compute; congruence.
(** The gas part: no gas function, or one of [VmGasOk]. *)
Ltac gas_tac :=
  lazymatch goal with
  | |- _ ∧ _ => split_and!; [reflexivity|reflexivity|nobudget]
  | |- gas_ok _ _ ?o (min_cost ?o) _ =>
      let m := eval vm_compute in (min_cost o) in
      change (min_cost o) with m;
      first
      [ apply gas_ok_memory; nobudget
      | apply gas_ok_copier; [nobudget|opers]
      | apply gas_ok_hashed; [nobudget|opers]
      | apply gas_ok_log; [nobudget|opers]
      | apply gas_ok_exp; [nobudget|opers|reflexivity]
      | apply gas_ok_sstore; [nobudget|opers|reflexivity|reflexivity]
      | apply gas_ok_selfdestruct; [nobudget|opers|reflexivity|reflexivity]
      | apply call_gas_ok_gas;
        first [ apply call_gas_ok_call; [nobudget|opers]
              | apply call_gas_ok_callcode; [nobudget|opers]
              | apply call_gas_ok_delegate; [nobudget|opers]
              | apply call_gas_ok_static; [nobudget|opers] ] ]
  end.
Ltac shape_tac :=
  first [ exact I | split_and!; [opers|intros; reflexivity|intros; reflexivity]
        | split_and!; [opers|discriminate|discriminate]
        | split_and!; [opers|intros; reflexivity|discriminate] ].
Ltac mem_tac :=
  first
  [ exact I
  | apply memSize2_total; vm_compute; reflexivity
  | apply memSizeMax_total; vm_compute; reflexivity
  | apply memFixed_total; [vm_compute; reflexivity|split; vm_compute; congruence] ].
Ltac entry_tac :=
  split; [exec_tac|split; vm_compute; congruence|cbn [dynamicGas op_]; gas_tac|shape_tac|mem_tac].

Ltac entries_tac := repeat (apply Forall_cons_2; [cbn [fst snd]; entry_tac|]); apply Forall_nil_2.

Definition entries_ok (l : list (Z * operation S C)) : Prop :=
  Forall (λ p, op_ok E p.1 p.2) l.

Lemma frontier1_ok : entries_ok frontier_part1.
Proof. unfold entries_ok, frontier_part1. entries_tac. Qed.
Lemma frontier2_ok : entries_ok frontier_part2.
Proof. unfold entries_ok, frontier_part2. entries_tac. Qed.
Lemma frontier3_ok : entries_ok frontier_part3.
Proof. unfold entries_ok, frontier_part3. entries_tac. Qed.
Lemma frontier4_ok : entries_ok frontier_part4.
Proof. unfold entries_ok, frontier_part4. entries_tac. Qed.
Lemma frontier5_ok : entries_ok frontier_part5.
Proof. unfold entries_ok, frontier_part5. entries_tac. Qed.
Lemma frontier6_ok : entries_ok frontier_part6.
Proof. unfold entries_ok, frontier_part6. entries_tac. Qed.

Lemma frontier_ok : table_ok newFrontierInstructionSet.
Proof.
  intros op o Ho. unfold newFrontierInstructionSet, JumpTable in Ho.
  apply elem_of_list_to_map_2 in Ho.
  pose proof (conj frontier1_ok (conj frontier2_ok (conj frontier3_ok
    (conj frontier4_ok (conj frontier5_ok frontier6_ok))))) as (H1&H2&H3&H4&H5&H6).
  unfold entries_ok in *. rewrite Forall_forall in H1, H2, H3, H4, H5, H6.
  rewrite !elem_of_app in Ho.
  destruct Ho as [Ho|[Ho|[Ho|[Ho|[Ho|Ho]]]]]; [apply (H1 _ Ho)|apply (H2 _ Ho)|
    apply (H3 _ Ho)|apply (H4 _ Ho)|apply (H5 _ Ho)|apply (H6 _ Ho)].
Qed.

(** ** Changes *)

Lemma op_ok_constantGas op o g :
  op_ok E op o → 0 < g < 2 ^ 64 → op_ok E op (set_constantGas g o).
Proof.
  intros [] Hg. assert (Hm : min_cost (set_constantGas g o) = 0).
  { unfold min_cost. simpl. by rewrite (proj2 (Z.ltb_lt 0 g)) by lia. }
  split; [exact op_exec|unfold is_u64; simpl; lia| |exact op_shape|exact op_mem].
  simpl. destruct (dynamicGas o) as [f|]; [|destruct op_gas as (?&?&?); by rewrite Hm].
  rewrite Hm. apply (gas_ok_weaken op o (min_cost o)); [done|].
  unfold min_cost. case_if; lia.
Qed.

Lemma op_ok_dynamicGas op o f :
  op_ok E op o → gas_ok E op o (min_cost o) f → op_ok E op (set_dynamicGas f o).
Proof. intros [] Hf. by split. Qed.

(** Both fields at once, as the later forks assign them. *)
Lemma op_ok_reprice op o g f m :
  op_ok E op o → is_u64 g → gas_ok E op o m f → (if 0 <? g then 0 else 1) <= m →
  op_ok E op (set_dynamicGas f (set_constantGas g o)).
Proof.
  intros [] Hg Hf Hm. split; [exact op_exec|exact Hg| |exact op_shape|exact op_mem].
  simpl. apply (gas_ok_weaken op o m); [done|]. unfold min_cost. simpl.
  unfold is_u64 in Hg. destruct (0 <? g), (stops _); simpl in *; lia.
Qed.

Lemma min_cost_le_1 (o : operation S C) : min_cost o <= 1.
Proof. unfold min_cost. case_if; lia. Qed.

Lemma table_ok_insert jt op o :
  table_ok jt → op_ok E op o → table_ok (apply_patch jt (InsertOp op o)).
Proof. intros. unfold table_ok, apply_patch, JumpTable in *. by apply map_Forall_insert_2. Qed.

Lemma table_ok_alter jt op f :
  table_ok jt → (∀ o, op_ok E op o → op_ok E op (f o)) → table_ok (alter f op jt).
Proof.
  intros Hjt Hf k o Ho. unfold JumpTable in *. destruct (decide (k = op)) as [->|Hne].
  - rewrite lookup_alter_eq in Ho. destruct (jt !! op) as [x|] eqn:Hx; [|done].
    injection Ho as <-. apply Hf, (Hjt _ _ Hx).
  - rewrite lookup_alter_ne in Ho by done. by apply Hjt.
Qed.

Lemma homestead_ok : table_ok newHomesteadInstructionSet.
Proof. apply table_ok_insert; [apply frontier_ok|]. entry_tac. Qed.

Ltac alter_const := apply table_ok_alter;
  [|intros ? ?; apply op_ok_constantGas; [done|vm_compute; split; congruence]].

Lemma tangerine_ok : table_ok newTangerineWhistleInstructionSet.
Proof.
  unfold newTangerineWhistleInstructionSet, apply_patches, tangerineWhistle_patch.
  cbn [fold_left apply_patch]. repeat alter_const. apply homestead_ok.
Qed.

Lemma spurious_ok : table_ok newSpuriousDragonInstructionSet.
Proof.
  apply table_ok_alter; [apply tangerine_ok|]. intros o Ho. apply op_ok_dynamicGas; [done|].
  destruct (op_shape _ _ _ Ho) as (? & Hms & _).
  apply (gas_ok_weaken _ _ 1); [|apply min_cost_le_1]. apply gas_ok_exp; auto.
Qed.

Lemma byzantium_ok : table_ok newByzantiumInstructionSet.
Proof.
  unfold newByzantiumInstructionSet, apply_patches, byzantium_patch. cbn [fold_left].
  repeat first [apply spurious_ok | apply table_ok_insert; [|entry_tac]].
Qed.

Lemma constantinople_ok : table_ok newConstantinopleInstructionSet.
Proof.
  unfold newConstantinopleInstructionSet, apply_patches, constantinople_patch.
  cbn [fold_left]. repeat first [apply byzantium_ok | apply table_ok_insert; [|entry_tac]].
Qed.

Lemma istanbul_ok : table_ok newIstanbulInstructionSet.
Proof.
  unfold newIstanbulInstructionSet, apply_patches, enable1344, enable1884, enable2200.
  cbn [fold_left].
  apply table_ok_alter.
  2: { intros o Ho. apply op_ok_dynamicGas; [done|].
       destruct (op_shape _ _ _ Ho) as (? & Hms & Hwr).
       apply (gas_ok_weaken _ _ 1); [|apply min_cost_le_1]. apply gas_ok_sstore2200; auto. }
  cbn [apply_patch]. alter_const. apply table_ok_insert; [|entry_tac].
  cbn [apply_patch]. repeat alter_const. apply table_ok_insert; [|entry_tac].
  apply constantinople_ok.
Qed.

Lemma alter_alter_jt (f g : operation S C → operation S C) (jt : JumpTable S C) (op : Z) :
  alter f op (alter g op jt) = alter (f ∘ g) op jt.
Proof. apply (alter_alter_eq (M := gmap Z)). Qed.

Lemma table_ok_reprice jt op g f n nomem wr :
  assoc op repriced = Some (n, nomem, wr) → 0 < g < 2 ^ 64 →
  (∀ o, n <= op_minStack o → (nomem = true → memorySize o = None) →
        (wr = true → writes o = true) → gas_ok E op o 0 f) →
  table_ok jt → table_ok (alter (set_dynamicGas f ∘ set_constantGas g) op jt).
Proof.
  intros Hr Hg Hf Hjt. apply table_ok_alter; [done|]. intros o Ho.
  pose proof (op_shape _ _ _ Ho) as Hs. unfold shape_ok in Hs. rewrite Hr in Hs.
  destruct Hs as (? & ? & ?). apply (op_ok_reprice _ _ _ _ 0); [done| |auto|].
  - unfold is_u64. lia.
  - rewrite (proj2 (Z.ltb_lt 0 g)) by lia. lia.
Qed.

Ltac reprices :=
  lazymatch goal with
  | |- table_ok (alter _ SLOAD _) => idtac
  | |- _ => eapply table_ok_reprice; [reflexivity|vm_compute; split; congruence| |reprices]
  end.

(** Under EIP-2929 a call's surcharge cannot wrap its cost around, provided the
    63/64 rule of EIP-150 is in force. *)
Lemma berlin_ok : rIsEIP150 (chainRules E) = true → table_ok newBerlinInstructionSet.
Proof.
  intros H150. unfold newBerlinInstructionSet, apply_patches, enable2929.
  cbn [fold_left apply_patch]. rewrite !alter_alter_jt.
  assert (H0 : ∀ op, assoc op [(CALL, tt); (CALLCODE, tt); (DELEGATECALL, tt); (STATICCALL, tt)]
                     = None → ∀ s, budget (S := S) (C := C) op s = 0).
  { intros op Hop s. simpl in Hop. unfold budget. repeat case_decide; simplify_eq.
    by rewrite !(proj2 (Z.eqb_neq op _)) by congruence. }
  reprices.
  - intros o Hn Hms Hwr. apply gas_ok_selfdestruct2929; auto.
  - intros o Hn _ _. apply (gas_ok_call2929 _ _ _ gasDelegateCall); [|lia|done].
    apply call_gas_ok_delegate; [nobudget|done].
  - intros o Hn _ _. apply (gas_ok_call2929 _ _ _ gasStaticCall); [|lia|done].
    apply call_gas_ok_static; [nobudget|done].
  - intros o Hn _ _. apply (gas_ok_call2929 _ _ _ gasCallCode); [|lia|done].
    apply call_gas_ok_callcode; [nobudget|done].
  - intros o Hn _ _. apply (gas_ok_call2929 _ _ _ gasCall); [|lia|done].
    apply call_gas_ok_call; [nobudget|done].
  - intros o Hn Hms _. apply gas_ok_accountCheck; auto.
  - intros o Hn Hms _. apply gas_ok_accountCheck; auto.
  - intros o Hn Hms _. apply gas_ok_accountCheck; auto.
  - intros o Hn _ _. apply gas_ok_extcodecopy2929; auto.
  - apply table_ok_alter; [|intros o Ho; destruct (op_shape _ _ _ Ho) as (Hn & Hms & _)].
    2: { apply (op_ok_reprice _ _ _ _ 1); [done|split; vm_compute; congruence| |].
         - apply gas_ok_sload2929; auto.
         - vm_compute. congruence. }
    apply table_ok_alter; [apply istanbul_ok|]. intros o Ho.
    destruct (op_shape _ _ _ Ho) as (Hn & Hms & Hwr). apply op_ok_dynamicGas; [done|].
    apply (gas_ok_weaken _ _ 1); [apply gas_ok_sstore2929; auto|apply min_cost_le_1].
Qed.

Lemma instructionSet_ok f :
  (f = Berlin → rIsEIP150 (chainRules E) = true) → table_ok (instructionSet f).
Proof.
  destruct f; intros; [apply frontier_ok|apply homestead_ok|apply tangerine_ok|
    apply spurious_ok|apply byzantium_ok|apply constantinople_ok|apply istanbul_ok|
    apply berlin_ok; auto].
Qed.
End tables_ok.
