(* ===== verification/VmSafety.v ===== *)
(** * The interpreter and the entry points are safe, terminate and never make gas

    From well-formed jump tables: one iteration of the interpreter keeps the frame
    well formed and burns gas, so [Run] ends with the fuel of [run_fuel]; the entry
    points keep the promise [CallsOk] they rely on, by induction on the depth that is
    left. *)

From S2P Require Import Prelude Uint256 Params VmData VmAnalysis VmState VmGas VmInstr.
From S2P Require Import VmJumpTable VmInterpreter VmEvm VmSpec VmFrame VmExec VmGasOk VmTables.

Section step.
Context `{UL : Uint256Laws} {S C : Type} {SDB : StateDB S} {BC : BitmapCache C}.
Context {CL : CacheLaws (C := C)}.
Variable E : env S.
Context (EOK : env_ok E).
Variable jt : JumpTable S C.
Context (JT : table_ok E jt).

Implicit Types s : mstate S C.
Implicit Types o : operation S C.

(** ** The phases of an iteration *)

Lemma wp_validate e0 s op o Q :
  frame_ok E e0 s → op_ok E op o →
  (stack_ok o s → write_ok E op o s → Q tt s) →
  wp (validate E op o) Q (λ _, frame_end E e0 (Gas (contract s))) ok_panic s.
Proof.
  intros Hf Ho HQ. assert (Hend : frame_end E e0 (Gas (contract s)) s)
    by (apply frame_ok_end; [done|lia]).
  unfold validate. apply wp_bind, wp_gets. unfold len.
  destruct (Z.ltb_spec (zlen (stack s)) (op_minStack o)); [done|].
  destruct (Z.ltb_spec (op_maxStack o) (zlen (stack s))); [done|].
  assert (Hst : stack_ok o s) by done. specialize (HQ Hst).
  apply wp_bind, wp_gets. fold (is_ro E (vm s)).
  destruct (is_ro E (vm s)) eqn:Hro; [|apply wp_ret, HQ; intros ?; congruence].
  destruct (writes o) eqn:Hwr; [done|].
  destruct (Z.eqb_spec op CALL) as [->|Hne].
  - destruct (op_shape _ _ _ Ho) as (Hn & _).
    destruct (lookup_lt_is_Some_2 (stack s) 2) as [v Hv]; [unfold stack_ok, zlen in *; lia|].
    apply wp_bind. eapply wp_Back; [exact Hv|].
    destruct (Z.eqb_spec (Sign v) 0); [|done]. apply wp_ret, HQ.
    intros _. split; [done|]. intros _. by exists v.
  - apply wp_ret, HQ. done.
Qed.

Lemma wp_charge e0 g s gas Q :
  evm_rel E e0 (vm s) → is_u64 (Gas (contract s)) → Gas (contract s) <= g → 0 <= gas →
  (gas <= Gas (contract s) →
   Q tt (set_contract s (set_Gas (contract s) (Gas (contract s) - gas)))) →
  wp (charge gas) Q (λ _, frame_end E e0 g) ok_panic s.
Proof.
  intros Hv Hg Hle Hgas HQ. unfold charge. apply wp_bind, wp_UseGas; intros H.
  - by apply wp_ret, HQ.
  - apply wp_fail. split; [unfold is_u64 in *; lia|done].
Qed.

(** A whole number of words that covers the request. *)
Lemma words_cover m size :
  is_u64 m → SafeMul (toWordSize m) 32 = (size, false) →
  0 <= size < 2 ^ 64 ∧ size mod 32 = 0 ∧ m <= size.
Proof.
  intros Hm H. pose proof (toWordSize_range m Hm) as Hr.
  apply SafeMul_ok in H as [-> Hu]; [|unfold is_u64; lia..].
  unfold is_u64 in *. split; [done|]. split; [apply Z.mod_mul; lia|].
  unfold toWordSize, MaxUint64 in *. case_if; zbool.
  - exfalso. destruct Hu as [_ Hu]. revert Hu. by vm_compute.
  - pose proof (Z.div_mod (m + 31) 32 ltac:(lia)).
    pose proof (Z.mod_pos_bound (m + 31) 32 ltac:(lia)). lia.
Qed.

Lemma wp_required_memory e0 g s op o Q :
  op_ok E op o → op_minStack o <= zlen (stack s) → frame_end E e0 g s →
  (∀ size, 0 <= size < 2 ^ 64 → size mod 32 = 0 → (memorySize o = None → size = 0) →
     match memorySize o with
     | Some f => ∃ sz, f (stack s) = Some (sz, false) ∧ 0 <= sz <= size
     | None => True
     end → Q size s) →
  wp (required_memory o) Q (λ _, frame_end E e0 g) ok_panic s.
Proof.
  intros Ho Hst Hend HQ. pose proof (op_mem _ _ _ Ho) as Hmt. unfold mem_total in Hmt.
  unfold required_memory. destruct (memorySize o) as [f|].
  - apply wp_bind, wp_gets. destruct (Hmt _ Hst) as (sz & ov & Hf & Hu).
    rewrite Hf. apply wp_bind, wp_ret. destruct ov; [done|].
    destruct (SafeMul (toWordSize sz) 32) as [size []] eqn:Hm; [done|]. apply wp_ret.
    apply words_cover in Hm as (? & ? & ?); [|auto]. specialize (Hu eq_refl).
    unfold is_u64 in Hu. apply HQ; [done|done|done|]. exists sz. split; [done|lia].
  - apply wp_ret, HQ; done || lia.
Qed.

(** Memory after the gas function and [Resize]. *)
Lemma mem_ok_resize m m' size :
  mem_ok m → 0 <= size → size mod 32 = 0 → store m' = store m →
  mem_paid m' (Z.max (Len m) size / 32) →
  mem_ok (if 0 <? size then Resize m' size else m') ∧
  size <= Len (if 0 <? size then Resize m' size else m').
Proof.
  intros (k & Hk & _) Hs Hm Hst (Hj & Hle & Hfee).
  pose proof (zlen_nonneg (store m)) as Hnn. fold (Len m) in Hnn.
  assert (Hlen : Len m' = Len m) by (unfold Len; congruence).
  pose proof (Z.div_mod size 32 ltac:(lia)) as Hd.
  assert (Hmax : Z.max (Len m) size = 32 * (Z.max (Len m) size / 32)).
  { destruct (Z.max_spec (Len m) size) as [[? ->]|[? ->]]; [lia|].
    rewrite Hk, (Z.mul_comm 32 k), Z.div_mul; lia. }
  assert (Hrl : Len (if 0 <? size then Resize m' size else m') = Z.max (Len m) size ∧
                lastGasCost (if 0 <? size then Resize m' size else m') = lastGasCost m').
  { unfold Resize. rewrite Hlen. destruct (Z.ltb_spec 0 size); [|lia].
    destruct (Z.ltb_spec (Len m) size); [|lia]. split; [|done].
    unfold Len, set_store in *. cbn [store].
    rewrite zlen_app, zlen_zeros by lia. unfold Len in *. lia. }
  destruct Hrl as [Hl Hg]. split; [|lia].
  exists (Z.max (Len m) size / 32). rewrite <- Hmax in *. unfold mem_paid.
  rewrite Hl, Hg. split_and!; [lia|by eexists|lia|lia|done].
Qed.

(** From the charge of the constant part to the state the operation runs in.
    [b] is the gas of the frame before the dynamic part. *)
Definition ready (e0 : evm S C) (op : Z) (o : operation S C) (b : Z) s : Prop :=
  frame_ok E e0 s ∧ mem_ready o s ∧ stack_ok o s ∧ write_ok E op o s ∧
  0 <= budget op s ∧ Gas (contract s) + budget op s + min_cost o <= b.

Lemma wp_dynamic e0 g0 s op o size Q :
  op_ok E op o → frame_ok E e0 s → Gas (contract s) <= g0 → stack_ok o s → write_ok E op o s →
  0 <= size < 2 ^ 64 → size mod 32 = 0 → (memorySize o = None → size = 0) →
  match memorySize o with
  | Some f => ∃ sz, f (stack s) = Some (sz, false) ∧ 0 <= sz <= size
  | None => True
  end →
  (∀ s', ready e0 op o (Gas (contract s)) s' → pc s' = pc s →
         Code (contract s') = Code (contract s) → Q tt s') →
  wp (charge_dynamic E o size)
    (λ _, wp (resize size) Q (λ _, frame_end E e0 g0) ok_panic)
    (λ _, frame_end E e0 g0) ok_panic s.
Proof.
  intros Ho Hf Hg0 Hst Hw Hs Hm H0 Hsz HQ. pose proof (op_gas _ _ _ Ho) as Hgas.
  pose proof (ok_gas _ _ (fr_contract _ _ _ Hf)) as Hu.
  assert (Hres : ∀ s', gas_frame E e0 size s s' → ∀ g, is_u64 g → 0 <= budget op s' →
    g + budget op s' + min_cost o <= Gas (contract s) →
    wp (resize size) Q (λ _, frame_end E e0 g0) ok_panic
       (set_contract s' (set_Gas (contract s') g))).
  { intros s' Hg g Hug Hb0 Hb.
    destruct (mem_ok_resize _ _ size (fr_mem _ _ _ Hf) ltac:(lia) Hm
                (gf_store _ _ _ _ _ Hg) (gf_mem _ _ _ _ _ Hg)) as [Hmem Hcov].
    destruct Hg as [Hpc Hstk Hc Hstore Hv Hmp].
    set (sf := set_mem (set_contract s' (set_Gas (contract s') g))
                 (if 0 <? size then Resize (mem s') size else mem s')).
    assert (HQf : Q tt sf).
    { apply HQ; [|done|cbn; by rewrite Hc]. unfold ready, mem_ready, stack_ok, write_ok.
      cbn [sf stack vm contract set_mem set_contract set_Gas Gas].
      change (budget op sf) with (budget op s'). rewrite Hstk.
      split_and!; [|destruct (memorySize o); [|done]|apply Hst|apply Hst| |done|done].
      - destruct Hf. split; cbn; [by rewrite Hpc|by rewrite Hstk|done| |done].
        rewrite Hc. by apply contract_ok_set_Gas.
      - destruct Hsz as (sz & ? & ?). exists sz. split; [done|]. unfold sf. cbn [mem set_mem]. lia.
      - rewrite (evm_rel_ro _ _ _ Hv), <- (evm_rel_ro _ _ _ (fr_vm _ _ _ Hf)). exact Hw. }
    unfold resize. unfold sf in HQf. destruct (0 <? size); [by apply wp_modify|].
    apply wp_ret. by destruct s'. }
  unfold charge_dynamic. destruct (dynamicGas o) as [f|].
  - apply wp_bind, wp_try. eapply wp_mono; [by apply Hgas| | |done].
    + intros cost s' (Hc & Hb0 & Hb & Hg). pose proof (gf_contract _ _ _ _ _ Hg) as Hcs.
      eapply wp_charge; [apply Hg|by rewrite Hcs|by rewrite Hcs|unfold is_u64 in *; lia|].
      rewrite Hcs at 1. intros Hle. unfold is_u64 in Hu, Hc.
      apply (Hres s' Hg); [unfold is_u64| |]; rewrite ?Hcs; lia.
    + intros ? s' Hend. apply wp_fail. eapply frame_end_mono; [exact Hend|done].
  - destruct Hgas as (Hms & Hmc & Hb). apply wp_ret.
    specialize (Hres s (gas_frame_refl _ _ _ _ Hf (H0 Hms)) (Gas (contract s)) Hu).
    rewrite Hb, Hmc in Hres. specialize (Hres ltac:(lia) ltac:(lia)).
    rewrite set_Gas_id in Hres. by destruct s.
Qed.

Variable K : evm_calls S C.

Lemma wp_execute_op e0 s op o b Q :
  CallsOk E (depth e0) K → op_ok E op o → ready e0 op o b s → b < 2 ^ 64 →
  (op ≠ STOP → pc s < zlen (Code (contract s))) →
  (∀ res s', frame_ok E e0 s' → zlen res < 2 ^ 63 →
             Gas (contract s') + min_cost o <= b → Q res s') →
  wp (execute_op E K o) Q (λ _, frame_end E e0 b) ok_panic s.
Proof.
  intros HK Ho (Hf & Hmr & Hst & Hw & Hb0 & Hb) Hlt Hpc HQ. unfold execute_op.
  assert (0 <= min_cost o) by (unfold min_cost; case_if; lia).
  apply wp_bind, wp_try. eapply wp_mono; [apply (op_exec _ _ _ Ho); done || lia| | |done].
  - intros res s' (Hf' & Hl & Hg). apply wp_bind.
    destruct (returns o); [apply wp_modify|apply wp_ret]; apply wp_ret, HQ; try done; try lia.
    + destruct Hf' as [???? [?? Hok ?]]. split; try done. split; try done.
      by apply vm_ok_returnData.
    + cbn. lia.
  - intros err s' [Hg Hv]. apply wp_bind.
    destruct (returns o); [apply wp_modify|apply wp_ret]; apply wp_fail; split; cbn; try lia.
    + destruct Hv as [?? Hok ?]. split; try done. apply vm_ok_returnData; [done|].
      rewrite zlen_nil. lia.
    + done.
Qed.

(** ** One iteration *)

Definition step_post e0 (g : Z) (v : verdict) (s' : mstate S C) : Prop :=
  match v with
  | None => frame_ok E e0 s' ∧ Gas (contract s') < g
  | Some (out, err) => frame_end E e0 g s' ∧ zlen out < 2 ^ 63
  end.

Lemma GetOp_in_code (c : Contract) p : GetOp c p ≠ STOP → p < zlen (Code c).
Proof. unfold GetOp, GetByte. case_if; zbool; done. Qed.

Lemma wp_step_ok e0 s :
  CallsOk E (depth e0) K → frame_ok E e0 s →
  wp (step E jt K) (step_post e0 (Gas (contract s)))
    (λ _, frame_end E e0 (Gas (contract s))) ok_panic s.
Proof.
  intros HK Hf. unfold step. apply wp_bind, wp_gets.
  pose proof (GetOp_in_code (contract s) (pc s)) as Hpc.
  set (op := GetOp (contract s) (pc s)) in *.
  assert (Hend : frame_end E e0 (Gas (contract s)) s) by (apply frame_ok_end; [done|lia]).
  apply wp_bind, wp_or_fail; [|done]. intros o Hjt. pose proof (JT _ _ Hjt) as Ho.
  apply wp_bind. apply (wp_validate e0); [done..|]. intros Hst Hw.
  pose proof (ok_gas _ _ (fr_contract _ _ _ Hf)) as Hu.
  pose proof (op_const _ _ _ Ho) as Hcu. unfold is_u64 in Hu, Hcu.
  apply wp_bind, (wp_charge e0); [apply Hf|unfold is_u64; lia|lia|lia|]. intros Hc.
  set (s1 := set_contract s (set_Gas (contract s) (Gas (contract s) - constantGas o))).
  assert (Hf1 : frame_ok E e0 s1) by (apply frame_ok_gas; [done|unfold is_u64; lia]).
  assert (Hg1 : Gas (contract s1) = Gas (contract s) - constantGas o) by done.
  assert (Hend1 : frame_end E e0 (Gas (contract s)) s1) by (apply frame_ok_end; [done|lia]).
  apply wp_bind, (wp_required_memory e0 _ s1 op o); [done|apply Hst|done|].
  intros size Hs1 Hs2 Hs3 Hs4.
  apply wp_bind. eapply wp_mono; [apply (wp_dynamic e0 (Gas (contract s)) s1 op o size (λ _ s',
    ready e0 op o (Gas (contract s1)) s' ∧ pc s' = pc s ∧
    Code (contract s') = Code (contract s)));
    [done|done|lia|done..|by auto]| |done|done].
  intros [] s2 Hres. apply wp_bind. eapply wp_mono; [exact Hres| |done|done].
  intros [] s3 (Hr & Hpc3 & Hcode3). apply wp_bind.
  eapply wp_mono; [apply (wp_execute_op e0 s3 op o (Gas (contract s1)) (λ res s', frame_ok E e0 s' ∧
    zlen res < 2 ^ 63 ∧ Gas (contract s') + min_cost o <= Gas (contract s1)));
    [done|done|exact Hr|lia|by rewrite Hpc3, Hcode3|by auto]| | |done].
  2: { intros ? s' H. eapply frame_end_mono; [exact H|]. lia. }
  intros res s4 (Hf4 & Hl & Hg4). unfold min_cost in Hg4.
  assert (Hend4 : frame_end E e0 (Gas (contract s)) s4).
  { apply frame_ok_end; [done|]. destruct (_ || _); lia. }
  destruct (reverts o) eqn:Hrv; [by apply wp_ret|].
  destruct (halts o) eqn:Hh; [by apply wp_ret|].
  assert (Hburn : Gas (contract s4) < Gas (contract s)).
  { unfold stops in Hg4. rewrite Hrv, Hh in Hg4. simpl in Hg4.
    destruct (Z.ltb_spec 0 (constantGas o)); simpl in Hg4; lia. }
  apply wp_bind. destruct (jumps o); [apply wp_ret, wp_ret; done|].
  apply wp_modify, wp_ret. split; [|done]. apply frame_ok_pc; [done|]. apply u64_range.
Qed.

(** ** The loop *)

Variable abort : Z → mstate S C → bool.

Lemma wp_loop_ok fuel : ∀ e0 s n,
  CallsOk E (depth e0) K → frame_ok E e0 s →
  (Z.to_nat (Gas (contract s)) < fuel)%nat →
  wp (loop E jt abort K fuel n)
    (λ r s', frame_end E e0 (Gas (contract s)) s' ∧ zlen r.1 < 2 ^ 63)
    (λ _, frame_end E e0 (Gas (contract s))) ok_panic s.
Proof.
  induction fuel as [|fuel IH]; intros e0 s n HK Hf Hfuel; [lia|]. cbn [loop].
  pose proof (ok_gas _ _ (fr_contract _ _ _ Hf)) as Hu. unfold is_u64 in Hu.
  apply wp_bind, wp_gets. destruct (_ && _).
  { apply wp_ret. split; [apply frame_ok_end; [done|lia]|]. by vm_compute. }
  apply wp_bind. eapply wp_mono; [by apply wp_step_ok| |done|done].
  intros [[out err]|] s' Hpost; [by apply wp_ret|]. destruct Hpost as [Hf' Hg].
  pose proof (ok_gas _ _ (fr_contract _ _ _ Hf')) as Hu'. unfold is_u64 in Hu'.
  eapply wp_mono; [apply IH; [done|exact Hf'|lia]| | |done].
  - intros r s'' [He ?]. split; [|done]. eapply frame_end_mono; [exact He|lia].
  - intros ? s'' He. eapply frame_end_mono; [exact He|lia].
Qed.
End step.

(** ** Running a contract *)

Section run.
Context `{UL : Uint256Laws} {S C : Type} {SDB : StateDB S} {BC : BitmapCache C}.
Context {CL : CacheLaws (C := C)}.
Variable E : env S.
Context (EOK : env_ok E).

Implicit Types e : evm S C.

(** Whether changes are forbidden in the frame that is about to run. *)
Definition frame_ro e (ro : bool) : bool :=
  (readOnly e || ro) && rIsByzantium (chainRules E).

Definition run_post e (ro : bool) (g : Z) (r : bytes * option vmerror * Contract) e' : Prop :=
  zlen r.1.1 < 2 ^ 63 ∧ 0 <= Gas r.2 <= g ∧ depth e' = depth e ∧ readOnly e' = readOnly e ∧
  vm_ok E e' ∧ dbsteps E (frame_ro e ro) (sdb e) (sdb e').

Definition run_ok (d : Z)
    (run : Contract → bytes → bool → EM S C (bytes * option vmerror * Contract)) : Prop :=
  ∀ e c input ro,
    depth e = d → vm_ok E e → contract_ok E c → zlen input < 2 ^ 63 →
    wp (run c input ro) (run_post e ro (Gas c)) (λ _ _, False) ok_panic e.

Lemma frame_ro_weaken e ro s s' :
  dbsteps E (frame_ro e ro) s s' → dbsteps E (is_ro E e) s s'.
Proof.
  unfold frame_ro, is_ro. destruct (readOnly e), ro, (rIsByzantium _); simpl; try done;
    intros; by apply dbsteps_mono.
Qed.

Lemma Run_ok jt abort K d :
  table_ok E jt → CallsOk E (d + 1) K →
  run_ok d (λ c input ro, Run E jt abort K (run_fuel c) c input ro).
Proof.
  intros JT HK e c input ro Hd Hv Hc Hi. unfold Run, wp.
  set (e3 := set_returnData _ _).
  assert (Hd3 : depth e3 = d + 1) by (unfold e3; case_if; cbn; lia).
  assert (Hr3 : readOnly e3 = readOnly e || ro)
    by (unfold e3; destruct ro, (readOnly e) eqn:Hr; cbn; congruence).
  assert (Hs3 : sdb e3 = sdb e) by (unfold e3; case_if; done).
  assert (Hv3 : vm_ok E e3).
  { destruct Hv. unfold e3. case_if; split; try done; by vm_compute. }
  set (s0 := {| pc := 0; stack := []; mem := NewMemory; contract := set_Input c input; vm := e3 |}).
  assert (Hf : frame_ok E e3 s0).
  { split; cbn; [by vm_compute|by vm_compute| |by destruct Hc|by apply evm_rel_refl].
    exists 0. repeat split; try (by vm_compute). by exists 0. }
  pose proof (wp_loop_ok E jt JT K abort (run_fuel c) e3 s0 0) as Hl.
  rewrite Hd3 in Hl. pose proof (ok_gas _ _ Hc) as Hu. unfold is_u64 in Hu.
  specialize (Hl HK Hf ltac:(unfold run_fuel; cbn; lia)). unfold wp in Hl.
  assert (Hleave : ∀ s', frame_end E e3 (Gas c) s' →
    let e' := if ro && negb (readOnly e) then set_readOnly (vm s') false else vm s' in
    ∀ res err, zlen res < 2 ^ 63 →
    run_post e ro (Gas c) (res, err, contract s') (set_depth e' (depth e' - 1))).
  { intros s' [Hg [Hd' Hr' Hok' Hdb]] e' res err Hres. unfold run_post.
    assert (Hro : is_ro E e3 = frame_ro e ro) by (unfold is_ro, frame_ro; by rewrite Hr3).
    rewrite Hro, Hs3 in Hdb.
    subst e'. destruct Hok'. destruct ro, (readOnly e) eqn:Hre; cbn in *;
      (split_and!; [done|lia|lia|lia|congruence|by split|done]). }
  destruct (loop _ _ _ _ _ _ _) as [[res err] s'|er s'|p|].
  - destruct Hl. by apply Hleave.
  - apply Hleave; [done|by vm_compute].
  - done.
  - done.
Qed.
End run.

(** ** The entry points *)

Section entry_points.
Context `{UL : Uint256Laws} {S C : Type} {SDB : StateDB S} {BC : BitmapCache C}.
Context {CL : CacheLaws (C := C)}.
Variable E : env S.
Context (EOK : env_ok E) {RL : RevertLaws E}.
Variable d : Z.
Variable run : Contract → bytes → bool → EM S C (bytes * option vmerror * Contract).
Context (Hrun : d <= CallCreateDepth → run_ok E d run).

Implicit Types e : evm S C.

(** A failed call leaves the state as it was; it consumes its gas, unless the callee
    reverted or the call was refused before it started. *)
Definition failed_call e (gas : Z) (left : Z) (err : vmerror) e' : Prop :=
  same_state E (sdb e) (sdb e') ∧
  (err = ErrExecutionReverted ∨ left = 0 ∨
   left = gas ∧ sdb e' = sdb e ∧ (err = ErrDepth ∨ err = ErrInsufficientBalance)).

Definition call_spec e (gas : Z) (r : bytes * Z * option vmerror) e' : Prop :=
  call_post E e gas r e' ∧
  match r.2 with None => True | Some err => failed_call e gas r.1.2 err e' end.

Lemma evm_rel_snapshot e id s1 :
  vm_ok E e → Snapshot (sdb e) = (id, s1) → evm_rel E e (set_sdb e s1).
Proof.
  intros Hv Hs. split; [done..|by apply vm_ok_set_sdb|].
  eapply ds_snapshot; [apply ds_refl|done].
Qed.

Lemma dbsteps_false ro s s' : dbsteps E ro s s' → dbsteps E false s s'.
Proof. destruct ro; [intros; by apply dbsteps_mono|done]. Qed.

Lemma wp_revert_to e id s1 e2 (Q : unit → evm S C → Prop) :
  Snapshot (sdb e) = (id, s1) → evm_rel E (set_sdb e s1) e2 →
  (∀ e', evm_rel E e e' → same_state E (sdb e) (sdb e') → Q tt e') →
  wp (revert_to id) Q (λ _ _, False) ok_panic e2.
Proof.
  intros Hs [? ? Hok Hdb] HQ. unfold wp, revert_to. cbn in *.
  destruct (revert_law E _ _ _ _ Hs (dbsteps_false _ _ _ Hdb)) as (s3 & Hr & Hsame).
  rewrite Hr. apply HQ; [|done]. split; [done..|by apply vm_ok_set_sdb|].
  eapply ds_revert; [apply ds_refl|exact Hs|exact Hdb|exact Hr].
Qed.

Lemma wp_settle e id s1 e2 out left err gas :
  vm_ok E e → Snapshot (sdb e) = (id, s1) → evm_rel E (set_sdb e s1) e2 →
  zlen out < 2 ^ 63 → 0 <= left <= gas →
  wp (settle id (out, left, err)) (call_spec e gas) (λ _ _, False) ok_panic e2.
Proof.
  intros Hv Hs Hrel Ho Hl. unfold settle. destruct err as [err|].
  - apply wp_bind. eapply wp_revert_to; [exact Hs|exact Hrel|]. intros e' He' Hsame.
    apply wp_ret. unfold call_spec, call_post, failed_call. cbn.
    case_decide; (split_and!; [done|lia|lia|done|done|tauto]).
  - apply wp_ret. split; [|done]. split_and!; [done|cbn; lia|cbn; lia|].
    eapply evm_rel_trans; [by eapply evm_rel_snapshot|done].
Qed.

Lemma wp_take_snapshot e (Q : Z → evm S C → Prop) :
  (∀ id s1, Snapshot (sdb e) = (id, s1) → Q id (set_sdb e s1)) →
  wp take_snapshot Q (λ _ _, False) ok_panic e.
Proof. unfold wp, take_snapshot. destruct (Snapshot (sdb e)) as [id s1]. auto. Qed.

(** The contract of a frame: fresh, with code from the state database. *)
Lemma contract_ok_fetched caller obj v gas db addr a c :
  is_u64 gas → c = NewContract caller obj v gas →
  contract_ok E (SetCallCode c a (GetCodeHash db addr) (GetCode db addr)).
Proof.
  intros Hg ->. split; try done.
  - apply (GetCode_len _ EOK).
  - apply (GetCodeHash_ok _ EOK).
Qed.

Lemma new_jumpdests_ok caller e (Q : unit → evm S C → Prop) :
  vm_ok E e →
  (∀ e', vm_ok E e' → depth e' = depth e → readOnly e' = readOnly e → sdb e' = sdb e → Q tt e') →
  wp (new_jumpdests caller) Q (λ _ _, False) ok_panic e.
Proof.
  intros [] HQ. apply wp_modify, HQ; by destruct caller; try split.
Qed.

Lemma wp_run_contract e0 e c input ro (Q : result → evm S C → Prop) :
  d <= CallCreateDepth → depth e = d → evm_rel E e0 e → contract_ok E c →
  zlen input < 2 ^ 63 →
  (∀ out left err e', zlen out < 2 ^ 63 → 0 <= left <= Gas c → evm_rel E e0 e' →
                      dbsteps E (frame_ro E e ro) (sdb e) (sdb e') →
                      Q (out, left, err) e') →
  wp (run_contract run c input ro) Q (λ _ _, False) ok_panic e.
Proof.
  intros Hd He Hrel Hc Hi HQ. unfold run_contract.
  apply wp_bind, new_jumpdests_ok; [apply Hrel|]. intros e1 Hv1 Hd1 Hr1 Hs1.
  apply wp_bind. eapply wp_mono; [apply (Hrun Hd); [congruence|done..]| |done|done].
  intros [[out err] c'] e' (Ho & Hg & Hd' & Hr' & Hv' & Hdb). apply wp_ret.
  rewrite Hs1 in Hdb. assert (Hro : frame_ro E e1 ro = frame_ro E e ro)
    by (unfold frame_ro; by rewrite Hr1). rewrite Hro in Hdb.
  apply HQ; [done|done| |done]. eapply evm_rel_trans; [exact Hrel|].
  split; [congruence|congruence|done|]. by eapply frame_ro_weaken.
Qed.

(** The guards of a call, and their answers. *)
Lemma call_spec_skip e gas : vm_ok E e → is_u64 gas → call_spec e gas ([], gas, None) e.
Proof.
  intros ? Hg. unfold is_u64 in Hg. split; [|done]. split_and!; [by vm_compute|cbn; lia..|].
  by apply evm_rel_refl.
Qed.
Lemma call_spec_refused e gas err :
  vm_ok E e → is_u64 gas → err = ErrDepth ∨ err = ErrInsufficientBalance →
  call_spec e gas ([], gas, Some err) e.
Proof.
  intros ? Hg Herr. unfold is_u64 in Hg. split.
  - split_and!; [by vm_compute|cbn; lia..|]. by apply evm_rel_refl.
  - split; [apply same_state_refl|]. auto 10.
Qed.

Lemma precompiled_ok addr p input gas :
  precompile E addr = Some p → is_u64 gas →
  ∃ out left err, RunPrecompiledContract p input gas = (out, left, err) ∧
    zlen out < 2 ^ 63 ∧ 0 <= left <= gas.
Proof.
  intros Hp Hg. pose proof (RequiredGas_u64 _ EOK _ _ input Hp). unfold is_u64 in *.
  pose proof (precompile_len _ EOK _ _ input Hp) as Hl. unfold RunPrecompiledContract.
  destruct (Z.ltb_spec gas (RequiredGas p input)).
  - eexists _, _, _. split; [done|]. split; [by vm_compute|lia].
  - destruct (Run_precompiled p input) as [out err]. eexists _, _, _. split; [done|].
    split; [exact Hl|lia].
Qed.

Ltac guards :=
  apply wp_bind, wp_gets;
  match goal with |- context [NoRecursion E && ?b] => destruct (NoRecursion E && b) end;
  [by apply wp_ret, call_spec_skip|];
  apply wp_bind, wp_gets;
  match goal with |- context [CallCreateDepth <? ?x] => destruct (Z.ltb_spec CallCreateDepth x) end;
  [by apply wp_ret, call_spec_refused; [| |left]|].

Lemma evm_DelegateCall_ok e a ca v addr input gas :
  depth e = d → vm_ok E e → is_u64 gas → zlen input < 2 ^ 63 →
  wp (evm_DelegateCall E run (ContractOf a ca v) addr input gas)
    (call_spec e gas) (λ _ _, False) ok_panic e.
Proof.
  intros Hd Hv Hg Hi. unfold evm_DelegateCall. guards.
  apply wp_bind, wp_take_snapshot. intros id s1 Hs. apply wp_bind.
  destruct (precompile E addr) as [p|] eqn:Hp.
  - apply wp_ret. destruct (precompiled_ok addr p input gas Hp Hg) as (out & left & err & -> & ? & ?).
    eapply wp_settle; [done|exact Hs|apply evm_rel_refl; by apply vm_ok_set_sdb|done|done].
  - apply wp_bind, wp_ret, wp_bind, wp_gets, wp_bind, wp_gets.
    eapply (wp_run_contract (set_sdb e s1)); [lia|done|apply evm_rel_refl; by apply vm_ok_set_sdb| |done|].
    + split; try done; [apply (GetCode_len _ EOK)|apply (GetCodeHash_ok _ EOK)].
    + intros out left err e' Ho Hl Hrel _. by eapply wp_settle.
Qed.

Lemma evm_CallCode_ok e caller addr input gas v :
  depth e = d → vm_ok E e → is_u64 gas → zlen input < 2 ^ 63 →
  wp (evm_CallCode E run caller addr input gas v)
    (call_spec e gas) (λ _ _, False) ok_panic e.
Proof.
  intros Hd Hv Hg Hi. unfold evm_CallCode. guards.
  apply wp_bind, wp_gets. destruct (CanTransfer E _ _ _); cbn [negb id].
  2: { by apply wp_ret, call_spec_refused; [| |right]. }
  apply wp_bind, wp_take_snapshot. intros id s1 Hs. apply wp_bind.
  destruct (precompile E addr) as [p|] eqn:Hp.
  - apply wp_ret. destruct (precompiled_ok addr p input gas Hp Hg) as (out & left & err & -> & ? & ?).
    eapply wp_settle; [done|exact Hs|apply evm_rel_refl; by apply vm_ok_set_sdb|done|done].
  - apply wp_bind, wp_gets, wp_bind, wp_gets.
    eapply (wp_run_contract (set_sdb e s1)); [lia|done|apply evm_rel_refl; by apply vm_ok_set_sdb| |done|].
    + by eapply contract_ok_fetched.
    + intros out left err e' Ho Hl Hrel _. by eapply wp_settle.
Qed.

Lemma evm_StaticCall_ok e caller addr input gas :
  depth e = d → vm_ok E e → is_u64 gas → zlen input < 2 ^ 63 →
  wp (evm_StaticCall E run caller addr input gas)
    (call_spec e gas) (λ _ _, False) ok_panic e.
Proof.
  intros Hd Hv Hg Hi. unfold evm_StaticCall. guards.
  apply wp_bind, wp_take_snapshot. intros id s1 Hs. apply wp_bind, wp_modify.
  assert (Hrel1 : evm_rel E (set_sdb e s1)
            (set_sdb (set_sdb e s1) (AddBalance addr 0 (sdb (set_sdb e s1))))).
  { apply evm_rel_op; [apply evm_rel_refl; by apply vm_ok_set_sdb|constructor]. }
  apply wp_bind. destruct (precompile E addr) as [p|] eqn:Hp.
  - apply wp_ret. destruct (precompiled_ok addr p input gas Hp Hg) as (out & left & err & -> & ? & ?).
    by eapply wp_settle.
  - apply wp_bind, wp_gets, wp_bind, wp_gets.
    eapply (wp_run_contract (set_sdb e s1)); [lia|done|exact Hrel1| |done|].
    + by eapply contract_ok_fetched.
    + intros out left err e' Ho Hl Hrel _. by eapply wp_settle.
Qed.

Lemma dbop_transfer ro a b v s : (ro = true → v = 0) → dbop E ro s (Transfer E a b v s).
Proof.
  intros H. destruct ro; [rewrite H by done; apply db_transfer0|by apply db_transfer].
Qed.

Lemma evm_Call_ok e caller addr input gas v :
  depth e = d → vm_ok E e → is_u64 gas → zlen input < 2 ^ 63 →
  (is_ro E e = true → v = 0) →
  wp (evm_Call E run caller addr input gas v)
    (call_spec e gas) (λ _ _, False) ok_panic e.
Proof.
  intros Hd Hv Hg Hi Hro. unfold evm_Call. guards.
  apply wp_bind, wp_gets. destruct (negb (v =? 0) && _).
  { by apply wp_ret, call_spec_refused; [| |right]. }
  apply wp_bind, wp_take_snapshot. intros id s1 Hs. cbv zeta. apply wp_bind, wp_gets.
  set (e1 := set_sdb e s1).
  assert (Hv1 : evm_rel E e1 e1) by (apply evm_rel_refl; by apply vm_ok_set_sdb).
  destruct (negb _ && _ && _ && _) eqn:Hskip.
  { apply wp_ret. split; [|done]. unfold is_u64 in Hg.
    split_and!; [by vm_compute|cbn; lia..|by eapply evm_rel_snapshot]. }
  assert (Hcreate : ∀ Q, (∀ e2, depth e2 = d → evm_rel E e1 e2 → Q tt e2) →
    wp (if negb (Exist (sdb e1) addr) then db_mod (CreateAccount addr) else ret tt)
      Q (λ _ _, False) ok_panic e1).
  { intros Q HQ. destruct (Exist (sdb e1) addr) eqn:Hex; cbn [negb]; [by apply wp_ret, HQ|].
    apply wp_modify, HQ; [done|]. apply evm_rel_op; [done|].
    change (is_ro E e1) with (is_ro E e).
    destruct (is_ro E e); [|by apply db_create]. rewrite (Hro eq_refl) in Hskip.
    apply db_create_empty; [done|]. cbn in Hskip.
    destruct (precompile E addr); [left; by eexists|right].
    rewrite bool_decide_true in Hskip by done. by destruct (rIsEIP158 _). }
  apply wp_bind, Hcreate. intros e2 Hd2 Hrel2. apply wp_bind, wp_modify.
  set (e3 := set_sdb e2 _).
  assert (Hrel3 : evm_rel E e1 e3)
    by (apply evm_rel_op; [done|by apply dbop_transfer]).
  apply wp_bind. destruct (precompile E addr) as [p|] eqn:Hp.
  - apply wp_ret. destruct (precompiled_ok addr p input gas Hp Hg) as (out & left & err & -> & ? & ?).
    by eapply wp_settle.
  - apply wp_bind, wp_gets. destruct (zlen _ =? 0).
    { apply wp_ret. unfold is_u64 in Hg. eapply wp_settle; [done|exact Hs|exact Hrel3|by vm_compute|lia]. }
    apply wp_bind, wp_gets.
    eapply (wp_run_contract e1); [lia|done|exact Hrel3| |done|].
    + by eapply contract_ok_fetched.
    + intros out left err e' Ho Hl Hrel _. by eapply wp_settle.
Qed.

(** ** Creation *)

Lemma create_post_err e gas err e' g :
  evm_rel E e e' → 0 <= g <= gas → create_post E e gas ([], 0, g, Some err) e'.
Proof. intros. split_and!; [by vm_compute|cbn; lia..|done]. Qed.

(** The code store at the end of a creation. *)
Lemma wp_store e1 e2 (res : bytes) (addr : Address) (err : option vmerror) (c : Contract) g
    (Q : option vmerror * Contract → evm S C → Prop) :
  is_ro E e1 = false → evm_rel E e1 e2 → 0 <= Gas c <= g →
  (∀ err' c' e', evm_rel E e1 e' → 0 <= Gas c' <= g → Q (err', c') e') →
  wp (match err with
      | None =>
          match UseGas c (mul64 (zlen res) CreateDataGas) with
          | Some c => do! db_mod (SetCode addr res) in ret (None, c)
          | None => ret (Some ErrCodeStoreOutOfGas, c)
          end
      | Some e => ret (Some e, c)
      end) Q (λ _ _, False) ok_panic e2.
Proof.
  intros Hro Hrel Hg HQ. destruct err; [by apply wp_ret, HQ|].
  pose proof (u64_range (zlen res * CreateDataGas)) as Hm. unfold is_u64 in Hm.
  unfold UseGas. destruct (Z.ltb_spec (Gas c) (mul64 (zlen res) CreateDataGas)).
  - by apply wp_ret, HQ.
  - apply wp_bind, wp_modify, wp_ret, HQ; [|cbn; unfold mul64 in *; lia].
    apply evm_rel_op; [done|]. by apply db_setCode.
Qed.

(** [e3] is the machine right after the snapshot, [e6] where the deployment starts. *)
Lemma create_deploy_ok e e2 id s1 e6 caller code codeHash gas v address :
  d <= CallCreateDepth → is_u64 gas → zlen code < 2 ^ 63 →
  (codeHash ≠ 0 → Keccak256Hash E code = codeHash) →
  evm_rel E e e2 → Snapshot (sdb e2) = (id, s1) → is_ro E (set_sdb e2 s1) = false →
  depth e6 = d → evm_rel E (set_sdb e2 s1) e6 →
  wp (create_deploy E run caller code codeHash gas v address id)
    (create_post E e gas) (λ _ _, False) ok_panic e6.
Proof.
  intros Hdc Hg Hc Hh Hrel2 Hs Hro3 Hd6 Hrel6. pose proof Hg as Hg'. unfold is_u64 in Hg'.
  assert (Hback : ∀ e', evm_rel E (set_sdb e2 s1) e' → evm_rel E e e').
  { intros e' H'. eapply evm_rel_trans; [exact Hrel2|].
    eapply evm_rel_trans; [eapply evm_rel_snapshot; [apply Hrel2|exact Hs]|done]. }
  unfold create_deploy. cbv zeta. apply wp_bind, wp_gets. destruct (NoRecursion E && _).
  { apply wp_ret. split_and!; [by vm_compute|cbn; lia..|by apply Hback]. }
  apply wp_bind, new_jumpdests_ok; [apply Hrel6|]. intros e7 Hv7 Hd7 Hr7 Hs7.
  apply wp_bind.
  eapply wp_mono; [apply Hrun; [lia|congruence|done|by split|by vm_compute]| |done|done].
  intros [[res err] c] e8 (Ho & Hgas & Hd8 & Hr8 & Hv8 & Hdb). cbn in Ho, Hgas.
  assert (Hrel8 : evm_rel E (set_sdb e2 s1) e8).
  { eapply evm_rel_trans; [exact Hrel6|]. split; [congruence..|done|]. rewrite <- Hs7.
    apply frame_ro_weaken in Hdb. unfold is_ro in *. by rewrite <- Hr7. }
  apply wp_bind. eapply wp_store; [exact Hro3|exact Hrel8|exact Hgas|].
  intros err' c' e9 Hrel9 Hg9.
  assert (Hret : create_post E e gas (res, address, Gas c', err') e9)
    by (split_and!; [done|cbn; lia..|by apply Hback]).
  destruct err' as [er|]; [|by apply wp_ret]. destruct (_ || _); [|by apply wp_ret].
  apply wp_bind. eapply wp_revert_to; [exact Hs|exact Hrel9|]. intros e10 Hrel10 _.
  apply wp_ret. split_and!; [done|..|by eapply evm_rel_trans]; cbn;
    case_decide; try lia; unfold UseGas; rewrite Z.ltb_irrefl; cbn; lia.
Qed.

(** A conditional change of the state database. *)
Lemma wp_db_if (b : bool) f e0 e1 (Q : unit → evm S C → Prop) :
  depth e1 = d → evm_rel E e0 e1 → (∀ s, dbop E (is_ro E e0) s (f s)) →
  (∀ e2, depth e2 = d → evm_rel E e0 e2 → Q tt e2) →
  wp (if b then db_mod f else ret tt) Q (λ _ _, False) ok_panic e1.
Proof.
  intros Hd Hrel Hf HQ. destruct b; [|by apply wp_ret, HQ].
  apply wp_modify, HQ; [done|]. by apply evm_rel_op.
Qed.

Lemma create_ok e caller code codeHash gas v address :
  depth e = d → vm_ok E e → is_u64 gas → zlen code < 2 ^ 63 → is_ro E e = false →
  (codeHash ≠ 0 → Keccak256Hash E code = codeHash) →
  wp (create E run caller code codeHash gas v address)
    (create_post E e gas) (λ _ _, False) ok_panic e.
Proof.
  intros Hd Hv Hg Hc Hro Hh. pose proof Hg as Hg'. unfold is_u64 in Hg'. unfold create.
  assert (Hrel : evm_rel E e e) by by apply evm_rel_refl.
  apply wp_bind, wp_gets. destruct (Z.ltb_spec CallCreateDepth (depth e)).
  { apply wp_ret, create_post_err; [done|lia]. }
  apply wp_bind, wp_gets. destruct (CanTransfer E _ _ _); cbn [negb id].
  2: { apply wp_ret, create_post_err; [done|lia]. }
  apply wp_bind, wp_gets, wp_bind, wp_modify. set (e1 := set_sdb e _).
  assert (Hrel1 : evm_rel E e e1) by (apply evm_rel_op; [done|by apply db_setNonce]).
  apply wp_bind, (wp_db_if _ _ e e1); [done|done|constructor|]. intros e2 Hd2 Hrel2.
  apply wp_bind, wp_gets, wp_bind, wp_gets.
  destruct (_ || _). { apply wp_ret, create_post_err; [done|lia]. }
  apply wp_bind, wp_take_snapshot. intros id s1 Hs. set (e3 := set_sdb e2 s1).
  assert (Hro3 : is_ro E e3 = false)
    by (change (is_ro E e3) with (is_ro E e2); by rewrite (evm_rel_ro _ _ _ Hrel2)).
  assert (Hv3 : evm_rel E e3 e3) by (apply evm_rel_refl, vm_ok_set_sdb, Hrel2).
  apply wp_bind, wp_modify. set (e4 := set_sdb e3 _).
  assert (Hrel4 : evm_rel E e3 e4) by (apply evm_rel_op; [done|by apply db_create]).
  apply wp_bind, (wp_db_if _ _ e3 e4); [done|done|by constructor|]. intros e5 Hd5 Hrel5.
  apply wp_bind, wp_modify. eapply create_deploy_ok; try done; [lia|].
  apply evm_rel_op; [done|by apply db_transfer].
Qed.

(** ** The interface the interpreter relies on *)

Lemma entry_points_ok : CallsOk E d (entry_points E run).
Proof.
  split; intros; cbn [entry_points Call CallCode DelegateCall StaticCall Create Create2].
  - eapply wp_mono; [by apply evm_Call_ok| |done|done]. by intros ?? [].
  - eapply wp_mono; [by apply evm_CallCode_ok| |done|done]. by intros ?? [].
  - eapply wp_mono; [by apply evm_DelegateCall_ok| |done|done]. by intros ?? [].
  - eapply wp_mono; [by apply evm_StaticCall_ok| |done|done]. by intros ?? [].
  - apply wp_bind, wp_gets. by apply create_ok.
  - by apply create_ok.
Qed.

(** A static call under Byzantium rules only takes read-only steps. *)
Lemma evm_StaticCall_ro e caller addr input gas :
  depth e = d → vm_ok E e → is_u64 gas → zlen input < 2 ^ 63 →
  wp (evm_StaticCall E run caller addr input gas)
    (λ _ e', dbsteps E (rIsByzantium (chainRules E)) (sdb e) (sdb e'))
    (λ _ _, False) ok_panic e.
Proof.
  intros Hd Hv Hg Hi. unfold evm_StaticCall.
  apply wp_bind, wp_gets. destruct (NoRecursion E && _); [apply wp_ret, ds_refl|].
  apply wp_bind, wp_gets. destruct (Z.ltb_spec CallCreateDepth (depth e)); [apply wp_ret, ds_refl|].
  apply wp_bind, wp_take_snapshot. intros id s1 Hs. apply wp_bind, wp_modify.
  set (e1 := set_sdb (set_sdb e s1) _).
  assert (Hrel1 : evm_rel E (set_sdb e s1) e1).
  { apply evm_rel_op; [apply evm_rel_refl; by apply vm_ok_set_sdb|constructor]. }
  assert (Hset : ∀ e2 r, dbsteps E (rIsByzantium (chainRules E)) s1 (sdb e2) →
    wp (settle id r) (λ _ e', dbsteps E (rIsByzantium (chainRules E)) (sdb e) (sdb e'))
      (λ _ _, False) ok_panic e2).
  { intros e2 [[out left] [err|]] Hdb; unfold settle.
    - apply wp_bind. unfold wp, revert_to.
      destruct (revert_law E _ _ _ _ Hs (dbsteps_false _ _ _ Hdb)) as (s3 & Hr & _).
      rewrite Hr. by eapply ds_revert; [apply ds_refl|exact Hs|exact Hdb|].
    - apply wp_ret. eapply dbsteps_trans; [|exact Hdb].
      by eapply ds_snapshot; [apply ds_refl|]. }
  assert (H1 : dbsteps E (rIsByzantium (chainRules E)) s1 (sdb e1))
    by (eapply ds_op; [apply ds_refl|constructor]).
  apply wp_bind. destruct (precompile E addr) as [p|]; [by apply wp_ret, Hset|].
  apply wp_bind, wp_gets, wp_bind, wp_gets.
  eapply (wp_run_contract (set_sdb e s1)); [lia|done|exact Hrel1| |done|].
  - by eapply contract_ok_fetched.
  - intros out left err e' _ _ _ Hdb. apply Hset. eapply dbsteps_trans; [exact H1|].
    unfold frame_ro in Hdb. by rewrite orb_true_r in Hdb.
Qed.
End entry_points.

(** ** The knot *)

Section knot_ok.
Context `{UL : Uint256Laws} {S C : Type} {SDB : StateDB S} {BC : BitmapCache C}.
Context {CL : CacheLaws (C := C)}.
Variable E : env S.
Context (EOK : env_ok E) {RL : RevertLaws E}.
Variable jt : JumpTable S C.
Context (JT : table_ok E jt).
Variable abort : Z → mstate S C → bool.

(** The interpreter [calls n] hands to its entry points. *)
Definition run_at (n : nat) (c : Contract) (input : bytes) (ro : bool) :
    EM S C (bytes * option vmerror * Contract) :=
  match n with
  | O => λ _, NoFuel
  | Datatypes.S n => Run E jt abort (calls E jt abort n) (run_fuel c) c input ro
  end.

Lemma calls_unfold n : calls E jt abort n = entry_points E (run_at n).
Proof. by destruct n. Qed.

(** [1025 - d] nested frames are enough at depth [d]: beyond, the depth check
    refuses every call. *)
Lemma run_at_ok n : ∀ d, 1025 <= Z.of_nat n + d → d <= CallCreateDepth → run_ok E d (run_at n).
Proof.
  induction n as [|n IH]; intros d Hn Hd; [unfold CallCreateDepth in Hd; lia|].
  apply Run_ok; [done|]. rewrite calls_unfold.
  apply entry_points_ok; [done|done|]. apply IH. lia.
Qed.

Lemma calls_ok n d : 1025 <= Z.of_nat n + d → CallsOk E d (calls E jt abort n).
Proof.
  intros Hn. rewrite calls_unfold. apply entry_points_ok; [done|done|]. by apply run_at_ok.
Qed.
End knot_ok.
