(* ===== verification/VmModel.v ===== *)
(** * A concrete machine

    A small state database with full-copy snapshots, a bitmap cache without eviction
    and an injective stand-in for the hash.  They discharge the laws of [VmSpec], so
    that the theorems about the EVM have instances that compute, and run real byte
    code. *)

From S2P Require Import Prelude Uint256 Params VmData VmAnalysis VmState VmGas VmInstr.
From S2P Require Import VmJumpTable VmInterpreter VmEvm VmSpec.

Record core := {
  balances : gmap Address Z;
  nonces : gmap Address Z;
  codes : gmap Address bytes;
  storage : gmap (Address * Hash) Hash;
  accounts : gset Address;
  dead : gset Address;
  refund : Z;
  warm : gset Address;
  warm_slots : gset (Address * Hash);
  logs : list Log;
}.

Record simple_db := { cur : core; revs : list core }.

Definition empty_core : core := {|
  balances := ∅; nonces := ∅; codes := ∅; storage := ∅; accounts := ∅; dead := ∅;
  refund := 0; warm := ∅; warm_slots := ∅; logs := [] |}.

Definition on_cur (f : core → core) (s : simple_db) : simple_db :=
  {| cur := f (cur s); revs := revs s |}.

Definition upd_balance (a : Address) (f : Z → Z) (c : core) : core := {|
  balances := <[a := f (default 0 (balances c !! a))]> (balances c);
  nonces := nonces c; codes := codes c; storage := storage c;
  accounts := {[a]} ∪ accounts c; dead := dead c; refund := refund c;
  warm := warm c; warm_slots := warm_slots c; logs := logs c |}.
Definition upd_nonce (a : Address) (n : Z) (c : core) : core := {|
  balances := balances c; nonces := <[a := n]> (nonces c); codes := codes c;
  storage := storage c; accounts := {[a]} ∪ accounts c; dead := dead c;
  refund := refund c; warm := warm c; warm_slots := warm_slots c; logs := logs c |}.
Definition upd_code (a : Address) (b : bytes) (c : core) : core := {|
  balances := balances c; nonces := nonces c; codes := <[a := b]> (codes c);
  storage := storage c; accounts := {[a]} ∪ accounts c; dead := dead c;
  refund := refund c; warm := warm c; warm_slots := warm_slots c; logs := logs c |}.
Definition upd_storage (a : Address) (k v : Hash) (c : core) : core := {|
  balances := balances c; nonces := nonces c; codes := codes c;
  storage := <[(a, k) := v]> (storage c); accounts := accounts c; dead := dead c;
  refund := refund c; warm := warm c; warm_slots := warm_slots c; logs := logs c |}.
Definition upd_account (a : Address) (c : core) : core := {|
  balances := balances c; nonces := nonces c; codes := codes c; storage := storage c;
  accounts := {[a]} ∪ accounts c; dead := dead c; refund := refund c; warm := warm c;
  warm_slots := warm_slots c; logs := logs c |}.
Definition upd_dead (a : Address) (c : core) : core := {|
  balances := <[a := 0]> (balances c); nonces := nonces c; codes := codes c;
  storage := storage c; accounts := accounts c; dead := {[a]} ∪ dead c;
  refund := refund c; warm := warm c; warm_slots := warm_slots c; logs := logs c |}.
Definition upd_refund (r : Z) (c : core) : core := {|
  balances := balances c; nonces := nonces c; codes := codes c; storage := storage c;
  accounts := accounts c; dead := dead c; refund := r; warm := warm c;
  warm_slots := warm_slots c; logs := logs c |}.
Definition upd_warm (a : Address) (ks : gset (Address * Hash)) (c : core) : core := {|
  balances := balances c; nonces := nonces c; codes := codes c; storage := storage c;
  accounts := accounts c; dead := dead c; refund := refund c; warm := {[a]} ∪ warm c;
  warm_slots := ks ∪ warm_slots c; logs := logs c |}.
Definition upd_logs (l : Log) (c : core) : core := {|
  balances := balances c; nonces := nonces c; codes := codes c; storage := storage c;
  accounts := accounts c; dead := dead c; refund := refund c; warm := warm c;
  warm_slots := warm_slots c; logs := logs c ++ [l] |}.

(** An injective stand-in for the hash. *)
Definition toy_hash (b : bytes) : Hash := Zpos (encode b).

Definition toy_code (s : simple_db) (a : Address) : bytes :=
  take (Z.to_nat MaxCodeSize) (default [] (codes (cur s) !! a)).
Definition toy_exist (s : simple_db) (a : Address) : bool := bool_decide (a ∈ accounts (cur s)).
Definition toy_balance (s : simple_db) (a : Address) : Z := default 0 (balances (cur s) !! a).
Definition toy_nonce (s : simple_db) (a : Address) : Z := default 0 (nonces (cur s) !! a).

#[export] Instance simple_statedb : StateDB simple_db := {|
  CreateAccount a := on_cur (upd_account a);
  SubBalance a v := on_cur (upd_balance a (λ b, b - v));
  AddBalance a v := on_cur (upd_balance a (λ b, b + v));
  GetBalance := toy_balance;
  GetNonce := toy_nonce;
  SetNonce a n := on_cur (upd_nonce a n);
  GetCodeHash s a := if toy_exist s a then toy_hash (toy_code s a) else 0;
  GetCode := toy_code;
  SetCode a c := on_cur (upd_code a c);
  GetCodeSize s a := zlen (toy_code s a);
  AddRefund g s := on_cur (upd_refund (refund (cur s) + g)) s;
  SubRefund g s :=
    if refund (cur s) <? g then None else Some (on_cur (upd_refund (refund (cur s) - g)) s);
  GetRefund s := refund (cur s);
  GetCommittedState s a k := default 0 (storage (default (cur s) (head (revs s))) !! (a, k));
  GetState s a k := default 0 (storage (cur s) !! (a, k));
  SetState a k v := on_cur (upd_storage a k v);
  Suicide a s := (toy_exist s a, on_cur (upd_dead a) s);
  HasSuicided s a := bool_decide (a ∈ dead (cur s));
  Exist := toy_exist;
  Empty s a := (toy_nonce s a =? 0) && (toy_balance s a =? 0) && (zlen (toy_code s a) =? 0);
  AddressInAccessList s a := bool_decide (a ∈ warm (cur s));
  SlotInAccessList s a k :=
    (bool_decide (a ∈ warm (cur s)), bool_decide ((a, k) ∈ warm_slots (cur s)));
  AddAddressToAccessList a := on_cur (upd_warm a ∅);
  AddSlotToAccessList a k := on_cur (upd_warm a {[(a, k)]});
  RevertToSnapshot id s :=
    if (0 <=? id) then
      c ← revs s !! Z.to_nat id; Some {| cur := c; revs := take (Z.to_nat id) (revs s) |}
    else None;
  Snapshot s := (zlen (revs s), {| cur := cur s; revs := revs s ++ [cur s] |});
  AddLog l := on_cur (upd_logs l);
  AddPreimage _ _ s := s;
|}.

#[export] Instance map_cache : BitmapCache (gmap Hash bytes) := {|
  cache_Get h c := (c !! h, c);
  cache_Add h b c := <[h := b]> c;
|}.

#[export] Instance map_cache_laws : CacheLaws (C := gmap Hash bytes).
Proof.
  split; simpl; [done|].
  intros k h b c b' [[-> ->]|[? ?]]%lookup_insert_Some; auto.
Qed.

(** The rules of a chain with every fork active, and of one without Berlin. *)
Definition toy_rules (berlin : bool) : Rules := {|
  rChainID := 56; rIsHomestead := true; rIsEIP150 := true; rIsEIP155 := true; rIsEIP158 := true;
  rIsByzantium := true; rIsConstantinople := true; rIsPetersburg := true;
  rIsIstanbul := true; rIsBerlin := berlin; rIsCatalyst := false |}.

(** The identity precompile at address 4, priced by word. *)
Definition toy_identity_gas (i : bytes) : Z := Z.min (2 ^ 63) ((zlen i + 31) / 32 * 3 + 15).

Definition toy_env (berlin : bool) : env simple_db := {|
  chainRules := toy_rules berlin;
  chainID := 56;
  CanTransfer := core_CanTransfer;
  Transfer := core_Transfer;
  GetHash n := n;
  Coinbase := 0xC0; GasLimit := 30000000; BlockNumber := 1000; Time := 1600000000;
  Difficulty := 2; Origin := 0x0A; GasPrice := 5; NoRecursion := false;
  EnablePreimageRecording := false;
  Keccak256Hash := toy_hash;
  CreateAddress a n := 0x1000 + a + n;
  CreateAddress2 a _ _ := 0x2000 + a;
  precompile a :=
    if a =? 4 then Some {| RequiredGas := toy_identity_gas;
                           Run_precompiled i := (take (Z.to_nat 1024) i, None) |}
    else None;
|}.

Lemma toy_hash_inj b c : toy_hash b = toy_hash c → b = c.
Proof. unfold toy_hash. intros [= H]. by apply (inj encode) in H. Qed.

Lemma toy_env_ok berlin : env_ok (toy_env berlin).
Proof.
  split; simpl.
  - intros s a. unfold toy_code, zlen. rewrite length_take. unfold MaxCodeSize. lia.
  - intros a p i. case_if; [|done]. intros [= <-]. simpl. unfold toy_identity_gas, is_u64.
    pose proof (zlen_nonneg i). pose proof (Z.div_pos (zlen i + 31) 32). lia.
  - intros a p i. case_if; [|done]. intros [= <-]. simpl. unfold zlen. rewrite length_take. lia.
  - intros s a. by destruct (toy_exist s a).
  - intros c1 c2 H. by rewrite (toy_hash_inj _ _ H).
Qed.

(** Operations leave the stack of revisions alone; a balanced sequence grows it. *)
Lemma dbop_revs berlin ro s s' : dbop (toy_env berlin) ro s s' → revs s' = revs s.
Proof.
  intros [| | | | | | | | | | | | | | |g s2 Hro H]; try done. simpl in H.
  destruct (refund (cur s) <? g); [done|]. by injection H as <-.
Qed.

Lemma dbsteps_revs berlin ro s s' :
  dbsteps (toy_env berlin) ro s s' → revs s `prefix_of` revs s'.
Proof.
  induction 1 as [|s s1 s2 _ IH Hop|s s1 id s2 _ IH Hs|s s1 id s2 s3 s4 _ IH1 Hs _ IH2 Hr].
  - done.
  - by rewrite (dbop_revs _ _ _ _ Hop).
  - injection Hs as <- <-. simpl. by apply prefix_app_r.
  - injection Hs as <- <-. simpl in *. destruct IH2 as [k Hk].
    rewrite (proj2 (Z.leb_le 0 _)) in Hr by apply zlen_nonneg.
    unfold zlen in Hr. rewrite Nat2Z.id, Hk in Hr.
    rewrite <- app_assoc in Hr. cbn [app] in Hr.
    rewrite list_lookup_middle in Hr by done. simpl in Hr.
    injection Hr as <-. simpl. by rewrite take_app_length.
Qed.

#[export] Instance toy_revert berlin : RevertLaws (toy_env berlin).
Proof.
  refine {| same_state := λ s s', cur s = cur s' |}.
  - done.
  - intros s id s1 s2 [= <- <-] H. apply dbsteps_revs in H as [k Hk]. simpl in *.
    rewrite (proj2 (Z.leb_le 0 _)) by apply zlen_nonneg.
    unfold zlen. rewrite Nat2Z.id, Hk, <- app_assoc. cbn [app].
    rewrite list_lookup_middle by done. simpl. by eexists.
Defined.

(** ** Machines to run *)

Definition toy_state (l : list (Address * bytes)) : simple_db := {|
  cur := fold_left (λ c '(a, b), upd_code a b c) l (upd_balance 0x0A (λ _, 1000) empty_core);
  revs := [] |}.

Definition toy_evm (l : list (Address * bytes)) : evm simple_db (gmap Hash bytes) := {|
  sdb := toy_state l; depth := 0; callGasTemp := 0; readOnly := false; returnData := [];
  jumpdests := ∅; bitmapCache := ∅ |}.

Lemma toy_vm_ok berlin l : vm_ok (toy_env berlin) (toy_evm l).
Proof. split; [by vm_compute|intros h a H; simpl in H; by rewrite lookup_empty in H..]. Qed.

Abbreviation toy_calls f berlin :=
  (calls (C := gmap Hash bytes) (toy_env berlin) (instructionSet f) (λ _ _, false)
    (Z.to_nat 1025)).
