(* ===== verification/VmProps.v ===== *)
(** * Properties of the EVM

    The theorems about [core/vm], each with an instance on the concrete machine of
    [VmModel]. *)

From S2P Require Import Prelude Uint256 Params VmData VmAnalysis VmState VmGas VmInstr.
From S2P Require Import VmJumpTable VmInterpreter VmEvm VmSpec VmFrame VmExec VmGasOk VmTables.
From S2P Require Import VmSafety VmModel.

(** ** Programs used by the instances *)

(** [PUSH1 2, PUSH1 3, ADD, PUSH1 0, MSTORE, PUSH1 32, PUSH1 0, RETURN] *)
Definition adder : bytes := [0x60; 2; 0x60; 3; 1; 0x60; 0; 0x52; 0x60; 0x20; 0x60; 0; 0xf3].
(** [PUSH1 1, PUSH1 0, SSTORE] *)
Definition writer : bytes := [0x60; 1; 0x60; 0; 0x55].
(** [JUMPDEST, PUSH1 0, JUMP] *)
Definition looper : bytes := [0x5b; 0x60; 0; 0x56].

Section evm_theorems.
Context `{UL : Uint256Laws} {S C : Type} {SDB : StateDB S} {BC : BitmapCache C}.
Context {CL : CacheLaws (C := C)}.

(** C1 Whatever the code, the input and the other goroutine's abort flag: a call made
    on a well-formed machine returns (no fuel runs out, no stack, memory, slice,
    bitmap, nil or revision panic), gives back at most the gas it was given, restores
    the depth and the read-only flag, leaves the machine well formed and changes the
    world only by balanced sequences of operations allowed in its mode. *)
Theorem Call_returns (E : env S) (RL : RevertLaws E) (f : fork)
    (abort : Z → mstate S C → bool) (n : nat) (e : evm S C)
    caller addr input gas value :
  env_ok E → (f = Berlin → rIsEIP150 (chainRules E) = true) →
  vm_ok E e → 1025 <= Z.of_nat n + depth e → is_u64 gas → zlen input < 2 ^ 63 →
  (is_ro E e = true → value = 0) →
  match Call (calls E (instructionSet f) abort n) caller addr input gas value e with
  | Ret (out, leftOverGas, err) e' =>
      0 <= leftOverGas <= gas ∧ depth e' = depth e ∧ readOnly e' = readOnly e ∧
      vm_ok E e' ∧ dbsteps E (is_ro E e) (sdb e) (sdb e')
  | Panic p => p = PStateDB ∨ p = PExplicit
  | Fail _ _ => False
  | NoFuel => False
  end.
Proof.
  intros EOK Hf Hv Hn Hg Hi Hro.
  pose proof (Call_ok E (CallsOk := calls_ok E EOK _ (instructionSet_ok E EOK f Hf) abort n _ Hn)
                e caller addr input gas value eq_refl Hv Hg Hi Hro) as H.
  unfold wp in H. destruct (Call _ _ _ _ _ _ _) as [[[out left] err] e'| | |]; try done.
  destruct H as (_ & ? & [? ? ? ?]). done.
Qed.

(** C25 The six entry points, tied to the interpreter, implement the interface
    [CallsOk] the instructions are verified against. *)
Theorem entry_points_implement (E : env S) (RL : RevertLaws E) (f : fork)
    (abort : Z → mstate S C → bool) (n : nat) (d : Z) :
  env_ok E → (f = Berlin → rIsEIP150 (chainRules E) = true) → 1025 <= Z.of_nat n + d →
  CallsOk E d (calls E (instructionSet f) abort n).
Proof. intros EOK Hf Hn. exact (calls_ok E EOK _ (instructionSet_ok E EOK f Hf) abort n d Hn). Qed.

(** C2 When a call returns an error the world state is the one before the call; the
    gas is all gone, unless the callee executed REVERT, or the call was refused for
    its depth or the caller's balance before anything happened. *)
Theorem failed_call_reverts (E : env S) (RL : RevertLaws E) (f : fork)
    (abort : Z → mstate S C → bool) (n : nat) (e : evm S C)
    caller addr input gas value out leftOverGas err e' :
  env_ok E → (f = Berlin → rIsEIP150 (chainRules E) = true) →
  vm_ok E e → 1025 <= Z.of_nat n + depth e → is_u64 gas → zlen input < 2 ^ 63 →
  (is_ro E e = true → value = 0) →
  Call (calls E (instructionSet f) abort n) caller addr input gas value e =
    Ret (out, leftOverGas, Some err) e' →
  same_state E (sdb e) (sdb e') ∧
  (err = ErrExecutionReverted ∨ leftOverGas = 0 ∨
   leftOverGas = gas ∧ sdb e' = sdb e ∧ (err = ErrDepth ∨ err = ErrInsufficientBalance)).
Proof.
  intros EOK Hf Hv Hn Hg Hi Hro HC.
  pose proof (evm_Call_ok E EOK (depth e) _
    (run_at_ok E EOK _ (instructionSet_ok E EOK f Hf) abort n _ Hn)
    e caller addr input gas value eq_refl Hv Hg Hi Hro) as H.
  rewrite calls_unfold in HC. apply (wp_Ret _ _ _ _ _ _ _ H) in HC. apply HC.
Qed.

(** C23 A static call under Byzantium rules takes only read-only steps: it changes no
    storage, code, nonce, balance, log or refund, at any depth below it. *)
Theorem StaticCall_reads_only (E : env S) (RL : RevertLaws E) (f : fork)
    (abort : Z → mstate S C → bool) (n : nat) (e : evm S C)
    caller addr input gas r e' :
  env_ok E → (f = Berlin → rIsEIP150 (chainRules E) = true) →
  vm_ok E e → 1025 <= Z.of_nat n + depth e → is_u64 gas → zlen input < 2 ^ 63 →
  rIsByzantium (chainRules E) = true →
  StaticCall (calls E (instructionSet f) abort n) caller addr input gas e = Ret r e' →
  dbsteps E true (sdb e) (sdb e').
Proof.
  intros EOK Hf Hv Hn Hg Hi Hby HC.
  pose proof (evm_StaticCall_ro E EOK (depth e) _
    (run_at_ok E EOK _ (instructionSet_ok E EOK f Hf) abort n _ Hn)
    e caller addr input gas eq_refl Hv Hg Hi) as H.
  rewrite calls_unfold in HC. apply (wp_Ret _ _ _ _ _ _ _ H) in HC. by rewrite Hby in HC.
Qed.

(** C26 One iteration of the interpreter on a well-formed frame: it goes on only with
    a frame that is still well formed (at most 1024 stack items, memory in whole words,
    all paid for) and strictly less gas; otherwise the frame ends with no more gas than
    it had. *)
Theorem step_burns_gas (E : env S) (f : fork) (K : evm_calls S C) (e0 : evm S C)
    (s : mstate S C) :
  env_ok E → (f = Berlin → rIsEIP150 (chainRules E) = true) →
  CallsOk E (depth e0) K → frame_ok E e0 s →
  match step E (instructionSet f) K s with
  | Ret None s' => frame_ok E e0 s' ∧ Gas (contract s') < Gas (contract s)
  | Ret (Some _) s' => 0 <= Gas (contract s') <= Gas (contract s) ∧ evm_rel E e0 (vm s')
  | Fail _ s' => 0 <= Gas (contract s') <= Gas (contract s) ∧ evm_rel E e0 (vm s')
  | Panic p => ok_panic p
  | NoFuel => False
  end.
Proof.
  intros EOK Hf HK Hs.
  pose proof (wp_step_ok E _ (instructionSet_ok E EOK f Hf) K e0 s HK Hs) as H.
  unfold wp in H. destruct (step _ _ _ _) as [[[out err]|] s'|er s'| |]; try done.
  - by destruct H as [[? ?] _].
  - by destruct H.
Qed.

(** C28 Each entry of each fork's jump table is consistent with the function it names:
    the stack bounds, the memory size and the gas it declares are enough for the
    instruction to run without touching anything it should not. *)
Theorem jump_tables_well_formed (E : env S) (f : fork) op o :
  env_ok E → (f = Berlin → rIsEIP150 (chainRules E) = true) →
  instructionSet (C := C) f !! op = Some o → op_ok E op o.
Proof. intros EOK Hf Ho. exact (instructionSet_ok E EOK f Hf op o Ho). Qed.

(** C30 A jump is taken exactly to an in-range [JUMPDEST] that is not push data of the
    running code, whatever the analysis, the shared map and the process-wide cache
    hold. *)
Theorem validJumpdest_correct (E : env S) (e0 : evm S C) (s : mstate S C) (dest : Int) :
  env_ok E → frame_ok E e0 s →
  ∃ s', validJumpdest dest s = Ret (valid_dest (Code (contract s)) (ival dest)) s' ∧
        frame_ok E e0 s' ∧ stack s' = stack s ∧ Gas (contract s') = Gas (contract s).
Proof.
  intros EOK Hf.
  pose proof (wp_validJumpdest E EOK e0 s dest
    (λ b s', b = valid_dest (Code (contract s)) (ival dest) ∧ frame_ok E e0 s' ∧
             stack s' = stack s ∧ Gas (contract s') = Gas (contract s))
    (λ _ _, False) (λ _, False) Hf) as H.
  specialize (H (λ s' h1 h2 h3 _, conj eq_refl (conj h1 (conj h2 h3)))). unfold wp in H.
  destruct (validJumpdest dest s) as [b s'| | |]; try done. destruct H as (-> & ?). by eexists.
Qed.

(** C33 Memory growth is charged exactly: the fee is the difference of the quadratic
    fee [3w + w*w/512] between the new and the old number of words, and a request past
    0x1FFFFFFFE0 bytes is refused. *)
Theorem memoryGasCost_exact (E : env S) (e0 : evm S C) (s : mstate S C) (size : Z) :
  frame_ok E e0 s → 0 <= size < 2 ^ 64 → size mod 32 = 0 →
  match memoryGasCost size s with
  | Ret fee s' =>
      size <= maxMemory ∧ stack s' = stack s ∧ contract s' = contract s ∧
      fee = mem_fee (Z.max (Len (mem s)) size / 32) - mem_fee (Len (mem s) / 32) ∧
      lastGasCost (mem s') = mem_fee (Z.max (Len (mem s)) size / 32)
  | Fail err s' => err = ErrGasUintOverflow ∧ s' = s ∧ maxMemory < size
  | Panic _ => False
  | NoFuel => False
  end.
Proof.
  intros Hf Hs Hm.
  pose proof (wp_memoryGasCost E (QP := λ _, False) (QE := λ er s', er = ErrGasUintOverflow ∧ s' = s)
    e0 size (λ fee s', gas_frame E e0 size s s' ∧
      fee = mem_fee (Z.max (Len (mem s)) size / 32) - mem_fee (Len (mem s) / 32))
    s Hf Hs Hm (λ _ _ _ h _ h', conj h h') (conj eq_refl eq_refl)) as H.
  unfold wp in H.
  assert (Hbig : (∃ er s', memoryGasCost size s = Fail er s') ↔ maxMemory < size).
  { unfold memoryGasCost, maxMemory. destruct (Z.eqb_spec size 0);
      [split; [intros (?&?&?)|]; [done|lia]|].
    destruct (Z.ltb_spec 0x1FFFFFFFE0 size); [by split; eauto|].
    case_if; (split; [intros (?&?&?); done|lia]). }
  destruct (memoryGasCost size s) as [fee s'|er s'| |]; try done.
  - destruct H as [[] ->]. split_and!; try done.
    + destruct (Z.le_gt_cases size maxMemory); [done|]. exfalso.
      by destruct (proj2 Hbig) as (? & ? & ?); [lia|].
    + apply gf_mem.
  - destruct H as [-> ->]. split_and!; [done..|]. apply Hbig. by eauto.
Qed.
End evm_theorems.

(** ** Instances *)

Lemma toy_fuel e : depth (S := simple_db) (C := gmap Hash bytes) e = 0 →
  1025 <= Z.of_nat (Z.to_nat 1025) + depth e.
Proof. intros ->. vm_compute. congruence. Qed.

Lemma toy_is_u64 g : 0 <= g < 2 ^ 32 → is_u64 g.
Proof. unfold is_u64. lia. Qed.

(** A frame about to run [code]. *)
Definition toy_frame (code : bytes) (gas : Z) : mstate simple_db (gmap Hash bytes) := {|
  pc := 0; stack := []; mem := NewMemory;
  contract := SetCallCode (NewContract (AccountRef 0x0A) (AccountRef 0xAA) 0 gas) 0xAA 0 code;
  vm := toy_evm [] |}.

Lemma toy_frame_ok berlin code gas :
  0 <= gas < 2 ^ 32 → zlen code < 2 ^ 63 → frame_ok (toy_env berlin) (toy_evm []) (toy_frame code gas).
Proof.
  intros Hg Hc. split; simpl; [by vm_compute|by vm_compute| | |apply evm_rel_refl, toy_vm_ok].
  - exists 0. split; [done|]. split_and!; [by exists 0|vm_compute; congruence..|done].
  - split; simpl; try done. by apply toy_is_u64.
Qed.

Lemma Call_returns_witness :
  match Call (toy_calls Istanbul false) (AccountRef 0x0A) 0xAA [] 100000 7
          (toy_evm [(0xAA, adder)]) with
  | Ret (out, leftOverGas, err) e' =>
      0 <= leftOverGas <= 100000 ∧ depth e' = depth (toy_evm [(0xAA, adder)]) ∧
      readOnly e' = readOnly (toy_evm [(0xAA, adder)]) ∧ vm_ok (toy_env false) e' ∧
      dbsteps (toy_env false) (is_ro (toy_env false) (toy_evm [(0xAA, adder)]))
        (sdb (toy_evm [(0xAA, adder)])) (sdb e')
  | Panic p => p = PStateDB ∨ p = PExplicit
  | Fail _ _ => False
  | NoFuel => False
  end.
Proof.
  exact (Call_returns (toy_env false) (toy_revert false) Istanbul (λ _ _, false)
           (Z.to_nat 1025) (toy_evm [(0xAA, adder)]) (AccountRef 0x0A) 0xAA [] 100000 7
           (toy_env_ok false) ltac:(discriminate) (toy_vm_ok false _) (toy_fuel (toy_evm _) eq_refl)
           (toy_is_u64 100000 ltac:(lia)) ltac:(by vm_compute) ltac:(discriminate)).
Defined.

Lemma entry_points_implement_witness :
  CallsOk (C := gmap Hash bytes) (toy_env true) 0
    (calls (toy_env true) (instructionSet Berlin) (λ _ _, false) (Z.to_nat 1025)).
Proof.
  apply (entry_points_implement (toy_env true) (toy_revert true) Berlin).
  - apply toy_env_ok.
  - done.
  - vm_compute. congruence.
Defined.

Lemma failed_call_reverts_witness :
  ∃ e', Call (toy_calls Istanbul false) (AccountRef 0x0A) 0xAA [] 500 7
          (toy_evm [(0xAA, looper)]) = Ret ([], 0, Some ErrOutOfGas) e' ∧
        cur (toy_state [(0xAA, looper)]) = cur (sdb e').
Proof.
  eexists. split; [vm_compute; reflexivity|].
  refine (proj1 (failed_call_reverts (toy_env false) (toy_revert false) Istanbul (λ _ _, false)
           (Z.to_nat 1025) (toy_evm [(0xAA, looper)]) (AccountRef 0x0A) 0xAA [] 500 7
           [] 0 ErrOutOfGas _
           (toy_env_ok false) ltac:(discriminate) (toy_vm_ok false _) (toy_fuel (toy_evm _) eq_refl)
           (toy_is_u64 500 ltac:(lia)) ltac:(by vm_compute) ltac:(discriminate) _)).
  vm_compute. reflexivity.
Defined.

Lemma StaticCall_reads_only_witness :
  ∃ e', StaticCall (toy_calls Istanbul false) (AccountRef 0x0A) 0xAA [] 5000
          (toy_evm [(0xAA, writer)]) = Ret ([], 0, Some ErrWriteProtection) e' ∧
        dbsteps (toy_env false) true (toy_state [(0xAA, writer)]) (sdb e').
Proof.
  eexists. split; [vm_compute; reflexivity|].
  refine (StaticCall_reads_only (toy_env false) (toy_revert false) Istanbul (λ _ _, false)
           (Z.to_nat 1025) (toy_evm [(0xAA, writer)]) (AccountRef 0x0A) 0xAA [] 5000
           ([], 0, Some ErrWriteProtection) _
           (toy_env_ok false) ltac:(discriminate) (toy_vm_ok false _) (toy_fuel (toy_evm _) eq_refl)
           (toy_is_u64 5000 ltac:(lia)) ltac:(by vm_compute) eq_refl _).
  vm_compute. reflexivity.
Defined.

(** The iteration goes on. *)
Definition is_next {E S A} (r : outcome E S (option A)) : bool :=
  match r with Ret None _ => true | _ => false end.

Lemma step_burns_gas_witness :
  ∃ s', step (toy_env true) (instructionSet Berlin) (toy_calls Berlin true)
          (toy_frame adder 100) = Ret None s' ∧
        frame_ok (toy_env true) (toy_evm []) s' ∧ Gas (contract s') < 100.
Proof.
  pose proof (step_burns_gas (toy_env true) Berlin (toy_calls Berlin true) (toy_evm [])
    (toy_frame adder 100) (toy_env_ok true) (λ _, eq_refl)
    (calls_ok (toy_env true) (toy_env_ok true) _
       (instructionSet_ok _ (toy_env_ok true) Berlin (λ _, eq_refl)) (λ _ _, false)
       (Z.to_nat 1025) 0 ltac:(vm_compute; congruence))
    (toy_frame_ok true adder 100 ltac:(lia) ltac:(by vm_compute))) as H.
  assert (Hs : is_next (step (toy_env true) (instructionSet Berlin) (toy_calls Berlin true)
                          (toy_frame adder 100)) = true) by (vm_compute; reflexivity).
  destruct (step _ _ _ _) as [[v|] s'| | |]; try discriminate Hs. by exists s'.
Defined.

Lemma jump_tables_well_formed_witness :
  match instructionSet (C := gmap Hash bytes) Berlin !! CALL with
  | Some o => op_ok (toy_env true) CALL o
  | None => False
  end.
Proof.
  assert (Hs : (match instructionSet (C := gmap Hash bytes) Berlin !! CALL with Some _ => true | None => false end)
               = true)
    by (vm_compute; reflexivity).
  destruct (instructionSet Berlin !! CALL) as [o|] eqn:Ho; [|discriminate Hs].
  exact (jump_tables_well_formed (toy_env true) Berlin CALL o (toy_env_ok true) (λ _, eq_refl) Ho).
Defined.

Lemma validJumpdest_correct_witness :
  ∃ s', validJumpdest (C := gmap Hash bytes) 0 (toy_frame looper 100) = Ret true s' ∧
        frame_ok (toy_env true) (toy_evm []) s'.
Proof.
  destruct (validJumpdest_correct (toy_env true) (toy_evm []) (toy_frame looper 100) 0
    (toy_env_ok true) (toy_frame_ok true looper 100 ltac:(lia) ltac:(by vm_compute)))
    as (s' & H & ? & _).
  assert (Hv : valid_dest (Code (contract (toy_frame looper 100))) (ival 0) = true)
    by (vm_compute; reflexivity).
  exists s'. split; [|done]. by rewrite <- Hv.
Defined.

Lemma memoryGasCost_exact_witness :
  match memoryGasCost 1024 (toy_frame adder 100) with
  | Ret fee s' => fee = mem_fee 32 - mem_fee 0 ∧ lastGasCost (mem s') = mem_fee 32
  | _ => False
  end.
Proof.
  pose proof (memoryGasCost_exact (toy_env true) (toy_evm []) (toy_frame adder 100) 1024
    (toy_frame_ok true adder 100 ltac:(lia) ltac:(by vm_compute)) ltac:(lia) eq_refl) as H.
  assert (Hs : (match memoryGasCost 1024 (toy_frame adder 100) with Ret _ _ => true | _ => false end)
               = true) by (vm_compute; reflexivity).
  destruct (memoryGasCost 1024 (toy_frame adder 100)) as [fee s'| | |]; try discriminate Hs.
  destruct H as (_ & _ & _ & -> & ->). by vm_compute.
Defined.
