(* ===== verification/VmFacts.v ===== *)
(** * Functional facts about the parts of the EVM

    Jump-destination analysis, the 63/64 rule, shifts, [getData], opcode names and
    the construction of an interpreter's jump table. *)

From S2P Require Import Prelude Uint256 Params VmData VmAnalysis VmState VmGas VmInstr.
From S2P Require Import VmJumpTable VmInterpreter VmEvm VmSpec VmFrame VmGasOk VmModel.

(** C29 The bitmap computed in 16-byte strides marks exactly the bytes that the
    byte-by-byte reading of the code takes as push data, for every code. *)
Theorem codeBitmap_correct (code : bytes) :
  ∃ bits, codeBitmap code = Some bits ∧
    ∀ pos, 0 <= pos < zlen code → codeSegment bits pos = Some (is_opcode code pos).
Proof. apply codeBitmap_spec. Qed.

(** ** Input slicing *)

Lemma getData_contents (d : bytes) start size :
  zlen d < 2 ^ 63 → 0 <= start → 0 <= size <= 2 ^ 62 →
  getData d start size =
    Some (take (Z.to_nat size) (drop (Z.to_nat start) d) ++
          zeros (size - zlen (take (Z.to_nat size) (drop (Z.to_nat start) d)))).
Proof.
  intros Hd Hs Hz. pose proof (zlen_nonneg d). unfold getData.
  set (st := if zlen d <? start then _ else _).
  assert (Hst : st = Z.min start (zlen d)) by (subst st; case_if; zbool; lia).
  rewrite add64_small by (unfold is_u64; lia).
  set (sp := if zlen d <? st + size then _ else _).
  assert (Hsp : sp = Z.min (st + size) (zlen d)) by (subst sp; case_if; zbool; lia).
  unfold slice. rewrite (proj2 (Z.leb_le 0 st)), (proj2 (Z.leb_le st sp)),
    (proj2 (Z.leb_le sp (zlen d))) by lia. cbn [andb mbind option_bind].
  assert (Ht : take (Z.to_nat (sp - st)) (drop (Z.to_nat st) d) =
               take (Z.to_nat size) (drop (Z.to_nat start) d)).
  { unfold zlen in *. destruct (Z.le_gt_cases start (Z.of_nat (length d))).
    - replace st with start by lia.
      destruct (Z.le_gt_cases (start + size) (Z.of_nat (length d))).
      + replace (sp - start) with size by lia. done.
      + rewrite !take_ge; [done|rewrite length_drop; lia..].
    - rewrite !drop_ge by lia. by rewrite !take_nil. }
  rewrite Ht. unfold RightPadBytes. rewrite s64_small by lia.
  set (r := take _ _). assert (zlen r <= size).
  { subst r. unfold zlen. rewrite length_take. lia. }
  destruct (Z.leb_spec size (zlen r)); [|done].
  replace (size - zlen r) with 0 by lia. by rewrite app_nil_r.
Qed.

(** [getData] returns exactly the requested bytes, zero-padded past the end, as long
    as the size is one that memory can have. *)
Theorem getData_correct (data : bytes) (start size : Z) :
  zlen data < 2 ^ 63 → 0 <= start → 0 <= size <= 2 ^ 62 →
  ∃ r, getData data start size = Some r ∧ zlen r = size ∧
    ∀ i, 0 <= i < size → index r i = Some (default 0 (index data (start + i))).
Proof.
  intros Hd Hs Hz. rewrite getData_contents by done. eexists. split; [done|].
  set (t := take _ _).
  assert (Ht : zlen t <= size) by (subst t; unfold zlen; rewrite length_take; lia).
  split; [rewrite zlen_app, zlen_zeros; lia|]. intros i Hi. unfold index.
  rewrite (proj2 (Z.leb_le 0 i)), (proj2 (Z.leb_le 0 (start + i))) by lia.
  replace (Z.to_nat (start + i)) with (Z.to_nat start + Z.to_nat i)%nat by lia.
  destruct (Z.lt_ge_cases i (zlen t)) as [Hlt|Hge].
  - rewrite lookup_app_l by (unfold zlen in *; lia). subst t.
    rewrite lookup_take_lt, lookup_drop by lia.
    destruct (lookup_lt_is_Some_2 data (Z.to_nat start + Z.to_nat i)) as [x ->]; [|done].
    unfold zlen in Hlt. rewrite length_take, length_drop in Hlt. lia.
  - rewrite lookup_app_r by (unfold zlen in *; lia). unfold zeros, zlen in *.
    rewrite lookup_replicate_2 by lia.
    rewrite (lookup_ge_None_2 data); [done|].
    subst t. rewrite length_take, length_drop in Hge. lia.
Qed.

Lemma getData_correct_witness :
  ∃ r, getData [7; 8; 9] 2 4 = Some r ∧ zlen r = 4 ∧
    ∀ i, 0 <= i < 4 → index r i = Some (default 0 (index [7; 8; 9] (2 + i))).
Proof. apply (getData_correct [7; 8; 9] 2 4); vm_compute; try split; congruence. Defined.

(** The end offset wraps around: with a size that overflows it, [getData] is a
    slice-bounds panic, although it is documented as overflow safe. *)
Theorem getData_overflow_panics (data : bytes) (start size : Z) :
  0 <= start → is_u64 size → zlen data < 2 ^ 63 → 2 ^ 64 <= Z.min start (zlen data) + size →
  getData data start size = None.
Proof.
  intros Hs Hz Hd Hov. pose proof (zlen_nonneg data). unfold getData, is_u64 in *.
  set (st := if zlen data <? start then _ else _).
  assert (Hst : st = Z.min start (zlen data)) by (subst st; case_if; zbool; lia).
  assert (Ha : add64 st size = st + size - 2 ^ 64).
  { unfold add64, u64. replace (st + size) with ((st + size - 2 ^ 64) + 1 * 2 ^ 64) at 1 by lia.
    rewrite Z.mod_add, Z.mod_small; lia. }
  rewrite Ha. unfold slice.
  destruct (Z.ltb_spec (zlen data) (st + size - 2 ^ 64)); [lia|].
  by rewrite (proj2 (Z.leb_gt st (st + size - 2 ^ 64))), andb_false_r by lia.
Qed.

Lemma getData_overflow_panics_witness : getData [5] 1 MaxUint64 = None.
Proof.
  apply (getData_overflow_panics [5] 1 MaxUint64);
    vm_compute; try split; congruence.
Defined.

(** ** Opcode names *)

(** [StringToOp] inverts [OpCode.String] on every named opcode, except the pseudo
    opcodes PUSH, DUP and SWAP, whose names are not in the reverse table and read as
    STOP. *)
Theorem opcode_names_round_trip (op : Z) (name : string) :
  OpCode_String op = Some name →
  StringToOp name = op ∨ (op ∈ [PUSH; DUP; SWAP] ∧ StringToOp name = STOP).
Proof.
  assert (Hall : forallb (λ p, (StringToOp p.2 =? p.1) ||
    (bool_decide (p.1 ∈ [PUSH; DUP; SWAP]) && (StringToOp p.2 =? STOP))) opCodeToString = true)
    by (vm_compute; reflexivity).
  unfold OpCode_String. revert Hall. generalize opCodeToString. intros l.
  induction l as [|[k v] l IH]; [done|]. cbn [forallb assoc fst snd].
  intros [Hkv Hl]%andb_true_iff. destruct (decide (k = op)) as [Hk|Hk]; [|by apply IH].
  intros [= <-]. subst k. apply orb_true_iff in Hkv as [H|H]; zbool; [by left|right].
  split; [by eapply bool_decide_eq_true|done].
Qed.

Lemma opcode_names_round_trip_witness :
  OpCode_String ADD = Some "ADD"%string ∧
  (StringToOp "ADD" = ADD ∨ (ADD ∈ [PUSH; DUP; SWAP] ∧ StringToOp "ADD" = STOP)).
Proof.
  split; [vm_compute; reflexivity|].
  apply (opcode_names_round_trip ADD "ADD"). vm_compute. reflexivity.
Defined.

Section facts.
Context `{UL : Uint256Laws}.

(** The 63/64 rule: under EIP-150 a call that can pay its base cost passes on what
    it asks for, and never more than all but one 64th of what remains. *)
Theorem callGas_all_but_one_64th (availableGas base : Z) (callCost : Int) :
  0 <= base <= availableGas → is_u64 availableGas →
  callGas true availableGas base callCost =
    inl (Z.min (ival callCost) ((availableGas - base) - (availableGas - base) / 64)).
Proof.
  intros Hb Ha. unfold callGas, is_u64 in *. cbn [andb].
  rewrite (sub64_small availableGas base) by (unfold is_u64; lia).
  set (a := availableGas - base).
  assert (0 <= a / 64 <= a)
    by (split; [apply Z.div_pos; lia|apply Z.div_le_upper_bound; lia]).
  rewrite (sub64_small a (a / 64)) by (unfold is_u64; lia).
  pose proof (ival_range callCost). destruct (IsUint64 callCost) eqn:Hu; cbn [negb orb].
  - rewrite (IsUint64_true _ Hu). destruct (Z.ltb_spec (a - a / 64) (ival callCost));
      f_equal; lia.
  - rewrite IsUint64_spec in Hu. zbool. f_equal. lia.
Qed.

Context {S C : Type} {SDB : StateDB S} {BC : BitmapCache C}.

Lemma binop_run (f : Int → Int → Int) (s : mstate S C) x y st :
  stack s = x :: y :: st → binop f s = Ret [] (set_stack s (f x y :: st)).
Proof.
  intros Hs. unfold binop, bind, pop', peek', set_peek', nil_result, ret. rewrite Hs. done.
Qed.

Lemma shiftr_large z n : - 2 ^ 255 <= z < 2 ^ 255 → 255 <= n →
  Z.shiftr z n = if 0 <=? z then 0 else -1.
Proof.
  intros Hz Hn. rewrite Z.shiftr_div_pow2 by lia.
  assert (2 ^ 255 <= 2 ^ n) by (apply Z.pow_le_mono_r; lia).
  destruct (Z.leb_spec 0 z); [apply Z.div_small; lia|].
  symmetry. apply (Z.div_unique_pos z (2 ^ n) (-1) (z + 2 ^ n)); lia.
Qed.

(** SHL, SHR and SAR compute the shift by the full 256-bit amount, also where the
    code switches to a constant: [y * 2^x mod 2^256], [y / 2^x] and the floor of the
    signed value of [y] over [2^x]. *)
Theorem shifts_correct (s : mstate S C) (x y : Int) (st : list Int) :
  stack s = x :: y :: st →
  ∃ l r a, opSHL s = Ret [] (set_stack s (l :: st)) ∧ opSHR s = Ret [] (set_stack s (r :: st)) ∧
    opSAR s = Ret [] (set_stack s (a :: st)) ∧
    ival l = Z.shiftl (ival y) (ival x) mod W256 ∧ ival r = Z.shiftr (ival y) (ival x) ∧
    ival a = Z.shiftr (sval (ival y)) (ival x) mod W256.
Proof.
  intros Hs. unfold opSHL, opSHR, opSAR. eexists _, _, _.
  split; [by apply binop_run|]. split; [by apply binop_run|]. split; [by apply binop_run|].
  pose proof (ival_range x) as Hx. pose proof (ival_range y) as Hy. unfold W256 in *.
  assert (Hu : ival x < 2 ^ 64 → Uint64 x = ival x)
    by (intros; rewrite Uint64_spec; apply Z.mod_small; lia).
  rewrite LtUint64_spec, GtUint64_spec. split_and!.
  - destruct (Z.ltb_spec (ival x) 256).
    + rewrite Lsh_spec, Hu by (try apply Uint64_range; lia). done.
    + rewrite IntZero_spec, Z.shiftl_mul_pow2 by lia.
      replace (ival x) with (256 + (ival x - 256)) by lia.
      rewrite Z.pow_add_r, (Z.mul_comm (2 ^ 256)), Z.mul_assoc, Z.mod_mul by lia. done.
  - destruct (Z.ltb_spec (ival x) 256).
    + rewrite Rsh_spec, Hu by (try apply Uint64_range; lia). done.
    + assert (2 ^ 256 <= 2 ^ ival x) by (apply Z.pow_le_mono_r; lia).
      rewrite IntZero_spec, Z.shiftr_div_pow2, Z.div_small by lia. done.
  - assert (Hsv : - 2 ^ 255 <= sval (ival y) < 2 ^ 255) by (unfold sval; case_if; zbool; lia).
    destruct (Z.ltb_spec 256 (ival x)).
    + rewrite shiftr_large, Sign_spec by lia.
      destruct (Z.leb_spec 0 (sval (ival y))) as [H0|H0].
      * rewrite (proj2 (Z.leb_le 0 (Z.sgn _))) by (by apply Z.sgn_nonneg).
        by rewrite IntZero_spec.
      * rewrite Z.sgn_neg by lia. change (0 <=? -1) with false. cbv iota.
        by rewrite IntAllOne_spec.
    + rewrite SRsh_spec, Hu by (try apply Uint64_range; lia). done.
Qed.
End facts.

Lemma callGas_all_but_one_64th_witness :
  callGas true 10000 700 (SetUint64 5000) =
    inl (Z.min (ival (SetUint64 5000)) ((10000 - 700) - (10000 - 700) / 64)).
Proof.
  apply (callGas_all_but_one_64th 10000 700 (SetUint64 5000)); unfold is_u64; lia.
Defined.

(** ** The jump table of a new interpreter *)

Section interpreter_tables.
Context {U : Uint256} {S C : Type} {SDB : StateDB S} {BC : BitmapCache C}.

Implicit Types jt : JumpTable S C.

Lemma lookup_view jt (l : table_copy) op :
  (view jt l : gmap Z (operation S C)) !! op =
  match (l : gmap Z entry) !! op with
  | Some Shared => (jt : gmap Z (operation S C)) !! op
  | Some (Own o) => Some o
  | None => None
  end.
Proof. unfold view. rewrite map_lookup_imap. by destruct (_ !! op) as [[]|]. Qed.

Lemma view_copy jt : view jt (copy_of jt) = jt.
Proof.
  unfold JumpTable. apply (map_eq (M := gmap Z)). intros op. rewrite lookup_view.
  unfold copy_of. rewrite (lookup_fmap (M := gmap Z)).
  by destruct ((jt : gmap Z (operation S C)) !! op).
Qed.

Lemma lookup_patch_alter jt f op k :
  (apply_patch jt (AlterOp op f) : gmap Z (operation S C)) !! k =
  if decide (k = op) then f <$> (jt : gmap Z (operation S C)) !! op
  else (jt : gmap Z (operation S C)) !! k.
Proof.
  case_decide; [subst; apply (lookup_alter_eq (M := gmap Z))|].
  by apply (lookup_alter_ne (M := gmap Z)).
Qed.
Lemma lookup_patch_insert jt o op k :
  (apply_patch jt (InsertOp op o) : gmap Z (operation S C)) !! k =
  if decide (k = op) then Some o else (jt : gmap Z (operation S C)) !! k.
Proof.
  case_decide; [subst; apply (lookup_insert_eq (M := gmap Z))|].
  by apply (lookup_insert_ne (M := gmap Z)).
Qed.

Lemma view_patch jt l p jt' l' :
  patch_copy (jt, l) p = Some (jt', l') → view jt' l' = apply_patch (view jt l) p.
Proof.
  intros Hp. apply (map_eq (M := gmap Z)). intros k. unfold table_copy in *.
  rewrite lookup_view. destruct p as [op f|op o].
  - rewrite lookup_patch_alter, !lookup_view. unfold patch_copy, table_copy in Hp. revert Hp.
    destruct ((l : gmap Z entry) !! op) as [[|o]|] eqn:Hl; [intros [= <- <-]..|done].
    + change (alter f op jt) with (apply_patch jt (AlterOp op f)).
      rewrite lookup_patch_alter. case_decide; [|done]. subst. by rewrite Hl.
    + case_decide; [subst; by rewrite lookup_insert_eq|by rewrite lookup_insert_ne].
  - unfold patch_copy, table_copy in Hp. injection Hp as <- <-. rewrite lookup_patch_insert, lookup_view.
    case_decide; [subst; by rewrite lookup_insert_eq|by rewrite lookup_insert_ne].
Qed.

Lemma view_patches ps : ∀ jt l jt' l',
  patches_copy (jt, l) ps = Some (jt', l') → view jt' l' = apply_patches (view jt l) ps.
Proof.
  induction ps as [|p ps IH]; intros jt l jt' l' Hp; [by injection Hp as <- <-|].
  cbn [patches_copy] in Hp. destruct (patch_copy (jt, l) p) as [[jt1 l1]|] eqn:H1; [|done].
  apply IH in Hp. rewrite Hp. by rewrite (view_patch _ _ _ _ _ H1).
Qed.

(** An interpreter built without extra EIPs uses the table of the fork its rules
    select, and leaves the package's tables as they were. *)
Theorem NewEVMInterpreter_plain (g : globals) (r : Rules) :
  ∃ g' l, NewEVMInterpreter (S := S) (C := C) g r None [] = Some (g', [], l) ∧
    view (g' (select_fork r)) l = g (select_fork r) ∧ ∀ f, g' f = g f.
Proof.
  eexists _, _. split; [done|]. unfold set_global. rewrite decide_True by done.
  split; [apply view_copy|]. intros f. by case_decide; simplify_eq.
Qed.

(** An interpreter built with one extra EIP that the package knows sees the table
    of its fork with exactly that EIP's changes applied. *)
Theorem NewEVMInterpreter_extra_eip (g : globals) (r : Rules) (eip : Z) ps g' eips l :
  assoc eip activators = Some ps →
  NewEVMInterpreter (S := S) (C := C) g r None [eip] = Some (g', eips, l) →
  eips = [eip] ∧ view (g' (select_fork r)) l = apply_patches (g (select_fork r)) ps.
Proof.
  intros Hps Hn. unfold NewEVMInterpreter in Hn. cbn in Hn. unfold EnableEIP in Hn.
  rewrite Hps in Hn.
  destruct (patches_copy _ ps) as [[jt' l']|] eqn:Hp; cbn in Hn; [|done].
  injection Hn as <- <- <-. split; [done|]. unfold set_global. rewrite decide_True by done.
  rewrite (view_patches _ _ _ _ _ Hp). by rewrite view_copy.
Qed.

(** Enabling an EIP for one interpreter changes the package-level table that every
    later interpreter of that fork copies: the array of pointers is copied, the
    operations are not. *)
Theorem extra_eip_pollutes_globals (r : Rules) :
  select_fork r = Istanbul →
  match NewEVMInterpreter (S := S) (C := C) instructionSet r None [2929] with
  | Some (g', _, _) =>
      constantGas <$> (g' Istanbul : gmap Z _) !! SLOAD = Some 0 ∧
      constantGas <$> (instructionSet (S := S) (C := C) Istanbul : gmap Z _) !! SLOAD = Some 800
  | None => False
  end.
Proof. intros Hr. unfold NewEVMInterpreter. rewrite Hr. vm_compute. split; reflexivity. Qed.

(** Two extra EIPs that the package does not know crash the constructor: the loop
    ranges over the slice it shortens. *)
Theorem two_undefined_eips_panic (g : globals) (r : Rules) (a b : Z) :
  ValidEip (S := S) (C := C) a = false → ValidEip (S := S) (C := C) b = false →
  NewEVMInterpreter (S := S) (C := C) g r None [a; b] = None.
Proof.
  unfold ValidEip. rewrite !bool_decide_eq_false, <- !eq_None_not_Some. intros Ha Hb.
  assert (HEa : ∀ st, EnableEIP a st = Some (inr ())) by (intros; unfold EnableEIP; by rewrite Ha).
  assert (HEb : ∀ st, EnableEIP b st = Some (inr ())) by (intros; unfold EnableEIP; by rewrite Hb).
  unfold NewEVMInterpreter. cbn -[EnableEIP remove_at]. rewrite HEa.
  cbn -[EnableEIP remove_at]. change (remove_at [a; b] 2 0) with (Some ([b; b], 1%nat)).
  cbn -[EnableEIP remove_at]. rewrite HEb. reflexivity.
Qed.
End interpreter_tables.

(** ** Instances *)

Definition toy_two (x y : Z) : mstate simple_db (gmap Hash bytes) := {|
  pc := 0; stack := [x; y]; mem := NewMemory;
  contract := NewContract (AccountRef 1) (AccountRef 2) 0 0; vm := toy_evm [] |}.
Definition toy_one (x : Z) : mstate simple_db (gmap Hash bytes) :=
  set_stack (toy_two 0 0) [x].

Lemma shifts_correct_witness :
  ∃ l r a, opSHL (toy_two (SetUint64 8) (SetUint64 5)) = Ret [] (toy_one l) ∧
    opSHR (toy_two (SetUint64 8) (SetUint64 5)) = Ret [] (toy_one r) ∧
    opSAR (toy_two (SetUint64 8) (SetUint64 5)) = Ret [] (toy_one a) ∧
    ival l = Z.shiftl 5 8 mod W256 ∧ ival r = Z.shiftr 5 8 ∧ ival a = Z.shiftr (sval 5) 8 mod W256.
Proof.
  exact (shifts_correct (toy_two (SetUint64 8) (SetUint64 5)) (SetUint64 8) (SetUint64 5) [] eq_refl).
Defined.

Lemma NewEVMInterpreter_extra_eip_witness :
  match NewEVMInterpreter (S := simple_db) (C := gmap Hash bytes) instructionSet
          (toy_rules false) None [2929] with
  | Some (g', eips, l) =>
      eips = [2929] ∧
      view (g' Istanbul) l = apply_patches (instructionSet Istanbul) enable2929
  | None => False
  end.
Proof.
  assert (Hs : (match NewEVMInterpreter (S := simple_db) (C := gmap Hash bytes) instructionSet
      (toy_rules false) None [2929] with Some _ => true | None => false end) = true)
    by (vm_compute; reflexivity).
  destruct (NewEVMInterpreter instructionSet (toy_rules false) None [2929])
    as [[[g' eips] l]|] eqn:Hn; [|discriminate Hs].
  exact (NewEVMInterpreter_extra_eip instructionSet (toy_rules false) 2929 enable2929
           g' eips l eq_refl Hn).
Defined.

Lemma extra_eip_pollutes_globals_witness :
  match NewEVMInterpreter (S := simple_db) (C := gmap Hash bytes) instructionSet
          (toy_rules false) None [2929] with
  | Some (g', _, _) =>
      constantGas <$> (g' Istanbul : gmap Z _) !! SLOAD = Some 0 ∧
      constantGas <$> (instructionSet (S := simple_db) (C := gmap Hash bytes) Istanbul
                        : gmap Z _) !! SLOAD = Some 800
  | None => False
  end.
Proof. exact (extra_eip_pollutes_globals (toy_rules false) eq_refl). Defined.

Lemma two_undefined_eips_panic_witness :
  NewEVMInterpreter (S := simple_db) (C := gmap Hash bytes) instructionSet (toy_rules false)
    None [1; 2] = None.
Proof.
  apply (two_undefined_eips_panic instructionSet (toy_rules false) 1 2); vm_compute; reflexivity.
Defined.
