(* ===== verification/StateData.v ===== *)
(** * The state database: data ([core/state])

    The in-memory layer over the account trie: accounts as they are read and changed
    ([StateObject], state_object.go), the journal of changes (journal.go), the access
    list (access_list.go) and the database object itself ([StateDB], statedb.go).

    What lies below is the class [Backend]: the interfaces [Database] and [Trie] of
    database.go and [Snapshot] of the snapshot package, as functions of a store that does
    not change while a block is executed.  A pointer to a [StateObject] is the object in
    the map of live objects; the journal keeps the one it replaces by value, since nothing
    reaches that one any more.  The trie prefetcher, which only warms caches, and the
    time measurements are left out. *)

From S2P Require Import Prelude Params VmData VmState Rlp RlpStream.

(** ** Below the state database *)

(** [snapshot.Account], the slim form of an account; [nil] slices stand for the empty
    root and code hash. *)
Record SlimAccount := {
  sl_Nonce : Z;
  sl_Balance : Z;
  sl_Root : bytes;
  sl_CodeHash : bytes;
}.

(** An error of the store, by its message. *)
Abbreviation error := string (only parsing).

(** A [nil] result is an empty one.  The trie of the zero root always opens. *)
Class Backend (D T SN : Type) := {
  OpenTrie : D → Hash → T + error;
  OpenStorageTrie : D → Hash → Hash → T + error;
  EmptyStorageTrie : D → Hash → T;
  ContractCode : D → Hash → Hash → bytes + error;
  ContractCodeSize : D → Hash → Hash → Z + error;
  TryGet : T → bytes → bytes + error;
  TryUpdate : T → bytes → bytes → T + error;
  TryDelete : T → bytes → T + error;
  Trie_Hash : T → Hash;
  snap_Account : SN → Hash → option SlimAccount + error;
  snap_Storage : SN → Hash → Hash → bytes + error;
  AccountsCorrected : SN → bool;
}.

(** The errors a [StateDB] or a [StateObject] remembers. *)
Inductive state_error :=
| ReadError (e : error)
| CantCreateStorageTrie (e : error)
| CantLoadCode (h : Hash) (e : error)
| CantLoadCodeSize (h : Hash) (e : error)
| FailedToOpenTrie
| GetObjectError (a : Address) (e : error)
| UpdateObjectError (a : Address) (e : error)
| DeleteObjectError (a : Address) (e : error)
| StorageDecodeError (e : rlp_error).

(** [emptyRoot] of statedb.go, the root hash of the empty trie. *)
Definition emptyRoot : Hash := 0x56e81f171bcc55a6ff8345e692c0f86e5b48e01b996cadc001622fb5e363b421.
(** [ripemd] of journal.go. *)
Definition ripemd : Address := 3.

(** [addr.Bytes()] and [key.Bytes()]. *)
Definition addr_bytes (a : Address) : bytes := be_encode 20 a.
Definition hash_bytes (h : Hash) : bytes := be_encode 32 h.
(** [common.BytesToHash] keeps the last 32 bytes. *)
Definition BytesToHash (b : bytes) : Hash :=
  be_decode (if HashLength <? zlen b then drop (Z.to_nat (zlen b - HashLength)) b else b).

(** ** Accounts *)

(** The code hash is a slice of 32 bytes.  [Account{}] has a nil balance and code hash,
    which [newObject] replaces: [emptyAccount] of [StateObject.v]. *)
Record Account := {
  acc_Nonce : Z;
  acc_Balance : Z;
  acc_Root : Hash;
  acc_CodeHash : Hash;
}.

(** The struct as package rlp encodes and decodes it. *)
Definition account_value (a : Account) : value :=
  VList [VUint (acc_Nonce a); VBigInt (Some (acc_Balance a));
         VByteArray (hash_bytes (acc_Root a)); VBytes (hash_bytes (acc_CodeHash a))].
Definition account_type : rtype := TStruct [TUint 64; TBigInt; TByteArray 32; TByteSlice].
(** [rlp.DecodeBytes(enc, data)]; [None] is an error. *)
Definition decode_account (enc : bytes) : option Account :=
  match DecodeBytes account_type enc with
  | Ret (VList [VUint n; VBigInt (Some b); VByteArray r; VBytes c]) _ =>
      Some {| acc_Nonce := n; acc_Balance := b; acc_Root := be_decode r; acc_CodeHash := BytesToHash c |}
  | _ => None
  end.

Abbreviation Storage := (gmap Hash Hash) (only parsing).

(** What a transaction's log is recorded with. *)
Record TxLog := {
  tl_log : Log;
  tl_TxHash : Hash;
  tl_BlockHash : Hash;
  tl_TxIndex : Z;
  tl_Index : Z;
}.

(** The index is that of the account's slots, -1 for an account without slots. *)
Record AccessList := { al_addresses : gmap Address Z; al_slots : list (gset Hash) }.

Record revision := { rev_id : Z; journalIndex : Z }.

Section data.
Context {D T SN : Type}.

(** [sharedOriginStorage] says whether the object points to its entry of the shared pool. *)
Record StateObject := {
  address : Address;
  data : Account;
  rootCorrected : bool;
  obj_dbErr : option state_error;
  obj_trie : option T;
  code : option bytes;
  sharedOriginStorage : bool;
  originStorage : Storage;
  pendingStorage : Storage;
  dirtyStorage : Storage;
  fakeStorage : option Storage;
  dirtyCode : bool;
  suicided : bool;
  deleted : bool;
  encodeData : option bytes;
}.

(** ** The journal *)

Inductive journalEntry :=
| createObjectChange (account : Address)
| resetObjectChange (prev : StateObject) (prevdestruct : bool)
| suicideChange (account : Address) (prev : bool) (prevbalance : Z)
| balanceChange (account : Address) (prev : Z)
| nonceChange (account : Address) (prev : Z)
| storageChange (account : Address) (key prevalue : Hash)
| codeChange (account : Address) (prevcode : option bytes) (prevhash : Hash)
| refundChange (prev : Z)
| addLogChange (txhash : Hash)
| addPreimageChange (hash : Hash)
| touchChange (account : Address)
| accessListAddAccountChange (address : Address)
| accessListAddSlotChange (address : Address) (slot : Hash).

Record Journal := { entries : list journalEntry; dirties : gmap Address Z }.

(** ** The database object *)

Record StateDB := {
  db : D;
  originalRoot : Hash;
  trie : option T;
  lightProcessed : bool;
  pipeCommit : bool;
  snap : option SN;
  snapDestructs : gset Address;
  snapAccounts : gmap Address bytes;
  snapStorage : gmap Address (gmap Hash bytes);
  stateObjects : gmap Address StateObject;
  stateObjectsPending : gset Address;
  stateObjectsDirty : gset Address;
  storagePool : option (gmap Address Storage);
  writeOnSharedStorage : bool;
  dbErr : option state_error;
  refund : Z;
  thash : Hash;
  bhash : Hash;
  txIndex : Z;
  logs : gmap Hash (list TxLog);
  logSize : Z;
  preimages : gmap Hash bytes;
  accessList : option AccessList;
  journal : Journal;
  validRevisions : list revision;
  nextRevisionId : Z;
}.

(** ** Field updates *)

Definition set_data (v : Account) (s : StateObject) : StateObject := {|
  address := address s; data := v; rootCorrected := rootCorrected s; obj_dbErr := obj_dbErr s;
  obj_trie := obj_trie s; code := code s; sharedOriginStorage := sharedOriginStorage s;
  originStorage := originStorage s; pendingStorage := pendingStorage s;
  dirtyStorage := dirtyStorage s; fakeStorage := fakeStorage s; dirtyCode := dirtyCode s;
  suicided := suicided s; deleted := deleted s; encodeData := encodeData s |}.

Definition set_rootCorrected (v : bool) (s : StateObject) : StateObject := {|
  address := address s; data := data s; rootCorrected := v; obj_dbErr := obj_dbErr s;
  obj_trie := obj_trie s; code := code s; sharedOriginStorage := sharedOriginStorage s;
  originStorage := originStorage s; pendingStorage := pendingStorage s;
  dirtyStorage := dirtyStorage s; fakeStorage := fakeStorage s; dirtyCode := dirtyCode s;
  suicided := suicided s; deleted := deleted s; encodeData := encodeData s |}.

Definition set_obj_dbErr (v : option state_error) (s : StateObject) : StateObject := {|
  address := address s; data := data s; rootCorrected := rootCorrected s; obj_dbErr := v;
  obj_trie := obj_trie s; code := code s; sharedOriginStorage := sharedOriginStorage s;
  originStorage := originStorage s; pendingStorage := pendingStorage s;
  dirtyStorage := dirtyStorage s; fakeStorage := fakeStorage s; dirtyCode := dirtyCode s;
  suicided := suicided s; deleted := deleted s; encodeData := encodeData s |}.

Definition set_obj_trie (v : option T) (s : StateObject) : StateObject := {|
  address := address s; data := data s; rootCorrected := rootCorrected s;
  obj_dbErr := obj_dbErr s; obj_trie := v; code := code s;
  sharedOriginStorage := sharedOriginStorage s; originStorage := originStorage s;
  pendingStorage := pendingStorage s; dirtyStorage := dirtyStorage s;
  fakeStorage := fakeStorage s; dirtyCode := dirtyCode s; suicided := suicided s;
  deleted := deleted s; encodeData := encodeData s |}.

Definition set_code (v : option bytes) (s : StateObject) : StateObject := {|
  address := address s; data := data s; rootCorrected := rootCorrected s;
  obj_dbErr := obj_dbErr s; obj_trie := obj_trie s; code := v;
  sharedOriginStorage := sharedOriginStorage s; originStorage := originStorage s;
  pendingStorage := pendingStorage s; dirtyStorage := dirtyStorage s;
  fakeStorage := fakeStorage s; dirtyCode := dirtyCode s; suicided := suicided s;
  deleted := deleted s; encodeData := encodeData s |}.

Definition set_originStorage (v : Storage) (s : StateObject) : StateObject := {|
  address := address s; data := data s; rootCorrected := rootCorrected s;
  obj_dbErr := obj_dbErr s; obj_trie := obj_trie s; code := code s;
  sharedOriginStorage := sharedOriginStorage s; originStorage := v;
  pendingStorage := pendingStorage s; dirtyStorage := dirtyStorage s;
  fakeStorage := fakeStorage s; dirtyCode := dirtyCode s; suicided := suicided s;
  deleted := deleted s; encodeData := encodeData s |}.

Definition set_pendingStorage (v : Storage) (s : StateObject) : StateObject := {|
  address := address s; data := data s; rootCorrected := rootCorrected s;
  obj_dbErr := obj_dbErr s; obj_trie := obj_trie s; code := code s;
  sharedOriginStorage := sharedOriginStorage s; originStorage := originStorage s;
  pendingStorage := v; dirtyStorage := dirtyStorage s; fakeStorage := fakeStorage s;
  dirtyCode := dirtyCode s; suicided := suicided s; deleted := deleted s;
  encodeData := encodeData s |}.

Definition set_dirtyStorage (v : Storage) (s : StateObject) : StateObject := {|
  address := address s; data := data s; rootCorrected := rootCorrected s;
  obj_dbErr := obj_dbErr s; obj_trie := obj_trie s; code := code s;
  sharedOriginStorage := sharedOriginStorage s; originStorage := originStorage s;
  pendingStorage := pendingStorage s; dirtyStorage := v; fakeStorage := fakeStorage s;
  dirtyCode := dirtyCode s; suicided := suicided s; deleted := deleted s;
  encodeData := encodeData s |}.

Definition set_fakeStorage (v : option Storage) (s : StateObject) : StateObject := {|
  address := address s; data := data s; rootCorrected := rootCorrected s;
  obj_dbErr := obj_dbErr s; obj_trie := obj_trie s; code := code s;
  sharedOriginStorage := sharedOriginStorage s; originStorage := originStorage s;
  pendingStorage := pendingStorage s; dirtyStorage := dirtyStorage s; fakeStorage := v;
  dirtyCode := dirtyCode s; suicided := suicided s; deleted := deleted s;
  encodeData := encodeData s |}.

Definition set_dirtyCode (v : bool) (s : StateObject) : StateObject := {|
  address := address s; data := data s; rootCorrected := rootCorrected s;
  obj_dbErr := obj_dbErr s; obj_trie := obj_trie s; code := code s;
  sharedOriginStorage := sharedOriginStorage s; originStorage := originStorage s;
  pendingStorage := pendingStorage s; dirtyStorage := dirtyStorage s;
  fakeStorage := fakeStorage s; dirtyCode := v; suicided := suicided s; deleted := deleted s;
  encodeData := encodeData s |}.

Definition set_suicided (v : bool) (s : StateObject) : StateObject := {|
  address := address s; data := data s; rootCorrected := rootCorrected s;
  obj_dbErr := obj_dbErr s; obj_trie := obj_trie s; code := code s;
  sharedOriginStorage := sharedOriginStorage s; originStorage := originStorage s;
  pendingStorage := pendingStorage s; dirtyStorage := dirtyStorage s;
  fakeStorage := fakeStorage s; dirtyCode := dirtyCode s; suicided := v; deleted := deleted s;
  encodeData := encodeData s |}.

Definition set_deleted (v : bool) (s : StateObject) : StateObject := {|
  address := address s; data := data s; rootCorrected := rootCorrected s;
  obj_dbErr := obj_dbErr s; obj_trie := obj_trie s; code := code s;
  sharedOriginStorage := sharedOriginStorage s; originStorage := originStorage s;
  pendingStorage := pendingStorage s; dirtyStorage := dirtyStorage s;
  fakeStorage := fakeStorage s; dirtyCode := dirtyCode s; suicided := suicided s; deleted := v;
  encodeData := encodeData s |}.

Definition set_encodeData (v : option bytes) (s : StateObject) : StateObject := {|
  address := address s; data := data s; rootCorrected := rootCorrected s;
  obj_dbErr := obj_dbErr s; obj_trie := obj_trie s; code := code s;
  sharedOriginStorage := sharedOriginStorage s; originStorage := originStorage s;
  pendingStorage := pendingStorage s; dirtyStorage := dirtyStorage s;
  fakeStorage := fakeStorage s; dirtyCode := dirtyCode s; suicided := suicided s;
  deleted := deleted s; encodeData := v |}.

Definition set_trie (v : option T) (s : StateDB) : StateDB := {|
  db := db s; originalRoot := originalRoot s; trie := v; lightProcessed := lightProcessed s;
  pipeCommit := pipeCommit s; snap := snap s; snapDestructs := snapDestructs s;
  snapAccounts := snapAccounts s; snapStorage := snapStorage s; stateObjects := stateObjects s;
  stateObjectsPending := stateObjectsPending s; stateObjectsDirty := stateObjectsDirty s;
  storagePool := storagePool s; writeOnSharedStorage := writeOnSharedStorage s; dbErr := dbErr s;
  refund := refund s; thash := thash s; bhash := bhash s; txIndex := txIndex s; logs := logs s;
  logSize := logSize s; preimages := preimages s; accessList := accessList s;
  journal := journal s; validRevisions := validRevisions s; nextRevisionId := nextRevisionId s |}.

Definition set_pipeCommit (v : bool) (s : StateDB) : StateDB := {|
  db := db s; originalRoot := originalRoot s; trie := trie s; lightProcessed := lightProcessed s;
  pipeCommit := v; snap := snap s; snapDestructs := snapDestructs s;
  snapAccounts := snapAccounts s; snapStorage := snapStorage s; stateObjects := stateObjects s;
  stateObjectsPending := stateObjectsPending s; stateObjectsDirty := stateObjectsDirty s;
  storagePool := storagePool s; writeOnSharedStorage := writeOnSharedStorage s; dbErr := dbErr s;
  refund := refund s; thash := thash s; bhash := bhash s; txIndex := txIndex s; logs := logs s;
  logSize := logSize s; preimages := preimages s; accessList := accessList s;
  journal := journal s; validRevisions := validRevisions s; nextRevisionId := nextRevisionId s |}.

Definition set_snapDestructs (v : gset Address) (s : StateDB) : StateDB := {|
  db := db s; originalRoot := originalRoot s; trie := trie s; lightProcessed := lightProcessed s;
  pipeCommit := pipeCommit s; snap := snap s; snapDestructs := v; snapAccounts := snapAccounts s;
  snapStorage := snapStorage s; stateObjects := stateObjects s;
  stateObjectsPending := stateObjectsPending s; stateObjectsDirty := stateObjectsDirty s;
  storagePool := storagePool s; writeOnSharedStorage := writeOnSharedStorage s; dbErr := dbErr s;
  refund := refund s; thash := thash s; bhash := bhash s; txIndex := txIndex s; logs := logs s;
  logSize := logSize s; preimages := preimages s; accessList := accessList s;
  journal := journal s; validRevisions := validRevisions s; nextRevisionId := nextRevisionId s |}.

Definition set_snapAccounts (v : gmap Address bytes) (s : StateDB) : StateDB := {|
  db := db s; originalRoot := originalRoot s; trie := trie s; lightProcessed := lightProcessed s;
  pipeCommit := pipeCommit s; snap := snap s; snapDestructs := snapDestructs s;
  snapAccounts := v; snapStorage := snapStorage s; stateObjects := stateObjects s;
  stateObjectsPending := stateObjectsPending s; stateObjectsDirty := stateObjectsDirty s;
  storagePool := storagePool s; writeOnSharedStorage := writeOnSharedStorage s; dbErr := dbErr s;
  refund := refund s; thash := thash s; bhash := bhash s; txIndex := txIndex s; logs := logs s;
  logSize := logSize s; preimages := preimages s; accessList := accessList s;
  journal := journal s; validRevisions := validRevisions s; nextRevisionId := nextRevisionId s |}.

Definition set_snapStorage (v : gmap Address (gmap Hash bytes)) (s : StateDB) : StateDB := {|
  db := db s; originalRoot := originalRoot s; trie := trie s; lightProcessed := lightProcessed s;
  pipeCommit := pipeCommit s; snap := snap s; snapDestructs := snapDestructs s;
  snapAccounts := snapAccounts s; snapStorage := v; stateObjects := stateObjects s;
  stateObjectsPending := stateObjectsPending s; stateObjectsDirty := stateObjectsDirty s;
  storagePool := storagePool s; writeOnSharedStorage := writeOnSharedStorage s; dbErr := dbErr s;
  refund := refund s; thash := thash s; bhash := bhash s; txIndex := txIndex s; logs := logs s;
  logSize := logSize s; preimages := preimages s; accessList := accessList s;
  journal := journal s; validRevisions := validRevisions s; nextRevisionId := nextRevisionId s |}.

Definition set_stateObjects (v : gmap Address StateObject) (s : StateDB) : StateDB := {|
  db := db s; originalRoot := originalRoot s; trie := trie s; lightProcessed := lightProcessed s;
  pipeCommit := pipeCommit s; snap := snap s; snapDestructs := snapDestructs s;
  snapAccounts := snapAccounts s; snapStorage := snapStorage s; stateObjects := v;
  stateObjectsPending := stateObjectsPending s; stateObjectsDirty := stateObjectsDirty s;
  storagePool := storagePool s; writeOnSharedStorage := writeOnSharedStorage s; dbErr := dbErr s;
  refund := refund s; thash := thash s; bhash := bhash s; txIndex := txIndex s; logs := logs s;
  logSize := logSize s; preimages := preimages s; accessList := accessList s;
  journal := journal s; validRevisions := validRevisions s; nextRevisionId := nextRevisionId s |}.

Definition set_stateObjectsPending (v : gset Address) (s : StateDB) : StateDB := {|
  db := db s; originalRoot := originalRoot s; trie := trie s; lightProcessed := lightProcessed s;
  pipeCommit := pipeCommit s; snap := snap s; snapDestructs := snapDestructs s;
  snapAccounts := snapAccounts s; snapStorage := snapStorage s; stateObjects := stateObjects s;
  stateObjectsPending := v; stateObjectsDirty := stateObjectsDirty s;
  storagePool := storagePool s; writeOnSharedStorage := writeOnSharedStorage s; dbErr := dbErr s;
  refund := refund s; thash := thash s; bhash := bhash s; txIndex := txIndex s; logs := logs s;
  logSize := logSize s; preimages := preimages s; accessList := accessList s;
  journal := journal s; validRevisions := validRevisions s; nextRevisionId := nextRevisionId s |}.

Definition set_stateObjectsDirty (v : gset Address) (s : StateDB) : StateDB := {|
  db := db s; originalRoot := originalRoot s; trie := trie s; lightProcessed := lightProcessed s;
  pipeCommit := pipeCommit s; snap := snap s; snapDestructs := snapDestructs s;
  snapAccounts := snapAccounts s; snapStorage := snapStorage s; stateObjects := stateObjects s;
  stateObjectsPending := stateObjectsPending s; stateObjectsDirty := v;
  storagePool := storagePool s; writeOnSharedStorage := writeOnSharedStorage s; dbErr := dbErr s;
  refund := refund s; thash := thash s; bhash := bhash s; txIndex := txIndex s; logs := logs s;
  logSize := logSize s; preimages := preimages s; accessList := accessList s;
  journal := journal s; validRevisions := validRevisions s; nextRevisionId := nextRevisionId s |}.

Definition set_storagePool (v : option (gmap Address Storage)) (s : StateDB) : StateDB := {|
  db := db s; originalRoot := originalRoot s; trie := trie s; lightProcessed := lightProcessed s;
  pipeCommit := pipeCommit s; snap := snap s; snapDestructs := snapDestructs s;
  snapAccounts := snapAccounts s; snapStorage := snapStorage s; stateObjects := stateObjects s;
  stateObjectsPending := stateObjectsPending s; stateObjectsDirty := stateObjectsDirty s;
  storagePool := v; writeOnSharedStorage := writeOnSharedStorage s; dbErr := dbErr s;
  refund := refund s; thash := thash s; bhash := bhash s; txIndex := txIndex s; logs := logs s;
  logSize := logSize s; preimages := preimages s; accessList := accessList s;
  journal := journal s; validRevisions := validRevisions s; nextRevisionId := nextRevisionId s |}.

Definition set_writeOnSharedStorage (v : bool) (s : StateDB) : StateDB := {|
  db := db s; originalRoot := originalRoot s; trie := trie s; lightProcessed := lightProcessed s;
  pipeCommit := pipeCommit s; snap := snap s; snapDestructs := snapDestructs s;
  snapAccounts := snapAccounts s; snapStorage := snapStorage s; stateObjects := stateObjects s;
  stateObjectsPending := stateObjectsPending s; stateObjectsDirty := stateObjectsDirty s;
  storagePool := storagePool s; writeOnSharedStorage := v; dbErr := dbErr s; refund := refund s;
  thash := thash s; bhash := bhash s; txIndex := txIndex s; logs := logs s; logSize := logSize s;
  preimages := preimages s; accessList := accessList s; journal := journal s;
  validRevisions := validRevisions s; nextRevisionId := nextRevisionId s |}.

Definition set_dbErr (v : option state_error) (s : StateDB) : StateDB := {|
  db := db s; originalRoot := originalRoot s; trie := trie s; lightProcessed := lightProcessed s;
  pipeCommit := pipeCommit s; snap := snap s; snapDestructs := snapDestructs s;
  snapAccounts := snapAccounts s; snapStorage := snapStorage s; stateObjects := stateObjects s;
  stateObjectsPending := stateObjectsPending s; stateObjectsDirty := stateObjectsDirty s;
  storagePool := storagePool s; writeOnSharedStorage := writeOnSharedStorage s; dbErr := v;
  refund := refund s; thash := thash s; bhash := bhash s; txIndex := txIndex s; logs := logs s;
  logSize := logSize s; preimages := preimages s; accessList := accessList s;
  journal := journal s; validRevisions := validRevisions s; nextRevisionId := nextRevisionId s |}.

Definition set_refund (v : Z) (s : StateDB) : StateDB := {|
  db := db s; originalRoot := originalRoot s; trie := trie s; lightProcessed := lightProcessed s;
  pipeCommit := pipeCommit s; snap := snap s; snapDestructs := snapDestructs s;
  snapAccounts := snapAccounts s; snapStorage := snapStorage s; stateObjects := stateObjects s;
  stateObjectsPending := stateObjectsPending s; stateObjectsDirty := stateObjectsDirty s;
  storagePool := storagePool s; writeOnSharedStorage := writeOnSharedStorage s; dbErr := dbErr s;
  refund := v; thash := thash s; bhash := bhash s; txIndex := txIndex s; logs := logs s;
  logSize := logSize s; preimages := preimages s; accessList := accessList s;
  journal := journal s; validRevisions := validRevisions s; nextRevisionId := nextRevisionId s |}.

Definition set_logs (v : gmap Hash (list TxLog)) (s : StateDB) : StateDB := {|
  db := db s; originalRoot := originalRoot s; trie := trie s; lightProcessed := lightProcessed s;
  pipeCommit := pipeCommit s; snap := snap s; snapDestructs := snapDestructs s;
  snapAccounts := snapAccounts s; snapStorage := snapStorage s; stateObjects := stateObjects s;
  stateObjectsPending := stateObjectsPending s; stateObjectsDirty := stateObjectsDirty s;
  storagePool := storagePool s; writeOnSharedStorage := writeOnSharedStorage s; dbErr := dbErr s;
  refund := refund s; thash := thash s; bhash := bhash s; txIndex := txIndex s; logs := v;
  logSize := logSize s; preimages := preimages s; accessList := accessList s;
  journal := journal s; validRevisions := validRevisions s; nextRevisionId := nextRevisionId s |}.

Definition set_logSize (v : Z) (s : StateDB) : StateDB := {|
  db := db s; originalRoot := originalRoot s; trie := trie s; lightProcessed := lightProcessed s;
  pipeCommit := pipeCommit s; snap := snap s; snapDestructs := snapDestructs s;
  snapAccounts := snapAccounts s; snapStorage := snapStorage s; stateObjects := stateObjects s;
  stateObjectsPending := stateObjectsPending s; stateObjectsDirty := stateObjectsDirty s;
  storagePool := storagePool s; writeOnSharedStorage := writeOnSharedStorage s; dbErr := dbErr s;
  refund := refund s; thash := thash s; bhash := bhash s; txIndex := txIndex s; logs := logs s;
  logSize := v; preimages := preimages s; accessList := accessList s; journal := journal s;
  validRevisions := validRevisions s; nextRevisionId := nextRevisionId s |}.

Definition set_preimages (v : gmap Hash bytes) (s : StateDB) : StateDB := {|
  db := db s; originalRoot := originalRoot s; trie := trie s; lightProcessed := lightProcessed s;
  pipeCommit := pipeCommit s; snap := snap s; snapDestructs := snapDestructs s;
  snapAccounts := snapAccounts s; snapStorage := snapStorage s; stateObjects := stateObjects s;
  stateObjectsPending := stateObjectsPending s; stateObjectsDirty := stateObjectsDirty s;
  storagePool := storagePool s; writeOnSharedStorage := writeOnSharedStorage s; dbErr := dbErr s;
  refund := refund s; thash := thash s; bhash := bhash s; txIndex := txIndex s; logs := logs s;
  logSize := logSize s; preimages := v; accessList := accessList s; journal := journal s;
  validRevisions := validRevisions s; nextRevisionId := nextRevisionId s |}.

Definition set_accessList (v : option AccessList) (s : StateDB) : StateDB := {|
  db := db s; originalRoot := originalRoot s; trie := trie s; lightProcessed := lightProcessed s;
  pipeCommit := pipeCommit s; snap := snap s; snapDestructs := snapDestructs s;
  snapAccounts := snapAccounts s; snapStorage := snapStorage s; stateObjects := stateObjects s;
  stateObjectsPending := stateObjectsPending s; stateObjectsDirty := stateObjectsDirty s;
  storagePool := storagePool s; writeOnSharedStorage := writeOnSharedStorage s; dbErr := dbErr s;
  refund := refund s; thash := thash s; bhash := bhash s; txIndex := txIndex s; logs := logs s;
  logSize := logSize s; preimages := preimages s; accessList := v; journal := journal s;
  validRevisions := validRevisions s; nextRevisionId := nextRevisionId s |}.

Definition set_journal (v : Journal) (s : StateDB) : StateDB := {|
  db := db s; originalRoot := originalRoot s; trie := trie s; lightProcessed := lightProcessed s;
  pipeCommit := pipeCommit s; snap := snap s; snapDestructs := snapDestructs s;
  snapAccounts := snapAccounts s; snapStorage := snapStorage s; stateObjects := stateObjects s;
  stateObjectsPending := stateObjectsPending s; stateObjectsDirty := stateObjectsDirty s;
  storagePool := storagePool s; writeOnSharedStorage := writeOnSharedStorage s; dbErr := dbErr s;
  refund := refund s; thash := thash s; bhash := bhash s; txIndex := txIndex s; logs := logs s;
  logSize := logSize s; preimages := preimages s; accessList := accessList s; journal := v;
  validRevisions := validRevisions s; nextRevisionId := nextRevisionId s |}.

Definition set_validRevisions (v : list revision) (s : StateDB) : StateDB := {|
  db := db s; originalRoot := originalRoot s; trie := trie s; lightProcessed := lightProcessed s;
  pipeCommit := pipeCommit s; snap := snap s; snapDestructs := snapDestructs s;
  snapAccounts := snapAccounts s; snapStorage := snapStorage s; stateObjects := stateObjects s;
  stateObjectsPending := stateObjectsPending s; stateObjectsDirty := stateObjectsDirty s;
  storagePool := storagePool s; writeOnSharedStorage := writeOnSharedStorage s; dbErr := dbErr s;
  refund := refund s; thash := thash s; bhash := bhash s; txIndex := txIndex s; logs := logs s;
  logSize := logSize s; preimages := preimages s; accessList := accessList s;
  journal := journal s; validRevisions := v; nextRevisionId := nextRevisionId s |}.

Definition set_nextRevisionId (v : Z) (s : StateDB) : StateDB := {|
  db := db s; originalRoot := originalRoot s; trie := trie s; lightProcessed := lightProcessed s;
  pipeCommit := pipeCommit s; snap := snap s; snapDestructs := snapDestructs s;
  snapAccounts := snapAccounts s; snapStorage := snapStorage s; stateObjects := stateObjects s;
  stateObjectsPending := stateObjectsPending s; stateObjectsDirty := stateObjectsDirty s;
  storagePool := storagePool s; writeOnSharedStorage := writeOnSharedStorage s; dbErr := dbErr s;
  refund := refund s; thash := thash s; bhash := bhash s; txIndex := txIndex s; logs := logs s;
  logSize := logSize s; preimages := preimages s; accessList := accessList s;
  journal := journal s; validRevisions := validRevisions s; nextRevisionId := v |}.
End data.

Arguments StateObject T : clear implicits.
Arguments journalEntry T : clear implicits.
Arguments Journal T : clear implicits.
Arguments StateDB D T SN : clear implicits.
