(* ===== verification/StateObjects.v ===== *)
(** * State objects ([core/state/state_object.go])

    The methods of [StateObject].  A method gets the [StateDB] the object belongs to (its
    field [db]) and returns it with the object, since some append to the journal and
    reading can fill the shared pool. *)

From S2P Require Import Prelude Params VmData VmState Rlp RlpStream StateData.

Section objects.
Context {D T SN : Type} {B : Backend D T SN}.
Variable Keccak256Hash : bytes → Hash.

Abbreviation StateObject := (StateObject T).
Abbreviation StateDB := (StateDB D T SN).

Definition emptyCodeHash : Hash := Keccak256Hash [].
(** The hash of ["dummy_account_root"]. *)
Definition dummyRoot : Hash := Keccak256Hash
  [100; 117; 109; 109; 121; 95; 97; 99; 99; 111; 117; 110; 116; 95; 114; 111; 111; 116].

Definition addrHash (o : StateObject) : Hash := Keccak256Hash (addr_bytes (address o)).

(** [journal.append] and [dirtied]; a dirty count is an [int]. *)
Definition dirtied (e : journalEntry T) : option Address :=
  match e with
  | createObjectChange a | suicideChange a _ _ | balanceChange a _ | nonceChange a _
  | storageChange a _ _ | codeChange a _ _ | touchChange a => Some a
  | _ => None
  end.
Definition count_dirty (a : Address) (m : gmap Address Z) : gmap Address Z :=
  <[a := default 0 (m !! a) + 1]> m.
Definition journal_append (e : journalEntry T) (s : StateDB) : StateDB :=
  let j := journal s in
  set_journal {| entries := entries j ++ [e];
                 dirties := match dirtied e with
                            | Some a => count_dirty a (dirties j)
                            | None => dirties j end |} s.
(** [journal.dirty]. *)
Definition journal_dirty (a : Address) (s : StateDB) : StateDB :=
  set_journal {| entries := entries (journal s); dirties := count_dirty a (dirties (journal s)) |} s.

(** [setError] remembers the first error. *)
Definition obj_setError (e : state_error) (o : StateObject) : StateObject :=
  match obj_dbErr o with Some _ => o | None => set_obj_dbErr (Some e) o end.

(** ** New objects *)

(** [Account{}] with the defaults [newObject] fills in. *)
Definition emptyAccount : Account := {|
  acc_Nonce := 0; acc_Balance := 0; acc_Root := emptyRoot; acc_CodeHash := emptyCodeHash |}.
Definition with_root (r : Hash) (d : Account) : Account := {|
  acc_Nonce := acc_Nonce d; acc_Balance := acc_Balance d; acc_Root := r; acc_CodeHash := acc_CodeHash d |}.

(** The entry of the pool is made on first use, so a missing one is empty. *)
Definition newObject (s : StateDB) (a : Address) (d : Account) : StateObject := {|
  address := a;
  data := if acc_Root d =? 0 then with_root emptyRoot d else d;
  rootCorrected := false; obj_dbErr := None; obj_trie := None; code := None;
  sharedOriginStorage := bool_decide (is_Some (storagePool s));
  originStorage := ∅; pendingStorage := ∅; dirtyStorage := ∅; fakeStorage := None;
  dirtyCode := false; suicided := false; deleted := false; encodeData := None |}.

Definition obj_empty (o : StateObject) : bool :=
  (acc_Nonce (data o) =? 0) && (acc_Balance (data o) =? 0) && (acc_CodeHash (data o) =? emptyCodeHash).

Definition markSuicided (o : StateObject) : StateObject := set_suicided true o.

Definition touch (s : StateDB) (o : StateObject) : StateDB :=
  let s := journal_append (touchChange (address o)) s in
  if address o =? ripemd then journal_dirty (address o) s else s.

(** ** Storage *)

Definition getTrie (d : D) (o : StateObject) : T * StateObject :=
  match obj_trie o with
  | Some t => (t, o)
  | None =>
      match OpenStorageTrie d (addrHash o) (acc_Root (data o)) with
      | inl t => (t, set_obj_trie (Some t) o)
      | inr e =>
          let t := EmptyStorageTrie d (addrHash o) in
          (t, obj_setError (CantCreateStorageTrie e) (set_obj_trie (Some t) o))
      end
  end.

(** The entry of the shared pool the object points to. *)
Definition pool_entry (s : StateDB) (o : StateObject) : Storage :=
  default ∅ (default ∅ (storagePool s) !! address o).

Definition getOriginStorage (s : StateDB) (o : StateObject) (key : Hash) : option Hash * StateObject :=
  match originStorage o !! key with
  | Some v => (Some v, o)
  | None =>
      if sharedOriginStorage o then
        match pool_entry s o !! key with
        | Some v => (Some v, set_originStorage (<[key := v]> (originStorage o)) o)
        | None => (None, o)
        end
      else (None, o)
  end.

Definition setOriginStorage (s : StateDB) (o : StateObject) (key value : Hash) : StateObject * StateDB :=
  let s :=
    if writeOnSharedStorage s && sharedOriginStorage o then
      set_storagePool (Some (<[address o := <[key := value]> (pool_entry s o)]> (default ∅ (storagePool s)))) s
    else s in
  (set_originStorage (<[key := value]> (originStorage o)) o, s).

(** The encoded value below the caches: from the snapshot, or else from the trie. *)
Definition read_slot (s : StateDB) (o : StateObject) (key : Hash) : (bytes + error) * StateObject :=
  let from_trie :=
    let '(t, o) := getTrie (db s) o in (TryGet t (hash_bytes key), o) in
  match snap s with
  | None => from_trie
  | Some sn =>
      match snap_Storage sn (addrHash o) (Keccak256Hash (hash_bytes key)) with
      | inl enc => (inl enc, o)
      | inr _ => from_trie
      end
  end.

(** The value of an encoded slot. *)
Definition slot_value (enc : bytes) : Hash * option rlp_error :=
  if 0 <? zlen enc then
    match Split enc with
    | Some (inl (_, content, _)) => (BytesToHash content, None)
    | Some (inr e) => (0, Some e)
    | None => (0, None)
    end
  else (0, None).

Definition obj_GetCommittedState (s : StateDB) (o : StateObject) (key : Hash) :
    Hash * (StateObject * StateDB) :=
  match fakeStorage o with
  | Some fake => (default 0 (fake !! key), (o, s))
  | None =>
      match pendingStorage o !! key with
      | Some v => (v, (o, s))
      | None =>
          match getOriginStorage s o key with
          | (Some v, o) => (v, (o, s))
          | (None, o) =>
              if bool_decide (is_Some (snap s)) && bool_decide (address o ∈ snapDestructs s)
              then (0, (o, s))
              else
                match read_slot s o key with
                | (inr e, o) => (0, (obj_setError (ReadError e) o, s))
                | (inl enc, o) =>
                    let '(v, err) := slot_value enc in
                    let o := match err with
                             | Some e => obj_setError (StorageDecodeError e) o | None => o end in
                    (v, setOriginStorage s o key v)
                end
          end
      end
  end.

Definition obj_GetState (s : StateDB) (o : StateObject) (key : Hash) : Hash * (StateObject * StateDB) :=
  match fakeStorage o with
  | Some fake => (default 0 (fake !! key), (o, s))
  | None =>
      match dirtyStorage o !! key with
      | Some v => (v, (o, s))
      | None => obj_GetCommittedState s o key
      end
  end.

Definition obj_setState (key value : Hash) (o : StateObject) : StateObject :=
  set_dirtyStorage (<[key := value]> (dirtyStorage o)) o.

Definition obj_SetState (s : StateDB) (o : StateObject) (key value : Hash) : StateObject * StateDB :=
  match fakeStorage o with
  | Some fake => (set_fakeStorage (Some (<[key := value]> fake)) o, s)
  | None =>
      let '(prev, (o, s)) := obj_GetState s o key in
      if prev =? value then (o, s)
      else
        let s := journal_append (storageChange (address o) key prev) s in
        (obj_setState key value o, s)
  end.

(** For debugging only. *)
Definition obj_SetStorage (storage : Storage) (o : StateObject) : StateObject :=
  set_fakeStorage (Some (storage ∪ default ∅ (fakeStorage o))) o.

(** The dirty slots become pending.  With pipelined commits the storage root may have to
    be taken from the snapshot first.  [EnablePipeCommit] turns these on only when there is
    a snapshot; without one, where the source would follow a nil pointer, there is no
    correction here. *)
Definition corrected_root (s : StateDB) (o : StateObject) : option Hash :=
  if pipeCommit s && (acc_Root (data o) =? dummyRoot) && negb (rootCorrected o) then
    sn ← snap s;
    if AccountsCorrected sn then
      match snap_Account sn (Keccak256Hash (addr_bytes (address o))) with
      | inl (Some acc) => if zlen (sl_Root acc) =? 0 then None else Some (BytesToHash (sl_Root acc))
      | _ => None
      end
    else None
  else None.
Definition obj_finalise (s : StateDB) (o : StateObject) : StateObject :=
  let o := set_pendingStorage (dirtyStorage o ∪ pendingStorage o) o in
  let o := match corrected_root s o with
           | Some r => set_rootCorrected true (set_data (with_root r (data o)) o)
           | None => o
           end in
  set_dirtyStorage ∅ o.

(** ** Writing the storage trie *)

(** [common.TrimLeftZeroes]. *)
Fixpoint TrimLeftZeroes (b : bytes) : bytes :=
  match b with x :: b' => if x =? 0 then TrimLeftZeroes b' else b | [] => [] end.

(** One turn of the loop of [updateTrie]: the trie, the object, the snapshot's map of the
    account, which is [None] until there is something to record. *)
Definition update_slot (s : StateDB) (st : T * StateObject * option (gmap Hash bytes)) (kv : Hash * Hash) :
    T * StateObject * option (gmap Hash bytes) :=
  let '(tr, o, storage) := st in
  let '(key, value) := kv in
  if value =? default 0 (originStorage o !! key) then st
  else
    let o := set_originStorage (<[key := value]> (originStorage o)) o in
    let v := if value =? 0 then [] else default [] (EncodeToBytes (VBytes (TrimLeftZeroes (hash_bytes value)))) in
    let r := if value =? 0 then TryDelete tr (hash_bytes key) else TryUpdate tr (hash_bytes key) v in
    let '(tr, o) := match r with inl tr => (tr, o) | inr e => (tr, obj_setError (ReadError e) o) end in
    let storage :=
      match snap s with
      | None => storage
      | Some _ =>
          let m := match storage with
                   | Some m => m | None => default ∅ (snapStorage s !! address o) end in
          Some (<[key := v]> m)
      end in
    (tr, o, storage).

(** [None] is the nil trie: not loaded and nothing to write.  The slots are written in
    the order of the map's iteration, which Go leaves open. *)
Definition updateTrie (s : StateDB) (o : StateObject) : option T * (StateObject * StateDB) :=
  let o := obj_finalise s o in
  if bool_decide (pendingStorage o = ∅) then (obj_trie o, (o, s))
  else
    let '(tr, o) := getTrie (db s) o in
    let '(tr, o, storage) := fold_left (update_slot s) (map_to_list (pendingStorage o)) (tr, o, None) in
    let s := match storage with
             | Some m => set_snapStorage (<[address o := m]> (snapStorage s)) s | None => s end in
    (Some tr, (set_pendingStorage ∅ (set_obj_trie (Some tr) o), s)).

Definition updateRoot (s : StateDB) (o : StateObject) : StateObject * StateDB :=
  let '(tr, (o, s)) := updateTrie s o in
  match tr with
  | None => (o, s)
  | Some tr => (set_data (with_root (Trie_Hash tr) (data o)) o, s)
  end.

(** ** Balance, nonce, code *)

Definition obj_setBalance (amount : Z) (o : StateObject) : StateObject :=
  set_data {| acc_Nonce := acc_Nonce (data o); acc_Balance := amount; acc_Root := acc_Root (data o);
              acc_CodeHash := acc_CodeHash (data o) |} o.
Definition obj_SetBalance (s : StateDB) (o : StateObject) (amount : Z) : StateObject * StateDB :=
  (obj_setBalance amount o, journal_append (balanceChange (address o) (acc_Balance (data o))) s).
Definition obj_AddBalance (s : StateDB) (o : StateObject) (amount : Z) : StateObject * StateDB :=
  if amount =? 0 then (o, if obj_empty o then touch s o else s)
  else obj_SetBalance s o (acc_Balance (data o) + amount).
Definition obj_SubBalance (s : StateDB) (o : StateObject) (amount : Z) : StateObject * StateDB :=
  if amount =? 0 then (o, s) else obj_SetBalance s o (acc_Balance (data o) - amount).

Definition obj_setNonce (nonce : Z) (o : StateObject) : StateObject :=
  set_data {| acc_Nonce := nonce; acc_Balance := acc_Balance (data o); acc_Root := acc_Root (data o);
              acc_CodeHash := acc_CodeHash (data o) |} o.
Definition obj_SetNonce (s : StateDB) (o : StateObject) (nonce : Z) : StateObject * StateDB :=
  (obj_setNonce nonce o, journal_append (nonceChange (address o) (acc_Nonce (data o))) s).

(** [None] is the nil slice.  A code that cannot be loaded is nil and tried again. *)
Definition obj_Code (d : D) (o : StateObject) : option bytes * StateObject :=
  match code o with
  | Some c => (Some c, o)
  | None =>
      if acc_CodeHash (data o) =? emptyCodeHash then (None, o)
      else
        match ContractCode d (addrHash o) (acc_CodeHash (data o)) with
        | inl c => (Some c, set_code (Some c) o)
        | inr e => (None, obj_setError (CantLoadCode (acc_CodeHash (data o)) e) o)
        end
  end.
Definition obj_CodeSize (d : D) (o : StateObject) : Z * StateObject :=
  match code o with
  | Some c => (zlen c, o)
  | None =>
      if acc_CodeHash (data o) =? emptyCodeHash then (0, o)
      else
        match ContractCodeSize d (addrHash o) (acc_CodeHash (data o)) with
        | inl n => (n, o)
        | inr e => (0, obj_setError (CantLoadCodeSize (acc_CodeHash (data o)) e) o)
        end
  end.

Definition obj_setCode (codeHash : Hash) (c : option bytes) (o : StateObject) : StateObject :=
  set_dirtyCode true (set_code c (set_data
    {| acc_Nonce := acc_Nonce (data o); acc_Balance := acc_Balance (data o);
       acc_Root := acc_Root (data o); acc_CodeHash := codeHash |} o)).
Definition obj_SetCode (s : StateDB) (o : StateObject) (codeHash : Hash) (c : option bytes) :
    StateObject * StateDB :=
  let '(prevcode, o) := obj_Code (db s) o in
  let s := journal_append (codeChange (address o) prevcode (acc_CodeHash (data o))) s in
  (obj_setCode codeHash c o, s).

(** [deepCopy]: the copy belongs to the database [s]; tries are values here. *)
Definition deepCopy (s : StateDB) (o : StateObject) : StateObject :=
  let c := newObject s (address o) (data o) in
  let c := match obj_trie o with Some t => set_obj_trie (Some t) c | None => c end in
  set_deleted (deleted o) (set_dirtyCode (dirtyCode o) (set_suicided (suicided o)
    (set_pendingStorage (pendingStorage o) (set_originStorage (originStorage o)
      (set_dirtyStorage (dirtyStorage o) (set_code (code o) c)))))).
End objects.
