(* ===== verification/StateDbOps.v ===== *)
(** * The state database ([core/state]: statedb.go, journal.go, access_list.go)

    The operations the virtual machine calls, the journal that undoes them, and the end of
    a transaction and of a block.  [None] as a result is a panic. *)

From S2P Require Import Prelude Params VmData VmState Rlp RlpStream StateData StateObjects.

(** ** The access list *)

Definition newAccessList : AccessList := {| al_addresses := ∅; al_slots := [] |}.

Definition ContainsAddress (al : AccessList) (a : Address) : bool :=
  bool_decide (is_Some (al_addresses al !! a)).

(** An index out of range is a panic. *)
Definition Contains (al : AccessList) (a : Address) (slot : Hash) : option (bool * bool) :=
  match al_addresses al !! a with
  | None => Some (false, false)
  | Some idx =>
      if idx =? -1 then Some (true, false)
      else slots ← index (al_slots al) idx; Some (true, bool_decide (slot ∈ slots))
  end.

Definition AddAddress (al : AccessList) (a : Address) : bool * AccessList :=
  if bool_decide (is_Some (al_addresses al !! a)) then (false, al)
  else (true, {| al_addresses := <[a := -1]> (al_addresses al); al_slots := al_slots al |}).

Definition AddSlot (al : AccessList) (a : Address) (slot : Hash) : option (bool * bool * AccessList) :=
  let fresh (added : bool) :=
    Some (added, true,
          {| al_addresses := <[a := zlen (al_slots al)]> (al_addresses al);
             al_slots := al_slots al ++ [{[slot]}] |}) in
  match al_addresses al !! a with
  | None => fresh true
  | Some idx =>
      if idx =? -1 then fresh false
      else
        slotmap ← index (al_slots al) idx;
        if bool_decide (slot ∈ slotmap) then Some (false, false, al)
        else
          slots ← set_index (al_slots al) idx ({[slot]} ∪ slotmap);
          Some (false, true, {| al_addresses := al_addresses al; al_slots := slots |})
  end.

Definition DeleteSlot (al : AccessList) (a : Address) (slot : Hash) : option AccessList :=
  idx ← al_addresses al !! a;
  slotmap ← index (al_slots al) idx;
  let slotmap := slotmap ∖ {[slot]} in
  if bool_decide (slotmap = ∅) then
    slots ← slice (al_slots al) 0 idx;
    Some {| al_addresses := <[a := -1]> (al_addresses al); al_slots := slots |}
  else
    slots ← set_index (al_slots al) idx slotmap;
    Some {| al_addresses := al_addresses al; al_slots := slots |}.

Definition DeleteAddress (al : AccessList) (a : Address) : AccessList :=
  {| al_addresses := delete a (al_addresses al); al_slots := al_slots al |}.

Section statedb.
Context {D T SN : Type} {B : Backend D T SN}.
Variable Keccak256Hash : bytes → Hash.

Abbreviation StateObject := (StateObject T).
Abbreviation StateDB := (StateDB D T SN).
Abbreviation newObject := (@newObject D T SN).
Abbreviation emptyAccount := (emptyAccount Keccak256Hash).
Abbreviation obj_empty := (@obj_empty T Keccak256Hash).

Definition db_setError (e : state_error) (s : StateDB) : StateDB :=
  match dbErr s with Some _ => s | None => set_dbErr (Some e) s end.

(** ** Objects *)

Definition SetStateObject (o : StateObject) (s : StateDB) : StateDB :=
  set_stateObjects (<[address o := o]> (stateObjects s)) s.

(** An account as the snapshot has it. *)
Definition slim_data (acc : SlimAccount) : Account := {|
  acc_Nonce := sl_Nonce acc; acc_Balance := sl_Balance acc;
  acc_Root := (let r := BytesToHash (sl_Root acc) in if r =? 0 then emptyRoot else r);
  acc_CodeHash := if zlen (sl_CodeHash acc) =? 0 then emptyCodeHash Keccak256Hash else BytesToHash (sl_CodeHash acc) |}.

(** The account in the trie, which is opened on first use. *)
Definition trie_account (a : Address) (s : StateDB) : option Account * StateDB :=
  let '(t, s) :=
    match trie s with
    | Some t => (Some t, s)
    | None =>
        match OpenTrie (db s) (originalRoot s) with
        | inl t => (Some t, set_trie (Some t) s)
        | inr _ => (None, db_setError FailedToOpenTrie s)
        end
    end in
  match t with
  | None => (None, s)
  | Some t =>
      match TryGet t (addr_bytes a) with
      | inr e => (None, db_setError (GetObjectError a e) s)
      | inl enc => (if zlen enc =? 0 then None else decode_account enc, s)
      end
  end.

Definition getDeletedStateObject (a : Address) (s : StateDB) : option StateObject * StateDB :=
  match stateObjects s !! a with
  | Some o => (Some o, s)
  | None =>
      let '(d, s) :=
        match snap s with
        | None => trie_account a s
        | Some sn =>
            match snap_Account sn (Keccak256Hash (addr_bytes a)) with
            | inl None => (None, s)
            | inl (Some acc) => (Some (slim_data acc), s)
            | inr _ => trie_account a s
            end
        end in
      match d with
      | None => (None, s)
      | Some d => let o := newObject s a d in (Some o, SetStateObject o s)
      end
  end.

Definition getStateObject (a : Address) (s : StateDB) : option StateObject * StateDB :=
  let '(o, s) := getDeletedStateObject a s in
  match o with
  | Some o => (if deleted o then None else Some o, s)
  | None => (None, s)
  end.

(** The new object, and the one it replaces unless that was deleted. *)
Definition createObject (a : Address) (s : StateDB) : StateObject * option StateObject * StateDB :=
  let '(prev, s) := getDeletedStateObject a s in
  let '(prevdestruct, s) :=
    match prev with
    | Some p =>
        if bool_decide (is_Some (snap s)) then
          (bool_decide (address p ∈ snapDestructs s),
           set_snapDestructs ({[address p]} ∪ snapDestructs s) s)
        else (false, s)
    | None => (false, s)
    end in
  let newobj := obj_setNonce 0 (newObject s a emptyAccount) in
  let s := match prev with
           | None => journal_append (createObjectChange a) s
           | Some p => journal_append (resetObjectChange p prevdestruct) s
           end in
  let s := SetStateObject newobj s in
  (newobj, match prev with Some p => if deleted p then None else Some p | None => None end, s).

Definition GetOrNewStateObject (a : Address) (s : StateDB) : StateObject * StateDB :=
  let '(o, s) := getStateObject a s in
  match o with
  | Some o => (o, s)
  | None => let '(o, _, s) := createObject a s in (o, s)
  end.

Definition db_CreateAccount (a : Address) (s : StateDB) : StateDB :=
  let '(newObj, prev, s) := createObject a s in
  match prev with
  | Some p => SetStateObject (obj_setBalance (acc_Balance (data p)) newObj) s
  | None => s
  end.

(** ** Getters *)

(** Reads a live object; what the reading caches stays in it. *)
Definition reading {A} (a : Address) (dflt : A) (f : StateDB → StateObject → A * (StateObject * StateDB))
    (s : StateDB) : A * StateDB :=
  let '(o, s) := getStateObject a s in
  match o with
  | None => (dflt, s)
  | Some o => let '(v, (o, s)) := f s o in (v, SetStateObject o s)
  end.

Definition db_Exist (a : Address) (s : StateDB) : bool * StateDB :=
  let '(o, s) := getStateObject a s in (bool_decide (is_Some o), s).
Definition db_Empty (a : Address) (s : StateDB) : bool * StateDB :=
  let '(o, s) := getStateObject a s in
  (match o with None => true | Some o => obj_empty o end, s).
Definition db_GetBalance (a : Address) (s : StateDB) : Z * StateDB :=
  reading a 0 (λ s o, (acc_Balance (data o), (o, s))) s.
Definition db_GetNonce (a : Address) (s : StateDB) : Z * StateDB :=
  reading a 0 (λ s o, (acc_Nonce (data o), (o, s))) s.
Definition db_GetCode (a : Address) (s : StateDB) : bytes * StateDB :=
  reading a [] (λ s o, let '(c, o) := obj_Code Keccak256Hash (db s) o in (default [] c, (o, s))) s.
Definition db_GetCodeSize (a : Address) (s : StateDB) : Z * StateDB :=
  reading a 0 (λ s o, let '(n, o) := obj_CodeSize Keccak256Hash (db s) o in (n, (o, s))) s.
Definition db_GetCodeHash (a : Address) (s : StateDB) : Hash * StateDB :=
  reading a 0 (λ s o, (acc_CodeHash (data o), (o, s))) s.
Definition db_GetState (a : Address) (key : Hash) (s : StateDB) : Hash * StateDB :=
  reading a 0 (λ s o, obj_GetState Keccak256Hash s o key) s.
Definition db_GetCommittedState (a : Address) (key : Hash) (s : StateDB) : Hash * StateDB :=
  reading a 0 (λ s o, obj_GetCommittedState Keccak256Hash s o key) s.
Definition db_HasSuicided (a : Address) (s : StateDB) : bool * StateDB :=
  reading a false (λ s o, (suicided o, (o, s))) s.
Definition db_GetRefund (s : StateDB) : Z := refund s.
Definition db_GetLogs (h : Hash) (s : StateDB) : list TxLog := default [] (logs s !! h).

(** ** Setters *)

Definition writing (a : Address) (f : StateDB → StateObject → StateObject * StateDB) (s : StateDB) : StateDB :=
  let '(o, s) := GetOrNewStateObject a s in
  let '(o, s) := f s o in
  SetStateObject o s.

Definition db_AddBalance (a : Address) (amount : Z) : StateDB → StateDB :=
  writing a (λ s o, obj_AddBalance Keccak256Hash s o amount).
Definition db_SubBalance (a : Address) (amount : Z) : StateDB → StateDB :=
  writing a (λ s o, obj_SubBalance s o amount).
Definition db_SetBalance (a : Address) (amount : Z) : StateDB → StateDB :=
  writing a (λ s o, obj_SetBalance s o amount).
Definition db_SetNonce (a : Address) (nonce : Z) : StateDB → StateDB :=
  writing a (λ s o, obj_SetNonce s o nonce).
Definition db_SetCode (a : Address) (c : bytes) : StateDB → StateDB :=
  writing a (λ s o, obj_SetCode Keccak256Hash s o (Keccak256Hash c) (Some c)).
Definition db_SetState (a : Address) (key value : Hash) : StateDB → StateDB :=
  writing a (λ s o, obj_SetState Keccak256Hash s o key value).
Definition db_SetStorage (a : Address) (storage : Storage) : StateDB → StateDB :=
  writing a (λ s o, (obj_SetStorage storage o, s)).

Definition db_Suicide (a : Address) (s : StateDB) : bool * StateDB :=
  let '(o, s) := getStateObject a s in
  match o with
  | None => (false, s)
  | Some o =>
      let s := journal_append (suicideChange a (suicided o) (acc_Balance (data o))) s in
      (true, SetStateObject (obj_setBalance 0 (markSuicided o)) s)
  end.

(** ** Logs, preimages, refunds, access list *)

Definition db_AddLog (l : Log) (s : StateDB) : StateDB :=
  let s := journal_append (addLogChange (thash s)) s in
  let l := {| tl_log := l; tl_TxHash := thash s; tl_BlockHash := bhash s;
              tl_TxIndex := txIndex s; tl_Index := logSize s |} in
  let s := set_logs (<[thash s := default [] (logs s !! thash s) ++ [l]]> (logs s)) s in
  set_logSize (add64 (logSize s) 1) s.

Definition db_AddPreimage (h : Hash) (preimage : bytes) (s : StateDB) : StateDB :=
  match preimages s !! h with
  | Some _ => s
  | None =>
      let s := journal_append (addPreimageChange h) s in
      set_preimages (<[h := preimage]> (preimages s)) s
  end.

Definition db_AddRefund (gas : Z) (s : StateDB) : StateDB :=
  let s := journal_append (refundChange (refund s)) s in
  set_refund (add64 (refund s) gas) s.
Definition db_SubRefund (gas : Z) (s : StateDB) : option StateDB :=
  let s := journal_append (refundChange (refund s)) s in
  if refund s <? gas then None else Some (set_refund (refund s - gas) s).

Definition db_AddAddressToAccessList (a : Address) (s : StateDB) : StateDB :=
  let al := default newAccessList (accessList s) in
  let '(added, al) := AddAddress al a in
  let s := set_accessList (Some al) s in
  if added : bool then journal_append (accessListAddAccountChange a) s else s.

Definition db_AddSlotToAccessList (a : Address) (slot : Hash) (s : StateDB) : option StateDB :=
  let al := default newAccessList (accessList s) in
  '(addrMod, slotMod, al) ← AddSlot al a slot;
  let s := set_accessList (Some al) s in
  let s := if addrMod : bool then journal_append (accessListAddAccountChange a) s else s in
  Some (if slotMod : bool then journal_append (accessListAddSlotChange a slot) s else s).

Definition db_AddressInAccessList (a : Address) (s : StateDB) : bool :=
  match accessList s with None => false | Some al => ContainsAddress al a end.
Definition db_SlotInAccessList (a : Address) (slot : Hash) (s : StateDB) : option (bool * bool) :=
  match accessList s with None => Some (false, false) | Some al => Contains al a slot end.

(** [PrepareAccessList]; the transaction's access list is a list of addresses with keys. *)
Definition db_PrepareAccessList (sender : Address) (dst : option Address) (precompiles : list Address)
    (l : list (Address * list Hash)) (s : StateDB) : option StateDB :=
  let s := db_AddAddressToAccessList sender s in
  let s := match dst with Some d => db_AddAddressToAccessList d s | None => s end in
  let s := fold_left (λ s a, db_AddAddressToAccessList a s) precompiles s in
  fold_left (λ s el, s ← s; let s := db_AddAddressToAccessList el.1 s in
    fold_left (λ s key, s ← s; db_AddSlotToAccessList el.1 key s) el.2 (Some s)) l (Some s).

(** ** The journal *)

(** Changes the live object of an address; a nil object is a panic. *)
Definition on_live (a : Address) (f : StateObject → StateObject) (s : StateDB) : option StateDB :=
  let '(o, s) := getStateObject a s in
  o ← o; Some (SetStateObject (f o) s).

Definition revert (e : journalEntry T) (s : StateDB) : option StateDB :=
  match e with
  | createObjectChange a =>
      Some (set_stateObjectsDirty (stateObjectsDirty s ∖ {[a]}) (set_stateObjects (delete a (stateObjects s)) s))
  | resetObjectChange prev prevdestruct =>
      let s := SetStateObject prev s in
      Some (if negb prevdestruct && bool_decide (is_Some (snap s))
            then set_snapDestructs (snapDestructs s ∖ {[address prev]}) s else s)
  | suicideChange a prev prevbalance =>
      let '(o, s) := getStateObject a s in
      match o with
      | Some o => Some (SetStateObject (obj_setBalance prevbalance (set_suicided prev o)) s)
      | None => Some s
      end
  | touchChange _ => Some s
  | balanceChange a prev => on_live a (obj_setBalance prev) s
  | nonceChange a prev => on_live a (obj_setNonce prev) s
  | codeChange a prevcode prevhash => on_live a (obj_setCode prevhash prevcode) s
  | storageChange a key prevalue => on_live a (obj_setState key prevalue) s
  | refundChange prev => Some (set_refund prev s)
  | addLogChange h =>
      let l := default [] (logs s !! h) in
      let s' :=
        if zlen l =? 1 then Some (set_logs (delete h (logs s)) s)
        else l' ← slice l 0 (zlen l - 1); Some (set_logs (<[h := l']> (logs s)) s) in
      s' ← s'; Some (set_logSize (sub64 (logSize s') 1) s')
  | addPreimageChange h => Some (set_preimages (delete h (preimages s)) s)
  | accessListAddAccountChange a =>
      match accessList s with
      | Some al => Some (set_accessList (Some (DeleteAddress al a)) s)
      | None => Some s
      end
  | accessListAddSlotChange a slot =>
      match accessList s with
      | Some al => al ← DeleteSlot al a slot; Some (set_accessList (Some al) s)
      | None => Some s
      end
  end.

(** Drops the dirty mark of an entry. *)
Definition drop_dirty (e : journalEntry T) (s : StateDB) : StateDB :=
  match dirtied e with
  | None => s
  | Some a =>
      let n := default 0 (dirties (journal s) !! a) - 1 in
      set_journal {| entries := entries (journal s);
                     dirties := if n =? 0 then delete a (dirties (journal s))
                                else <[a := n]> (dirties (journal s)) |} s
  end.

(** The loop of [journal.revert], over the entries from the last one back. *)
Fixpoint revert_entries (es : list (journalEntry T)) (s : StateDB) : option StateDB :=
  match es with
  | [] => Some s
  | e :: es => s ← revert e s; revert_entries es (drop_dirty e s)
  end.
Definition journal_revert (snapshot : Z) (s : StateDB) : option StateDB :=
  s' ← revert_entries (reverse (drop (Z.to_nat snapshot) (entries (journal s)))) s;
  es ← slice (entries (journal s')) 0 snapshot;
  Some (set_journal {| entries := es; dirties := dirties (journal s') |} s').

(** ** Snapshots *)

Definition db_Snapshot (s : StateDB) : Z * StateDB :=
  let id := nextRevisionId s in
  (id, set_validRevisions
         (validRevisions s ++ [{| rev_id := id; journalIndex := zlen (entries (journal s)) |}])
         (set_nextRevisionId (id + 1) s)).

(** [sort.Search] over the revisions. *)
Fixpoint search_revision (fuel : nat) (i j : Z) (revid : Z) (l : list revision) : option Z :=
  match fuel with
  | O => None
  | S fuel =>
      if i <? j then
        let h := (i + j) / 2 in
        r ← index l h;
        if negb (revid <=? rev_id r) then search_revision fuel (h + 1) j revid l
        else search_revision fuel i h revid l
      else Some i
  end.

Definition db_RevertToSnapshot (revid : Z) (s : StateDB) : option StateDB :=
  let l := validRevisions s in
  idx ← search_revision (S (length l)) 0 (zlen l) revid l;
  r ← index l idx;
  if negb (rev_id r =? revid) then None
  else
    s ← journal_revert (journalIndex r) s;
    l ← slice (validRevisions s) 0 idx;
    Some (set_validRevisions l s).

(** ** The end of a transaction *)

Definition clearJournalAndRefund (s : StateDB) : StateDB :=
  let s := if 0 <? zlen (entries (journal s))
           then set_refund 0 (set_journal {| entries := []; dirties := ∅ |} s) else s in
  set_validRevisions [] s.

(** One dirty account: deleted, or its storage made pending. *)
Definition finalise_account (deleteEmptyObjects : bool) (s : StateDB) (a : Address) : StateDB :=
  match stateObjects s !! a with
  | None => s
  | Some o =>
      let '(o, s) :=
        if suicided o || (deleteEmptyObjects && obj_empty o) then
          (set_deleted true o,
           if bool_decide (is_Some (snap s)) then
             set_snapStorage (delete (address o) (snapStorage s))
               (set_snapAccounts (delete (address o) (snapAccounts s))
                 (set_snapDestructs ({[address o]} ∪ snapDestructs s) s))
           else s)
        else (obj_finalise Keccak256Hash s o, s) in
      let s := set_stateObjects (<[a := o]> (stateObjects s)) s in
      set_stateObjectsDirty ({[a]} ∪ stateObjectsDirty s)
        (set_stateObjectsPending ({[a]} ∪ stateObjectsPending s) s)
  end.

(** The order of the accounts is that of the map's iteration, which Go leaves open. *)
Definition Finalise (deleteEmptyObjects : bool) (s : StateDB) : StateDB :=
  clearJournalAndRefund
    (fold_left (finalise_account deleteEmptyObjects) ((map_to_list (dirties (journal s))).*1) s).

Definition db_Prepare (thash bhash : Hash) (ti : Z) (s : StateDB) : StateDB := {|
  db := db s; originalRoot := originalRoot s; trie := trie s; lightProcessed := lightProcessed s;
  pipeCommit := pipeCommit s; snap := snap s; snapDestructs := snapDestructs s;
  snapAccounts := snapAccounts s; snapStorage := snapStorage s; stateObjects := stateObjects s;
  stateObjectsPending := stateObjectsPending s; stateObjectsDirty := stateObjectsDirty s;
  storagePool := storagePool s; writeOnSharedStorage := writeOnSharedStorage s; dbErr := dbErr s;
  refund := refund s; thash := thash; bhash := bhash; txIndex := ti; logs := logs s;
  logSize := logSize s; preimages := preimages s; accessList := None; journal := journal s;
  validRevisions := validRevisions s; nextRevisionId := nextRevisionId s |}.

(** ** The end of a block *)

(** [snapshot.SlimAccountRLP]; a negative balance cannot be encoded. *)
Definition SlimAccount_of (d : Account) : SlimAccount := {|
  sl_Nonce := acc_Nonce d; sl_Balance := acc_Balance d;
  sl_Root := if acc_Root d =? emptyRoot then [] else hash_bytes (acc_Root d);
  sl_CodeHash := if acc_CodeHash d =? emptyCodeHash Keccak256Hash then [] else hash_bytes (acc_CodeHash d) |}.
Definition SlimAccountRLP (d : Account) : option bytes :=
  let a := SlimAccount_of d in
  EncodeToBytes (VList [VUint (sl_Nonce a); VBigInt (Some (sl_Balance a)); VBytes (sl_Root a); VBytes (sl_CodeHash a)]).

(** One task of [AccountsIntermediateRoot]: the tasks run concurrently, each on an object
    of its own. *)
Definition account_root (a : Address) (s : StateDB) : option StateDB :=
  o ← stateObjects s !! a;
  if deleted o then Some s
  else
    let '(o, s) := updateRoot Keccak256Hash s o in
    s ← (if bool_decide (is_Some (snap s)) then
           slim ← SlimAccountRLP (data o);
           Some (set_snapAccounts (<[address o := slim]> (snapAccounts s)) s)
         else Some s);
    enc ← EncodeToBytes (account_value (data o));
    Some (set_stateObjects (<[a := set_encodeData (Some enc) o]> (stateObjects s)) s).
Definition AccountsIntermediateRoot (s : StateDB) : option StateDB :=
  fold_left (λ s a, s ← s; account_root a s) (elements (stateObjectsPending s)) (Some s).

Definition updateStateObject (o : StateObject) (t : T) (s : StateDB) : option (T * StateDB) :=
  enc ← match encodeData o with Some e => Some e | None => EncodeToBytes (account_value (data o)) end;
  match TryUpdate t (addr_bytes (address o)) enc with
  | inl t => Some (t, s)
  | inr e => Some (t, db_setError (UpdateObjectError (address o) e) s)
  end.
Definition deleteStateObject (o : StateObject) (t : T) (s : StateDB) : T * StateDB :=
  match TryDelete t (addr_bytes (address o)) with
  | inl t => (t, s)
  | inr e => (t, db_setError (DeleteObjectError (address o) e) s)
  end.

(** One pending account is written to the trie. *)
Definition write_account (ts : T * StateDB) (a : Address) : option (T * StateDB) :=
  let '(t, s) := ts in
  o ← stateObjects s !! a;
  if deleted o then Some (deleteStateObject o t s) else updateStateObject o t s.

Definition StateIntermediateRoot (s : StateDB) : option (Hash * StateDB) :=
  t ← match trie s with
      | Some t => Some t
      | None => match OpenTrie (db s) (originalRoot s) with inl t => Some t | inr _ => None end
      end;
  '(t, s) ← fold_left (λ ts a, ts ← ts; write_account ts a) (elements (stateObjectsPending s)) (Some (t, s));
  Some (Trie_Hash t, set_stateObjectsPending ∅ (set_trie (Some t) s)).

Definition IntermediateRoot (deleteEmptyObjects : bool) (s : StateDB) : option (Hash * StateDB) :=
  if lightProcessed s then t ← trie s; Some (Trie_Hash t, s)
  else s ← AccountsIntermediateRoot (Finalise deleteEmptyObjects s); StateIntermediateRoot s.

(** ** Copies *)

(** [newStateDB]; [snaps] is the snapshot layer of the root, if there is one. *)
Definition newStateDB (root : Hash) (d : D) (sn : option SN) (verified : bool) : option StateDB :=
  let t := OpenTrie d root in
  let made (t : option T) := {|
    db := d; originalRoot := root; trie := t; lightProcessed := false; pipeCommit := false; snap := sn;
    snapDestructs := ∅; snapAccounts := ∅; snapStorage := ∅; stateObjects := ∅;
    stateObjectsPending := ∅; stateObjectsDirty := ∅; storagePool := None;
    writeOnSharedStorage := false; dbErr := None; refund := 0; thash := 0; bhash := 0; txIndex := 0;
    logs := ∅; logSize := 0; preimages := ∅; accessList := None;
    journal := {| entries := []; dirties := ∅ |}; validRevisions := []; nextRevisionId := 0 |} in
  match t with
  | inl t => Some (made (Some t))
  | inr _ => if bool_decide (sn = None) || verified then None else Some (made None)
  end.

(** The objects a copy takes over: the dirty ones of the journal that are loaded, and
    those pending or dirty, of which a missing one is a nil pointer. *)
Definition copy_objects (s c : StateDB) : option (gmap Address StateObject) :=
  let from_journal := omap (λ a, (λ o, (a, deepCopy c o)) <$> stateObjects s !! a)
                        ((map_to_list (dirties (journal s))).*1) in
  rest ← mapM (λ a, o ← stateObjects s !! a; Some (a, deepCopy c o))
           (elements (stateObjectsPending s ∪ stateObjectsDirty s));
  Some (list_to_map (from_journal ++ rest)).

Definition Copy (s : StateDB) : option StateDB :=
  let marked : gset Address :=
    list_to_set (filter (λ a, is_Some (stateObjects s !! a)) ((map_to_list (dirties (journal s))).*1)) in
  let c := {|
    db := db s; originalRoot := 0; trie := trie s; lightProcessed := false; pipeCommit := false;
    snap := snap s; snapDestructs := snapDestructs s; snapAccounts := snapAccounts s;
    snapStorage := snapStorage s; stateObjects := ∅;
    stateObjectsPending := marked ∪ stateObjectsPending s;
    stateObjectsDirty := marked ∪ stateObjectsDirty s;
    storagePool := storagePool s; writeOnSharedStorage := false; dbErr := None; refund := refund s;
    thash := 0; bhash := 0; txIndex := 0; logs := logs s; logSize := logSize s;
    preimages := preimages s; accessList := accessList s;
    journal := {| entries := []; dirties := ∅ |}; validRevisions := []; nextRevisionId := 0 |} in
  objects ← copy_objects s c;
  Some (set_stateObjects objects c).
End statedb.
