(* ===== verification/StateView.v ===== *)
(** * What a state database shows

    A [StateDB] is read through caches: objects are loaded on first use, slots and codes
    when they are asked for, the account trie when it is needed.  [view] is what can be
    observed through all of that, and the lemmas here say that reading does not change it
    and what each change to an object does to it. *)

From Stdlib Require Import FunctionalExtensionality.
From S2P Require Import Prelude Params VmData VmState Rlp RlpStream StateData StateObjects StateDbOps.

(** An account as it can be observed: [a_committed] is the storage before the transaction,
    [a_state] the storage now. *)
Record acct := {
  a_data : Account;
  a_code : bytes;
  a_suicided : bool;
  a_deleted : bool;
  a_committed : Hash → Hash;
  a_state : Hash → Hash;
}.

(** Everything that can be observed, and that a revert has to bring back. *)
Record world := {
  w_acct : Address → option acct;
  w_gone : gset Address;
  w_refund : Z;
  w_logs : gmap Hash (list TxLog);
  w_logSize : Z;
  w_preimages : gmap Hash bytes;
  w_al : AccessList;
}.

Definition set_w_acct (f : Address → option acct) (w : world) : world := {|
  w_acct := f; w_gone := w_gone w; w_refund := w_refund w; w_logs := w_logs w;
  w_logSize := w_logSize w; w_preimages := w_preimages w; w_al := w_al w |}.
Definition set_w_gone (g : gset Address) (w : world) : world := {|
  w_acct := w_acct w; w_gone := g; w_refund := w_refund w; w_logs := w_logs w;
  w_logSize := w_logSize w; w_preimages := w_preimages w; w_al := w_al w |}.
Definition set_w_refund (r : Z) (w : world) : world := {|
  w_acct := w_acct w; w_gone := w_gone w; w_refund := r; w_logs := w_logs w;
  w_logSize := w_logSize w; w_preimages := w_preimages w; w_al := w_al w |}.
Definition set_w_logs (l : gmap Hash (list TxLog)) (n : Z) (w : world) : world := {|
  w_acct := w_acct w; w_gone := w_gone w; w_refund := w_refund w; w_logs := l;
  w_logSize := n; w_preimages := w_preimages w; w_al := w_al w |}.
Definition set_w_preimages (p : gmap Hash bytes) (w : world) : world := {|
  w_acct := w_acct w; w_gone := w_gone w; w_refund := w_refund w; w_logs := w_logs w;
  w_logSize := w_logSize w; w_preimages := p; w_al := w_al w |}.
Definition set_w_al (al : AccessList) (w : world) : world := {|
  w_acct := w_acct w; w_gone := w_gone w; w_refund := w_refund w; w_logs := w_logs w;
  w_logSize := w_logSize w; w_preimages := w_preimages w; w_al := al |}.

(** An update at one point. *)
Definition upd {A} (a : Z) (x : A) (f : Z → A) : Z → A := λ b, if b =? a then x else f b.
Lemma upd_eq {A} a (x : A) f : upd a x f a = x.
Proof. unfold upd. by rewrite Z.eqb_refl. Qed.
Lemma upd_ne {A} a b (x : A) f : b ≠ a → upd a x f b = f b.
Proof. intros H. unfold upd. by rewrite (proj2 (Z.eqb_neq b a)). Qed.
Lemma upd_id {A} a (f : Z → A) : upd a (f a) f = f.
Proof. extensionality b. unfold upd. destruct (Z.eqb_spec b a); congruence. Qed.
Lemma upd_upd {A} a (x y : A) f : upd a x (upd a y f) = upd a x f.
Proof. extensionality b. unfold upd. by destruct (b =? a). Qed.

Definition put_acct (a : Address) (x : option acct) (w : world) : world := set_w_acct (upd a x (w_acct w)) w.

Section view.
Context {D T SN : Type} {B : Backend D T SN}.
Variable Keccak256Hash : bytes → Hash.

Abbreviation StateObject := (StateObject T).
Abbreviation StateDB := (StateDB D T SN).
Abbreviation getTrie := (@getTrie D T SN B Keccak256Hash).

(** ** Below the objects *)

(** What does not change during a transaction; the trie is the one that is open or would
    be opened. *)
Record konst := { k_db : D; k_snap : option SN; k_trie : option T; k_thash : Hash; k_bhash : Hash; k_txIndex : Z }.
Definition open_trie (s : StateDB) : option T :=
  match trie s with
  | Some t => Some t
  | None => match OpenTrie (db s) (originalRoot s) with inl t => Some t | inr _ => None end
  end.
Definition konst_of (s : StateDB) : konst := {|
  k_db := db s; k_snap := snap s; k_trie := open_trie s;
  k_thash := thash s; k_bhash := bhash s; k_txIndex := txIndex s |}.

(** The account below the objects. *)
Definition base_account (k : konst) (a : Address) : option Account :=
  let from_trie :=
    t ← k_trie k;
    match TryGet t (addr_bytes a) with
    | inr _ => None
    | inl enc => if zlen enc =? 0 then None else decode_account enc
    end in
  match k_snap k with
  | None => from_trie
  | Some sn =>
      match snap_Account sn (Keccak256Hash (addr_bytes a)) with
      | inl None => None
      | inl (Some acc) => Some (slim_data Keccak256Hash acc)
      | inr _ => from_trie
      end
  end.

(** The slot below the caches of an object; [gone]: the account was destructed in this
    block. *)
Definition slot_below (k : konst) (gone : bool) (o : StateObject) (key : Hash) : Hash :=
  if bool_decide (is_Some (k_snap k)) && gone then 0
  else
    let from_trie := TryGet (getTrie (k_db k) o).1 (hash_bytes key) in
    let enc :=
      match k_snap k with
      | None => from_trie
      | Some sn =>
          match snap_Storage sn (addrHash Keccak256Hash o) (Keccak256Hash (hash_bytes key)) with
          | inl enc => inl enc
          | inr _ => from_trie
          end
      end in
    match enc with inl enc => (slot_value enc).1 | inr _ => 0 end.

(** ** The view *)

Definition committed_view (k : konst) (gone : bool) (o : StateObject) (key : Hash) : Hash :=
  match pendingStorage o !! key with
  | Some v => v
  | None => match originStorage o !! key with Some v => v | None => slot_below k gone o key end
  end.
Definition obj_view (k : konst) (gone : bool) (o : StateObject) : acct := {|
  a_data := data o;
  a_code := default [] (obj_Code Keccak256Hash (k_db k) o).1;
  a_suicided := suicided o;
  a_deleted := deleted o;
  a_committed := committed_view k gone o;
  a_state := λ key, match dirtyStorage o !! key with Some v => v | None => committed_view k gone o key end;
|}.

(** [newObject] without a shared pool. *)
Definition bare_object (a : Address) (d : Account) : StateObject := {|
  address := a;
  data := if acc_Root d =? 0 then with_root emptyRoot d else d;
  rootCorrected := false; obj_dbErr := None; obj_trie := None; code := None;
  sharedOriginStorage := false;
  originStorage := ∅; pendingStorage := ∅; dirtyStorage := ∅; fakeStorage := None;
  dirtyCode := false; suicided := false; deleted := false; encodeData := None |}.

(** The object of an address, loaded or not. *)
Definition object_at (s : StateDB) (a : Address) : option StateObject :=
  match stateObjects s !! a with
  | Some o => Some o
  | None => bare_object a <$> base_account (konst_of s) a
  end.
Definition view_acct (s : StateDB) (a : Address) : option acct :=
  obj_view (konst_of s) (bool_decide (a ∈ snapDestructs s)) <$> object_at s a.

Definition view (s : StateDB) : world := {|
  w_acct := view_acct s;
  w_gone := snapDestructs s;
  w_refund := refund s;
  w_logs := logs s;
  w_logSize := logSize s;
  w_preimages := preimages s;
  w_al := default newAccessList (accessList s);
|}.

(** ** Well-formed objects *)

(** Not a debugging object, and no shared pool behind it. *)
Record obj_ok (o : StateObject) : Prop := {
  ok_fake : fakeStorage o = None;
  ok_shared : sharedOriginStorage o = false;
}.
Record objects_ok (s : StateDB) : Prop := {
  ok_pool : storagePool s = None;
  ok_address a o : stateObjects s !! a = Some o → address o = a;
  ok_object a o : stateObjects s !! a = Some o → obj_ok o;
}.

Lemma newObject_bare s a d : storagePool s = None → @newObject D T SN s a d = bare_object a d.
Proof. intros H. unfold newObject. by rewrite H. Qed.

Lemma bare_ok a d : obj_ok (bare_object a d).
Proof. done. Qed.

(** ** Changes of the caches *)

(** The states that differ in caches only. *)
Record quiet (s s' : StateDB) : Prop := {
  q_konst : konst_of s' = konst_of s;
  q_view : view s' = view s;
  q_journal : journal s' = journal s;
  q_revisions : validRevisions s' = validRevisions s;
  q_next : nextRevisionId s' = nextRevisionId s;
  q_pending : stateObjectsPending s' = stateObjectsPending s;
  q_dirty : stateObjectsDirty s' = stateObjectsDirty s;
  q_ok : objects_ok s → objects_ok s';
}.

Lemma quiet_refl s : quiet s s.
Proof. by split. Qed.
Lemma quiet_trans s1 s2 s3 : quiet s1 s2 → quiet s2 s3 → quiet s1 s3.
Proof. intros [] []. split; [congruence..|auto]. Qed.

Lemma db_setError_quiet e s : quiet s (db_setError e s).
Proof. unfold db_setError. destruct (dbErr s); [apply quiet_refl|]. split; try done. by intros []. Qed.

(** Opening the account trie. *)
Lemma set_trie_quiet s t : open_trie s = Some t → quiet s (set_trie (Some t) s).
Proof.
  intros H. assert (Hk : konst_of (set_trie (Some t) s) = konst_of s).
  { unfold konst_of at 1. simpl. unfold open_trie at 1. simpl. unfold konst_of. by rewrite H. }
  split; try done; [|by intros []].
  unfold view. f_equal. extensionality a. unfold view_acct, object_at. by rewrite Hk.
Qed.

Lemma view_acct_set s o :
  view_acct (SetStateObject o s) =
  upd (address o) (Some (obj_view (konst_of s) (bool_decide (address o ∈ snapDestructs s)) o)) (view_acct s).
Proof.
  extensionality b. unfold upd. destruct (Z.eqb_spec b (address o)) as [->|Hne].
  - unfold view_acct, object_at. simpl. by rewrite lookup_insert_eq.
  - unfold view_acct, object_at. simpl. by rewrite lookup_insert_ne by congruence.
Qed.

Lemma view_set s o :
  view (SetStateObject o s) =
  put_acct (address o) (Some (obj_view (konst_of s) (bool_decide (address o ∈ snapDestructs s)) o)) (view s).
Proof. unfold view, put_acct, set_w_acct. simpl. by rewrite view_acct_set. Qed.

Lemma set_ok o s : obj_ok o → objects_ok s → objects_ok (SetStateObject o s).
Proof.
  intros Ho [H1 H2 H3]. split; simpl; [done|..]; intros a o'; rewrite lookup_insert_Some;
    intros [[<- <-]|[_ H]]; eauto.
Qed.

(** An object that looks the same takes the place of the one of its address. *)
Lemma set_quiet s o o' : objects_ok s → object_at s (address o') = Some o → obj_ok o' →
  obj_view (konst_of s) (bool_decide (address o' ∈ snapDestructs s)) o' =
    obj_view (konst_of s) (bool_decide (address o' ∈ snapDestructs s)) o →
  quiet s (SetStateObject o' s).
Proof.
  intros Hs Ho Hok Hv. split; try done; [|by apply set_ok].
  rewrite view_set, Hv. unfold put_acct. simpl.
  assert (E : Some (obj_view (konst_of s) (bool_decide (address o' ∈ snapDestructs s)) o) =
    view_acct s (address o')) by (unfold view_acct; by rewrite Ho).
  rewrite E, upd_id. by destruct s.
Qed.

(** ** Loading *)

Lemma trie_account_ok a s : ∃ s',
  trie_account a s = (t ← open_trie s;
    match TryGet t (addr_bytes a) with
    | inr _ => None | inl enc => if zlen enc =? 0 then None else decode_account enc end, s') ∧
  quiet s s' ∧ stateObjects s' = stateObjects s ∧ snapDestructs s' = snapDestructs s.
Proof.
  unfold trie_account.
  assert (He : ∀ t s1, quiet s s1 → stateObjects s1 = stateObjects s → snapDestructs s1 = snapDestructs s →
    ∃ s', match TryGet t (addr_bytes a) with
          | inl enc => (if zlen enc =? 0 then None else decode_account enc, s1)
          | inr e => (None, db_setError (GetObjectError a e) s1) end =
      (match TryGet t (addr_bytes a) with
       | inr _ => None | inl enc => if zlen enc =? 0 then None else decode_account enc end, s') ∧
      quiet s s' ∧ stateObjects s' = stateObjects s ∧ snapDestructs s' = snapDestructs s).
  { intros t s1 Hq H1 H2. destruct (TryGet t (addr_bytes a)) as [enc|e].
    - by exists s1.
    - eexists. split; [done|]. split; [eapply quiet_trans; [done|apply db_setError_quiet]|].
      unfold db_setError. by destruct (dbErr s1). }
  destruct (trie s) as [t|] eqn:Ht.
  - assert (open_trie s = Some t) as -> by (unfold open_trie; by rewrite Ht).
    by apply He; [apply quiet_refl|..].
  - destruct (OpenTrie (db s) (originalRoot s)) as [t|e] eqn:Ho.
    + assert (Hot : open_trie s = Some t) by (unfold open_trie; by rewrite Ht, Ho).
      rewrite Hot. apply (He t (set_trie (Some t) s)); try done. by apply set_trie_quiet.
    + assert (open_trie s = None) as -> by (unfold open_trie; by rewrite Ht, Ho).
      eexists. split; [done|]. split; [apply db_setError_quiet|].
      unfold db_setError. by destruct (dbErr s).
Qed.

Lemma object_at_address s a o : objects_ok s → object_at s a = Some o → address o = a ∧ obj_ok o.
Proof.
  intros [H1 H2 H3]. unfold object_at. destruct (stateObjects s !! a) as [o'|] eqn:E; [intros [= ->]; eauto|].
  intros (d & _ & ->)%fmap_Some_1. split; [done|apply bare_ok].
Qed.

Lemma load_ok a s : objects_ok s → ∃ s',
  getDeletedStateObject Keccak256Hash a s = (object_at s a, s') ∧ quiet s s' ∧
  (∀ o, object_at s a = Some o → stateObjects s' !! a = Some o) ∧
  (object_at s a = None → stateObjects s' !! a = None).
Proof.
  intros Hok. unfold getDeletedStateObject.
  destruct (stateObjects s !! a) as [o|] eqn:Ho.
  { exists s. assert (E : object_at s a = Some o) by (unfold object_at; by rewrite Ho). rewrite E.
    split; [done|]. split; [apply quiet_refl|]. split; [by intros ? [= <-]|done]. }
  assert (Hload : ∀ d s1, quiet s s1 → stateObjects s1 = stateObjects s → snapDestructs s1 = snapDestructs s →
    d = base_account (konst_of s) a → ∃ s',
    match d with None => (None, s1) | Some d => let o := newObject s1 a d in (Some o, SetStateObject o s1) end =
      (object_at s a, s') ∧ quiet s s' ∧ (∀ o, object_at s a = Some o → stateObjects s' !! a = Some o) ∧
      (object_at s a = None → stateObjects s' !! a = None)).
  { intros d s1 Hq H1 H2 ->. unfold object_at. rewrite Ho.
    destruct (base_account (konst_of s) a) as [d|] eqn:Hd; simpl.
    - pose proof (q_ok _ _ Hq Hok) as Hok1. rewrite newObject_bare by apply Hok1.
      eexists. split; [done|]. split; [|split; [|done]].
      + eapply quiet_trans; [done|]. apply (set_quiet s1 (bare_object a d)); try done.
        simpl. unfold object_at. by rewrite H1, Ho, (q_konst _ _ Hq), Hd.
      + intros o [= <-]. simpl. by rewrite lookup_insert_eq.
    - exists s1. split; [done|]. split; [done|]. split; [done|]. by rewrite H1. }
  destruct (snap s) as [sn|] eqn:Hsn.
  - destruct (snap_Account sn (Keccak256Hash (addr_bytes a))) as [[acc|]|e] eqn:Hacc.
    + apply (Hload (Some (slim_data Keccak256Hash acc)) s); try done.
      unfold base_account. simpl. by rewrite Hsn, Hacc.
    + apply (Hload None s); try done. unfold base_account. simpl. by rewrite Hsn, Hacc.
    + destruct (trie_account_ok a s) as (s1 & -> & Hq & H1 & H2).
      apply Hload; try done. unfold base_account. simpl. by rewrite Hsn, Hacc.
  - destruct (trie_account_ok a s) as (s1 & -> & Hq & H1 & H2).
    apply Hload; try done. unfold base_account. simpl. by rewrite Hsn.
Qed.

(** The object of an address unless it was deleted. *)
Definition live (s : StateDB) (a : Address) : option StateObject :=
  o ← object_at s a; if deleted o then None else Some o.

Lemma getStateObject_ok a s : objects_ok s → ∃ s',
  getStateObject Keccak256Hash a s = (live s a, s') ∧ quiet s s' ∧
  (∀ o, object_at s a = Some o → stateObjects s' !! a = Some o) ∧
  (object_at s a = None → stateObjects s' !! a = None).
Proof.
  intros Hok. destruct (load_ok a s Hok) as (s' & H1 & H2 & H3 & H4).
  exists s'. split; [|done]. unfold getStateObject, live. rewrite H1. by destruct (object_at s a).
Qed.

(** ** Reading an object *)

Lemma slot_below_ext k gone o o' : address o' = address o →
  (getTrie (k_db k) o').1 = (getTrie (k_db k) o).1 → slot_below k gone o' = slot_below k gone o.
Proof.
  intros Ha Ht. extensionality key. unfold slot_below, addrHash. by rewrite Ha, Ht.
Qed.

Lemma getTrie_ext d o o' : address o' = address o → obj_trie o' = obj_trie o →
  acc_Root (data o') = acc_Root (data o) → (getTrie d o').1 = (getTrie d o).1.
Proof.
  intros Ha Ht Hd. unfold StateObjects.getTrie, addrHash. rewrite Ht, Ha, Hd.
  destruct (obj_trie o); [done|]. by destruct (OpenStorageTrie _ _ _).
Qed.

(** The slots depend on the trie, its root and what is cached of it. *)
Lemma committed_ext k gone o o' : address o' = address o → obj_trie o' = obj_trie o →
  acc_Root (data o') = acc_Root (data o) → pendingStorage o' = pendingStorage o →
  originStorage o' = originStorage o → committed_view k gone o' = committed_view k gone o.
Proof.
  intros Ha Ht Hd Hp Ho. extensionality key. unfold committed_view.
  by rewrite Hp, Ho, (slot_below_ext k gone o o' Ha (getTrie_ext _ o o' Ha Ht Hd)).
Qed.

Lemma getTrie_again d o : (getTrie d (getTrie d o).2).1 = (getTrie d o).1.
Proof.
  unfold StateObjects.getTrie at 2 3. destruct (obj_trie o) as [t|] eqn:Ht; simpl.
  - unfold StateObjects.getTrie. by rewrite Ht.
  - destruct (OpenStorageTrie _ _ _) as [t|e]; simpl; [done|].
    unfold obj_setError. simpl. by destruct (obj_dbErr o).
Qed.

(** What reading a slot leaves in the object. *)
Record warmed (o o' : StateObject) : Prop := {
  wm_address : address o' = address o;
  wm_data : data o' = data o;
  wm_code : code o' = code o;
  wm_flags : suicided o' = suicided o ∧ deleted o' = deleted o ∧ dirtyCode o' = dirtyCode o;
  wm_dirty : dirtyStorage o' = dirtyStorage o;
  wm_pending : pendingStorage o' = pendingStorage o;
  wm_ok : obj_ok o → obj_ok o';
}.
Lemma warmed_refl o : warmed o o.
Proof. by split. Qed.
Lemma warmed_trans o1 o2 o3 : warmed o1 o2 → warmed o2 o3 → warmed o1 o3.
Proof. intros [? ? ? (? & ? & ?)] [? ? ? (? & ? & ?)]. split; try congruence; [split_and!; congruence|auto]. Qed.
Lemma warmed_error e o : warmed o (obj_setError e o).
Proof. unfold obj_setError. destruct (obj_dbErr o); [apply warmed_refl|]. split; try done. by intros []. Qed.
Lemma warmed_trie d o : warmed o (getTrie d o).2.
Proof.
  unfold StateObjects.getTrie. destruct (obj_trie o); [apply warmed_refl|].
  assert (∀ t, warmed o (set_obj_trie (Some t) o)) by (split; try done; by intros []).
  destruct (OpenStorageTrie _ _ _); simpl; [done|]. eapply warmed_trans; [done|apply warmed_error].
Qed.
Lemma warmed_slot key v o : warmed o (set_originStorage (<[key := v]> (originStorage o)) o).
Proof. split; try done. by intros []. Qed.

Lemma getTrie_error d e o : (getTrie d (obj_setError e o)).1 = (getTrie d o).1.
Proof.
  unfold obj_setError. destruct (obj_dbErr o) eqn:E; [done|]. unfold StateObjects.getTrie. simpl.
  destruct (obj_trie o); [done|]. by destruct (OpenStorageTrie _ _ _).
Qed.

(** The object looks the same if the slots do. *)
Lemma warmed_view k gone o o' : warmed o o' → committed_view k gone o' = committed_view k gone o →
  obj_view k gone o' = obj_view k gone o.
Proof.
  intros [H1 H2 H3 (H4 & H5 & _) H6 H7 _] Hc. unfold obj_view. rewrite H2, H4, H5, Hc. f_equal.
  - unfold obj_Code, addrHash. rewrite H3, H2, H1. destruct (code o); [done|]. case_if; [done|].
    by destruct (ContractCode _ _ _).
  - by rewrite H6.
Qed.

(** The same slots, one of them cached. *)
Lemma cached_view k gone o o' key : address o' = address o →
  pendingStorage o' = pendingStorage o → pendingStorage o !! key = None →
  originStorage o !! key = None →
  originStorage o' = <[key := slot_below k gone o key]> (originStorage o) ∨ originStorage o' = originStorage o →
  (getTrie (k_db k) o').1 = (getTrie (k_db k) o).1 → committed_view k gone o' = committed_view k gone o.
Proof.
  intros Ha Hp Hpk Hok Ho Ht. extensionality x. unfold committed_view. rewrite Hp.
  rewrite (slot_below_ext k gone o o' Ha Ht). destruct Ho as [-> | ->]; [|done].
  destruct (decide (x = key)) as [->|Hne]; [|by rewrite lookup_insert_ne].
  by rewrite lookup_insert_eq, Hpk, Hok.
Qed.

Lemma read_slot_ok s o key :
  (read_slot Keccak256Hash s o key).1 =
    (let from_trie := TryGet (getTrie (db s) o).1 (hash_bytes key) in
     match snap s with
     | None => from_trie
     | Some sn =>
         match snap_Storage sn (addrHash Keccak256Hash o) (Keccak256Hash (hash_bytes key)) with
         | inl enc => inl enc | inr _ => from_trie end
     end) ∧
  warmed o (read_slot Keccak256Hash s o key).2 ∧
  originStorage (read_slot Keccak256Hash s o key).2 = originStorage o ∧
  (getTrie (db s) (read_slot Keccak256Hash s o key).2).1 = (getTrie (db s) o).1.
Proof.
  assert (Ho : originStorage (getTrie (db s) o).2 = originStorage o).
  { unfold StateObjects.getTrie. destruct (obj_trie o); [done|]. destruct (OpenStorageTrie _ _ _); [done|].
    simpl. unfold obj_setError. simpl. by destruct (obj_dbErr o). }
  unfold read_slot.
  destruct (snap s) as [sn|]; [destruct (snap_Storage _ _ _)|].
  1: split_and!; try done; apply warmed_refl.
  all: pose proof (warmed_trie (db s) o) as Hw; pose proof (getTrie_again (db s) o) as Hg;
    destruct (getTrie (db s) o) as [t o1]; simpl in *; split_and!; done.
Qed.

Lemma read_committed s o key : objects_ok s → obj_ok o → ∃ o',
  obj_GetCommittedState Keccak256Hash s o key =
    (committed_view (konst_of s) (bool_decide (address o ∈ snapDestructs s)) o key, (o', s)) ∧
  warmed o o' ∧
  ∀ gone, gone = bool_decide (address o ∈ snapDestructs s) →
    committed_view (konst_of s) gone o' = committed_view (konst_of s) gone o.
Proof.
  intros Hs [Hf Hsh]. unfold obj_GetCommittedState, committed_view at 1. rewrite Hf.
  destruct (pendingStorage o !! key) as [v|] eqn:Hp; [exists o; split_and!; auto using warmed_refl|].
  unfold getOriginStorage. destruct (originStorage o !! key) as [v|] eqn:Ho;
    [exists o; split_and!; auto using warmed_refl|].
  rewrite Hsh. unfold slot_below. cbn [k_snap konst_of].
  destruct (bool_decide (is_Some (snap s)) && bool_decide (address o ∈ snapDestructs s)) eqn:Hgone;
    [exists o; split_and!; auto using warmed_refl|].
  destruct (read_slot_ok s o key) as (Hr & Hw & Hor & Hg). cbn [k_db konst_of].
  destruct (read_slot Keccak256Hash s o key) as [r o1]. simpl in Hr, Hw, Hor, Hg. rewrite <- Hr.
  assert (Hv : ∀ gone, gone = bool_decide (address o ∈ snapDestructs s) →
    slot_below (konst_of s) gone o key = match r with inl enc => (slot_value enc).1 | inr _ => 0 end).
  { intros gone ->. unfold slot_below. cbn [k_snap konst_of k_db]. by rewrite Hgone, Hr. }
  destruct r as [enc|e].
  - destruct (slot_value enc) as [v err] eqn:Hsv. simpl.
    set (o2 := match err with Some e => obj_setError (StorageDecodeError e) o1 | None => o1 end).
    assert (Hw2 : warmed o1 o2) by (unfold o2; destruct err; [apply warmed_error|apply warmed_refl]).
    assert (Hor2 : originStorage o2 = originStorage o1)
      by (unfold o2; destruct err; [unfold obj_setError; by destruct (obj_dbErr o1)|done]).
    assert (Hg2 : (getTrie (db s) o2).1 = (getTrie (db s) o1).1)
      by (unfold o2; destruct err; [apply getTrie_error|done]).
    assert (Hsh2 : sharedOriginStorage o2 = false) by (by apply (wm_ok _ _ (warmed_trans _ _ _ Hw Hw2))).
    exists (set_originStorage (<[key := v]> (originStorage o2)) o2).
    unfold setOriginStorage. rewrite Hsh2, andb_false_r. split; [done|].
    split; [eapply warmed_trans; [|apply warmed_slot]; by eapply warmed_trans|].
    intros gone Hgo. apply (cached_view _ _ _ _ key).
    + simpl. by rewrite (wm_address _ _ Hw2), (wm_address _ _ Hw).
    + simpl. by rewrite (wm_pending _ _ Hw2), (wm_pending _ _ Hw).
    + done.
    + done.
    + left. simpl. by rewrite Hor2, Hor, (Hv gone Hgo).
    + simpl. rewrite <- Hg, <- Hg2. unfold StateObjects.getTrie. simpl.
      destruct (obj_trie o2); [done|]. by destruct (OpenStorageTrie _ _ _).
  - exists (obj_setError (ReadError e) o1). split; [done|].
    split; [eapply warmed_trans; [done|apply warmed_error]|].
    intros gone Hgo. apply (cached_view _ _ _ _ key).
    + rewrite (wm_address _ _ (warmed_error _ o1)). apply Hw.
    + rewrite (wm_pending _ _ (warmed_error _ o1)). apply Hw.
    + done.
    + done.
    + right. rewrite <- Hor. unfold obj_setError. by destruct (obj_dbErr o1).
    + simpl. by rewrite getTrie_error.
Qed.

Lemma read_state s o key : objects_ok s → obj_ok o → ∃ o',
  obj_GetState Keccak256Hash s o key =
    (a_state (obj_view (konst_of s) (bool_decide (address o ∈ snapDestructs s)) o) key, (o', s)) ∧
  warmed o o' ∧
  ∀ gone, gone = bool_decide (address o ∈ snapDestructs s) →
    obj_view (konst_of s) gone o' = obj_view (konst_of s) gone o.
Proof.
  intros Hs Hok. unfold obj_GetState. rewrite (ok_fake _ Hok). simpl.
  destruct (dirtyStorage o !! key) as [v|]; [exists o; split_and!; auto using warmed_refl|].
  destruct (read_committed s o key Hs Hok) as (o' & H1 & H2 & H3). exists o'. split; [done|].
  split; [done|]. intros gone Hg. apply warmed_view; auto.
Qed.

Lemma error_view k gone e o : obj_view k gone (obj_setError e o) = obj_view k gone o.
Proof.
  pose proof (warmed_error e o) as Hw. apply warmed_view; [done|].
  extensionality key. unfold committed_view. rewrite (wm_pending _ _ Hw).
  rewrite (slot_below_ext _ _ o) by (apply Hw || apply getTrie_error).
  unfold obj_setError. by destruct (obj_dbErr o).
Qed.

Lemma read_code s o : obj_ok o →
  let o' := (obj_Code Keccak256Hash (db s) o).2 in
  obj_ok o' ∧ address o' = address o ∧ data o' = data o ∧
  ∀ gone, obj_view (konst_of s) gone o' = obj_view (konst_of s) gone o.
Proof.
  intros [Hf Hsh]. unfold obj_Code. destruct (code o) as [c|] eqn:Hc; [done|].
  case_if; [done|]. destruct (ContractCode _ _ _) as [c|e] eqn:Hcc; simpl.
  - split_and!; try done. intros gone. unfold obj_view.
    rewrite (committed_ext _ _ o (set_code (Some c) o)) by done. f_equal. simpl.
    unfold obj_Code. simpl. by rewrite Hc, Hif, Hcc.
  - pose proof (warmed_error (CantLoadCode (acc_CodeHash (data o)) e) o) as Hw.
    split; [by apply Hw|]. split; [apply Hw|]. split; [apply Hw|]. intros gone. apply error_view.
Qed.
End view.
