(* ===== verification/StateLedger.v ===== *)
(** * The ledger: a state database without caches or journal

    The specification of [core/state] as the virtual machine sees it.  A [world] is changed
    directly, a snapshot is a copy of it, and reverting puts the copy back.  [undo] is what
    an entry of the journal means for a world. *)

From Stdlib Require Import FunctionalExtensionality.
From S2P Require Import Prelude Params VmData VmState Rlp RlpStream StateData StateObjects StateDbOps StateView.

(** ** Accounts *)

Definition with_balance (b : Z) (x : acct) : acct := {|
  a_data := {| acc_Nonce := acc_Nonce (a_data x); acc_Balance := b; acc_Root := acc_Root (a_data x);
               acc_CodeHash := acc_CodeHash (a_data x) |};
  a_code := a_code x; a_suicided := a_suicided x; a_deleted := a_deleted x;
  a_committed := a_committed x; a_state := a_state x |}.
Definition with_nonce (n : Z) (x : acct) : acct := {|
  a_data := {| acc_Nonce := n; acc_Balance := acc_Balance (a_data x); acc_Root := acc_Root (a_data x);
               acc_CodeHash := acc_CodeHash (a_data x) |};
  a_code := a_code x; a_suicided := a_suicided x; a_deleted := a_deleted x;
  a_committed := a_committed x; a_state := a_state x |}.
Definition with_code (h : Hash) (c : bytes) (x : acct) : acct := {|
  a_data := {| acc_Nonce := acc_Nonce (a_data x); acc_Balance := acc_Balance (a_data x);
               acc_Root := acc_Root (a_data x); acc_CodeHash := h |};
  a_code := c; a_suicided := a_suicided x; a_deleted := a_deleted x;
  a_committed := a_committed x; a_state := a_state x |}.
Definition with_slot (key value : Hash) (x : acct) : acct := {|
  a_data := a_data x; a_code := a_code x; a_suicided := a_suicided x; a_deleted := a_deleted x;
  a_committed := a_committed x; a_state := upd key value (a_state x) |}.
Definition with_suicided (b : bool) (x : acct) : acct := {|
  a_data := a_data x; a_code := a_code x; a_suicided := b; a_deleted := a_deleted x;
  a_committed := a_committed x; a_state := a_state x |}.

(** The account of an address unless it was deleted. *)
Definition live_acct (w : world) (a : Address) : option acct :=
  x ← w_acct w a; if a_deleted x then None else Some x.

(** ** The specification of the operations *)

Section spec.
Variable Keccak256Hash : bytes → Hash.
(** Whether deletions are tracked for the snapshot layer. *)
Variable tracked : bool.

Definition fresh_acct : acct := {|
  a_data := emptyAccount Keccak256Hash; a_code := []; a_suicided := false; a_deleted := false;
  a_committed := λ _, 0; a_state := λ _, 0 |}.

Definition w_create (a : Address) (w : world) : world :=
  put_acct a (Some fresh_acct)
    (match w_acct w a with
     | Some _ => if tracked then set_w_gone ({[a]} ∪ w_gone w) w else w
     | None => w
     end).

(** The account to change, made if there is none. *)
Definition w_write (a : Address) (f : acct → acct) (w : world) : world :=
  match live_acct w a with
  | Some x => put_acct a (Some (f x)) w
  | None => put_acct a (Some (f fresh_acct)) (w_create a w)
  end.

Definition w_CreateAccount (a : Address) (w : world) : world :=
  match live_acct w a with
  | Some x => put_acct a (Some (with_balance (acc_Balance (a_data x)) fresh_acct)) (w_create a w)
  | None => w_create a w
  end.
Definition w_AddBalance (a : Address) (v : Z) : world → world :=
  w_write a (λ x, with_balance (acc_Balance (a_data x) + v) x).
Definition w_SubBalance (a : Address) (v : Z) : world → world :=
  w_write a (λ x, with_balance (acc_Balance (a_data x) - v) x).
Definition w_SetBalance (a : Address) (v : Z) : world → world := w_write a (with_balance v).
Definition w_SetNonce (a : Address) (n : Z) : world → world := w_write a (with_nonce n).
Definition w_SetCode (a : Address) (c : bytes) : world → world := w_write a (with_code (Keccak256Hash c) c).
Definition w_SetState (a : Address) (key value : Hash) : world → world := w_write a (with_slot key value).
Definition w_Suicide (a : Address) (w : world) : bool * world :=
  match live_acct w a with
  | Some x => (true, put_acct a (Some (with_suicided true (with_balance 0 x))) w)
  | None => (false, w)
  end.

(** What is read of an account, with the answer for a missing one. *)
Definition w_read {A} (dflt : A) (f : acct → A) (a : Address) (w : world) : A :=
  match live_acct w a with Some x => f x | None => dflt end.
Definition acct_empty (x : acct) : bool :=
  (acc_Nonce (a_data x) =? 0) && (acc_Balance (a_data x) =? 0) &&
  (acc_CodeHash (a_data x) =? emptyCodeHash Keccak256Hash).

Definition w_AddLog (thash bhash : Hash) (ti : Z) (l : Log) (w : world) : world :=
  let l := {| tl_log := l; tl_TxHash := thash; tl_BlockHash := bhash; tl_TxIndex := ti;
              tl_Index := w_logSize w |} in
  set_w_logs (<[thash := default [] (w_logs w !! thash) ++ [l]]> (w_logs w)) (add64 (w_logSize w) 1) w.
Definition w_AddPreimage (h : Hash) (p : bytes) (w : world) : world :=
  match w_preimages w !! h with
  | Some _ => w
  | None => set_w_preimages (<[h := p]> (w_preimages w)) w
  end.
Definition w_AddRefund (g : Z) (w : world) : world := set_w_refund (add64 (w_refund w) g) w.
Definition w_SubRefund (g : Z) (w : world) : option world :=
  if w_refund w <? g then None else Some (set_w_refund (w_refund w - g) w).
Definition w_AddAddress (a : Address) (w : world) : world := set_w_al (AddAddress (w_al w) a).2 w.
Definition w_AddSlot (a : Address) (slot : Hash) (w : world) : option world :=
  r ← AddSlot (w_al w) a slot; Some (set_w_al r.2 w).
End spec.

(** ** Undoing *)

Section undo.
Context {D T SN : Type} {B : Backend D T SN}.
Variable Keccak256Hash : bytes → Hash.
Abbreviation obj_view := (obj_view Keccak256Hash).
Abbreviation konst := (@konst D T SN).

(** The code an object with this hash and cached code shows. *)
Definition code_shown (k : konst) (a : Address) (h : Hash) (c : option bytes) : bytes :=
  match c with
  | Some c => c
  | None =>
      if h =? emptyCodeHash Keccak256Hash then []
      else match ContractCode (k_db k) (Keccak256Hash (addr_bytes a)) h with inl c => c | inr _ => [] end
  end.

Definition on_acct (a : Address) (f : acct → acct) (w : world) : option world :=
  x ← live_acct w a; Some (put_acct a (Some (f x)) w).

Definition undo (k : konst) (e : journalEntry T) (w : world) : option world :=
  match e with
  | createObjectChange a => Some (put_acct a None w)
  | resetObjectChange prev prevdestruct =>
      let a := address prev in
      let g := if negb prevdestruct && bool_decide (is_Some (k_snap k)) then w_gone w ∖ {[a]} else w_gone w in
      Some (put_acct a (Some (obj_view k (bool_decide (a ∈ g)) prev)) (set_w_gone g w))
  | suicideChange a prev prevbalance =>
      match live_acct w a with
      | Some x => Some (put_acct a (Some (with_balance prevbalance (with_suicided prev x))) w)
      | None => Some w
      end
  | touchChange _ => Some w
  | balanceChange a prev => on_acct a (with_balance prev) w
  | nonceChange a prev => on_acct a (with_nonce prev) w
  | codeChange a prevcode prevhash => on_acct a (with_code prevhash (code_shown k a prevhash prevcode)) w
  | storageChange a key prevalue => on_acct a (with_slot key prevalue) w
  | refundChange prev => Some (set_w_refund prev w)
  | addLogChange h =>
      let l := default [] (w_logs w !! h) in
      m ← (if zlen l =? 1 then Some (delete h (w_logs w))
           else l' ← slice l 0 (zlen l - 1); Some (<[h := l']> (w_logs w)));
      Some (set_w_logs m (sub64 (w_logSize w) 1) w)
  | addPreimageChange h => Some (set_w_preimages (delete h (w_preimages w)) w)
  | accessListAddAccountChange a => Some (set_w_al (DeleteAddress (w_al w) a) w)
  | accessListAddSlotChange a slot => al ← DeleteSlot (w_al w) a slot; Some (set_w_al al w)
  end.

Fixpoint undo_all (k : konst) (es : list (journalEntry T)) (w : world) : option world :=
  match es with
  | [] => Some w
  | e :: es => w ← undo k e w; undo_all k es w
  end.

Lemma undo_all_app k es1 es2 w : undo_all k (es1 ++ es2) w = (w ← undo_all k es1 w; undo_all k es2 w).
Proof.
  revert w. induction es1 as [|e es1 IH]; intros w; [done|]. simpl.
  destruct (undo k e w); [|done]. simpl. apply IH.
Qed.
End undo.

(** ** The ledger *)

Record ledger := { l_cur : world; l_saved : list (Z * world); l_next : Z }.

Definition l_change (f : world → world) (l : ledger) : ledger :=
  {| l_cur := f (l_cur l); l_saved := l_saved l; l_next := l_next l |}.
Definition l_Snapshot (l : ledger) : Z * ledger :=
  (l_next l, {| l_cur := l_cur l; l_saved := l_saved l ++ [(l_next l, l_cur l)]; l_next := l_next l + 1 |}).
Definition l_RevertToSnapshot (id : Z) (l : ledger) : option ledger :=
  '(i, (_, w)) ← list_find (λ p : Z * world, p.1 = id) (l_saved l);
  Some {| l_cur := w; l_saved := take i (l_saved l); l_next := l_next l |}.
