(* ===== verification/StateRefine.v ===== *)
(** * The journal implements the ledger

    Each operation of [StateDB] changes what is observed as the ledger says, and appends
    entries to the journal that undo it; reverting to a snapshot therefore finds the world
    the ledger saved. *)

From Stdlib Require Import FunctionalExtensionality.
From S2P Require Import Prelude Params VmData VmState Rlp RlpStream StateData StateObjects StateDbOps StateView.
From S2P Require Import StateLedger.

(** ** Go slices *)

Section slices.
Context {A : Type}.
Implicit Types (l : list A) (x : A).

Lemma zlen_one x : zlen [x] = 1.
Proof. done. Qed.
Lemma zlen_insert l i x : zlen (<[i := x]> l) = zlen l.
Proof. unfold zlen. by rewrite length_insert. Qed.
Lemma slice_app_l l1 l2 : slice (l1 ++ l2) 0 (zlen l1) = Some l1.
Proof.
  unfold slice. rewrite zlen_app. pose proof (zlen_nonneg l1). pose proof (zlen_nonneg l2).
  rewrite !(proj2 (Z.leb_le _ _)) by lia. simpl. rewrite Z.sub_0_r. unfold zlen. rewrite Nat2Z.id. f_equal.
  apply take_app_length.
Qed.
Lemma slice_take l n : 0 <= n <= zlen l → slice l 0 n = Some (take (Z.to_nat n) l).
Proof. intros H. unfold slice. rewrite !(proj2 (Z.leb_le _ _)) by lia. simpl. by rewrite Z.sub_0_r. Qed.
Lemma index_app_end l x : index (l ++ [x]) (zlen l) = Some x.
Proof.
  unfold index. pose proof (zlen_nonneg l). rewrite (proj2 (Z.leb_le _ _)) by lia. unfold zlen. rewrite Nat2Z.id.
  by apply list_lookup_middle.
Qed.
Lemma set_index_eq l i x : 0 <= i < zlen l → set_index l i x = Some (<[Z.to_nat i := x]> l).
Proof. intros H. unfold set_index. rewrite (proj2 (Z.leb_le _ _)), (proj2 (Z.ltb_lt _ _)) by lia. done. Qed.
Lemma index_lookup l i x : index l i = Some x → l !! Z.to_nat i = Some x.
Proof. unfold index. by destruct (0 <=? i). Qed.
Lemma index_insert l i x : 0 <= i < zlen l → index (<[Z.to_nat i := x]> l) i = Some x.
Proof.
  intros H. unfold index. rewrite (proj2 (Z.leb_le _ _)) by lia. apply list_lookup_insert_eq.
  unfold zlen in H. lia.
Qed.
End slices.

(** What the state database relies on: the empty storage trie and a snapshot without the
    account have no slots, and the size of a code is that of the code. *)
Class BackendLaws (D T SN : Type) `{Backend D T SN} := {
  empty_root d h key t : OpenStorageTrie d h emptyRoot = inl t → TryGet t key = inl [];
  empty_trie d h key : TryGet (EmptyStorageTrie d h) key = inl [];
  slot_has_account (sn : SN) h key enc :
    snap_Storage sn h key = inl enc → enc ≠ [] → ∃ acc, snap_Account sn h = inl (Some acc);
  code_size d ah h :
    match ContractCode d ah h with
    | inl c => ContractCodeSize d ah h = inl (zlen c)
    | inr _ => ∃ e, ContractCodeSize d ah h = inr e
    end;
}.

Section refine.
Context {D T SN : Type} {B : Backend D T SN} {BL : BackendLaws D T SN}.
Variable Keccak256Hash : bytes → Hash.

Abbreviation StateObject := (StateObject T).
Abbreviation StateDB := (StateDB D T SN).
Abbreviation konst := (@konst D T SN).
Abbreviation konst_of := (@konst_of D T SN B).
Abbreviation obj_view := (@obj_view D T SN B Keccak256Hash).
Abbreviation view := (@view D T SN B Keccak256Hash).
Abbreviation undo := (undo Keccak256Hash).
Abbreviation undo_all := (undo_all Keccak256Hash).
Abbreviation quiet := (@quiet D T SN B Keccak256Hash).
Abbreviation fresh_acct := (fresh_acct Keccak256Hash).
Abbreviation live := (@live D T SN B Keccak256Hash).
Abbreviation object_at := (@object_at D T SN B Keccak256Hash).
Abbreviation base_account := (@base_account D T SN B Keccak256Hash).
Abbreviation gone_at s a := (bool_decide (a ∈ snapDestructs s)) (only parsing).

(** ** Changes of an object and of its view *)

Lemma Code_ext d (o o' : StateObject) : address o' = address o → code o' = code o →
  acc_CodeHash (data o') = acc_CodeHash (data o) →
  (@obj_Code D T SN B Keccak256Hash d o').1 = (@obj_Code D T SN B Keccak256Hash d o).1.
Proof.
  intros Ha Hc Hh. unfold obj_Code, addrHash. rewrite Hc, Hh, Ha. destruct (code o); [done|].
  case_if; [done|]. by destruct (ContractCode _ _ _).
Qed.

Lemma view_setBalance k gone b o : obj_view k gone (obj_setBalance b o) = with_balance b (obj_view k gone o).
Proof.
  unfold StateView.obj_view, with_balance. rewrite (committed_ext _ k gone o (obj_setBalance b o)) by done.
  by rewrite (Code_ext _ o (obj_setBalance b o)).
Qed.
Lemma view_setNonce k gone n o : obj_view k gone (obj_setNonce n o) = with_nonce n (obj_view k gone o).
Proof.
  unfold StateView.obj_view, with_nonce. rewrite (committed_ext _ k gone o (obj_setNonce n o)) by done.
  by rewrite (Code_ext _ o (obj_setNonce n o)).
Qed.
Lemma view_setCode k gone h c o :
  obj_view k gone (obj_setCode h c o) = with_code h (code_shown Keccak256Hash k (address o) h c) (obj_view k gone o).
Proof.
  unfold StateView.obj_view, with_code. rewrite (committed_ext _ k gone o (obj_setCode h c o)) by done.
  f_equal. unfold obj_Code, code_shown, addrHash. simpl. destruct c; [done|]. case_if; [done|].
  by destruct (ContractCode _ _ _).
Qed.
Lemma view_setState k gone key v o :
  obj_view k gone (obj_setState key v o) = with_slot key v (obj_view k gone o).
Proof.
  unfold StateView.obj_view, with_slot. rewrite (committed_ext _ k gone o (obj_setState key v o)) by done.
  rewrite (Code_ext _ o (obj_setState key v o)) by done. f_equal. extensionality x. unfold upd. simpl.
  destruct (Z.eqb_spec x key) as [->|Hne]; [by rewrite lookup_insert_eq|by rewrite lookup_insert_ne by congruence].
Qed.
Lemma view_set_suicided k gone b o : obj_view k gone (set_suicided b o) = with_suicided b (obj_view k gone o).
Proof.
  unfold StateView.obj_view, with_suicided. rewrite (committed_ext _ k gone o (set_suicided b o)) by done.
  by rewrite (Code_ext _ o (set_suicided b o)).
Qed.

Lemma live_view s a : live_acct (view s) a = obj_view (konst_of s) (gone_at s a) <$> live s a.
Proof.
  unfold live_acct, StateView.live. simpl. unfold view_acct. destruct (object_at s a) as [o|]; [|done].
  simpl. by destruct (deleted o).
Qed.

(** ** States between which nothing but the objects changes *)

(** Everything that stays the same while entries are reverted. *)
Record frame (s s' : StateDB) : Prop := {
  f_konst : konst_of s' = konst_of s;
  f_journal : journal s' = journal s;
  f_revisions : validRevisions s' = validRevisions s;
  f_next : nextRevisionId s' = nextRevisionId s;
  f_ok : objects_ok s → objects_ok s';
}.
Lemma frame_refl s : frame s s.
Proof. by split. Qed.
Lemma frame_trans s1 s2 s3 : frame s1 s2 → frame s2 s3 → frame s1 s3.
Proof. intros [] []. split; [congruence..|auto]. Qed.
Lemma quiet_frame s s' : quiet s s' → frame s s'.
Proof. intros []. by split. Qed.
Lemma frame_set o s : obj_ok o → frame s (SetStateObject o s).
Proof. intros Ho. split; try done. by apply set_ok. Qed.

(** An entry is right about what lies below. *)
Definition entry_ok (k : konst) (e : journalEntry T) : Prop :=
  match e with
  | createObjectChange a => base_account k a = None
  | resetObjectChange prev _ => obj_ok prev
  | _ => True
  end.

(** A change of a live object. *)
Lemma on_live_sim s a f g w' : objects_ok s →
  (∀ o, address (f o) = address o) → (∀ o, obj_ok o → obj_ok (f o)) →
  (∀ o gone, address o = a → obj_view (konst_of s) gone (f o) = g (obj_view (konst_of s) gone o)) →
  on_acct a g (view s) = Some w' →
  ∃ s', on_live Keccak256Hash a f s = Some s' ∧ view s' = w' ∧ frame s s'.
Proof.
  intros Hok Hfa Hfo Hfv. unfold on_acct, on_live. rewrite live_view.
  destruct (getStateObject_ok Keccak256Hash a s Hok) as (s1 & -> & Hq & Hl & _).
  destruct (live s a) as [o|] eqn:Ho; [|done]. simpl. intros [= <-].
  assert (Hat : object_at s a = Some o).
  { unfold StateView.live in Ho. destruct (object_at s a) as [o'|]; [|done]. simpl in Ho.
    destruct (deleted o'); [done|]. congruence. }
  destruct (object_at_address _ s a o Hok Hat) as [Ha Hoo].
  eexists. split; [done|]. split.
  - rewrite view_set, Hfa, Ha, (q_konst _ _ _ Hq), (q_view _ _ _ Hq).
    pose proof (f_equal w_gone (q_view _ _ _ Hq)) as Hg. simpl in Hg. rewrite Hg.
    by rewrite Hfv.
  - eapply frame_trans; [by apply quiet_frame|]. by apply frame_set, Hfo.
Qed.

(** The entry [e], reverted on [s], does what [undo] does on the view. *)
Definition reverts (s : StateDB) (e : journalEntry T) : Prop := ∀ w', undo (konst_of s) e (view s) = Some w' →
  ∃ s', revert Keccak256Hash e s = Some s' ∧ view s' = w' ∧ frame s s'.

Lemma revert_create s account :
  entry_ok (konst_of s) (createObjectChange account) → reverts s (createObjectChange account).
Proof.
  intros He w'. cbn [StateLedger.undo revert entry_ok] in *.
  intros [= <-]. eexists. split; [done|]. split.
  - unfold StateView.view, put_acct, set_w_acct. simpl. f_equal. extensionality b.
    unfold view_acct, upd, StateView.object_at. simpl. destruct (Z.eqb_spec b account) as [->|Hne].
    * rewrite lookup_delete_eq. change (konst_of (set_stateObjectsDirty _ _)) with (konst_of s). by rewrite He.
    * by rewrite lookup_delete_ne by congruence.
  - split; try done. intros [H1 H2 H3]. split; simpl; [done|..]; intros a o [_ H]%lookup_delete_Some; eauto.
Qed.

Lemma revert_reset s prev prevdestruct :
  entry_ok (konst_of s) (resetObjectChange prev prevdestruct) → reverts s (resetObjectChange prev prevdestruct).
Proof.
  intros He w'. cbn [StateLedger.undo revert entry_ok] in *.
  intros [= <-]. eexists. split; [done|]. cbn [snap SetStateObject set_stateObjects].
  change (k_snap (konst_of s)) with (snap s). destruct (negb prevdestruct && _) eqn:Hd.
  - split.
    * unfold StateView.view, put_acct, set_w_acct, set_w_gone. simpl. f_equal.
      extensionality b. unfold view_acct, upd, StateView.object_at. simpl.
      destruct (Z.eqb_spec b (address prev)) as [->|Hne]; [by rewrite lookup_insert_eq|].
      rewrite lookup_insert_ne by congruence.
      change (konst_of (set_snapDestructs _ _)) with (konst_of s).
      assert (bool_decide (b ∈ snapDestructs s ∖ {[address prev]}) = gone_at s b) as ->; [|done].
      apply bool_decide_ext. set_solver.
    * split; try done. intros Hs. destruct (set_ok prev s He Hs) as [H1 H2 H3]. by split.
  - split; [|by apply frame_set]. rewrite view_set. unfold put_acct, set_w_acct, set_w_gone. simpl. done.
Qed.

Lemma revert_suicide s account prev prevbalance : objects_ok s →
  entry_ok (konst_of s) (suicideChange account prev prevbalance) → reverts s (suicideChange account prev prevbalance).
Proof.
  intros Hok He w'. cbn [StateLedger.undo revert entry_ok] in *.
  rewrite live_view. destruct (getStateObject_ok Keccak256Hash account s Hok) as (s1 & -> & Hq & _).
  destruct (live s account) as [o|] eqn:Ho; simpl; intros [= <-].
  - assert (Hat : object_at s account = Some o).
    { unfold StateView.live in Ho. destruct (object_at s account) as [o'|]; [|done]. simpl in Ho.
      destruct (deleted o'); [done|]. congruence. }
    destruct (object_at_address _ s account o Hok Hat) as [Ha Hoo].
    eexists. split; [done|]. split.
    * rewrite view_set. simpl. rewrite Ha, (q_konst _ _ _ Hq), (q_view _ _ _ Hq).
      pose proof (f_equal w_gone (q_view _ _ _ Hq)) as Hg. simpl in Hg. rewrite Hg.
      by rewrite view_setBalance, view_set_suicided.
    * eapply frame_trans; [by apply quiet_frame|]. apply frame_set. by destruct Hoo.
  - exists s1. split; [done|]. split; [apply Hq|by apply quiet_frame].
Qed.

Lemma revert_sim s e w' : objects_ok s → entry_ok (konst_of s) e →
  undo (konst_of s) e (view s) = Some w' →
  ∃ s', revert Keccak256Hash e s = Some s' ∧ view s' = w' ∧ frame s s'.
Proof.
  intros Hok He. revert w'. fold (reverts s e). destruct e; [by apply revert_create|by apply revert_reset|by apply revert_suicide|..];
    intros w'; cbn [StateLedger.undo revert entry_ok] in *.
  - apply on_live_sim; try done; [by intros o []|intros; apply view_setBalance].
  - apply on_live_sim; try done; [by intros o []|intros; apply view_setNonce].
  - apply on_live_sim; try done; [by intros o []|intros; apply view_setState].
  - apply on_live_sim; try done; [by intros o []|]. intros o gone <-. apply view_setCode.
  - intros [= <-]. eexists. split; [done|]. split; [done|]. split; try done. by intros [].
  - simpl. case_if.
    + intros [= <-]. eexists. split; [done|]. split; [done|]. split; try done. by intros [].
    + destruct (slice _ _ _) as [l'|]; [|done]. intros [= <-]. eexists. split; [done|]. split; [done|].
      split; try done. by intros [].
  - intros [= <-]. eexists. split; [done|]. split; [done|]. split; try done. by intros [].
  - intros [= <-]. exists s. split; [done|]. split; [done|apply frame_refl].
  - intros [= <-]. simpl. destruct (accessList s) as [al|] eqn:Hal; simpl.
    + eexists. split; [done|]. split; [done|]. split; try done. by intros [].
    + exists s. split; [done|]. split; [|apply frame_refl]. unfold StateView.view, set_w_al. rewrite Hal. simpl.
      by f_equal.
  - simpl. destruct (accessList s) as [al|] eqn:Hal; simpl.
    + destruct (DeleteSlot al address slot) as [al'|]; [|done]. intros [= <-]. simpl.
      eexists. split; [done|]. split; [done|]. split; try done. by intros [].
    + done.
Qed.

(** ** Changes and the entries that undo them *)

(** The index of an account's slots is that of a set in the list, and none is empty. *)
Record al_ok (al : AccessList) : Prop := {
  al_index a idx : al_addresses al !! a = Some idx → idx = -1 ∨ 0 <= idx < zlen (al_slots al);
  al_nonempty : Forall (λ m, m ≠ ∅) (al_slots al);
}.

(** What the entries of logs and of the access list rely on. *)
Record side_ok (al : AccessList) (logs : gmap Hash (list TxLog)) (n : Z) : Prop := {
  side_al : al_ok al;
  side_logs h : logs !! h ≠ Some [];
  side_size : 0 <= n < 2^64;
}.
Abbreviation world_ok w := (side_ok (w_al w) (w_logs w) (w_logSize w)).

(** The number of entries that mark an account dirty. *)
Definition marks (a : Address) (es : list (journalEntry T)) : Z :=
  zlen (filter (λ e, dirtied e = Some a) es).
(** The count kept in the journal is the number of these entries; that of [ripemd] can be
    larger, see [touch]. *)
Record counted (m : gmap Address Z) (es : list (journalEntry T)) : Prop := {
  count_pos a : m !! a ≠ Some 0;
  count_eq a : a ≠ ripemd → default 0 (m !! a) = marks a es;
  count_le a : marks a es <= default 0 (m !! a);
}.
Abbreviation dirty_ok s := (counted (dirties (journal s)) (entries (journal s))).

(** Unmarked accounts have no uncommitted storage. *)
Definition settled_at (es : list (journalEntry T)) (w : world) : Prop :=
  ∀ a x, marks a es = 0 → live_acct w a = Some x → a_state x = a_committed x.

Record changes (s s' : StateDB) (es : list (journalEntry T)) : Prop := {
  c_konst : konst_of s' = konst_of s;
  c_entries : entries (journal s') = entries (journal s) ++ es;
  c_undo : undo_all (konst_of s) (reverse es) (view s') = Some (view s);
  c_entries_ok : Forall (entry_ok (konst_of s)) es;
  c_revisions : validRevisions s' = validRevisions s;
  c_next : nextRevisionId s' = nextRevisionId s;
  c_ok : objects_ok s → objects_ok s';
  c_world : world_ok (view s) → world_ok (view s');
  c_dirty : dirty_ok s → dirty_ok s';
  c_settled : settled_at (entries (journal s)) (view s) → settled_at (entries (journal s')) (view s');
}.

Lemma changes_trans s1 s2 s3 es1 es2 :
  changes s1 s2 es1 → changes s2 s3 es2 → changes s1 s3 (es1 ++ es2).
Proof.
  intros [K1 E1 U1 F1 R1 N1 O1 A1 D1 S1] [K2 E2 U2 F2 R2 N2 O2 A2 D2 S2]. split; try congruence; auto.
  - by rewrite E2, E1, app_assoc.
  - rewrite K1 in U2. rewrite reverse_app, undo_all_app, U2. done.
  - rewrite K1 in F2. by apply Forall_app.
Qed.

Lemma quiet_changes s s' : quiet s s' → changes s s' [].
Proof.
  intros [Hk Hv Hj Hr Hn Hp Hd Ho]. split; try done.
  - by rewrite Hj, app_nil_r.
  - simpl. by rewrite Hv.
  - by rewrite Hv.
  - by rewrite Hj.
  - by rewrite Hj, Hv.
Qed.

Lemma marks_app a es1 es2 : marks a (es1 ++ es2) = marks a es1 + marks a es2.
Proof. unfold marks. by rewrite filter_app, zlen_app. Qed.
Lemma marks_one a (e : journalEntry T) : marks a [e] = if decide (dirtied e = Some a) then 1 else 0.
Proof. unfold marks. rewrite filter_cons. by case_decide. Qed.

Lemma marks_nonneg a es : 0 <= marks a es.
Proof. apply zlen_nonneg. Qed.

Lemma append_dirty e (m : gmap Address Z) es : counted m es →
  counted (match dirtied e with Some a => count_dirty a m | None => m end) (es ++ [e]).
Proof.
  intros [H1 H2 H3]. assert (Hone : ∀ a, marks a (es ++ [e]) = marks a es + if decide (dirtied e = Some a) then 1 else 0)
    by (intros a; by rewrite marks_app, marks_one).
  destruct (dirtied e) as [b|] eqn:He; unfold count_dirty.
  2:{ split; [done|..]; intros a; rewrite Hone, decide_False, Z.add_0_r by done; auto. }
  assert (Hc : ∀ a, default 0 (<[b := default 0 (m !! b) + 1]> m !! a) =
    default 0 (m !! a) + if decide (Some b = Some a) then 1 else 0).
  { intros a. destruct (decide (a = b)) as [->|Hne]; [by rewrite lookup_insert_eq, decide_True by done|].
    rewrite lookup_insert_ne, decide_False by congruence. lia. }
  split.
  - intros a. rewrite lookup_insert_Some. intros [[<- H]|[_ H]]; [|by eapply H1].
    pose proof (H3 b). pose proof (marks_nonneg b es). lia.
  - intros a Ha. rewrite Hone, Hc, (H2 a Ha). done.
  - intros a. rewrite Hone, Hc. pose proof (H3 a). lia.
Qed.

(** One entry, whatever else the step does to the objects and the fields it restores. *)
Lemma one_change s s' e :
  konst_of s' = konst_of s → journal s' = journal (journal_append e s) →
  validRevisions s' = validRevisions s → nextRevisionId s' = nextRevisionId s →
  (objects_ok s → objects_ok s') → (world_ok (view s) → world_ok (view s')) →
  entry_ok (konst_of s) e → undo (konst_of s) e (view s') = Some (view s) →
  (∀ a x, dirtied e ≠ Some a → live_acct (view s') a = Some x →
     live_acct (view s) a = Some x ∨ a_state x = a_committed x) → changes s s' [e].
Proof.
  intros Hk Hj Hr Hn Ho Ha He Hu Hse. split; try done.
  - by rewrite Hj.
  - simpl. by rewrite Hu.
  - by constructor.
  - intros Hd. rewrite Hj. by apply (append_dirty e).
  - rewrite Hj. simpl. intros Hs a x Hm Hl. rewrite marks_app, marks_one in Hm.
    pose proof (marks_nonneg a (entries (journal s))). case_decide as Hd; [lia|].
    destruct (Hse a x Hd Hl) as [Hl'|]; [|done]. apply (Hs a x); [lia|done].
Qed.
(** The accounts are left alone. *)
Lemma same_accts (w w' : world) (P : Address → Prop) : w_acct w' = w_acct w → ∀ a x, P a →
  live_acct w' a = Some x → live_acct w a = Some x ∨ a_state x = a_committed x.
Proof. intros H a x _. unfold live_acct. rewrite H. by left. Qed.

Lemma put_put a x y w : put_acct a x (put_acct a y w) = put_acct a x w.
Proof. unfold put_acct. simpl. by rewrite upd_upd. Qed.
Lemma put_id a w : put_acct a (w_acct w a) w = w.
Proof. unfold put_acct, set_w_acct. rewrite upd_id. by destruct w. Qed.
Lemma live_put_ne a b x w : b ≠ a → live_acct (put_acct a x w) b = live_acct w b.
Proof. intros H. unfold live_acct, put_acct. simpl. by rewrite upd_ne. Qed.
Lemma live_put a x w : live_acct (put_acct a (Some x) w) a = if a_deleted x then None else Some x.
Proof. unfold live_acct, put_acct. simpl. by rewrite upd_eq. Qed.

(** A journaled change of a loaded live object. *)
Lemma object_change s o o' e :
  objects_ok s → stateObjects s !! address o = Some o → deleted o = false →
  obj_ok o' → address o' = address o →
  (∀ w, live_acct w (address o) = Some (obj_view (konst_of s) (gone_at s (address o)) o') →
     undo (konst_of s) e w =
       Some (put_acct (address o) (Some (obj_view (konst_of s) (gone_at s (address o)) o)) w)) →
  deleted o' = false → entry_ok (konst_of s) e → dirtied e = Some (address o) →
  changes s (SetStateObject o' (journal_append e s)) [e] ∧
  view (SetStateObject o' (journal_append e s)) =
    put_acct (address o) (Some (obj_view (konst_of s) (gone_at s (address o)) o')) (view s).
Proof.
  intros Hok Ho Hd Hoo Ha Hu Hd' He Hdi.
  assert (Hv : view (SetStateObject o' (journal_append e s)) =
    put_acct (address o) (Some (obj_view (konst_of s) (gone_at s (address o)) o')) (view s)).
  { rewrite view_set. by rewrite Ha. }
  split; [|done]. apply one_change; try done.
  - intros H. destruct (set_ok o' s Hoo H) as [H1 H2 H3]. by split.
  - rewrite Hv, Hu; [|by rewrite live_put; simpl; rewrite Hd']. rewrite put_put. f_equal.
    rewrite <- (put_id (address o) (view s)) at 2. f_equal. simpl. unfold view_acct, StateView.object_at.
    by rewrite Ho.
  - rewrite Hv. intros b x Hb. rewrite live_put_ne by congruence. by left.
Qed.

(** ** Loading and creating *)

Lemma live_at s a o : live s a = Some o → object_at s a = Some o ∧ deleted o = false.
Proof.
  unfold StateView.live. destruct (object_at s a) as [o'|]; [|done]. simpl.
  destruct (deleted o') eqn:E; [done|]. intros [= <-]. done.
Qed.

(** A new object has no storage. *)
Lemma new_slots k gone a : base_account k a = None ∨ gone = true ∨ k_snap k = None →
  obj_view k gone (obj_setNonce 0 (bare_object a (emptyAccount Keccak256Hash))) = fresh_acct.
Proof.
  intros Hb. assert (Hbelow : slot_below Keccak256Hash k gone (bare_object a (emptyAccount Keccak256Hash)) = λ _, 0).
  { extensionality key. unfold slot_below. destruct (bool_decide _ && gone) eqn:Hg; [done|].
    assert (Ht : TryGet (@getTrie D T SN B Keccak256Hash (k_db k) (bare_object a (emptyAccount Keccak256Hash))).1
                   (hash_bytes key) = inl []).
    { unfold getTrie. simpl.
      destruct (OpenStorageTrie _ _ _) as [t|e] eqn:Ho; simpl; [by eapply empty_root|apply empty_trie]. }
    rewrite Ht. destruct (k_snap k) as [sn|] eqn:Hsn; [|done].
    destruct (snap_Storage sn _ _) as [enc|e] eqn:Hs; [|done].
    destruct (decide (enc = [])) as [->|Hne]; [done|].
    destruct (slot_has_account _ _ _ _ Hs Hne) as (acc & Hacc). exfalso.
    destruct Hb as [Hb|[-> | Hb]]; [|by rewrite bool_decide_true in Hg by by eexists|done].
    - unfold StateView.base_account in Hb. rewrite Hsn in Hb. unfold addrHash in Hacc. simpl in Hacc.
      by rewrite Hacc in Hb. }
  rewrite view_setNonce. unfold StateView.obj_view, with_nonce, StateLedger.fresh_acct. simpl.
  assert (Hc : committed_view Keccak256Hash k gone (bare_object a (emptyAccount Keccak256Hash)) = λ _, 0).
  { extensionality key. unfold committed_view. simpl. rewrite !lookup_empty. by rewrite Hbelow. }
  rewrite Hc. unfold obj_Code. simpl. rewrite Z.eqb_refl. done.
Qed.

Abbreviation tracked s := (bool_decide (is_Some (snap s))) (only parsing).
Abbreviation w_create s := (w_create Keccak256Hash (tracked s)) (only parsing).
Abbreviation new_obj a := (obj_setNonce 0 (bare_object a (emptyAccount Keccak256Hash)) : StateObject) (only parsing).

Lemma put_back a x w : w_acct w a = x → put_acct a x w = w.
Proof. intros <-. apply put_id. Qed.
Lemma konst_snap s s' : konst_of s' = konst_of s → snap s' = snap s.
Proof. intros H. exact (f_equal k_snap H). Qed.

Lemma new_obj_ok a : obj_ok (new_obj a).
Proof. done. Qed.

Lemma create_none b a w : w_acct w a = None →
  StateLedger.w_create Keccak256Hash b a w = put_acct a (Some fresh_acct) w.
Proof. intros H. unfold StateLedger.w_create. by rewrite H. Qed.
Lemma create_some b a x w : w_acct w a = Some x → StateLedger.w_create Keccak256Hash b a w =
  put_acct a (Some fresh_acct) (if b then set_w_gone ({[a]} ∪ w_gone w) w else w).
Proof. intros H. unfold StateLedger.w_create. by rewrite H. Qed.
Lemma view_at s a : w_acct (view s) a = obj_view (konst_of s) (gone_at s a) <$> object_at s a.
Proof. done. Qed.

Lemma mark_back (a : Address) (X : gset Address) :
  (if negb (bool_decide (a ∈ X)) then ({[a]} ∪ X) ∖ {[a]} else {[a]} ∪ X) = X.
Proof. case_bool_decide; simpl; set_solver. Qed.

Lemma live_fresh a b x w : live_acct (put_acct a (Some fresh_acct) w) b = Some x →
  live_acct w b = Some x ∨ a_state x = a_committed x.
Proof.
  destruct (decide (b = a)) as [->|Hne]; [rewrite live_put; simpl; intros [= <-]; by right|].
  rewrite live_put_ne by done. by left.
Qed.

(** The creation when nothing was there. *)
Lemma create_fresh s a : objects_ok s → object_at s a = None →
  let s' := SetStateObject (new_obj a) (journal_append (createObjectChange a) s) in
  changes s s' [createObjectChange a] ∧ view s' = w_create s a (view s).
Proof.
  intros Hok Hat s'.
  assert (Hbase : base_account (konst_of s) a = None).
  { unfold StateView.object_at in Hat. destruct (stateObjects s !! a); [done|].
    destruct (base_account (konst_of s) a); done. }
  assert (Hv : view s' = w_create s a (view s)).
  { unfold s'. rewrite create_none by (by rewrite view_at, Hat). rewrite view_set. simpl.
    by rewrite new_slots by auto. }
  split; [|done]. apply one_change; try done.
  - intros H. destruct (set_ok (new_obj a) s (new_obj_ok a) H) as [H1 H2 H3]. by split.
  - rewrite Hv, create_none by (by rewrite view_at, Hat). simpl.
    by rewrite put_put, put_back by (by rewrite view_at, Hat).
  - rewrite Hv, create_none by (by rewrite view_at, Hat). intros b x _. apply live_fresh.
Qed.

(** The creation in the place of an object. *)
Lemma create_over s a p : objects_ok s → object_at s a = Some p →
  let '(prevdestruct, s1) :=
    if tracked s then (gone_at s (address p), set_snapDestructs ({[address p]} ∪ snapDestructs s) s)
    else (false, s) in
  let s' := SetStateObject (new_obj a) (journal_append (resetObjectChange p prevdestruct) s1) in
  changes s s' [resetObjectChange p prevdestruct] ∧ view s' = w_create s a (view s).
Proof.
  intros Hok Hat. destruct (object_at_address _ s a p Hok Hat) as [Ha Hp]. subst a.
  destruct (tracked s) eqn:Ht; set (s' := SetStateObject _ _).
  - assert (Hv : view s' = StateLedger.w_create Keccak256Hash true (address p) (view s)).
    { unfold s'. erewrite create_some by (by rewrite view_at, Hat). rewrite view_set. simpl.
      rewrite new_slots by (right; left; apply bool_decide_true; set_solver).
      unfold put_acct, set_w_acct, set_w_gone, StateView.view. simpl. f_equal.
      extensionality b. unfold upd. destruct (Z.eqb_spec b (address p)) as [->|Hne]; [done|].
      unfold view_acct. assert (gone_at (set_snapDestructs ({[address p]} ∪ snapDestructs s) s) b = gone_at s b) as E
        by (apply bool_decide_ext; simpl; set_solver). simpl in E. simpl. by rewrite E. }
    split; [|done]. apply one_change; try done.
    + intros [H1 H2 H3]. apply set_ok; [apply new_obj_ok|]. by split.
    + rewrite Hv. erewrite create_some by (by rewrite view_at, Hat). simpl.
      rewrite Ht, andb_true_r.
      assert ((if negb (gone_at s (address p)) then ({[address p]} ∪ snapDestructs s) ∖ {[address p]}
        else {[address p]} ∪ snapDestructs s) = snapDestructs s) as ->.
      { apply mark_back. }
      f_equal. unfold put_acct, set_w_acct, set_w_gone, StateView.view. simpl. f_equal.
      extensionality b. unfold upd. destruct (Z.eqb_spec b (address p)) as [->|Hne]; [|done].
      unfold view_acct. by rewrite Hat.
    + rewrite Hv. erewrite create_some by (by rewrite view_at, Hat). intros b x _ Hx.
      exact (live_fresh _ _ _ _ Hx).
  - assert (Hsn : k_snap (konst_of s) = None).
    { simpl. apply bool_decide_eq_false in Ht. destruct (snap s); [|done]. by destruct Ht; eexists. }
    assert (Hv : view s' = StateLedger.w_create Keccak256Hash false (address p) (view s)).
    { unfold s'. erewrite create_some by (by rewrite view_at, Hat). rewrite view_set. simpl.
      by rewrite new_slots by auto. }
    split; [|done]. apply one_change; try done.
    + intros [H1 H2 H3]. apply set_ok; [apply new_obj_ok|]. by split.
    + rewrite Hv. erewrite create_some by (by rewrite view_at, Hat). simpl.
      rewrite Ht. simpl. f_equal. rewrite <- (put_back (address p) (w_acct (view s) (address p)) (view s)) by done.
      unfold put_acct, set_w_acct, set_w_gone. simpl. f_equal. extensionality b. unfold upd.
      destruct (b =? address p); [|done]. unfold view_acct. by rewrite Hat.
    + rewrite Hv. erewrite create_some by (by rewrite view_at, Hat). intros b x _. apply live_fresh.
Qed.

Lemma quiet_object s s' a : quiet s s' → (∀ o, object_at s a = Some o → stateObjects s' !! a = Some o) →
  (object_at s a = None → stateObjects s' !! a = None) → object_at s' a = object_at s a.
Proof.
  intros Hq H1 H2. unfold StateView.object_at at 1. rewrite (q_konst _ _ _ Hq).
  destruct (object_at s a) as [o|] eqn:E; [by rewrite (H1 o)|]. rewrite (H2 eq_refl).
  unfold StateView.object_at in E. destruct (stateObjects s !! a); [done|]. done.
Qed.

(** Undoing the entry of a creation replaces the whole account. *)
Definition whole (a : Address) (e : journalEntry T) : Prop :=
  ∀ k x w, undo k e (put_acct a x w) = undo k e w.

Lemma createObject_ok a s : objects_ok s → ∃ e s',
  createObject Keccak256Hash a s = (new_obj a, live s a, s') ∧ changes s s' [e] ∧
  view s' = w_create s a (view s) ∧ stateObjects s' !! a = Some (new_obj a) ∧ whole a e.
Proof.
  intros Hok. unfold createObject.
  destruct (load_ok Keccak256Hash a s Hok) as (s1 & -> & Hq & Hl1 & Hl2).
  pose proof (quiet_object s s1 a Hq Hl1 Hl2) as Hat1. pose proof (q_ok _ _ _ Hq Hok) as Hok1.
  rewrite <- (konst_snap _ _ (q_konst _ _ _ Hq)), <- (q_view _ _ _ Hq).
  unfold StateView.live. rewrite <- Hat1. destruct (object_at s1 a) as [p|] eqn:Hat.
  - pose proof (create_over s1 a p Hok1 Hat) as H.
    destruct (if tracked s1 then _ else _) as [pd s2] eqn:E.
    assert (Hpool : storagePool s2 = None).
    { destruct (tracked s1); injection E as <- <-; apply Hok1. }
    destruct (object_at_address _ s1 a p Hok1 Hat) as [Ha _].
    rewrite newObject_bare by done. destruct H as [H1 H2]. eexists _, _. split; [done|].
    split; [exact (changes_trans _ _ _ [] _ (quiet_changes _ _ Hq) H1)|]. split; [done|].
    split; [simpl; by rewrite lookup_insert_eq|]. intros k x w. simpl. rewrite Ha.
    unfold put_acct, set_w_gone, set_w_acct. simpl. by rewrite upd_upd.
  - rewrite newObject_bare by apply Hok1. destruct (create_fresh s1 a Hok1 Hat) as [H1 H2].
    eexists _, _. split; [done|].
    split; [exact (changes_trans _ _ _ [] _ (quiet_changes _ _ Hq) H1)|]. split; [done|].
    split; [simpl; by rewrite lookup_insert_eq|]. intros k x w. simpl. by rewrite put_put.
Qed.

(** The object of an account that is to be changed: loaded, or made. *)
Lemma GetOrNew_ok a s : objects_ok s → ∃ o es s',
  GetOrNewStateObject Keccak256Hash a s = (o, s') ∧ changes s s' es ∧
  stateObjects s' !! a = Some o ∧ address o = a ∧ deleted o = false ∧ obj_ok o ∧
  ∀ f, put_acct a (Some (f (obj_view (konst_of s') (gone_at s' a) o))) (view s') =
    w_write Keccak256Hash (tracked s) a f (view s).
Proof.
  intros Hok. unfold GetOrNewStateObject, w_write. rewrite live_view.
  destruct (getStateObject_ok Keccak256Hash a s Hok) as (s1 & -> & Hq & Hl1 & Hl2).
  pose proof (q_ok _ _ _ Hq Hok) as Hok1.
  destruct (live s a) as [o|] eqn:Hlive.
  - destruct (live_at _ _ _ Hlive) as [Hat Hd]. destruct (object_at_address _ s a o Hok Hat) as [Ha Hoo].
    eexists o, [], s1. split; [done|]. split; [by apply quiet_changes|]. split; [auto|].
    split_and!; try done. intros f. simpl. rewrite (q_view _ _ _ Hq), (q_konst _ _ _ Hq).
    pose proof (f_equal w_gone (q_view _ _ _ Hq)) as Hg. simpl in Hg. by rewrite Hg.
  - destruct (createObject_ok a s1 Hok1) as (e & s2 & -> & Hc & Hv & Ho & _).
    eexists _, [e], s2. split; [done|].
    split; [exact (changes_trans _ _ _ [] _ (quiet_changes _ _ Hq) Hc)|]. split; [done|].
    split_and!; try done. intros f. simpl. rewrite Hv, (q_view _ _ _ Hq), (konst_snap _ _ (q_konst _ _ _ Hq)).
    f_equal. f_equal. f_equal.
    pose proof (f_equal (λ w, w_acct w a) Hv) as Hva. simpl in Hva. unfold view_acct, StateView.object_at in Hva.
    rewrite Ho in Hva. simpl in Hva. unfold StateLedger.w_create in Hva. simpl in Hva. rewrite upd_eq in Hva.
    by apply Some_inj in Hva.
Qed.
End refine.
