(* ===== verification/StateSim.v ===== *)
(** * The operations of the state database and the ledger

    Each operation of [StateDB] does to the view what the ledger's does to a world, and the
    entries it appends to the journal undo it. *)

From Stdlib Require Import FunctionalExtensionality.
From S2P Require Import Prelude Params VmData VmState Rlp RlpStream StateData StateObjects StateDbOps StateView.
From S2P Require Import StateLedger StateRefine.

Section operations.
Context {D T SN : Type} {B : Backend D T SN} {BL : BackendLaws D T SN}.
Variable Keccak256Hash : bytes → Hash.

Abbreviation StateObject := (StateObject T).
Abbreviation StateDB := (StateDB D T SN).
Abbreviation world_ok w := (side_ok (w_al w) (w_logs w) (w_logSize w)).
Abbreviation konst := (@konst D T SN).
Abbreviation konst_of := (@konst_of D T SN B).
Abbreviation obj_view := (@obj_view D T SN B Keccak256Hash).
Abbreviation view := (@view D T SN B Keccak256Hash).
Abbreviation undo := (undo Keccak256Hash).
Abbreviation quiet := (@quiet D T SN B Keccak256Hash).
Abbreviation changes := (@changes D T SN B Keccak256Hash).
Abbreviation live := (@live D T SN B Keccak256Hash).
Abbreviation object_at := (@object_at D T SN B Keccak256Hash).
Abbreviation gone_at s a := (bool_decide (a ∈ snapDestructs s)) (only parsing).
Abbreviation tracked s := (bool_decide (is_Some (snap s))) (only parsing).

(** A loaded live object of the address. *)
Record loaded (s : StateDB) (a : Address) (o : StateObject) : Prop := {
  lo_ok : objects_ok s;
  lo_at : stateObjects s !! a = Some o;
  lo_address : address o = a;
  lo_deleted : deleted o = false;
  lo_object : obj_ok o;
}.
Abbreviation shown s a o := (obj_view (konst_of s) (gone_at s a) o) (only parsing).

(** ** Writing *)

Lemma writing_ok a f g s : objects_ok s →
  (∀ s1 o, loaded s1 a o → ∃ es,
     changes s1 (SetStateObject (f s1 o).1 (f s1 o).2) es ∧
     view (SetStateObject (f s1 o).1 (f s1 o).2) = put_acct a (Some (g (shown s1 a o))) (view s1)) →
  ∃ es, changes s (writing Keccak256Hash a f s) es ∧
    view (writing Keccak256Hash a f s) = w_write Keccak256Hash (tracked s) a g (view s).
Proof.
  intros Hok Hf. unfold writing.
  destruct (GetOrNew_ok Keccak256Hash a s Hok) as (o & es & s1 & -> & Hc & Ho & Ha & Hd & Hoo & Hw).
  destruct (Hf s1 o) as (es' & Hc' & Hv'); [by split; [apply (c_ok _ _ _ _ Hc)|..]|].
  destruct (f s1 o) as [o' s2]. exists (es ++ es'). split; [by eapply changes_trans|].
  rewrite <- Hw. exact Hv'.
Qed.

(** A change of the object with one entry. *)
Lemma entry_change s a o o' e g : loaded s a o → obj_ok o' → address o' = a → deleted o' = false →
  (∀ k, entry_ok Keccak256Hash k e) → dirtied e = Some a →
  shown s a o' = g (shown s a o) →
  (∀ w, live_acct w a = Some (shown s a o') → undo (konst_of s) e w = Some (put_acct a (Some (shown s a o)) w)) →
  ∃ es, changes s (SetStateObject o' (journal_append e s)) es ∧
    view (SetStateObject o' (journal_append e s)) = put_acct a (Some (g (shown s a o))) (view s).
Proof.
  intros [Hok Ho Ha Hd Hoo] Hoo' Ha' Hd' He Hdi Hg Hu. subst a. exists [e].
  rewrite <- Hg. by apply object_change.
Qed.

(** An object that looks the same, put back. *)
Lemma same_change s a o o' : loaded s a o → obj_ok o' → address o' = a → shown s a o' = shown s a o →
  quiet s (SetStateObject o' s).
Proof.
  intros [Hok Ho Ha Hd Hoo] Hoo' Ha' Hv. subst a. apply (set_quiet _ s o); try done; rewrite Ha'; [|done].
  unfold StateView.object_at. by rewrite Ho.
Qed.

Lemma on_acct_live a f w x : live_acct w a = Some x → on_acct a f w = Some (put_acct a (Some (f x)) w).
Proof. intros H. unfold on_acct. by rewrite H. Qed.

Lemma set_append e (o o' : StateObject) (s : StateDB) : address o' = address o →
  SetStateObject o' (journal_append e (SetStateObject o s)) = SetStateObject o' (journal_append e s).
Proof.
  intros Ha. unfold SetStateObject, set_stateObjects, journal_append, set_journal. simpl.
  by rewrite Ha, insert_insert_eq.
Qed.

(** Putting back what was there. *)
Lemma balance_id x : with_balance (acc_Balance (a_data x)) x = x.
Proof. by destruct x as [[]]. Qed.
Lemma balance_back v x : with_balance (acc_Balance (a_data x)) (with_balance v x) = x.
Proof. by destruct x as [[]]. Qed.
Lemma nonce_back n x : with_nonce (acc_Nonce (a_data x)) (with_nonce n x) = x.
Proof. by destruct x as [[]]. Qed.
Lemma code_back h c x : with_code (acc_CodeHash (a_data x)) (a_code x) (with_code h c x) = x.
Proof. by destruct x as [[]]. Qed.
Lemma slot_id key x : with_slot key (a_state x key) x = x.
Proof. unfold with_slot. rewrite upd_id. by destruct x. Qed.
Lemma slot_back key v x : with_slot key (a_state x key) (with_slot key v x) = x.
Proof. unfold with_slot. simpl. rewrite upd_upd, upd_id. by destruct x. Qed.
Lemma suicide_back b v x :
  with_balance (acc_Balance (a_data x)) (with_suicided (a_suicided x) (with_balance v (with_suicided b x))) = x.
Proof. by destruct x as [[]]. Qed.

Lemma balance_change s a o v : loaded s a o → ∃ es,
  changes s (SetStateObject (obj_SetBalance s o v).1 (obj_SetBalance s o v).2) es ∧
  view (SetStateObject (obj_SetBalance s o v).1 (obj_SetBalance s o v).2) =
    put_acct a (Some (with_balance v (shown s a o))) (view s).
Proof.
  intros Hl. pose proof Hl as [Hok Ho Ha Hd [Hf Hsh]].
  cbn [obj_SetBalance fst snd]. apply entry_change; try done; try (simpl; congruence).
  - apply view_setBalance.
  - intros w Hw. cbn [StateLedger.undo]. rewrite Ha, (on_acct_live _ _ _ _ Hw), view_setBalance.
    do 3 f_equal. exact (balance_back v (shown s a o)).
Qed.

Lemma put_same s a o : loaded s a o → put_acct a (Some (shown s a o)) (view s) = view s.
Proof. intros [Hok Ho Ha Hd Hoo]. apply put_back. rewrite view_at. unfold StateView.object_at. by rewrite Ho. Qed.

Lemma unchanged s a o : loaded s a o → ∃ es,
  changes s (SetStateObject o s) es ∧ view (SetStateObject o s) = put_acct a (Some (shown s a o)) (view s).
Proof.
  intros Hl. pose proof Hl as [Hok Ho Ha Hd Hoo]. exists []. split.
  - by apply quiet_changes, (same_change s a o).
  - by rewrite view_set, Ha.
Qed.

Lemma SetBalance_ok a v s : objects_ok s → ∃ es, changes s (db_SetBalance Keccak256Hash a v s) es ∧
  view (db_SetBalance Keccak256Hash a v s) = w_SetBalance Keccak256Hash (tracked s) a v (view s).
Proof. intros Hok. apply writing_ok; [done|]. intros. by apply balance_change. Qed.

Lemma SubBalance_ok a v s : objects_ok s → ∃ es, changes s (db_SubBalance Keccak256Hash a v s) es ∧
  view (db_SubBalance Keccak256Hash a v s) = w_SubBalance Keccak256Hash (tracked s) a v (view s).
Proof.
  intros Hok. apply writing_ok; [done|]. intros s1 o Hl. unfold obj_SubBalance.
  destruct (Z.eqb_spec v 0) as [->|_]; [|by apply (balance_change s1 a o)].
  rewrite Z.sub_0_r, balance_id. by apply unchanged.
Qed.

Lemma count_ripemd m (es : list (journalEntry T)) : counted m es → counted (count_dirty ripemd m) es.
Proof.
  intros [H1 H2 H3]. unfold count_dirty. pose proof (H3 ripemd). pose proof (marks_nonneg ripemd es). split.
  - intros a. rewrite lookup_insert_Some. intros [[_ H']|[_ H']]; [lia|by eapply H1].
  - intros a Ha. rewrite lookup_insert_ne by congruence. auto.
  - intros a. destruct (decide (a = ripemd)) as [->|Hne]; [rewrite lookup_insert_eq; simpl; lia|].
    rewrite lookup_insert_ne by congruence. auto.
Qed.

(** Touching an account leaves an entry and no change. *)
Lemma touch_change s a o : loaded s a o → ∃ es,
  changes s (SetStateObject o (touch s o)) es ∧ view (SetStateObject o (touch s o)) = view s.
Proof.
  intros Hl. pose proof Hl as [Hok Ho Ha Hd Hoo]. exists [touchChange a].
  assert (Hv : view (SetStateObject o (touch s o)) = view s).
  { rewrite view_set, Ha. etransitivity; [|exact (put_same s a o Hl)]. unfold touch. by destruct (address o =? ripemd). }
  split; [|done]. split; try (unfold touch; by destruct (address o =? ripemd)).
  - unfold touch. rewrite Ha. by destruct (a =? ripemd).
  - cbn [reverse rev_append undo_all]. by rewrite Hv.
  - by repeat constructor.
  - intros _. apply set_ok; [done|]. destruct Hok. unfold touch. by destruct (address o =? ripemd).
  - intros Hdirty. pose proof (append_dirty (touchChange a) _ _ Hdirty) as Hn.
    unfold touch. rewrite Ha. destruct (Z.eqb_spec a ripemd) as [->|]; [|done]. simpl in Hn |- *.
    by apply count_ripemd.
  - rewrite Hv. intros Hs b x Hm. apply Hs. unfold touch in Hm. rewrite Ha in Hm.
    destruct (a =? ripemd); simpl in Hm; rewrite marks_app in Hm; pose proof (marks_nonneg b (entries (journal s)));
      pose proof (marks_nonneg b [touchChange a : journalEntry T]); lia.
Qed.

Lemma AddBalance_ok a v s : objects_ok s → ∃ es, changes s (db_AddBalance Keccak256Hash a v s) es ∧
  view (db_AddBalance Keccak256Hash a v s) = w_AddBalance Keccak256Hash (tracked s) a v (view s).
Proof.
  intros Hok. apply writing_ok; [done|]. intros s1 o Hl. unfold obj_AddBalance.
  destruct (Z.eqb_spec v 0) as [->|_]; [|by apply (balance_change s1 a o)].
  rewrite Z.add_0_r, balance_id. simpl. destruct (obj_empty Keccak256Hash o); [|by apply unchanged].
  rewrite (put_same s1 a o Hl). by apply touch_change with a.
Qed.

Lemma SetNonce_ok a n s : objects_ok s → ∃ es, changes s (db_SetNonce Keccak256Hash a n s) es ∧
  view (db_SetNonce Keccak256Hash a n s) = w_SetNonce Keccak256Hash (tracked s) a n (view s).
Proof.
  intros Hok. apply writing_ok; [done|]. intros s1 o Hl. pose proof Hl as [Hok1 Ho Ha Hd [Hf Hsh]].
  cbn [obj_SetNonce fst snd]. apply entry_change; try done; try (simpl; congruence); [apply view_setNonce|].
  intros w Hw. cbn [StateLedger.undo]. rewrite Ha, (on_acct_live _ _ _ _ Hw), view_setNonce.
  do 3 f_equal. exact (nonce_back n (shown s1 a o)).
Qed.

(** Code and slots are read, and so cached, before they are changed. *)
Lemma warm_change s a o o1 o2 e g : loaded s a o →
  obj_ok o1 → address o1 = a → deleted o1 = false → shown s a o1 = shown s a o →
  obj_ok o2 → address o2 = a → deleted o2 = false → (∀ k, entry_ok Keccak256Hash k e) → dirtied e = Some a →
  shown s a o2 = g (shown s a o1) →
  (∀ w, live_acct w a = Some (shown s a o2) → undo (konst_of s) e w = Some (put_acct a (Some (shown s a o1)) w)) →
  ∃ es, changes s (SetStateObject o2 (journal_append e s)) es ∧
    view (SetStateObject o2 (journal_append e s)) = put_acct a (Some (g (shown s a o))) (view s).
Proof.
  intros Hl Hok1 Ha1 Hd1 Hs1 Hok2 Ha2 Hd2 He Hdi Hg Hu.
  pose proof (same_change s a o o1 Hl Hok1 Ha1 Hs1) as Hq.
  assert (Hl1 : loaded (SetStateObject o1 s) a o1).
  { split; try done; [by apply (q_ok _ _ _ Hq), (lo_ok _ _ _ Hl)|]. simpl. by rewrite Ha1, lookup_insert_eq. }
  destruct (entry_change (SetStateObject o1 s) a o1 o2 e g Hl1) as (es & Hc & Hv); try done.
  rewrite set_append in Hc, Hv by congruence. exists es. split.
  - exact (changes_trans _ _ _ _ [] _ (quiet_changes _ _ _ Hq) Hc).
  - rewrite Hv, (q_view _ _ _ Hq). do 3 f_equal. exact Hs1.
Qed.

Lemma warmed_loaded s a o o1 : loaded s a o → warmed o o1 → obj_ok o1 ∧ address o1 = a ∧ deleted o1 = false.
Proof.
  intros [Hok Ho Ha Hd Hoo] Hw. split; [by apply (wm_ok _ _ Hw)|].
  split; [by rewrite (wm_address _ _ Hw)|destruct (wm_flags _ _ Hw) as (_ & -> & _); done].
Qed.

Lemma SetState_ok a key v s : objects_ok s → ∃ es, changes s (db_SetState Keccak256Hash a key v s) es ∧
  view (db_SetState Keccak256Hash a key v s) = w_SetState Keccak256Hash (tracked s) a key v (view s).
Proof.
  intros Hok. apply writing_ok; [done|]. intros s1 o Hl. pose proof Hl as [Hok1 Ho Ha Hd Hoo].
  unfold obj_SetState. rewrite (ok_fake _ Hoo).
  destruct (read_state Keccak256Hash s1 o key Hok1 Hoo) as (o1 & -> & Hw & Hv1). rewrite Ha in Hv1 |- *.
  specialize (Hv1 _ eq_refl). destruct (warmed_loaded _ _ _ _ Hl Hw) as (Hok1' & Ha1 & Hd1).
  destruct (Z.eqb_spec (a_state (shown s1 a o) key) v) as [<-|Hne]; cbn [fst snd].
  - rewrite slot_id. pose proof (same_change s1 a o o1 Hl Hok1' Ha1 Hv1) as Hq. exists [].
    split; [by apply quiet_changes|]. by rewrite (put_same s1 a o Hl), (q_view _ _ _ Hq).
  - apply (warm_change s1 a o o1); try done; try (simpl; congruence); [by destruct Hok1'|apply view_setState|].
    intros w Hw'. cbn [StateLedger.undo]. rewrite Ha1, (on_acct_live _ _ _ _ Hw'), view_setState, <- Hv1.
    do 3 f_equal. apply slot_back.
Qed.

Lemma Code_shown (k : konst) o :
  code_shown Keccak256Hash k (address o) (acc_CodeHash (data o)) (obj_Code Keccak256Hash (k_db k) o).1 =
  default [] (obj_Code Keccak256Hash (k_db k) o).1.
Proof.
  unfold obj_Code, code_shown, addrHash. destruct (code o) as [c|]; [done|].
  destruct (_ =? _); [done|]. by destruct (ContractCode _ _ _).
Qed.

Lemma SetCode_ok a c s : objects_ok s → ∃ es, changes s (db_SetCode Keccak256Hash a c s) es ∧
  view (db_SetCode Keccak256Hash a c s) = w_SetCode Keccak256Hash (tracked s) a c (view s).
Proof.
  intros Hok. apply writing_ok; [done|]. intros s1 o Hl. pose proof Hl as [Hok1 Ho Ha Hd Hoo].
  unfold obj_SetCode. destruct (read_code Keccak256Hash s1 o Hoo) as (Hok1' & Ha1 & Hda1 & Hv1).
  pose proof (Code_shown (konst_of s1) o) as Hsh. cbn [k_db StateView.konst_of] in Hsh.
  destruct (obj_Code Keccak256Hash (db s1) o) as [prevcode o1] eqn:Ec. simpl in Hok1', Ha1, Hda1, Hv1, Hsh.
  pose proof (f_equal a_deleted (Hv1 false)) as Hd1. simpl in Hd1.
  cbn [fst snd]. rewrite Hd in Hd1. rewrite Ha in Ha1.
  apply (warm_change s1 a o o1); try done; try (simpl; congruence); [by destruct Hok1'| |].
  - rewrite view_setCode. done.
  - intros w Hw'. cbn [StateLedger.undo]. rewrite Ha1, (on_acct_live _ _ _ _ Hw'), view_setCode.
    do 3 f_equal. etransitivity; [|apply code_back]. f_equal.
    rewrite Hv1. simpl. rewrite Ec. cbn [fst]. rewrite Hda1, <- Hsh, Ha. done.
Qed.

Lemma Suicide_ok a s : objects_ok s → ∃ es s',
  db_Suicide Keccak256Hash a s = ((w_Suicide a (view s)).1, s') ∧ changes s s' es ∧
  view s' = (w_Suicide a (view s)).2.
Proof.
  intros Hok. unfold db_Suicide, w_Suicide. rewrite live_view.
  destruct (getStateObject_ok Keccak256Hash a s Hok) as (s1 & -> & Hq & Hl1 & Hl2).
  destruct (live s a) as [o|] eqn:Hlive; simpl.
  - destruct (live_at _ _ _ _ Hlive) as [Hat Hd]. destruct (object_at_address _ s a o Hok Hat) as [Ha Hoo].
    assert (Hl : loaded s1 a o) by (split; auto; apply (q_ok _ _ _ Hq Hok)).
    destruct (entry_change s1 a o (obj_setBalance 0 (markSuicided o)) (suicideChange a (suicided o) (acc_Balance (data o)))
      (λ x, with_suicided true (with_balance 0 x)) Hl) as (es & Hc & Hv); try done.
    + by destruct Hoo.
    + unfold markSuicided. by rewrite view_setBalance, view_set_suicided.
    + intros w Hw. cbn [StateLedger.undo]. rewrite Hw. unfold markSuicided.
      rewrite view_setBalance, view_set_suicided. do 3 f_equal. exact (suicide_back true 0 (shown s1 a o)).
    + eexists es, _. split; [done|].
      split; [exact (changes_trans _ _ _ _ [] _ (quiet_changes _ _ _ Hq) Hc)|].
      rewrite Hv, (q_view _ _ _ Hq), (q_konst _ _ _ Hq).
      pose proof (f_equal w_gone (q_view _ _ _ Hq)) as Hg. simpl in Hg. by rewrite Hg.
  - exists [], s1. split; [done|]. split; [by apply quiet_changes|apply Hq].
Qed.

Lemma CreateAccount_ok a s : objects_ok s → ∃ es, changes s (db_CreateAccount Keccak256Hash a s) es ∧
  view (db_CreateAccount Keccak256Hash a s) = w_CreateAccount Keccak256Hash (tracked s) a (view s).
Proof.
  intros Hok. unfold db_CreateAccount, w_CreateAccount. rewrite live_view.
  destruct (createObject_ok Keccak256Hash a s Hok) as (e & s1 & -> & Hc & Hv & Ho & Hwhole). exists [e].
  destruct (live s a) as [p|]; simpl; [|done].
  set (o := obj_setBalance _ _).
  assert (Hsh : shown s1 a o = with_balance (acc_Balance (data p)) (fresh_acct Keccak256Hash)).
  { unfold o. rewrite view_setBalance. f_equal.
    pose proof (f_equal (λ w, w_acct w a) Hv) as Hva. cbv beta in Hva. rewrite view_at in Hva.
    unfold StateView.object_at in Hva. rewrite Ho in Hva. unfold w_create in Hva. simpl in Hva.
    rewrite upd_eq in Hva. by apply Some_inj in Hva. }
  assert (Hvs : view (SetStateObject o s1) = put_acct a (Some (shown s1 a o)) (view s1)) by apply view_set.
  split; [|by rewrite Hvs, Hv, Hsh].
  destruct Hc as [H1 H2 H3 H4 H5 H6 H7 H8 H9 H10]. split; try done.
  - cbn [reverse rev_append StateLedger.undo_all] in *. rewrite Hvs. rewrite Hwhole. exact H3.
  - intros H. apply set_ok; [done|auto].
  - intros H b x Hm. rewrite Hvs, Hsh. destruct (decide (b = a)) as [->|Hne].
    + rewrite live_put. simpl. by intros [= <-].
    + rewrite live_put_ne by done. by apply H10.
Qed.

(** ** Logs, preimages, refunds *)

Lemma AddLog_ok l s : world_ok (view s) → ∃ es, changes s (db_AddLog l s) es ∧
  view (db_AddLog l s) = w_AddLog (thash s) (bhash s) (txIndex s) l (view s).
Proof.
  intros [Hal Hlogs Hsz]. exists [addLogChange (thash s)]. split; [|done].
  simpl in Hlogs, Hsz. apply one_change; try done; [by intros []|..].
  - intros _. split; [done|..]; simpl.
    + intros h. rewrite lookup_insert_Some. intros [[<- H]|[_ H]]; [by destruct (default _ _)|by eapply Hlogs].
    + apply u64_range.
  - cbn [StateLedger.undo]. simpl. rewrite lookup_insert_eq. simpl. rewrite zlen_app, zlen_one.
    assert (Hn : sub64 (add64 (logSize s) 1) 1 = logSize s).
    { unfold sub64, add64, u64. rewrite Zminus_mod_idemp_l. rewrite Z.add_simpl_r. by apply Z.mod_small. }
    rewrite Hn. destruct (logs s !! thash s) as [l0|] eqn:E; simpl.
    + destruct l0 as [|x l0]; [by destruct (Hlogs (thash s))|].
      rewrite (proj2 (Z.eqb_neq _ 1)) by (rewrite zlen_cons; pose proof (zlen_nonneg l0); lia).
      rewrite Z.add_simpl_r, slice_app_l. simpl. rewrite insert_insert_eq, insert_id by done. done.
    + rewrite delete_insert_id by done. done.
  - by apply same_accts.
Qed.

Lemma AddPreimage_ok h p s : ∃ es, changes s (db_AddPreimage h p s) es ∧
  view (db_AddPreimage h p s) = w_AddPreimage h p (view s).
Proof.
  unfold db_AddPreimage, w_AddPreimage. simpl. destruct (preimages s !! h) eqn:E.
  - exists []. split; [apply quiet_changes, quiet_refl|done].
  - exists [addPreimageChange h]. split; [|done]. apply one_change; try done; [by intros []| |by apply same_accts].
    simpl. unfold set_w_preimages. simpl. by rewrite delete_insert_id by done.
Qed.

Lemma refund_change s r :
  let s' := set_refund r (journal_append (refundChange (refund s)) s) in
  changes s s' [refundChange (refund s)] ∧ view s' = set_w_refund r (view s).
Proof. split; [|done]. apply one_change; try done; [by intros []|by apply same_accts]. Qed.

Lemma AddRefund_ok g s : ∃ es, changes s (db_AddRefund g s) es ∧ view (db_AddRefund g s) = w_AddRefund g (view s).
Proof. eexists. apply refund_change. Qed.

Lemma SubRefund_ok g s :
  match db_SubRefund g s, w_SubRefund g (view s) with
  | Some s', Some w' => view s' = w' ∧ ∃ es, changes s s' es
  | None, None => True
  | _, _ => False
  end.
Proof.
  unfold db_SubRefund, w_SubRefund. simpl. case_if; [done|].
  destruct (refund_change s (refund s - g)) as [H1 H2]. split; [done|by eexists].
Qed.

(** ** The access list *)

Lemma AddAddress_ok a s : ∃ es, changes s (db_AddAddressToAccessList a s) es ∧
  view (db_AddAddressToAccessList a s) = w_AddAddress a (view s).
Proof.
  unfold db_AddAddressToAccessList, w_AddAddress. simpl. set (al := default _ _). unfold AddAddress.
  case_bool_decide as Ha; simpl.
  - exists []. split; [apply quiet_changes; split; try done; by intros []|done].
  - exists [accessListAddAccountChange a]. split; [|done]. apply one_change; try done; [by intros []|..].
    + intros [[H1 H2] H3 H4]. split; [|done..]. split; [|done]. simpl. intros b idx.
      rewrite lookup_insert_Some. intros [[_ <-]|[_ H]]; [by left|by eapply H1].
    + cbn [StateLedger.undo]. unfold set_w_al, DeleteAddress. simpl.
      rewrite delete_insert_id by (by apply eq_None_not_Some). unfold StateView.view. fold al. by destruct al.
    + by apply same_accts.
Qed.

(** The list after a slot is added is well formed and leads back. *)
Lemma AddSlot_some al a slot : al_ok al → ∃ addrMod slotMod al', AddSlot al a slot = Some (addrMod, slotMod, al') ∧
  al_ok al' ∧ (slotMod = false → addrMod = false ∧ al' = al) ∧
  (slotMod = true → ∃ al1, DeleteSlot al' a slot = Some al1 ∧
     (if addrMod then DeleteAddress al1 a = al else al1 = al)).
Proof.
  intros [Hidx Hne]. unfold AddSlot.
  assert (Hfresh : ∀ added : bool, al_addresses al !! a = (if added then None else Some (-1)) →
    let al' := {| al_addresses := <[a := zlen (al_slots al)]> (al_addresses al); al_slots := al_slots al ++ [{[slot]}] |} in
    al_ok al' ∧ ∃ al1, DeleteSlot al' a slot = Some al1 ∧ (if added then DeleteAddress al1 a = al else al1 = al)).
  { intros added Hl al'. split.
    - split; simpl.
      + intros b idx. rewrite zlen_app, zlen_one. rewrite lookup_insert_Some.
        pose proof (zlen_nonneg (al_slots al)). intros [[_ <-]|[_ H']]; [lia|]. apply Hidx in H'. lia.
      + apply Forall_app. split; [done|]. constructor; [set_solver|done].
    - unfold DeleteSlot, al'. simpl. rewrite lookup_insert_eq. simpl.
      rewrite index_app_end. simpl. rewrite difference_diag_L, bool_decide_true by done.
      rewrite slice_app_l. simpl. eexists. split; [done|]. destruct added.
      + unfold DeleteAddress. simpl. rewrite !delete_insert_eq, delete_id by done. by destruct al.
      + rewrite insert_insert_eq, insert_id by done. by destruct al. }
  destruct (al_addresses al !! a) as [idx|] eqn:Ha.
  - destruct (Z.eqb_spec idx (-1)) as [->|Hi].
    + destruct (Hfresh false eq_refl) as [H1 H2]. do 3 eexists. split; [done|]. split; [done|]. split; [done|]. done.
    + destruct (Hidx a idx Ha) as [?|Hr]; [done|]. destruct (index_ok _ _ Hr) as [m Hm]. rewrite Hm. simpl.
      case_bool_decide as Hs; [do 3 eexists; split; [done|]; by split_and!|].
      rewrite set_index_eq by done. simpl. do 3 eexists. split; [done|].
      assert (Hm0 : m ≠ ∅) by (exact (Forall_lookup_1 _ _ _ _ Hne (index_lookup _ _ _ Hm))).
      split; [split; simpl|split; [done|]].
      * intros b i Hb. rewrite zlen_insert. by eapply Hidx.
      * apply Forall_insert; [done|set_solver].
      * intros _. unfold DeleteSlot. simpl. rewrite Ha. simpl.
        rewrite index_insert by done. simpl.
        assert (({[slot]} ∪ m) ∖ {[slot]} = m) as -> by set_solver.
        rewrite bool_decide_false by done. rewrite set_index_eq by (by rewrite zlen_insert).
        simpl. rewrite list_insert_insert_eq. eexists. split; [done|].
        rewrite list_insert_id; [by destruct al|]. by apply index_lookup.
  - destruct (Hfresh true eq_refl) as [H1 H2]. do 3 eexists. split; [done|]. by split_and!.
Qed.

Lemma AddSlot_ok a slot s : world_ok (view s) → ∃ es s' w',
  db_AddSlotToAccessList a slot s = Some s' ∧ w_AddSlot a slot (view s) = Some w' ∧
  changes s s' es ∧ view s' = w'.
Proof.
  intros [Hal Hlogs Hsz]. unfold db_AddSlotToAccessList, w_AddSlot. simpl in *.
  destruct (AddSlot_some _ a slot Hal) as (am & sm & al' & -> & Hal' & Hno & Hyes). simpl.
  destruct sm.
  - destruct (Hyes eq_refl) as (al1 & Hdel & Hback). destruct am.
    + eexists [accessListAddAccountChange a; accessListAddSlotChange a slot], _, _.
      split; [done|]. split; [done|]. split; [|done].
      split; try done.
      * simpl. by rewrite <- app_assoc.
      * cbn [reverse rev_append StateLedger.undo_all StateLedger.undo]. simpl. rewrite Hdel. simpl. rewrite Hback. done.
      * by repeat constructor.
      * by intros [].
      * intros Hd. apply (append_dirty (accessListAddSlotChange a slot)), (append_dirty (accessListAddAccountChange a)), Hd.
      * intros Hs b x Hm Hl. apply (Hs b x); [|done]. simpl in Hm. by rewrite !marks_app, !Z.add_0_r in Hm.
    + subst al1. eexists [accessListAddSlotChange a slot], _, _. split; [done|]. split; [done|]. split; [|done].
      apply one_change; try done; [by intros []| |by apply same_accts]. cbn. by rewrite Hdel.
  - destruct (Hno eq_refl) as [-> ->]. eexists [], _, _. split; [done|]. split; [done|]. split; [|done].
    apply quiet_changes. split; try done. by intros [].
Qed.
End operations.
