(* ===== verification/StateJournal.v ===== *)
(** * Snapshots and reverting

    The invariant of a state database, what it saved under each valid revision, and
    that reverting the journal finds it again. *)

From Stdlib Require Import FunctionalExtensionality.
From S2P Require Import Prelude Params VmData VmState Rlp RlpStream StateData StateObjects StateDbOps StateView.
From S2P Require Import StateLedger StateRefine StateSim.

Section journal.
Context {D T SN : Type} {B : Backend D T SN} {BL : BackendLaws D T SN}.
Variable Keccak256Hash : bytes → Hash.

Abbreviation StateObject := (StateObject T).
Abbreviation StateDB := (StateDB D T SN).
Abbreviation konst_of := (@konst_of D T SN B).
Abbreviation view := (@view D T SN B Keccak256Hash).
Abbreviation undo_all := (undo_all Keccak256Hash).
Abbreviation quiet := (@quiet D T SN B Keccak256Hash).
Abbreviation changes := (@changes D T SN B Keccak256Hash).
Abbreviation entry_ok := (@entry_ok D T SN B Keccak256Hash).
Abbreviation world_ok w := (side_ok (w_al w) (w_logs w) (w_logSize w)).

(** ** The loop of [sort.Search] *)

(** Ids and journal indices grow. *)
Definition sorted (l : list revision) : Prop :=
  ∀ i j r r', l !! i = Some r → l !! j = Some r' → (i < j)%nat →
    rev_id r < rev_id r' ∧ journalIndex r <= journalIndex r'.

Lemma search_ok l revid : sorted l → ∀ fuel i j,
  0 <= i <= j → j <= zlen l → j - i < Z.of_nat fuel →
  (∀ k r, Z.of_nat k < i → l !! k = Some r → rev_id r < revid) →
  (∀ k r, j <= Z.of_nat k → l !! k = Some r → revid <= rev_id r) →
  ∃ m, search_revision fuel i j revid l = Some m ∧ i <= m <= j ∧
    (∀ k r, Z.of_nat k < m → l !! k = Some r → rev_id r < revid) ∧
    (∀ k r, m <= Z.of_nat k → l !! k = Some r → revid <= rev_id r).
Proof.
  intros Hs fuel. induction fuel as [|fuel IH]; intros i j Hij Hj Hf Hlo Hhi; [lia|]. simpl.
  destruct (Z.ltb_spec i j) as [Hlt|Hge].
  2:{ assert (i = j) as -> by lia. exists j. split; [done|]. split; [lia|done]. }
  assert (Hh : i <= (i + j) / 2 < j).
  { split; [apply Z.div_le_lower_bound; lia|apply Z.div_lt_upper_bound; lia]. }
  set (h := (i + j) / 2) in *. destruct (index_ok l h) as [r Hr]; [lia|]. rewrite Hr. simpl.
  apply index_lookup in Hr. destruct (Z.leb_spec revid (rev_id r)) as [Hle|Hgt]; simpl.
  - destruct (IH i h) as (m & Hm & Hb & H1 & H2); [lia..|done| |exists m; split; [done|]; split; [lia|done]].
    intros k r' Hk Hr'. destruct (decide (k = Z.to_nat h)) as [->|Hne]; [congruence|].
    destruct (Hs _ _ _ _ Hr Hr'); lia.
  - destruct (IH (h + 1) j) as (m & Hm & Hb & H1 & H2); [lia..| |done|exists m; split; [done|]; split; [lia|done]].
    intros k r' Hk Hr'. destruct (decide (k = Z.to_nat h)) as [->|Hne]; [congruence|].
    destruct (Hs _ _ _ _ Hr' Hr); lia.
Qed.

Lemma search_all l revid : sorted l → ∃ m,
  search_revision (S (length l)) 0 (zlen l) revid l = Some m ∧ 0 <= m <= zlen l ∧
  (∀ k r, Z.of_nat k < m → l !! k = Some r → rev_id r < revid) ∧
  (∀ k r, m <= Z.of_nat k → l !! k = Some r → revid <= rev_id r).
Proof.
  intros Hs. pose proof (zlen_nonneg l). apply search_ok; [done|lia|lia|unfold zlen; lia|lia|].
  intros k r Hk Hr. apply lookup_lt_Some in Hr. unfold zlen in Hk. lia.
Qed.

(** The revision with the id, or none. *)
Lemma search_found l revid : sorted l → ∃ m, search_revision (S (length l)) 0 (zlen l) revid l = Some m ∧
  match list_find (λ r, rev_id r = revid) l with
  | Some (i, r) => m = Z.of_nat i ∧ index l m = Some r ∧ rev_id r = revid
  | None => ∀ r, index l m = Some r → rev_id r ≠ revid
  end.
Proof.
  intros Hs. destruct (search_all l revid Hs) as (m & Hm & Hb & Hlo & Hhi). exists m. split; [done|].
  destruct (list_find _ l) as [[i r]|] eqn:Hf.
  - apply list_find_Some in Hf as (Hi & Hid & Hbefore).
    assert (m = Z.of_nat i) as ->.
    { destruct (Z.lt_trichotomy m (Z.of_nat i)) as [Hlt|[?|Hgt]]; [|done|].
      - destruct (lookup_lt_is_Some_2 l (Z.to_nat m)) as [r' Hr'];
          [apply lookup_lt_Some in Hi; lia|].
        pose proof (Hhi (Z.to_nat m) r' ltac:(lia) Hr').
        destruct (Hs _ _ _ _ Hr' Hi ltac:(lia)). lia.
      - pose proof (Hlo i r ltac:(lia) Hi). lia. }
    split; [done|]. split; [|done]. unfold index. rewrite (proj2 (Z.leb_le _ _)) by lia. by rewrite Nat2Z.id.
  - intros r Hr. apply index_lookup in Hr. apply list_find_None in Hf.
    by apply (Forall_lookup_1 _ _ _ _ Hf Hr).
Qed.

(** ** The invariant *)

(** The world at a revision. *)
Definition saved_world (s : StateDB) (r : revision) : option world :=
  undo_all (konst_of s) (reverse (drop (Z.to_nat (journalIndex r)) (entries (journal s)))) (view s).

Record wf (s : StateDB) : Prop := {
  wf_objects : objects_ok s;
  wf_world : world_ok (view s);
  wf_entries : Forall (entry_ok (konst_of s)) (entries (journal s));
  wf_dirty : counted (dirties (journal s)) (entries (journal s));
  wf_settled : settled_at (entries (journal s)) (view s);
  wf_sorted : sorted (validRevisions s);
  wf_ids : Forall (λ r, rev_id r < nextRevisionId s) (validRevisions s);
  wf_indices : Forall (λ r, 0 <= journalIndex r <= zlen (entries (journal s))) (validRevisions s);
  wf_saved : Forall (λ r, ∃ w, saved_world s r = Some w ∧ world_ok w ∧
    settled_at (take (Z.to_nat (journalIndex r)) (entries (journal s))) w) (validRevisions s);
}.

(** The ledger a database stands for. *)
Definition abs (s : StateDB) : ledger := {|
  l_cur := view s;
  l_saved := map (λ r, (rev_id r, default (view s) (saved_world s r))) (validRevisions s);
  l_next := nextRevisionId s |}.

Lemma saved_changes s s' es r : changes s s' es → 0 <= journalIndex r <= zlen (entries (journal s)) →
  saved_world s' r = saved_world s r.
Proof.
  intros Hc Hr. unfold saved_world. rewrite (c_entries _ _ _ _ Hc), (c_konst _ _ _ _ Hc).
  rewrite drop_app_le by (unfold zlen in Hr; lia).
  by rewrite reverse_app, undo_all_app, (c_undo _ _ _ _ Hc).
Qed.

Lemma abs_eq s s' : validRevisions s' = validRevisions s → nextRevisionId s' = nextRevisionId s →
  Forall (λ r, saved_world s' r = saved_world s r) (validRevisions s) →
  Forall (λ r, is_Some (saved_world s r)) (validRevisions s) →
  abs s' = {| l_cur := view s'; l_saved := l_saved (abs s); l_next := l_next (abs s) |}.
Proof.
  intros Hr Hn Hs Hsome. unfold abs. simpl. rewrite Hr, Hn. f_equal. apply map_ext_Forall.
  eapply Forall_impl; [exact (proj2 (Forall_and _ _) (conj Hs Hsome))|]. intros r [H [w Hw]]. by rewrite H, Hw.
Qed.

Lemma saved_some s : wf s → Forall (λ r, is_Some (saved_world s r)) (validRevisions s).
Proof. intros H. eapply Forall_impl; [apply (wf_saved _ H)|]. intros r (w & Hw & _). by exists w. Qed.

(** An operation with its entries keeps the invariant and what was saved. *)
Lemma changes_wf s s' es : wf s → changes s s' es →
  wf s' ∧ abs s' = {| l_cur := view s'; l_saved := l_saved (abs s); l_next := l_next (abs s) |}.
Proof.
  intros Hwf Hc. pose proof Hwf as [H1 H2 H3 H4 HS H5 H6 H7 H8]. pose proof Hc as [K E Un F R N O W Di Se].
  assert (Hsaved : Forall (λ r, saved_world s' r = saved_world s r) (validRevisions s)).
  { eapply Forall_impl; [exact H7|]. intros r Hr. by apply saved_changes with es. }
  split; [|by apply abs_eq; [..|apply saved_some]].
  split; auto; rewrite ?R, ?N, ?K, ?E; auto.
  - by apply Forall_app.
  - eapply Forall_impl; [exact H7|]. intros r Hr. cbv beta in *. rewrite zlen_app. pose proof (zlen_nonneg es). lia.
  - eapply Forall_impl; [exact (proj2 (Forall_and _ _) (conj Hsaved (proj2 (Forall_and _ _) (conj H7 H8))))|].
    intros r [-> [Hr (w & Hw1 & Hw2 & Hw3)]]. exists w. split; [done|]. split; [done|].
    rewrite take_app_le by (unfold zlen in Hr; lia). done.
Qed.

Lemma quiet_wf s s' : wf s → quiet s s' → wf s' ∧ abs s' = abs s.
Proof.
  intros Hwf Hq. destruct (changes_wf s s' [] Hwf (quiet_changes _ _ _ Hq)) as [H1 H2].
  split; [done|]. rewrite H2, (q_view _ _ _ Hq). done.
Qed.

(** ** Snapshots *)

Lemma Snapshot_ok s : wf s → wf (db_Snapshot s).2 ∧
  (db_Snapshot s).1 = (l_Snapshot (abs s)).1 ∧ abs (db_Snapshot s).2 = (l_Snapshot (abs s)).2.
Proof.
  intros Hwf. pose proof Hwf as [H1 H2 H3 H4 HS H5 H6 H7 H8].
  set (r := {| rev_id := nextRevisionId s; journalIndex := zlen (entries (journal s)) |}).
  assert (Hr : saved_world s r = Some (view s)).
  { unfold saved_world, r. simpl. unfold zlen. by rewrite Nat2Z.id, drop_all. }
  split; [|split; [done|]].
  - split; try done; simpl.
    + by destruct H1.
    + intros i j r1 r2. rewrite !lookup_app_Some. intros [Hi|[Hi Hi']] [Hj|[Hj Hj']] Hij.
      * by eapply H5.
      * apply list_lookup_singleton_Some in Hj' as [_ <-]. simpl.
        pose proof (Forall_lookup_1 _ _ _ _ H6 Hi). pose proof (Forall_lookup_1 _ _ _ _ H7 Hi).
        simpl in *. lia.
      * apply lookup_lt_Some in Hj. lia.
      * apply list_lookup_singleton_Some in Hi' as [? _], Hj' as [? _]. lia.
    + apply Forall_app. split; [|by repeat constructor; simpl; lia].
      eapply Forall_impl; [exact H6|]. simpl. intros. lia.
    + apply Forall_app. split; [done|]. repeat constructor; simpl; [apply zlen_nonneg|lia].
    + apply Forall_app. split; [exact H8|]. repeat constructor. exists (view s). split; [exact Hr|]. split; [done|].
      simpl. unfold zlen. by rewrite Nat2Z.id, firstn_all.
  - unfold abs, l_Snapshot. cbn [db_Snapshot snd]. simpl. rewrite map_app. f_equal. f_equal.
    change (saved_world _) with (saved_world s). simpl. by fold r; rewrite Hr.
Qed.

(** ** Reverting *)

Lemma drop_counted (s : StateDB) l e : counted (dirties (journal s)) (l ++ [e]) →
  counted (dirties (journal (drop_dirty e s))) l.
Proof.
  intros [H1 H2 H3]. unfold drop_dirty.
  assert (Hone : ∀ a, marks a (l ++ [e]) = marks a l + if decide (dirtied e = Some a) then 1 else 0)
    by (intros a; by rewrite marks_app, marks_one).
  destruct (dirtied e) as [b|] eqn:He.
  2:{ split; [done|..]; intros a; [intros Ha; rewrite (H2 a Ha)|specialize (H3 a)];
      rewrite Hone, decide_False, Z.add_0_r in *; done. }
  set (n := default 0 (dirties (journal s) !! b) - 1). simpl.
  assert (Hc : ∀ a, default 0 ((if n =? 0 then delete b (dirties (journal s)) else <[b := n]> (dirties (journal s))) !! a) =
    default 0 (dirties (journal s) !! a) - if decide (Some b = Some a) then 1 else 0).
  { intros a. destruct (decide (a = b)) as [->|Hne].
    - rewrite decide_True by done. destruct (Z.eqb_spec n 0); [rewrite lookup_delete_eq|rewrite lookup_insert_eq]; simpl; lia.
    - rewrite decide_False by congruence. rewrite Z.sub_0_r.
      by case_if; [rewrite lookup_delete_ne by congruence|rewrite lookup_insert_ne by congruence]. }
  split.
  - intros a. destruct (Z.eqb_spec n 0); [intros [_ H]%lookup_delete_Some; by eapply H1|].
    rewrite lookup_insert_Some. intros [[_ H]|[_ H]]; [lia|by eapply H1].
  - intros a Ha. rewrite Hc, (H2 a Ha), Hone. lia.
  - intros a. rewrite Hc. specialize (H3 a). rewrite Hone in H3. lia.
Qed.

(** What the loop keeps. *)
Record kept (s s' : StateDB) : Prop := {
  k_konst : konst_of s' = konst_of s;
  k_entries : entries (journal s') = entries (journal s);
  k_revisions : validRevisions s' = validRevisions s;
  k_next : nextRevisionId s' = nextRevisionId s;
  k_ok : objects_ok s → objects_ok s';
}.
Lemma kept_trans s1 s2 s3 : kept s1 s2 → kept s2 s3 → kept s1 s3.
Proof. intros [] []. split; [congruence..|auto]. Qed.
Lemma frame_kept s s' : frame s s' → kept s s'.
Proof. intros [H1 H2 H3 H4 H5]. split; auto. by rewrite H2. Qed.
Lemma drop_kept e s : kept s (drop_dirty e s) ∧ view (drop_dirty e s) = view s.
Proof. unfold drop_dirty. destruct (dirtied e); [|by split]. split; [split; try done; by intros []|done]. Qed.

Lemma revert_entries_sim es : ∀ s l w, objects_ok s → Forall (entry_ok (konst_of s)) es →
  undo_all (konst_of s) es (view s) = Some w → counted (dirties (journal s)) (l ++ reverse es) →
  ∃ s', revert_entries Keccak256Hash es s = Some s' ∧ view s' = w ∧ kept s s' ∧ counted (dirties (journal s')) l.
Proof.
  induction es as [|e es IH]; intros s l w Hok He Hu Hc.
  - injection Hu as <-. exists s. split; [done|]. split; [done|]. split; [by split|].
    by rewrite reverse_nil, app_nil_r in Hc.
  - apply Forall_cons in He as [He Hes]. cbn [StateLedger.undo_all revert_entries] in *.
    destruct (undo Keccak256Hash (konst_of s) e (view s)) as [w1|] eqn:Hu1; [|done]. simpl in Hu.
    destruct (revert_sim Keccak256Hash s e w1 Hok He Hu1) as (s1 & -> & <- & Hf). simpl.
    destruct (drop_kept e s1) as [Hk Hv]. pose proof (kept_trans _ _ _ (frame_kept _ _ Hf) Hk) as Hk1.
    destruct (IH (drop_dirty e s1) l w) as (s' & -> & <- & Hk2 & Hc2).
    + apply (k_ok _ _ Hk1), Hok.
    + by rewrite (k_konst _ _ Hk1).
    + by rewrite (k_konst _ _ Hk1), Hv.
    + apply drop_counted. rewrite reverse_cons, app_assoc in Hc. by rewrite (f_journal _ _ Hf).
    + exists s'. split; [done|]. split; [done|]. split; [by eapply kept_trans|done].
Qed.

(** Reverting to a journal length finds the world of that time. *)
Lemma journal_revert_ok s n w : wf s → 0 <= n <= zlen (entries (journal s)) →
  undo_all (konst_of s) (reverse (drop (Z.to_nat n) (entries (journal s)))) (view s) = Some w →
  ∃ s', journal_revert Keccak256Hash n s = Some s' ∧ view s' = w ∧ konst_of s' = konst_of s ∧
    entries (journal s') = take (Z.to_nat n) (entries (journal s)) ∧
    validRevisions s' = validRevisions s ∧ nextRevisionId s' = nextRevisionId s ∧
    objects_ok s' ∧ counted (dirties (journal s')) (entries (journal s')).
Proof.
  intros [H1 H2 H3 H4 HS H5 H6 H7 H8] Hn Hu. unfold journal_revert.
  destruct (revert_entries_sim (reverse (drop (Z.to_nat n) (entries (journal s)))) s
    (take (Z.to_nat n) (entries (journal s))) w H1) as (s' & -> & Hv & [K E R N O] & Hc); simpl.
  - apply Forall_reverse. by apply Forall_drop.
  - exact Hu.
  - rewrite reverse_involutive, take_drop. exact H4.
  - rewrite E, slice_take by done. simpl. eexists. split; [done|].
    split_and!; try done. by destruct (O H1).
Qed.

Lemma drop_split {A} (l : list A) (i n : nat) : (i <= n)%nat → drop i l = drop i (take n l) ++ drop n l.
Proof.
  intros H. rewrite <- (take_drop n l) at 1. destruct (decide (n <= length l)%nat) as [Hl|Hl].
  - apply drop_app_le. rewrite length_take. lia.
  - rewrite (drop_ge l n), !app_nil_r by lia. done.
Qed.

Lemma saved_revert s s' r r0 : konst_of s' = konst_of s →
  entries (journal s') = take (Z.to_nat (journalIndex r)) (entries (journal s)) →
  saved_world s r = Some (view s') → 0 <= journalIndex r0 <= journalIndex r →
  saved_world s' r0 = saved_world s r0.
Proof.
  intros Hk He Hs Hr. unfold saved_world. rewrite Hk, He.
  rewrite (drop_split (entries (journal s)) (Z.to_nat (journalIndex r0)) (Z.to_nat (journalIndex r))) by lia.
  rewrite reverse_app, undo_all_app. unfold saved_world in Hs. by rewrite Hs.
Qed.

Lemma sorted_take l n : sorted l → sorted (take n l).
Proof.
  intros Hs i j r r' Hi Hj Hij. apply lookup_take_Some in Hi as [Hi _], Hj as [Hj _]. by eapply Hs.
Qed.

Lemma find_map {A} (f : A → Z * world) (g : A → Z) (id : Z) l : (∀ x, (f x).1 = g x) →
  list_find (λ p : Z * world, p.1 = id) (map f l) = prod_map (λ i, i) f <$> list_find (λ x, g x = id) l.
Proof.
  intros Hf. induction l as [|x l IH]; [done|]. simpl. destruct (decide ((f x).1 = id)) as [E|E].
  - rewrite decide_True by (by rewrite <- Hf). done.
  - rewrite decide_False by (by rewrite <- Hf). rewrite IH.
    by destruct (list_find _ l) as [[]|].
Qed.

(** What is left of the journal and of the revisions. *)
Definition reverted (id : Z) (s s' : StateDB) : Prop :=
  ∃ i r, validRevisions s !! i = Some r ∧ rev_id r = id ∧ validRevisions s' = take i (validRevisions s) ∧
    entries (journal s') = take (Z.to_nat (journalIndex r)) (entries (journal s)).

Lemma Revert_ok id s : wf s →
  match db_RevertToSnapshot Keccak256Hash id s, l_RevertToSnapshot id (abs s) with
  | Some s', Some l' => wf s' ∧ abs s' = l' ∧ konst_of s' = konst_of s ∧ reverted id s s'
  | None, None => True
  | _, _ => False
  end.
Proof.
  intros Hwf. pose proof Hwf as [H1 H2 H3 H4 HS H5 H6 H7 H8].
  unfold db_RevertToSnapshot, l_RevertToSnapshot. cbn [abs l_saved l_next].
  rewrite (find_map _ rev_id) by done.
  destruct (search_found (validRevisions s) id H5) as (m & -> & Hm). cbn [mbind option_bind].
  destruct (list_find _ (validRevisions s)) as [[i r]|] eqn:Hf; simpl.
  2:{ destruct (index (validRevisions s) m) as [r|] eqn:Hi; simpl; [|done].
      by rewrite (proj2 (Z.eqb_neq _ _)) by (by apply Hm). }
  destruct Hm as (-> & -> & <-). cbn [mbind option_bind]. rewrite Z.eqb_refl. simpl.
  apply list_find_Some in Hf as (Hi & _ & _).
  pose proof (Forall_lookup_1 _ _ _ _ H7 Hi) as Hr. cbv beta in Hr.
  destruct (Forall_lookup_1 _ _ _ _ H8 Hi) as (w & Hw & Hwok & Hwse). rewrite Hw. simpl.
  destruct (journal_revert_ok s (journalIndex r) w Hwf Hr Hw) as (s' & -> & Hv & K & E & R & N & O & Di). simpl.
  pose proof (lookup_lt_Some _ _ _ Hi) as Hlen.
  rewrite R, slice_take by (unfold zlen; lia). simpl. rewrite Nat2Z.id.
  assert (Hbelow : Forall (λ r0, 0 <= journalIndex r0 <= journalIndex r) (take i (validRevisions s))).
  { apply Forall_lookup. intros j r0 [Hj Hji]%lookup_take_Some. pose proof (Forall_lookup_1 _ _ _ _ H7 Hj) as Hr0.
    cbv beta in Hr0. destruct (H5 _ _ _ _ Hj Hi Hji). lia. }
  assert (Hsaved : Forall (λ r0, saved_world s' r0 = saved_world s r0) (take i (validRevisions s))).
  { eapply Forall_impl; [exact Hbelow|]. intros r0 Hr0. apply (saved_revert s s' r r0); auto. by rewrite Hv. }
  split; [|split; [|split; [done|exists i, r; by split_and!]]].
  - split; simpl; [by destruct O| | |done| |by apply sorted_take|by rewrite N; apply Forall_take| |].
    + by rewrite <- Hv in Hwok.
    + change (konst_of (set_validRevisions _ s')) with (konst_of s'). rewrite K, E. by apply Forall_take.
    + change (view (set_validRevisions _ s')) with (view s'). by rewrite E, Hv.
    + rewrite E. eapply Forall_impl; [exact Hbelow|]. intros r0 Hr0. cbv beta in *.
      assert (zlen (take (Z.to_nat (journalIndex r)) (entries (journal s))) = journalIndex r) as ->; [|lia].
      unfold zlen in *. rewrite length_take. lia.
    + eapply Forall_impl; [exact (proj2 (Forall_and _ _) (conj Hbelow
        (proj2 (Forall_and _ _) (conj Hsaved (Forall_take _ i _ H8)))))|].
      intros r0 [Hr0 [E0 (w0 & Hw0 & Hok0 & Hse0)]]. exists w0. split; [|split; [done|]].
      * change (saved_world s' r0 = Some w0). by rewrite E0.
      * rewrite E, take_take, Nat.min_l by lia. done.
  - unfold abs. simpl. change (view (set_validRevisions _ s')) with (view s'). rewrite Hv, N. f_equal.
    rewrite <- fmap_take. apply map_ext_Forall.
    eapply Forall_impl; [exact (proj2 (Forall_and _ _) (conj Hsaved (Forall_take _ i _ (saved_some s Hwf))))|].
    intros r0 [E0 [w0 Hw0]]. change (saved_world (set_validRevisions _ s') r0) with (saved_world s' r0).
    by rewrite E0, Hw0.
Qed.
End journal.
