(* ===== verification/StateModel.v ===== *)
(** * A store in memory

    A concrete [Backend] that keeps tries, codes and the snapshot layer as maps, on which
    the theorems about the state database are evaluated. *)

From S2P Require Import Prelude Params VmData VmState Rlp RlpStream StateData StateObjects StateDbOps StateView.
From S2P Require Import StateLedger StateRefine.

Abbreviation mtrie := (gmap bytes bytes) (only parsing).
Record mstore := { st_tries : gmap Hash mtrie; st_codes : gmap Hash bytes }.
Record layer := { ly_accounts : gmap Hash SlimAccount; ly_slots : gmap (Hash * Hash) bytes }.

(** A hash that can be computed. *)
Definition fold_hash (b : bytes) : Hash := fold_left (λ h x, (h * 257 + x + 1) mod 2 ^ 256) b 1.

Definition open_map (d : mstore) (r : Hash) : mtrie + string :=
  if (r =? 0) || (r =? emptyRoot) then inl ∅
  else match st_tries d !! r with Some t => inl t | None => inr "missing trie node"%string end.

#[export] Instance map_backend : Backend mstore mtrie layer := {|
  OpenTrie := open_map;
  OpenStorageTrie d _ r := open_map d r;
  EmptyStorageTrie _ _ := ∅;
  ContractCode d _ h := match st_codes d !! h with Some c => inl c | None => inr "not found"%string end;
  ContractCodeSize d _ h := match st_codes d !! h with Some c => inl (zlen c) | None => inr "not found"%string end;
  TryGet t k := inl (default [] (t !! k));
  TryUpdate t k v := inl (<[k := v]> t);
  TryDelete t k := inl (delete k t);
  Trie_Hash t := if bool_decide (t = ∅) then emptyRoot
                 else fold_hash (concat (map (λ kv : bytes * bytes, kv.1 ++ kv.2) (map_to_list t)));
  snap_Account sn h := inl (ly_accounts sn !! h);
  snap_Storage sn h k := inl (match ly_accounts sn !! h with
                              | Some _ => default [] (ly_slots sn !! (h, k)) | None => [] end);
  AccountsCorrected _ := true;
|}.

#[export] Instance map_laws : BackendLaws mstore mtrie layer.
Proof.
  split; simpl.
  - intros d _ key t [= <-]. by rewrite lookup_empty.
  - intros _ _ key. by rewrite lookup_empty.
  - intros sn h key enc. destruct (ly_accounts sn !! h) as [acc|]; [by exists acc|]. intros [= <-] H. done.
  - intros d ah h. destruct (st_codes d !! h); [done|by eexists].
Qed.

Definition empty_store : mstore := {| st_tries := ∅; st_codes := ∅ |}.
Definition empty_layer : layer := {| ly_accounts := ∅; ly_slots := ∅ |}.
(** A layer with one account, which has one slot. *)
Definition one_account : layer := {|
  ly_accounts := {[ fold_hash (addr_bytes 7) :=
    {| sl_Nonce := 1; sl_Balance := 50; sl_Root := [9]; sl_CodeHash := [] |} ]};
  ly_slots := {[ (fold_hash (addr_bytes 7), fold_hash (hash_bytes 1)) := [5] ]} |}.
