(* ===== verification/TrieEncoding.v ===== *)
(** * Key encodings of the trie ([trie/encoding.go])

    A key of the trie is a byte string.  In memory it is a string of nibbles that ends with
    the terminator 16 ([keybytesToHex]); in a stored node it is packed two nibbles to a
    byte, after flags for the terminator and for odd length ([hexToCompact]). *)

From S2P Require Import Prelude.

(** [x << 4 | y] on bytes. *)
Definition pack (x y : Z) : Z := Z.lor (Z.shiftl x 4 mod 256) y.

Definition hasTerm (s : bytes) : bool :=
  match last s with Some x => x =? 16 | None => false end.

(** Writes into the buffer; [None] is an index out of range. *)
Fixpoint decodeNibbles (nibbles buf : bytes) : option bytes :=
  match nibbles with
  | [] => Some buf
  | [_] => None
  | x :: y :: nibbles =>
      match buf with
      | [] => None
      | _ :: buf => cons (pack x y) <$> decodeNibbles nibbles buf
      end
  end.

Definition hexToCompact (hex : bytes) : option bytes :=
  let terminator := if hasTerm hex then 1 else 0 in
  let hex := if hasTerm hex then removelast hex else hex in
  let buf0 := Z.shiftl terminator 5 in
  let '(buf0, hex) :=
    match hex with
    | x :: hex' => if Z.land (zlen hex) 1 =? 1 then (Z.lor (Z.lor buf0 (Z.shiftl 1 4)) x, hex') else (buf0, hex)
    | [] => (buf0, hex)
    end in
  cons buf0 <$> decodeNibbles hex (zeros (zlen hex / 2)).

(** The loop of [hexToCompactInPlace]; reads run ahead of writes in one slice. *)
Fixpoint compact_loop (fuel : nat) (hexLen bi ni : Z) (hex : bytes) : option bytes :=
  match fuel with
  | O => None
  | S fuel =>
      if ni <? hexLen then
        x ← index hex ni; y ← index hex (ni + 1);
        hex ← set_index hex bi (pack x y);
        compact_loop fuel hexLen (bi + 1) (ni + 2) hex
      else Some hex
  end.

(** The slice afterwards and the length of the compact key at its start. *)
Definition hexToCompactInPlace (hex : bytes) : option (bytes * Z) :=
  let term := hasTerm hex in
  let firstByte := if term then Z.shiftl 1 5 else 0 in
  let hexLen := if term then zlen hex - 1 else zlen hex in
  let binLen := hexLen / 2 + 1 in
  let odd := Z.land hexLen 1 =? 1 in
  firstByte ← (if odd then x ← index hex 0; Some (Z.lor (Z.lor firstByte (Z.shiftl 1 4)) x) else Some firstByte);
  hex' ← compact_loop (S (length hex)) hexLen 1 (if odd then 1 else 0) hex;
  hex' ← set_index hex' 0 firstByte;
  Some (hex', binLen).

Definition nibbles_of (b : Z) : bytes := [b / 16; b mod 16].
Definition keybytesToHex (str : bytes) : bytes := concat (map nibbles_of str) ++ [16].

Definition compactToHex (compact : bytes) : option bytes :=
  if zlen compact =? 0 then Some compact
  else
    let base := keybytesToHex compact in
    b ← index base 0;
    base ← (if b <? 2 then slice base 0 (zlen base - 1) else Some base);
    slice base (2 - Z.land b 1) (zlen base).

(** [None] is the panic for a key of odd length. *)
Definition hexToKeybytes (hex : bytes) : option bytes :=
  let hex := if hasTerm hex then removelast hex else hex in
  if negb (Z.land (zlen hex) 1 =? 0) then None
  else decodeNibbles hex (zeros (zlen hex / 2)).

Fixpoint prefixLen (a b : bytes) : nat :=
  match a, b with
  | x :: a, y :: b => if x =? y then S (prefixLen a b) else 0
  | _, _ => 0
  end.

(** ** Nibbles *)

Definition is_nibble (x : Z) : Prop := 0 <= x < 16.
(** A path inside the trie, and one that is a whole key. *)
Definition path (p : bytes) : Prop := Forall is_nibble p.
Definition hexkey (k : bytes) : Prop := ∃ p, path p ∧ k = p ++ [16].

Lemma hasTerm_key p : hasTerm (p ++ [16]) = true.
Proof. unfold hasTerm. by rewrite last_snoc. Qed.
Lemma hasTerm_path p : path p → hasTerm p = false.
Proof.
  unfold hasTerm. destruct (last p) as [x|] eqn:E; [|done]. intros H.
  apply last_Some in E as [p' ->]. apply Forall_app in H as [_ H]. inversion_clear H as [|?? Hx _].
  unfold is_nibble in Hx. apply Z.eqb_neq. lia.
Qed.

Lemma pack_sum x y : is_nibble x → is_nibble y → pack x y = x * 16 + y.
Proof.
  unfold is_nibble, pack. intros Hx Hy. rewrite Z.shiftl_mul_pow2 by lia. change (2 ^ 4) with 16.
  rewrite Z.mod_small, <- Z.add_lor_land by lia. replace (Z.land (x * 16) y) with 0; [lia|].
  symmetry. apply Z.bits_inj'. intros n Hn. rewrite Z.land_spec, Z.bits_0. change 16 with (2 ^ 4).
  rewrite Z.mul_pow2_bits by lia. destruct (Z.lt_ge_cases n 4).
  - by rewrite Z.testbit_neg_r by lia.
  - rewrite (Z.bits_above_log2 y n), andb_false_r; [done|lia|]. destruct (Z.eq_dec y 0) as [->|]; [simpl; lia|].
    apply Z.log2_lt_pow2; [lia|]. pose proof (Z.pow_le_mono_r 2 4 n). lia.
Qed.

(** ** Bytes to nibbles and back *)

Lemma nibbles_of_path b : is_byte b → path (nibbles_of b).
Proof.
  unfold is_byte, path, nibbles_of, is_nibble. intros Hb.
  pose proof (Z.mod_pos_bound b 16). pose proof (Z.div_mod b 16).
  repeat constructor; lia.
Qed.
Lemma nibbles_path s : Forall is_byte s → path (concat (map nibbles_of s)).
Proof. induction 1; [constructor|]. apply Forall_app. split; [by apply nibbles_of_path|done]. Qed.
Lemma keybytesToHex_key s : Forall is_byte s → hexkey (keybytesToHex s).
Proof. intros H. eexists. split; [by apply nibbles_path|done]. Qed.

Lemma zlen_nibbles s : zlen (concat (map nibbles_of s)) = 2 * zlen s.
Proof. induction s as [|b s IH]; [done|]. simpl. rewrite !zlen_cons, IH. lia. Qed.

Lemma decodeNibbles_nibbles s buf : Forall is_byte s → zlen buf = zlen s →
  decodeNibbles (concat (map nibbles_of s)) buf = Some s.
Proof.
  intros H. revert buf. induction H as [|b s Hb _ IH]; intros buf Hl.
  - simpl. destruct buf; [done|]. rewrite zlen_cons in Hl. pose proof (zlen_nonneg buf). change (zlen (@nil Z)) with 0 in Hl. lia.
  - destruct buf as [|x buf]; [rewrite zlen_cons in Hl; pose proof (zlen_nonneg s); change (zlen (@nil Z)) with 0 in Hl; lia|].
    rewrite !zlen_cons in Hl. simpl. rewrite IH by lia. simpl.
    pose proof (nibbles_of_path b Hb) as Hn. inversion_clear Hn as [|?? H1 H2]. inversion_clear H2 as [|?? H3 _].
    rewrite pack_sum by done. do 2 f_equal. pose proof (Z.div_mod b 16). lia.
Qed.

(** A path of even length is the nibbles of bytes. *)
Fixpoint bytes_of (p : bytes) : bytes :=
  match p with x :: y :: p => (x * 16 + y) :: bytes_of p | _ => [] end.
Lemma bytes_of_nibbles s : Forall is_byte s → bytes_of (concat (map nibbles_of s)) = s.
Proof. induction 1 as [|b s Hb _ IH]; [done|]. simpl. rewrite IH. f_equal. pose proof (Z.div_mod b 16). lia. Qed.
Lemma decodeNibbles_bytes p buf : path p → zlen p = 2 * zlen buf → decodeNibbles p buf = Some (bytes_of p).
Proof.
  revert p. induction buf as [|b buf IH]; intros p Hp Hl.
  - destruct p; [done|]. rewrite zlen_cons in Hl. pose proof (zlen_nonneg p). change (zlen (@nil Z)) with 0 in Hl. lia.
  - rewrite zlen_cons in Hl. pose proof (zlen_nonneg buf). destruct p as [|x [|y p]].
    + change (zlen (@nil Z)) with 0 in Hl. lia.
    + change (zlen [x]) with 1 in Hl. lia.
    + rewrite !zlen_cons in Hl. inversion_clear Hp as [|?? Hx Hp']. inversion_clear Hp' as [|?? Hy Hp''].
      simpl. rewrite IH by (done || lia). simpl. by rewrite pack_sum.
Qed.
Lemma bytes_of_byte p : path p → Forall is_byte (bytes_of p).
Proof.
  revert p. fix IH 1. intros [|x [|y p]] Hp; simpl; [constructor..|].
  inversion_clear Hp as [|?? Hx Hp']. inversion_clear Hp' as [|?? Hy Hp'']. constructor; [|by apply IH].
  unfold is_byte, is_nibble in *. lia.
Qed.
Lemma nibbles_bytes_of p : path p → Z.Even (zlen p) → concat (map nibbles_of (bytes_of p)) = p.
Proof.
  revert p. fix IH 1. intros [|x [|y p]] Hp He; simpl; [done| |].
  - destruct He as [k Hk]. change (zlen [x]) with 1 in Hk. lia.
  - inversion_clear Hp as [|?? Hx Hp']. inversion_clear Hp' as [|?? Hy Hp''].
    rewrite IH; [|done|]. 2:{ destruct He as [k Hk]. rewrite !zlen_cons in Hk. exists (k - 1). lia. }
    unfold is_nibble in *. rewrite Z.div_add_l, Z.div_small, Z.add_0_r by lia.
    by replace ((x * 16 + y) mod 16) with y by (rewrite Z.add_comm, Z.mod_add, Z.mod_small; lia).
Qed.
Lemma zlen_bytes_of p : zlen (bytes_of p) = zlen p / 2.
Proof.
  revert p. fix IH 1. intros [|x [|y p]]; simpl; [done|done|].
  rewrite !zlen_cons, IH. replace (zlen p + 1 + 1) with (zlen p + 1 * 2) by lia. by rewrite Z.div_add by lia.
Qed.

Lemma land_1 z : Z.land z 1 = z mod 2.
Proof. change 1 with (Z.ones 1). by rewrite Z.land_ones by lia. Qed.
Lemma removelast_snoc {A} (l : list A) x : removelast (l ++ [x]) = l.
Proof. by rewrite removelast_app, app_nil_r by done. Qed.

(** ** The compact form *)

(** The flags, the padding of a path of even length, and the path. *)
Definition flagged (term : bool) (p : bytes) : bytes :=
  (if term then 2 else 0) + (zlen p) mod 2 :: (if zlen p mod 2 =? 1 then p else 0 :: p).
Definition compact (term : bool) (p : bytes) : bytes := bytes_of (flagged term p).
(** The key as it is in memory. *)
Definition spelled (term : bool) (p : bytes) : bytes := p ++ (if term then [16] else []).

Lemma flagged_path term p : path p → path (flagged term p).
Proof.
  intros H. pose proof (Z.mod_pos_bound (zlen p) 2). constructor; [unfold is_nibble; destruct term; lia|].
  destruct (_ =? 1); [done|]. constructor; [unfold is_nibble; lia|done].
Qed.
Lemma flagged_even term p : Z.Even (zlen (flagged term p)).
Proof.
  unfold flagged. rewrite zlen_cons. pose proof (Z.mod_pos_bound (zlen p) 2). pose proof (Z.div_mod (zlen p) 2).
  destruct (Z.eqb_spec (zlen p mod 2) 1); rewrite ?zlen_cons; exists (zlen p / 2 + 1); lia.
Qed.

Lemma hexToCompact_compact term p : path p → hexToCompact (spelled term p) = Some (compact term p).
Proof.
  intros Hp. unfold hexToCompact. set (k := spelled term p).
  assert (hasTerm k = term ∧ (if hasTerm k then removelast k else k) = p) as [-> ->].
  { unfold k, spelled. destruct term; [rewrite hasTerm_key, removelast_snoc; done|]. rewrite app_nil_r, hasTerm_path; done. }
  pose proof (Z.mod_pos_bound (zlen p) 2) as Hm. pose proof (Z.div_mod (zlen p) 2) as Hdm.
  unfold compact, flagged. destruct p as [|x p].
  - by destruct term; vm_compute.
  - rewrite land_1. inversion_clear Hp as [|?? Hx Hp']. pose proof (zlen_nonneg p).
    destruct (Z.eqb_spec (zlen (x :: p) mod 2) 1) as [Ho|Ho].
    + rewrite Ho. rewrite zlen_cons in Ho, Hm, Hdm.
      assert (Hev : zlen p = 2 * (zlen p / 2)).
      { pose proof (Z.div_mod (zlen p) 2). replace (zlen p + 1) with (1 + zlen p) in Ho by lia.
        rewrite Z.add_mod in Ho by lia. pose proof (Z.mod_pos_bound (zlen p) 2).
        destruct (Z.eq_dec (zlen p mod 2) 0) as [E|E]; [lia|]. replace (zlen p mod 2) with 1 in Ho by lia. done. }
      rewrite decodeNibbles_bytes; [|done|rewrite zlen_zeros; lia]. cbn [bytes_of fmap option_fmap option_map].
      do 2 f_equal. replace (Z.lor (Z.shiftl (if term then 1 else 0) 5) (Z.shiftl 1 4)) with (Z.shiftl (if term then 3 else 1) 4 mod 256)
        by (by destruct term). change (pack (if term then 3 else 1) x = ((if term then 2 else 0) + 1) * 16 + x).
      rewrite pack_sum; [by destruct term|unfold is_nibble; destruct term; lia|done].
    + replace (zlen (x :: p) mod 2) with 0 by lia. cbn [bytes_of].
      rewrite decodeNibbles_bytes; [|by constructor|rewrite zlen_zeros by (apply Z.div_pos; [apply zlen_nonneg|lia]); lia]. cbn [fmap option_fmap option_map bytes_of].
      do 2 f_equal. by destruct term.
Qed.

Lemma compactToHex_compact term p : path p → compactToHex (compact term p) = Some (spelled term p).
Proof.
  intros Hp. unfold compactToHex. pose proof (Z.mod_pos_bound (zlen p) 2) as Hm.
  assert (Hb : keybytesToHex (compact term p) = flagged term p ++ [16]).
  { unfold keybytesToHex, compact. by rewrite nibbles_bytes_of by solve [by apply flagged_path|apply flagged_even]. }
  rewrite Hb. assert (Hz : (zlen (compact term p) =? 0) = false).
  { apply Z.eqb_neq. unfold compact. rewrite zlen_bytes_of. unfold flagged. rewrite zlen_cons.
    pose proof (zlen_nonneg p). destruct (Z.eqb_spec (zlen p mod 2) 1) as [Ho|Ho].
    - assert (1 <= (zlen p + 1) / 2); [|lia]. apply Z.div_le_lower_bound; [lia|].
      destruct p; [done|]. rewrite zlen_cons. pose proof (zlen_nonneg p). lia.
    - rewrite zlen_cons. assert (1 <= (zlen p + 1 + 1) / 2); [|lia]. apply Z.div_le_lower_bound; lia. }
  rewrite Hz. set (f := (if term then 2 else 0) + zlen p mod 2).
  change (index (flagged term p ++ [16]) 0) with (Some f). cbn [mbind option_bind].
  assert (Hlast : (if f <? 2 then slice (flagged term p ++ [16]) 0 (zlen (flagged term p ++ [16]) - 1)
    else Some (flagged term p ++ [16])) = Some (f :: (if zlen p mod 2 =? 1 then p else 0 :: p) ++ (if term then [16] else []))).
  { unfold f. destruct term; cbn [Z.add].
    - rewrite (proj2 (Z.ltb_ge _ 2)) by lia. done.
    - rewrite (proj2 (Z.ltb_lt _ 2)) by lia. unfold slice. rewrite zlen_app. change (zlen [16]) with 1.
      pose proof (zlen_nonneg (flagged false p)). rewrite !(proj2 (Z.leb_le _ _)) by lia. cbn [andb drop Z.to_nat].
      change (Z.to_nat 0) with 0%nat. rewrite drop_0. rewrite take_app_length'; [by rewrite app_nil_r|]. unfold zlen in *. lia. }
  rewrite Hlast. cbn [mbind option_bind]. rewrite land_1.
  assert (Hf : f mod 2 = zlen p mod 2).
  { unfold f. assert (zlen p mod 2 = 0 ∨ zlen p mod 2 = 1) as [-> | ->] by lia; by destruct term. }
  rewrite Hf. unfold slice, spelled. set (r := (if term then [16] else [])). rewrite zlen_cons, zlen_app.
  pose proof (zlen_nonneg p). pose proof (zlen_nonneg r).
  destruct (Z.eqb_spec (zlen p mod 2) 1) as [Ho|Ho].
  - rewrite Ho. rewrite !(proj2 (Z.leb_le _ _)) by lia. cbn [andb]. f_equal. change (Z.to_nat (2 - 1)) with 1%nat. cbn [drop].
    apply take_ge. rewrite length_app. unfold zlen in *. lia.
  - replace (zlen p mod 2) with 0 by lia. rewrite zlen_cons. rewrite !(proj2 (Z.leb_le _ _)) by lia. cbn [andb]. f_equal.
    change (Z.to_nat (2 - 0)) with 2%nat. cbn [drop app]. apply take_ge. rewrite length_app. unfold zlen in *. lia.
Qed.

Lemma spelled_key k : hexkey k → ∃ p, path p ∧ k = spelled true p.
Proof. intros (p & Hp & ->). by exists p. Qed.

(** ** Keys *)

Lemma hexToKeybytes_key s : Forall is_byte s → hexToKeybytes (keybytesToHex s) = Some s.
Proof.
  intros H. unfold hexToKeybytes, keybytesToHex. rewrite hasTerm_key, removelast_snoc, land_1, zlen_nibbles.
  rewrite Z.mul_comm, Z.mod_mul by lia. cbn [negb Z.eqb]. rewrite Z.div_mul by lia.
  apply decodeNibbles_nibbles; [done|]. rewrite zlen_zeros; [done|apply zlen_nonneg].
Qed.
Lemma keybytesToHex_inj s s' : Forall is_byte s → Forall is_byte s' → keybytesToHex s = keybytesToHex s' → s = s'.
Proof.
  intros H H' E. apply (f_equal hexToKeybytes) in E. rewrite !hexToKeybytes_key in E by done. by injection E.
Qed.

(** ** In place *)

Lemma index_nat {A} (l : list A) (i : nat) : index l (Z.of_nat i) = l !! i.
Proof. unfold index. rewrite (proj2 (Z.leb_le _ _)) by lia. by rewrite Nat2Z.id. Qed.
Lemma set_index_nat {A} (l : list A) (i : nat) x : (i < length l)%nat → set_index l (Z.of_nat i) x = Some (<[i := x]> l).
Proof.
  intros H. unfold set_index, zlen. rewrite (proj2 (Z.leb_le _ _)), (proj2 (Z.ltb_lt _ _)) by lia. cbn [andb]. by rewrite Nat2Z.id.
Qed.

Lemma set_index_Z {A} (l : list A) (i : Z) x : 0 <= i < zlen l → set_index l i x = Some (<[Z.to_nat i := x]> l).
Proof. intros H. rewrite <- (Z2Nat.id i) at 1 by lia. apply set_index_nat. unfold zlen in H. lia. Qed.

(** Writes never catch up with the reads: what is still to be read is as it was. *)
Lemma compact_loop_ok q : path q → Z.Even (zlen q) → ∀ fuel (bi ni : nat) hex tail,
  drop ni hex = q ++ tail → (1 <= bi <= ni + 1)%nat → (length q < 2 * fuel)%nat → (bi <= length hex)%nat →
  ∃ hex', compact_loop fuel (Z.of_nat ni + zlen q) (Z.of_nat bi) (Z.of_nat ni) hex = Some hex' ∧
    length hex' = length hex ∧ take bi hex' = take bi hex ∧
    take (length (bytes_of q)) (drop bi hex') = bytes_of q.
Proof.
  revert q. fix IH 1. intros [|x [|y q]] Hq He fuel bi ni hex tail Hd Hb Hf Hl.
  - destruct fuel as [|fuel]; [simpl in Hf; lia|]. exists hex. cbn [compact_loop]. change (zlen (@nil Z)) with 0.
    rewrite (proj2 (Z.ltb_ge _ _)) by lia. done.
  - destruct He as [k Hk]. change (zlen [x]) with 1 in Hk. lia.
  - destruct fuel as [|fuel]; [simpl in Hf; lia|]. cbn [compact_loop]. rewrite !zlen_cons. pose proof (zlen_nonneg q).
    rewrite (proj2 (Z.ltb_lt _ _)) by lia. inversion_clear Hq as [|?? Hx Hq']. inversion_clear Hq' as [|?? Hy Hq''].
    assert (Hx0 : hex !! ni = Some x) by (rewrite <- (Nat.add_0_r ni), <- lookup_drop, Hd; done).
    assert (Hy0 : hex !! (ni + 1)%nat = Some y) by (rewrite <- lookup_drop, Hd; done).
    pose proof (lookup_lt_Some _ _ _ Hy0) as Hlt.
    rewrite index_nat, Hx0. cbn [mbind option_bind]. replace (Z.of_nat ni + 1) with (Z.of_nat (ni + 1)) by lia.
    rewrite index_nat, Hy0. cbn [mbind option_bind]. rewrite set_index_nat by lia. cbn [mbind option_bind].
    rewrite pack_sum by done. set (hex1 := <[bi := x * 16 + y]> hex).
    destruct (IH q Hq'' ltac:(destruct He as [k Hk]; rewrite !zlen_cons in Hk; exists (k - 1); lia)
      fuel (bi + 1)%nat (ni + 2)%nat hex1 tail) as (hex' & Hr & Hlen & Ht & Hdrop).
    + unfold hex1. rewrite drop_insert_lt by lia. rewrite <- (drop_drop hex 2 ni), Hd. done.
    + lia.
    + simpl in Hf. lia.
    + unfold hex1. rewrite length_insert. lia.
    + exists hex'. split.
      * rewrite <- Hr. f_equal; lia.
      * unfold hex1 in Hlen, Ht. rewrite length_insert in Hlen. split; [done|].
        assert (Hsplit : ∀ l : list Z, take (bi + 1) l = take bi (take (bi + 1) l) ++ drop bi (take (bi + 1) l)) by (intros; by rewrite take_drop).
        split.
        -- apply (f_equal (take bi)) in Ht. rewrite !take_take, !Nat.min_l in Ht by lia. by rewrite Ht, take_insert_ge by lia.
        -- assert (Hbi : hex' !! bi = Some (x * 16 + y)).
           { rewrite <- (lookup_take_lt hex' (bi + 1)) by lia. rewrite Ht, lookup_take_lt by lia. apply list_lookup_insert_eq. lia. }
           rewrite (drop_S _ _ _ Hbi). cbn [bytes_of length take]. f_equal. by replace (S bi) with (bi + 1)%nat by lia.
Qed.

Lemma hexToCompactInPlace_compact term p : path p → spelled term p ≠ [] → ∃ hex',
  hexToCompactInPlace (spelled term p) = Some (hex', zlen (compact term p)) ∧
  take (length (compact term p)) hex' = compact term p.
Proof.
  intros Hp Hne. unfold hexToCompactInPlace.
  assert (hasTerm (spelled term p) = term) as ->.
  { unfold spelled. destruct term; [apply hasTerm_key|]. by rewrite app_nil_r, hasTerm_path. }
  assert ((if term then zlen (spelled term p) - 1 else zlen (spelled term p)) = zlen p) as ->.
  { unfold spelled. rewrite zlen_app. destruct term; [change (zlen [16]) with 1|change (zlen (@nil Z)) with 0]; lia. }
  rewrite land_1. pose proof (Z.mod_pos_bound (zlen p) 2) as Hm. pose proof (Z.div_mod (zlen p) 2) as Hdm.
  assert (Hsz : zlen (compact term p) = zlen p / 2 + 1).
  { unfold compact. rewrite zlen_bytes_of. unfold flagged. rewrite zlen_cons.
    destruct (Z.eqb_spec (zlen p mod 2) 1); rewrite ?zlen_cons.
    - replace (zlen p + 1) with (0 + (zlen p / 2 + 1) * 2) by lia. rewrite Z.div_add by lia. done.
    - replace (zlen p + 1 + 1) with (0 + (zlen p / 2 + 1) * 2) by lia. rewrite Z.div_add by lia. done. }
  rewrite Hsz. assert (Hlen : (1 <= length (spelled term p))%nat) by (destruct (spelled term p); [done|simpl; lia]).
  assert (Hfin : ∀ q b hex', length hex' = length (spelled term p) → take (length (bytes_of q)) (drop 1 hex') = bytes_of q →
    compact term p = b :: bytes_of q → ∃ hex'', set_index hex' 0 b = Some hex'' ∧
    take (length (compact term p)) hex'' = compact term p).
  { intros q b [|h hex'] Hl Ht Hc; [simpl in Hl; lia|]. exists (b :: hex').
    split; [apply (set_index_nat (h :: hex') 0); simpl; lia|]. rewrite Hc. cbn [length take]. f_equal. exact Ht. }
  unfold compact, flagged in *. destruct (Z.eqb_spec (zlen p mod 2) 1) as [Ho|Ho].
  - destruct p as [|x p]; [done|]. inversion_clear Hp as [|?? Hx Hp'].
    change (index (spelled term (x :: p)) 0) with (Some x). cbn [mbind option_bind].
    rewrite zlen_cons in Hdm, Ho. pose proof (zlen_nonneg p).
    destruct (compact_loop_ok p Hp' ltac:(exists ((zlen p + 1) / 2); lia) (S (length (spelled term (x :: p)))) 1 1
      (spelled term (x :: p)) (if term then [16] else [])) as (hex' & Hr & Hl & _ & Hd); [done|lia| |lia|].
    { unfold spelled. rewrite length_app. simpl. lia. }
    replace (Z.of_nat 1 + zlen p) with (zlen (x :: p)) in Hr by (rewrite zlen_cons; lia).
    change (Z.of_nat 1) with 1 in Hr. rewrite Hr. cbn [mbind option_bind].
    destruct (Hfin p (Z.lor (Z.lor (if term then Z.shiftl 1 5 else 0) (Z.shiftl 1 4)) x) hex' Hl Hd) as (hex'' & Hs & Ht).
    { cbn [bytes_of]. f_equal.
      replace (Z.lor (if term then Z.shiftl 1 5 else 0) (Z.shiftl 1 4)) with (Z.shiftl (if term then 3 else 1) 4 mod 256) by (by destruct term).
      change (((if term then 2 else 0) + zlen (x :: p) mod 2) * 16 + x = pack (if term then 3 else 1) x).
      rewrite zlen_cons, Ho, pack_sum; [by destruct term|unfold is_nibble; destruct term; lia|done]. }
    exists hex''. by rewrite Hs.
  - cbn [mbind option_bind].
    destruct (compact_loop_ok p Hp ltac:(exists (zlen p / 2); lia) (S (length (spelled term p))) 1 0
      (spelled term p) (if term then [16] else [])) as (hex' & Hr & Hl & _ & Hd); [done|lia| |lia|].
    { unfold spelled. rewrite length_app. lia. }
    change (Z.of_nat 0 + zlen p) with (zlen p) in Hr. change (Z.of_nat 1) with 1 in Hr. change (Z.of_nat 0) with 0 in Hr.
    rewrite Hr. cbn [mbind option_bind].
    destruct (Hfin p (if term then Z.shiftl 1 5 else 0) hex' Hl Hd) as (hex'' & Hs & Ht).
    { cbn [bytes_of]. f_equal. replace (zlen p mod 2) with 0 by lia. by destruct term. }
    exists hex''. by rewrite Hs.
Qed.
