(* ===== verification/TrieNode.v ===== *)
(** * Nodes of the trie ([trie/node.go], [trie/hasher.go], [trie/database.go])

    A node in memory, its encoding and decoding, its hash, and the database that keeps
    nodes by their hash.  A nil node is [nilNode].  The collapsed form of a node, with
    compact keys and hashes for large children, has the same type as in the source. *)

From S2P Require Import Prelude Rlp RlpStream StateData TrieEncoding.

(** [fl_hash] is nil until the node is hashed. *)
Record nodeFlag := { fl_hash : option bytes; fl_dirty : bool }.

(** A full node has 17 children. *)
Inductive node :=
| nilNode
| shortNode (Key : bytes) (Val : node) (flags : nodeFlag)
| fullNode (Children : list node) (flags : nodeFlag)
| hashNode (h : bytes)
| valueNode (v : bytes).

(** [n.cache()]; calling it on a nil node is a panic the callers avoid. *)
Definition node_cache (n : node) : option bytes * bool :=
  match n with
  | shortNode _ _ f | fullNode _ f => (fl_hash f, fl_dirty f)
  | hashNode _ | valueNode _ | nilNode => (None, true)
  end.

(** ** Encoding *)

(** What [rlp.Encode] writes for a collapsed node: a nil interface is an empty list, a nil
    child of a full node is replaced by an empty value first. *)
Fixpoint node_value (n : node) : value :=
  match n with
  | nilNode => VNilList
  | hashNode b | valueNode b => VBytes b
  | shortNode k v _ => VList [VBytes k; node_value v]
  | fullNode cs _ => VList (map (λ c, match c with nilNode => VBytes [] | _ => node_value c end) cs)
  end.

(** ** Decoding *)

(** The errors of [decodeNode]; the path that [wrapError] collects is left out. *)
Inductive decode_error :=
| DecodeEOF
| DecodeRlp (e : rlp_error)
| InvalidCount (c : Z)
| OversizedNode (size : Z)
| InvalidStringSize (size : Z).

(** [None] is a panic, or a want of fuel. *)
Abbreviation decoded A := (option (A + decode_error)) (only parsing).

Section decode.
Variable decode_embedded : bytes → decoded node.

Definition decodeRef (buf : bytes) : decoded (node * bytes) :=
  r ← Split buf;
  match r with
  | inr e => Some (inr (DecodeRlp e))
  | inl (kind, val, rest) =>
      match kind with
      | KList =>
          let size := zlen buf - zlen rest in
          if HashLength <? size then Some (inr (OversizedNode size))
          else
            r ← decode_embedded buf;
            Some (match r with inl n => inl (n, rest) | inr e => inr e end)
      | KString =>
          if zlen val =? 0 then Some (inl (nilNode, rest))
          else if zlen val =? 32 then Some (inl (hashNode val, rest))
          else Some (inr (InvalidStringSize (zlen val)))
      | KByte => Some (inr (InvalidStringSize (zlen val)))
      end
  end.

Definition decodeShort (hash : option bytes) (elems : bytes) : decoded node :=
  r ← SplitString elems;
  match r with
  | inr e => Some (inr (DecodeRlp e))
  | inl (kbuf, rest) =>
      let flag := {| fl_hash := hash; fl_dirty := false |} in
      key ← compactToHex kbuf;
      if hasTerm key then
        r ← SplitString rest;
        Some (match r with
              | inl (val, _) => inl (shortNode key (valueNode val) flag)
              | inr e => inr (DecodeRlp e)
              end)
      else
        r ← decodeRef rest;
        Some (match r with inl (n, _) => inl (shortNode key n flag) | inr e => inr e end)
  end.

(** The 16 children, and the rest of the buffer. *)
Fixpoint decodeFull_loop (n : nat) (elems : bytes) : decoded (list node * bytes) :=
  match n with
  | O => Some (inl ([], elems))
  | S n =>
      r ← decodeRef elems;
      match r with
      | inr e => Some (inr e)
      | inl (cld, rest) =>
          r ← decodeFull_loop n rest;
          Some (match r with inl (cs, rest) => inl (cld :: cs, rest) | inr e => inr e end)
      end
  end.
Definition decodeFull (hash : option bytes) (elems : bytes) : decoded node :=
  r ← decodeFull_loop 16 elems;
  match r with
  | inr e => Some (inr e)
  | inl (cs, elems) =>
      r ← SplitString elems;
      Some (match r with
            | inl (val, _) =>
                inl (fullNode (cs ++ [if 0 <? zlen val then valueNode val else nilNode])
                       {| fl_hash := hash; fl_dirty := false |})
            | inr e => inr (DecodeRlp e)
            end)
  end.
End decode.

(** An embedded node is shorter than the node it is in. *)
Fixpoint decodeNode_loop (fuel : nat) (hash : option bytes) (buf : bytes) : decoded node :=
  match fuel with
  | O => None
  | S fuel =>
      if zlen buf =? 0 then Some (inr DecodeEOF)
      else
        r ← SplitList buf;
        match r with
        | inr e => Some (inr (DecodeRlp e))
        | inl (elems, _) =>
            c ← CountValues elems;
            let c := match c with inl c => c | inr _ => 0 end in
            if c =? 2 then decodeShort (decodeNode_loop fuel None) hash elems
            else if c =? 17 then decodeFull (decodeNode_loop fuel None) hash elems
            else Some (inr (InvalidCount c))
        end
  end.
Definition decodeNode (hash : option bytes) (buf : bytes) : decoded node :=
  decodeNode_loop (S (length buf)) hash buf.

(** [None] is the panic for a node that cannot be decoded. *)
Definition mustDecodeNode (hash buf : bytes) : option node :=
  r ← decodeNode (Some hash) buf; match r with inl n => Some n | inr _ => None end.

(** ** Hashing *)

Section hasher.
Variable Keccak256Hash : bytes → Hash.

Definition hashData (data : bytes) : bytes := hash_bytes (Keccak256Hash data).

(** [shortnodeToHash] and [fullnodeToHash]: small nodes stay inside their parent. *)
Definition nodeToHash (n : node) (force : bool) : option node :=
  enc ← EncodeToBytes (node_value n);
  Some (if (zlen enc <? 32) && negb force then n else hashNode (hashData enc)).

Definition with_hash (hashed : node) (f : nodeFlag) : nodeFlag :=
  {| fl_hash := match hashed with hashNode h => Some h | _ => None end; fl_dirty := fl_dirty f |}.

(** The node as its parent sees it, and the node with its hash cached; [None] is a panic.
    The children of a full node may be hashed in parallel, each on its own. *)
Fixpoint hasher_hash (n : node) (force : bool) : option (node * node) :=
  match (node_cache n).1 with
  | Some h => Some (hashNode h, n)
  | None =>
      match n with
      | shortNode k v f =>
          key ← hexToCompact k;
          '(cv, hv) ← match v with
                      | fullNode _ _ | shortNode _ _ _ => hasher_hash v false
                      | _ => Some (v, v)
                      end;
          hashed ← nodeToHash (shortNode key cv f) force;
          Some (hashed, shortNode k hv (with_hash hashed f))
      | fullNode cs f =>
          l ← (fix children (i : nat) (cs : list node) : option (list (node * node)) :=
                 match cs with
                 | [] => Some []
                 | c :: cs =>
                     r ← (if decide (i = 16%nat) then Some (c, c)
                          else match c with nilNode => Some (valueNode [], nilNode) | _ => hasher_hash c false end);
                     rs ← children (S i) cs;
                     Some (r :: rs)
                 end) 0%nat cs;
          hashed ← nodeToHash (fullNode (l.*1) f) force;
          Some (hashed, fullNode (l.*2) (with_hash hashed f))
      | _ => Some (n, n)
      end
  end.
End hasher.

(** ** The node database *)

(** A node without its flags, or an encoded one. *)
Inductive raw :=
| rawNil
| rawShortNode (Key : bytes) (Val : raw)
| rawFullNode (Children : list raw)
| rawHash (h : bytes)
| rawValue (v : bytes)
| rawNode (blob : bytes).

(** [None] is the panic for a nil node outside of a full node. *)
Fixpoint simplifyNode (n : node) : option raw :=
  match n with
  | nilNode => None
  | shortNode k v _ => rawShortNode k <$> simplifyNode v
  | fullNode cs _ =>
      rawFullNode <$> (fix children (cs : list node) : option (list raw) :=
        match cs with
        | [] => Some []
        | c :: cs =>
            n ← match c with nilNode => Some rawNil | _ => simplifyNode c end;
            ns ← children cs;
            Some (n :: ns)
        end) cs
  | hashNode h => Some (rawHash h)
  | valueNode v => Some (rawValue v)
  end.

(** [None] is a panic: a nil node outside of a full node, an encoded node inside another. *)
Fixpoint expandNode (hash : option bytes) (n : raw) : option node :=
  let flag := {| fl_hash := hash; fl_dirty := false |} in
  match n with
  | rawShortNode k v => key ← compactToHex k; val ← expandNode None v; Some (shortNode key val flag)
  | rawFullNode cs =>
      cs ← (fix children (cs : list raw) : option (list node) :=
              match cs with
              | [] => Some []
              | c :: cs =>
                  n ← match c with rawNil => Some nilNode | _ => expandNode None c end;
                  ns ← children cs;
                  Some (n :: ns)
              end) cs;
      Some (fullNode cs flag)
  | rawHash h => Some (hashNode h)
  | rawValue v => Some (valueNode v)
  | rawNil | rawNode _ => None
  end.

(** The nodes not yet on disk, and the two places encoded nodes are read from; what the
    cache of clean nodes holds is what the disk had.  Reference counts and the flush list
    are for garbage collection and left out. *)
Record Database := {
  cleans : gmap Hash bytes;
  dirties_db : gmap Hash raw;
  diskdb : gmap Hash bytes;
}.

(** [cachedNode.obj]. *)
Definition cached_obj (h : Hash) (n : raw) : option node :=
  match n with rawNode b => mustDecodeNode (hash_bytes h) b | _ => expandNode (Some (hash_bytes h)) n end.

(** [db.node(hash)]: [None] is a panic, [Some nilNode] a node that was not found. *)
Definition db_node (db : Database) (h : Hash) : option node :=
  match cleans db !! h with
  | Some enc => mustDecodeNode (hash_bytes h) enc
  | None =>
      match dirties_db db !! h with
      | Some n => cached_obj h n
      | None =>
          match diskdb db !! h with
          | Some enc => mustDecodeNode (hash_bytes h) enc
          | None => Some nilNode
          end
      end
  end.

(** [db.insert(hash, size, n)]. *)
Definition db_insert (h : Hash) (n : node) (db : Database) : option Database :=
  match dirties_db db !! h with
  | Some _ => Some db
  | None =>
      r ← simplifyNode n;
      Some {| cleans := cleans db; dirties_db := <[h := r]> (dirties_db db); diskdb := diskdb db |}
  end.
