(* ===== verification/Trie.v ===== *)
(** * The Merkle Patricia trie ([trie/trie.go], [trie/committer.go])

    Reading, inserting and deleting walk down the nodes and load those that are only known
    by their hash; [Hash] and [Commit] compute the root and move the nodes to the
    database.  Recursion that follows the key runs on fuel, twice the length of the key:
    a node that has been loaded is not a hash again, and every other step consumes a
    nibble. *)

From S2P Require Import Prelude Rlp RlpStream StateData TrieEncoding TrieNode.

(** [MissingNodeError]. *)
Inductive trie_error := MissingNodeError (NodeHash : Hash) (Path : bytes).

Record Trie := { tr_db : Database; root : node; unhashed : Z }.
Abbreviation TrM := (M trie_error Trie).

Definition set_root (n : node) (t : Trie) : Trie := {| tr_db := tr_db t; root := n; unhashed := unhashed t |}.
Definition set_unhashed (u : Z) (t : Trie) : Trie := {| tr_db := tr_db t; root := root t; unhashed := u |}.
Definition set_tr_db (d : Database) (t : Trie) : Trie := {| tr_db := d; root := root t; unhashed := unhashed t |}.

Definition newFlag : nodeFlag := {| fl_hash := None; fl_dirty := true |}.

Definition resolveHash (h prefix : bytes) : TrM node :=
  let! db := gets tr_db in
  let! n := or_panic PExplicit (db_node db (BytesToHash h)) in
  match n with
  | nilNode => fail (MissingNodeError (BytesToHash h) prefix)
  | _ => ret n
  end.
Definition resolve (n : node) (prefix : bytes) : TrM node :=
  match n with hashNode h => resolveHash h prefix | _ => ret n end.

(** [New(root, db)]. *)
Definition Trie_New (r : Hash) (db : Database) : outcome trie_error Trie unit :=
  let t := {| tr_db := db; root := nilNode; unhashed := 0 |} in
  if negb (r =? 0) && negb (r =? emptyRoot)
  then (let! n := resolveHash (hash_bytes r) [] in modify (set_root n)) t
  else Ret tt t.

(** ** Reading *)

(** The value, nil if there is none, the node with what was loaded, and whether anything was. *)
Fixpoint tryGet (fuel : nat) (origNode : node) (key : bytes) (pos : nat) : TrM (option bytes * node * bool) :=
  match fuel with
  | O => λ _, NoFuel
  | S fuel =>
      match origNode with
      | nilNode => ret (None, nilNode, false)
      | valueNode v => ret (Some v, origNode, false)
      | shortNode k v f =>
          if (length key - pos <? length k)%nat || negb (bool_decide (take (length k) (drop pos key) = k))
          then ret (None, origNode, false)
          else
            let! (value, newnode, didResolve) := tryGet fuel v key (pos + length k) in
            ret (value, if didResolve : bool then shortNode k newnode f else origNode, didResolve)
      | fullNode cs f =>
          let! x := or_panic PSlice (key !! pos) in
          let! c := or_panic PSlice (index cs x) in
          let! (value, newnode, didResolve) := tryGet fuel c key (pos + 1) in
          if didResolve : bool then
            let! cs := or_panic PSlice (set_index cs x newnode) in
            ret (value, fullNode cs f, true)
          else ret (value, origNode, false)
      | hashNode h =>
          let! child := resolveHash h (take pos key) in
          let! (value, newnode, _) := tryGet fuel child key pos in
          ret (value, newnode, true)
      end
  end.

Definition key_fuel (k : bytes) : nat := 2 * length k + 2.

Definition TryGet (key : bytes) : TrM (option bytes) :=
  let k := keybytesToHex key in
  let! r := gets root in
  let! (value, newroot, didResolve) := tryGet (key_fuel k) r k 0 in
  do! (if didResolve : bool then modify (set_root newroot) else ret tt) in
  ret value.

(** ** Inserting *)

(** Whether anything changed, and the new node. *)
Fixpoint trie_insert (fuel : nat) (n : node) (prefix key : bytes) (value : node) : TrM (bool * node) :=
  match fuel with
  | O => λ _, NoFuel
  | S fuel =>
      match key with
      | [] =>
          match n with
          | valueNode v =>
              match value with
              | valueNode w => ret (negb (bool_decide (v = w)), value)
              | _ => throw PExplicit
              end
          | _ => ret (true, value)
          end
      | x :: key1 =>
          match n with
          | shortNode k v f =>
              let matchlen := prefixLen key k in
              if (matchlen =? length k)%nat then
                let! (dirty, nn) := trie_insert fuel v (prefix ++ take matchlen key) (drop matchlen key) value in
                if dirty : bool then ret (true, shortNode k nn newFlag) else ret (false, n)
              else
                let! a := or_panic PSlice (k !! matchlen) in
                let! (_, c1) := trie_insert fuel nilNode (prefix ++ take (S matchlen) k) (drop (S matchlen) k) v in
                let! cs := or_panic PSlice (set_index (replicate 17 nilNode) a c1) in
                let! b := or_panic PSlice (key !! matchlen) in
                let! (_, c2) := trie_insert fuel nilNode (prefix ++ take (S matchlen) key) (drop (S matchlen) key) value in
                let! cs := or_panic PSlice (set_index cs b c2) in
                let branch := fullNode cs newFlag in
                if (matchlen =? 0)%nat then ret (true, branch)
                else ret (true, shortNode (take matchlen key) branch newFlag)
          | fullNode cs f =>
              let! c := or_panic PSlice (index cs x) in
              let! (dirty, nn) := trie_insert fuel c (prefix ++ [x]) key1 value in
              if dirty : bool then
                let! cs := or_panic PSlice (set_index cs x nn) in
                ret (true, fullNode cs newFlag)
              else ret (false, n)
          | nilNode => ret (true, shortNode key value newFlag)
          | hashNode h =>
              let! rn := resolveHash h prefix in
              let! (dirty, nn) := trie_insert fuel rn prefix key value in
              if dirty : bool then ret (true, nn) else ret (false, rn)
          | valueNode _ => throw PExplicit
          end
      end
  end.

(** ** Deleting *)

(** The position of the only child that is left: -1 for none, -2 for more than one. *)
Fixpoint only_child (i pos : Z) (cs : list node) : Z :=
  match cs with
  | [] => pos
  | nilNode :: cs => only_child (i + 1) pos cs
  | _ :: cs => if pos =? -1 then only_child (i + 1) i cs else -2
  end.

(** A full node with one child left becomes a short one. *)
Definition reduce (cs : list node) (prefix : bytes) : TrM node :=
  let pos := only_child 0 (-1) cs in
  if 0 <=? pos then
    let! c := or_panic PSlice (index cs pos) in
    let shorter := shortNode [pos] c newFlag in
    if negb (pos =? 16) then
      let! cnode := resolve c prefix in
      match cnode with
      | shortNode k v _ => ret (shortNode (pos :: k) v newFlag)
      | _ => ret shorter
      end
    else ret shorter
  else ret (fullNode cs newFlag).

Fixpoint trie_delete (fuel : nat) (n : node) (prefix key : bytes) : TrM (bool * node) :=
  match fuel with
  | O => λ _, NoFuel
  | S fuel =>
      match n with
      | shortNode k v f =>
          let matchlen := prefixLen key k in
          if (matchlen <? length k)%nat then ret (false, n)
          else if (matchlen =? length key)%nat then ret (true, nilNode)
          else
            let! (dirty, child) := trie_delete fuel v (prefix ++ take (length k) key) (drop (length k) key) in
            if dirty : bool then
              match child with
              | shortNode k' v' _ => ret (true, shortNode (k ++ k') v' newFlag)
              | _ => ret (true, shortNode k child newFlag)
              end
            else ret (false, n)
      | fullNode cs f =>
          match key with
          | [] => throw PSlice
          | x :: key1 =>
              let! c := or_panic PSlice (index cs x) in
              let! (dirty, nn) := trie_delete fuel c (prefix ++ [x]) key1 in
              if dirty : bool then
                let! cs := or_panic PSlice (set_index cs x nn) in
                let! n := reduce cs prefix in
                ret (true, n)
              else ret (false, n)
          end
      | valueNode _ => ret (true, nilNode)
      | nilNode => ret (false, nilNode)
      | hashNode h =>
          let! rn := resolveHash h prefix in
          let! (dirty, nn) := trie_delete fuel rn prefix key in
          if dirty : bool then ret (true, nn) else ret (false, rn)
      end
  end.

Definition count_update : TrM unit := modify (λ t, set_unhashed (unhashed t + 1) t).

Definition TryDelete (key : bytes) : TrM unit :=
  do! count_update in
  let k := keybytesToHex key in
  let! r := gets root in
  let! (_, n) := trie_delete (key_fuel k) r [] k in
  modify (set_root n).

Definition TryUpdate (key value : bytes) : TrM unit :=
  do! count_update in
  let k := keybytesToHex key in
  let! r := gets root in
  let! (_, n) := (if negb (zlen value =? 0) then trie_insert (key_fuel k) r [] k (valueNode value)
                  else trie_delete (key_fuel k) r [] k) in
  modify (set_root n).

(** ** The root hash *)

Section hashing.
Variable Keccak256Hash : bytes → Hash.

Definition Trie_hash : TrM Hash :=
  let! r := gets root in
  match r with
  | nilNode => ret emptyRoot
  | _ =>
      let! (hashed, cached) := or_panic PExplicit (hasher_hash Keccak256Hash r true) in
      do! modify (set_unhashed 0) in
      do! modify (set_root cached) in
      match hashed with
      | hashNode h => ret (BytesToHash h)
      | _ => throw PExplicit
      end
  end.

(** ** Committing *)

(** [committer.store]: a node with a hash goes to the database. *)
Definition store_node (n : node) (db : Database) : option (node * Database) :=
  match (node_cache n).1 with
  | None => Some (n, db)
  | Some h => db ← db_insert (BytesToHash h) n db; Some (hashNode h, db)
  end.

(** [committer.commit]; [None] is a panic. *)
Fixpoint commit (n : node) (db : Database) : option (node * Database) :=
  match node_cache n with
  | (Some h, false) => Some (hashNode h, db)
  | _ =>
      match n with
      | shortNode k v f =>
          let f := {| fl_hash := fl_hash f; fl_dirty := false |} in
          '(cv, db) ← match v with fullNode _ _ => commit v db | _ => Some (v, db) end;
          key ← hexToCompact k;
          store_node (shortNode key cv f) db
      | fullNode cs f =>
          let f := {| fl_hash := fl_hash f; fl_dirty := false |} in
          '(kids, db) ← (fix children (i : nat) (cs : list node) (db : Database) : option (list node * Database) :=
             match cs with
             | [] => Some ([], db)
             | c :: cs =>
                 '(c', db) ← (if decide (i = 16%nat) then Some (c, db)
                              else match c with
                                   | nilNode | hashNode _ => Some (c, db)
                                   | _ => commit c db
                                   end);
                 '(cs', db) ← children (S i) cs db;
                 Some (c' :: cs', db)
             end) 0%nat cs db;
          store_node (fullNode kids f) db
      | hashNode _ => Some (n, db)
      | nilNode | valueNode _ => None
      end
  end.

(** [Trie.Commit] without a leaf callback. *)
Definition Trie_Commit : TrM Hash :=
  let! r := gets root in
  match r with
  | nilNode => ret emptyRoot
  | _ =>
      let! rootHash := Trie_hash in
      let! r := gets root in
      if negb (node_cache r).2 then ret rootHash
      else
        let! db := gets tr_db in
        let! (newRoot, db) := or_panic PExplicit (commit r db) in
        do! modify (set_tr_db db) in
        match newRoot with
        | hashNode _ => do! modify (set_root newRoot) in ret rootHash
        | _ => throw PExplicit
        end
  end.
End hashing.
