(* ===== verification/TrieSpec.v ===== *)
(** * What a trie means

    A trie with all its nodes in memory and without flags is a [tree]; [find] gives the
    value of a key.  A tree in canonical form is determined by its values: this is why the
    root hash depends on the content of a trie and not on its history. *)

From S2P Require Import Prelude TrieEncoding.

Inductive tree :=
| TNil
| TShort (k : bytes) (c : tree)
| TFull (cs : list tree)
| TValue (v : bytes).

Fixpoint find (t : tree) (p : bytes) : option bytes :=
  match t with
  | TNil => None
  | TValue v => match p with [] => Some v | _ => None end
  | TShort k c => if bool_decide (take (length k) p = k) then find c (drop (length k) p) else None
  | TFull cs =>
      match p with
      | [] => None
      | x :: p => match index (map find cs) x with Some f => f p | None => None end
      end
  end.

(** A leaf, an extension that leads to a full node, or a full node with two children at
    least, whose last child can only be a value. *)
Inductive canon : tree → Prop :=
| canon_leaf p v : path p → v ≠ [] → canon (TShort (p ++ [16]) (TValue v))
| canon_ext p cs : path p → p ≠ [] → canon (TFull cs) → canon (TShort p (TFull cs))
| canon_full cs :
    length cs = 17%nat →
    (∀ i c, (i < 16)%nat → cs !! i = Some c → c ≠ TNil → canon c) →
    (∀ c, cs !! 16%nat = Some c → c ≠ TNil → ∃ v, v ≠ [] ∧ c = TValue v) →
    (∃ i j a b, i ≠ j ∧ cs !! i = Some a ∧ a ≠ TNil ∧ cs !! j = Some b ∧ b ≠ TNil) →
    canon (TFull cs).

Lemma canon_full_inv cs : canon (TFull cs) → length cs = 17%nat ∧
  (∀ i c, (i < 16)%nat → cs !! i = Some c → c ≠ TNil → canon c) ∧
  (∀ c, cs !! 16%nat = Some c → c ≠ TNil → ∃ v, v ≠ [] ∧ c = TValue v) ∧
  (∃ i j a b, i ≠ j ∧ cs !! i = Some a ∧ a ≠ TNil ∧ cs !! j = Some b ∧ b ≠ TNil).
Proof. inversion 1; subst; by split_and!. Qed.
Lemma tnil_dec (c : tree) : c = TNil ∨ c ≠ TNil.
Proof. destruct c; [by left|by right..]. Qed.

(** ** Looking up *)

Lemma find_full cs x p : find (TFull cs) (x :: p) = c ← index cs x; find c p.
Proof.
  cbn [find]. unfold index. destruct (0 <=? x); [|done]. rewrite list_lookup_fmap.
  by destruct (cs !! Z.to_nat x).
Qed.
Lemma find_full_at cs i c p : cs !! i = Some c → find (TFull cs) (Z.of_nat i :: p) = find c p.
Proof. intros H. rewrite find_full, index_nat, H. done. Qed.
Lemma find_short k c p : find (TShort k c) (k ++ p) = find c p.
Proof. cbn [find]. rewrite take_app_length, bool_decide_true, drop_app_length by done. done. Qed.
Lemma find_leaf k v : find (TShort k (TValue v)) k = Some v.
Proof. pose proof (find_short k (TValue v) []) as H. by rewrite app_nil_r in H. Qed.
Lemma find_short_inv k c p v : find (TShort k c) p = Some v → ∃ q, p = k ++ q ∧ find c q = Some v.
Proof.
  cbn [find]. case_bool_decide as H; [|done]. intros Hf. exists (drop (length k) p). split; [|done].
  rewrite <- H at 1. by rewrite take_drop.
Qed.
Lemma find_short_other k c p : take (length k) p ≠ k → find (TShort k c) p = None.
Proof. intros H. cbn [find]. by rewrite bool_decide_false. Qed.

Lemma find_full_inv cs p v : find (TFull cs) p = Some v →
  ∃ i c q, p = Z.of_nat i :: q ∧ cs !! i = Some c ∧ find c q = Some v.
Proof.
  destruct p as [|x p]; [done|]. rewrite find_full. unfold index. destruct (Z.leb_spec 0 x); [|done].
  destruct (cs !! Z.to_nat x) as [c|] eqn:E; [|done]. intros Hf. exists (Z.to_nat x), c, p.
  split; [|done]. f_equal. lia.
Qed.

(** A key of a canonical tree is a whole key, and its value is not empty. *)
Lemma find_canon t : canon t → ∀ p v, find t p = Some v → hexkey p ∧ v ≠ [].
Proof.
  induction 1 as [p v Hp Hv|p cs Hp Hne Hc IH|cs Hl Hc IH Hv Htwo]; intros q w Hf.
  - apply find_short_inv in Hf as (r & -> & Hf). destruct r; [|done]. injection Hf as <-.
    rewrite app_nil_r. split; [by exists p|done].
  - apply find_short_inv in Hf as (r & -> & Hf). destruct (IH _ _ Hf) as [(r' & Hr & ->) Hw].
    split; [|done]. exists (p ++ r'). split; [by apply Forall_app|by rewrite app_assoc].
  - apply find_full_inv in Hf as (i & c & r & -> & Hi & Hf).
    assert (Hc0 : c ≠ TNil) by (by intros ->).
    pose proof (lookup_lt_Some _ _ _ Hi) as Hlt. destruct (decide (i < 16)%nat) as [Hi16|Hi16].
    + destruct (IH i c Hi16 Hi Hc0 _ _ Hf) as [(r' & Hr & ->) Hw]. split; [|done].
      exists (Z.of_nat i :: r'). split; [|done]. constructor; [unfold is_nibble; lia|done].
    + assert (i = 16%nat) as -> by lia. destruct (Hv c Hi Hc0) as (v & Hne & ->).
      destruct r; [|done]. injection Hf as <-. split; [|done]. exists []. split; [constructor|done].
Qed.

(** A canonical tree is not empty. *)
Lemma canon_some t : canon t → ∃ p v, find t p = Some v.
Proof.
  induction 1 as [p v Hp Hv|p cs Hp Hne Hc (q & w & IH)|cs Hl Hc IH Hv (i & j & a & b & _ & Hi & Ha & _)].
  - exists (p ++ [16]), v. apply find_leaf.
  - exists (p ++ q), w. by rewrite find_short.
  - pose proof (lookup_lt_Some _ _ _ Hi). destruct (decide (i < 16)%nat) as [Hi16|Hi16].
    + destruct (IH i a Hi16 Hi Ha) as (q & w & Hf). exists (Z.of_nat i :: q), w. by rewrite (find_full_at _ _ _ _ Hi).
    + assert (i = 16%nat) as -> by lia. destruct (Hv a Hi Ha) as (w & _ & ->).
      exists [Z.of_nat 16], w. by rewrite (find_full_at _ _ _ _ Hi).
Qed.

(** The child of a full node has a value when it is there. *)
Lemma child_some cs i c : canon (TFull cs) → cs !! i = Some c → c ≠ TNil → ∃ q v, find c q = Some v.
Proof.
  intros Hcan Hi Hne. inversion_clear Hcan as [| |? Hl Hc Hv _]. pose proof (lookup_lt_Some _ _ _ Hi).
  destruct (decide (i < 16)%nat) as [Hi16|Hi16]; [by eapply canon_some, Hc|].
  assert (i = 16%nat) as -> by lia. destruct (Hv c Hi Hne) as (w & _ & ->). by exists [], w.
Qed.

(** Two keys of a full node differ at once. *)
Lemma full_forks cs : canon (TFull cs) → ∃ x y p q v w, x ≠ y ∧
  find (TFull cs) (x :: p) = Some v ∧ find (TFull cs) (y :: q) = Some w.
Proof.
  intros Hcan. pose proof Hcan as Hcan'. inversion_clear Hcan' as [| |? Hl Hc Hv (i & j & a & b & Hij & Hi & Ha & Hj & Hb)].
  destruct (child_some cs i a Hcan Hi Ha) as (p & v & Hp), (child_some cs j b Hcan Hj Hb) as (q & w & Hq).
  exists (Z.of_nat i), (Z.of_nat j), p, q, v, w. split; [lia|]. by rewrite (find_full_at _ _ _ _ Hi), (find_full_at _ _ _ _ Hj).
Qed.

(** ** Canonical trees are determined by their values *)

Definition same (t t' : tree) : Prop := ∀ p, find t p = find t' p.
Lemma same_sym t t' : same t t' → same t' t.
Proof. intros H p. by rewrite H. Qed.

Lemma prefix_split (p p' : bytes) (a b : bytes) : p ++ a = p' ++ b → (length p <= length p')%nat → ∃ r, p' = p ++ r.
Proof.
  revert p'. induction p as [|x p IH]; intros p' H Hl; [by exists p'|].
  destruct p' as [|y p']; [simpl in Hl; lia|]. injection H as -> H. destruct (IH p' H) as [r ->]; [simpl in Hl; lia|]. by exists r.
Qed.

(** An extension is as long as what its keys have in common. *)
Lemma ext_prefix p cs k c : canon (TFull cs) → same (TShort p (TFull cs)) (TShort k c) → (length k <= length p)%nat.
Proof.
  intros Hcan Hs. destruct (full_forks cs Hcan) as (x & y & q & r & v & w & Hxy & Hx & Hy).
  destruct (decide (length k <= length p)%nat) as [|Hgt]; [done|]. exfalso. apply Hxy.
  assert (H1 : find (TShort k c) (p ++ x :: q) = Some v) by (rewrite <- Hs; by rewrite find_short).
  assert (H2 : find (TShort k c) (p ++ y :: r) = Some w) by (rewrite <- Hs; by rewrite find_short).
  apply find_short_inv in H1 as (a & Ha & _). apply find_short_inv in H2 as (b & Hb & _).
  destruct (prefix_split _ _ _ _ Ha ltac:(lia)) as [r' ->]. rewrite <- !app_assoc in Ha, Hb.
  apply app_inv_head in Ha, Hb. destruct r' as [|z r']; [rewrite app_nil_r in Hgt; lia|]. by injection Ha as -> _; injection Hb as -> _.
Qed.

Lemma leaf_alone p v t : canon t → same (TShort (p ++ [16]) (TValue v)) t → ∃ p' v', t = TShort (p' ++ [16]) (TValue v').
Proof.
  assert (Hone : ∀ a b, is_Some (find (TShort (p ++ [16]) (TValue v)) a) → is_Some (find (TShort (p ++ [16]) (TValue v)) b) → a = b).
  { intros a b [va Ha] [vb Hb]. apply find_short_inv in Ha as (a' & -> & Ha), Hb as (b' & -> & Hb). by destruct a', b'. }
  assert (Hfork : ∀ q cs, canon (TFull cs) → (∀ r, find t (q ++ r) = find (TFull cs) r) → same (TShort (p ++ [16]) (TValue v)) t → False).
  { intros q cs Hcan Hq Hs. destruct (full_forks cs Hcan) as (x & y & a & b & va & vb & Hxy & Hx & Hy). apply Hxy.
    assert (H : q ++ x :: a = q ++ y :: b) by (apply Hone; rewrite Hs, Hq, ?Hx, ?Hy; by eexists).
    apply app_inv_head in H. by injection H. }
  intros Hcan Hs. inversion Hcan as [p' v' ? ? Heq|q cs ? ? Hc Heq|cs ? ? ? ? Heq].
  - by exists p', v'.
  - exfalso. apply (Hfork q cs Hc); [|done]. intros r. subst t. by rewrite find_short.
  - exfalso. apply (Hfork [] cs); by subst t.
Qed.

Lemma ext_full p cs cs' : canon (TFull cs') → p ≠ [] → same (TShort p (TFull cs)) (TFull cs') → False.
Proof.
  intros Hcan Hne Hs. destruct (full_forks cs' Hcan) as (x & y & q & r & v & w & Hxy & Hx & Hy). apply Hxy.
  rewrite <- Hs in Hx, Hy. apply find_short_inv in Hx as (a & Ha & _). apply find_short_inv in Hy as (b & Hb & _).
  destruct p as [|z p]; [done|]. by injection Ha as -> _; injection Hb as -> _.
Qed.

Lemma same_short k c c' : same (TShort k c) (TShort k c') → same c c'.
Proof. intros Hs p. specialize (Hs (k ++ p)). by rewrite !find_short in Hs. Qed.
Lemma same_child cs cs' i c c' : same (TFull cs) (TFull cs') → cs !! i = Some c → cs' !! i = Some c' → same c c'.
Proof. intros Hs Hi Hi' p. specialize (Hs (Z.of_nat i :: p)). by rewrite (find_full_at _ _ _ _ Hi), (find_full_at _ _ _ _ Hi') in Hs. Qed.

Theorem canon_unique t t' : canon t → canon t' → same t t' → t = t'.
Proof.
  intros Hc. revert t'. induction Hc as [p v Hp Hv|p cs Hp Hne Hc IH|cs Hl Hc IH Hv Htwo]; intros t' Hc' Hs.
  - destruct (leaf_alone p v t' Hc' Hs) as (p' & v' & ->).
    assert (H1 : find (TShort (p' ++ [16]) (TValue v')) (p ++ [16]) = Some v)
      by (rewrite <- Hs; apply find_leaf).
    apply find_short_inv in H1 as (r & Hr & Hf). destruct r; [|done]. injection Hf as ->. by rewrite app_nil_r in Hr; rewrite Hr.
  - inversion Hc' as [p' v' ? ? Heq|p' cs' ? ? Hc2 Heq|cs' ? ? ? ? Heq]; subst t'.
    + destruct (leaf_alone p' v' (TShort p (TFull cs))) as (? & ? & [=]); [by constructor|by apply same_sym].
    + assert (Hlen : length p = length p').
      { apply Nat.le_antisymm; [by apply (ext_prefix p' cs' p (TFull cs)); [|apply same_sym]|by apply (ext_prefix p cs p' (TFull cs'))]. }
      assert (p = p') as ->.
      { destruct (canon_some _ Hc) as (q & w & Hq). pose proof (Hs (p ++ q)) as H'. rewrite find_short, Hq in H'.
        symmetry in H'. apply find_short_inv in H' as (r & Hr & _). by apply (app_inj_1 _ _ _ _ Hlen) in Hr as [-> _]. }
      f_equal. apply IH; [done|]. by eapply same_short.
    + exfalso. by eapply ext_full.
  - inversion Hc' as [p' v' ? ? Heq|p' cs' ? ? Hc2 Heq|cs' Hl' Hcc' Hv' ? Heq]; subst t'.
    + destruct (leaf_alone p' v' (TFull cs)) as (? & ? & [=]); [by constructor|by apply same_sym].
    + exfalso. eapply (ext_full p' cs' cs); [by constructor|done|by apply same_sym].
    + f_equal. apply list_eq_same_length with 17%nat; [done|done|]. intros i c c' Hlt Hi Hi'.
      pose proof (same_child _ _ _ _ _ Hs Hi Hi') as Hsc.
      destruct (decide (i < 16)%nat) as [Hi16|Hi16].
      * destruct (tnil_dec c) as [->|Hn], (tnil_dec c') as [->|Hn']; [done| | |by apply (IH i c); [..|by apply (Hcc' i)|]].
        -- destruct (canon_some _ (Hcc' i c' Hi16 Hi' Hn')) as (q & w & Hq). by rewrite <- Hsc in Hq.
        -- destruct (canon_some _ (Hc i c Hi16 Hi Hn)) as (q & w & Hq). by rewrite Hsc in Hq.
      * assert (i = 16%nat) as -> by lia. specialize (Hsc []).
        destruct (tnil_dec c) as [->|Hn], (tnil_dec c') as [->|Hn']; [done|..];
          [destruct (Hv' c' Hi' Hn') as (? & _ & ->)|destruct (Hv c Hi Hn) as (? & _ & ->)
          |destruct (Hv' c' Hi' Hn') as (? & _ & ->), (Hv c Hi Hn) as (? & _ & ->)]; simpl in Hsc; congruence.
Qed.
