(* ===== verification/TrieTree.v ===== *)
(** * Changes to canonical trees

    What inserting and deleting a key has to do to a tree, shape by shape. *)

From S2P Require Import Prelude TrieEncoding TrieSpec.

Definition updated (f : bytes → option bytes) (k : bytes) (v : option bytes) : bytes → option bytes :=
  λ p, if decide (p = k) then v else f p.

Definition is_full (t : tree) : Prop := match t with TFull _ => True | _ => False end.

(** A tree where the rest of a key is [key]: below the last nibble there is only a value. *)
Definition place (key : bytes) (t : tree) : Prop :=
  (hexkey key ∧ (t = TNil ∨ canon t)) ∨ (key = [] ∧ (t = TNil ∨ ∃ v, v ≠ [] ∧ t = TValue v)).

Record inserted (key v : bytes) (t t' : tree) : Prop := {
  in_find p : find t' p = updated (find t) key (Some v) p;
  in_canon : hexkey key → canon t';
  in_value : key = [] → t' = TValue v;
  in_full : is_full t → is_full t';
}.
Record deleted (key : bytes) (t t' : tree) : Prop := {
  de_find p : find t' p = updated (find t) key None p;
  de_canon : hexkey key → t' = TNil ∨ canon t';
  de_value : key = [] → t' = TNil;
  de_full : is_full t → canon t';
}.

(** ** Keys *)

Lemma hexkey_nil : ¬ hexkey [].
Proof. intros (p & _ & H). by destruct p. Qed.
Lemma hexkey_cons x k : hexkey (x :: k) → (is_nibble x ∧ hexkey k) ∨ (x = 16 ∧ k = []).
Proof.
  intros (p & Hp & H). destruct p as [|y p]; [right; by injection H as -> ->|]. injection H as -> ->.
  inversion_clear Hp. left. split; [done|]. by exists p.
Qed.
Lemma hexkey_path p k : path p → hexkey (p ++ k) → hexkey k.
Proof.
  induction 1 as [|x p Hx Hp IH]; intros Hk; [done|]. apply IH.
  destruct (hexkey_cons _ _ Hk) as [[_ ?]|[-> _]]; [done|]. unfold is_nibble in Hx. lia.
Qed.
Lemma hexkey_app p k : path p → hexkey k → hexkey (p ++ k).
Proof. intros Hp (q & Hq & ->). exists (p ++ q). split; [by apply Forall_app|by rewrite app_assoc]. Qed.
(** No key is the beginning of another. *)
Lemma hexkey_prefix k r : hexkey k → hexkey (k ++ r) → r = [].
Proof.
  intros (p & Hp & ->). induction Hp as [|x p Hx Hp IH]; intros Hk.
  - destruct (hexkey_cons 16 r Hk) as [[Hn _]|[_ ->]]; [unfold is_nibble in Hn; lia|done].
  - apply IH. destruct (hexkey_cons _ _ Hk) as [[_ ?]|[-> _]]; [done|]. unfold is_nibble in Hx. lia.
Qed.

Lemma prefixLen_spec a b : ∃ q a' b', a = q ++ a' ∧ b = q ++ b' ∧ length q = prefixLen a b ∧
  (a' = [] ∨ b' = [] ∨ ∃ x y a'' b'', x ≠ y ∧ a' = x :: a'' ∧ b' = y :: b'').
Proof.
  revert b. induction a as [|x a IH]; intros b; [exists [], [], b; split_and!; [done..|by left]|].
  destruct b as [|y b]; [exists [], (x :: a), []; split_and!; [done..|by right; left]|]. cbn [prefixLen]. destruct (Z.eqb_spec x y) as [->|Hne].
  - destruct (IH b) as (q & a' & b' & -> & -> & Hl & H). exists (y :: q), a', b'. simpl. by rewrite Hl.
  - exists [], (x :: a), (y :: b). split; [done|]. split; [done|]. split; [done|]. right; right. by exists x, y, a, b.
Qed.

(** ** Where a key leads *)

Lemma place_short k c key : canon (TShort k c) → hexkey (k ++ key) →
  place key c ∧ ((hexkey k ∧ key = [] ∧ ∃ v, v ≠ [] ∧ c = TValue v) ∨ (path k ∧ hexkey key ∧ is_full c ∧ canon c)).
Proof.
  intros Hc Hk. inversion Hc as [p v Hp Hv|p cs Hp Hne Hcs|]; subst.
  - assert (Hh : hexkey (p ++ [16])) by (by exists p). assert (key = []) as -> by (by apply (hexkey_prefix (p ++ [16]))).
    split; [right; split; [done|]; right; by exists v|]. left. split; [done|]. split; [done|]. by exists v.
  - apply hexkey_path in Hk; [|done]. split; [left; split; [done|]; by right|]. right. by split_and!.
Qed.

Lemma place_full cs x key : canon (TFull cs) → hexkey (x :: key) →
  ∃ i c, x = Z.of_nat i ∧ cs !! i = Some c ∧ place key c ∧ ((i < 16)%nat ∧ hexkey key ∨ i = 16%nat ∧ key = []).
Proof.
  intros Hc Hk. destruct (canon_full_inv cs Hc) as (Hl & Hch & Hv & _).
  assert (Hx : 0 <= x <= 16) by (destruct (hexkey_cons _ _ Hk) as [[Hn _]|[-> _]]; [unfold is_nibble in Hn; lia|lia]).
  destruct (lookup_lt_is_Some_2 cs (Z.to_nat x)) as [c Hi]; [lia|]. exists (Z.to_nat x), c.
  split; [lia|]. split; [done|]. destruct (hexkey_cons _ _ Hk) as [[Hn Hk']|[-> ->]].
  - unfold is_nibble in Hn. split; [|left; split; [lia|done]]. left. split; [done|].
    destruct (tnil_dec c) as [->|]; [by left|right]. apply (Hch (Z.to_nat x)); [lia|done..].
  - split; [|by right]. right. split; [done|]. destruct (tnil_dec c) as [->|]; [by left|right]. by apply Hv.
Qed.

(** ** Inserting *)

Lemma find_nil p : find TNil p = None.
Proof. done. Qed.

Lemma ins_value v t : v ≠ [] → place [] t → inserted [] v t (TValue v).
Proof.
  intros Hv Hp. split; [|by intros ?%hexkey_nil|done|].
  - intros p. unfold updated. destruct (decide (p = [])) as [->|Hne]; [done|].
    destruct Hp as [[Hk%hexkey_nil _]|[_ [->|(w & _ & ->)]]]; [done|by destruct p|by destruct p].
  - destruct Hp as [[Hk%hexkey_nil _]|[_ [->|(w & _ & ->)]]]; done.
Qed.
Lemma ins_nil key v : hexkey key → v ≠ [] → inserted key v TNil (TShort key (TValue v)).
Proof.
  intros Hk Hv. split; [| | |done].
  - intros p. unfold updated. destruct (decide (p = key)) as [->|Hne]; [apply find_leaf|].
    destruct (find (TShort key (TValue v)) p) as [w|] eqn:E; [|done].
    apply find_short_inv in E as (q & -> & Hq). destruct q; [|done]. by rewrite app_nil_r in Hne.
  - intros _. destruct Hk as (p & Hp & ->). by constructor.
  - intros ->. by apply hexkey_nil in Hk.
Qed.

Lemma updated_short k c c' key v : (∀ p, find c' p = updated (find c) key v p) →
  ∀ p, find (TShort k c') p = updated (find (TShort k c)) (k ++ key) v p.
Proof.
  intros H p. unfold updated. destruct (decide (take (length k) p = k)) as [Hk|Hk].
  - assert (p = k ++ drop (length k) p) as Hp by (rewrite <- Hk at 1; by rewrite take_drop).
    rewrite Hp, !find_short, H. unfold updated. destruct (decide (drop (length k) p = key)) as [->|Hne].
    + by rewrite decide_True.
    + rewrite decide_False; [done|]. intros E. by apply app_inv_head in E.
  - rewrite !find_short_other by done. rewrite decide_False; [done|]. intros ->. by rewrite take_app_length in Hk.
Qed.
Lemma ins_match k c c' key v : canon (TShort k c) → hexkey (k ++ key) → inserted key v c c' → v ≠ [] →
  inserted (k ++ key) v (TShort k c) (TShort k c').
Proof.
  intros Hc Hk [H1 H2 H3 H4] Hv. destruct (place_short k c key Hc Hk) as [_ Hcase].
  split; [by apply updated_short| | |done].
  - intros _. destruct Hcase as [(Hh & -> & w & _ & ->)|(Hp & Hkey & Hf & Hcc)].
    + rewrite H3 by done. destruct Hh as (p & Hp & ->). by constructor.
    + specialize (H2 Hkey). specialize (H4 Hf). destruct c' as [| |cs'|]; try done. constructor; [done| |done].
      intros ->. inversion Hc; subst; [by destruct p|done].
  - intros E. rewrite E in Hk. by apply hexkey_nil in Hk.
Qed.

Lemma find_insert cs i c c' p x : cs !! i = Some c → find (TFull (<[i := c']> cs)) (x :: p) =
  if decide (x = Z.of_nat i) then find c' p else find (TFull cs) (x :: p).
Proof.
  intros Hi. pose proof (lookup_lt_Some _ _ _ Hi) as Hlt. rewrite !find_full. destruct (decide (x = Z.of_nat i)) as [->|Hne].
  - by rewrite index_nat, list_lookup_insert_eq.
  - unfold index. destruct (Z.leb_spec 0 x); [|done]. rewrite list_lookup_insert_ne; [done|lia].
Qed.
Lemma updated_full cs i c c' key v : cs !! i = Some c → (∀ p, find c' p = updated (find c) key v p) →
  ∀ p, find (TFull (<[i := c']> cs)) p = updated (find (TFull cs)) (Z.of_nat i :: key) v p.
Proof.
  intros Hi H [|x p]; [done|]. rewrite (find_insert _ _ _ _ _ _ Hi). unfold updated. destruct (decide (x = Z.of_nat i)) as [->|Hne].
  - rewrite H. unfold updated. rewrite (find_full_at _ _ _ _ Hi). destruct (decide (p = key)) as [->|Hp].
    + by rewrite decide_True.
    + rewrite decide_False; [done|]. by intros [= ->].
  - rewrite decide_False; [done|]. by intros [= -> ->].
Qed.
Lemma ins_full cs i c c' key v : canon (TFull cs) → cs !! i = Some c → hexkey (Z.of_nat i :: key) → place key c →
  inserted key v c c' → v ≠ [] → inserted (Z.of_nat i :: key) v (TFull cs) (TFull (<[i := c']> cs)).
Proof.
  intros Hc Hi Hk Hpl [H1 H2 H3 H4] Hv. pose proof (lookup_lt_Some _ _ _ Hi) as Hlt.
  destruct (canon_full_inv cs Hc) as (Hl & Hch & Hval & (a & b & ta & tb & Hab & Ha & Hna & Hb & Hnb)).
  assert (Hcase : (i < 16)%nat ∧ hexkey key ∨ i = 16%nat ∧ key = []).
  { destruct (hexkey_cons _ _ Hk) as [[Hn Hk']|[Hx ->]]; [left|right]; [unfold is_nibble in Hn|]; split; (done || lia). }
  assert (Hn' : c' ≠ TNil).
  { intros ->. specialize (H1 key). unfold updated in H1. by rewrite decide_True in H1. }
  split; [by eapply updated_full| |done|done]. intros _. constructor.
  - by rewrite length_insert.
  - intros j d Hj Hd Hdn. destruct (decide (i = j)) as [->|Hij].
    + rewrite list_lookup_insert_eq in Hd by done. injection Hd as <-. destruct Hcase as [[_ Hkey]|[-> _]]; [by apply H2|lia].
    + rewrite list_lookup_insert_ne in Hd by done. by apply (Hch j).
  - intros d Hd Hdn. destruct (decide (i = 16%nat)) as [->|Hij].
    + rewrite list_lookup_insert_eq in Hd by done. injection Hd as <-. destruct Hcase as [[? _]|[_ ->]]; [lia|]. exists v. split; [done|by apply H3].
    + rewrite list_lookup_insert_ne in Hd by done. by apply Hval.
  - assert (Hold : ∀ j t, cs !! j = Some t → t ≠ TNil → ∃ t', <[i := c']> cs !! j = Some t' ∧ t' ≠ TNil).
    { intros j t Hj Ht. destruct (decide (i = j)) as [->|Hij]; [exists c'; by rewrite list_lookup_insert_eq|exists t; by rewrite list_lookup_insert_ne]. }
    destruct (Hold a ta Ha Hna) as (ta' & Ha' & Hna'), (Hold b tb Hb Hnb) as (tb' & Hb' & Hnb'). by exists a, b, ta', tb'.
Qed.

(** ** A short node that branches out *)

Definition lift (k : bytes) (t : tree) : tree := match k with [] => t | _ => TShort k t end.

Lemma find_lift k t p : find (lift k t) p = find (TShort k t) p.
Proof. destruct k; [|done]. cbn [lift find length take drop]. by rewrite bool_decide_true. Qed.
Lemma find_short_app q r c p : find (TShort (q ++ r) c) p = find (TShort q (TShort r c)) p.
Proof.
  destruct (decide (take (length q) p = q)) as [Hq|Hq].
  - assert (p = q ++ drop (length q) p) as -> by (rewrite <- Hq at 1; by rewrite take_drop).
    set (p' := drop (length q) p). rewrite find_short. cbn [find]. rewrite length_app, take_app_add, drop_app_add.
    destruct (decide (take (length r) p' = r)) as [->|Hr]; [by rewrite !bool_decide_true|].
    rewrite !bool_decide_false; [done|done|]. intros E. by apply app_inv_head in E.
  - rewrite (find_short_other q) by done. apply find_short_other. intros E. apply Hq.
    rewrite length_app in E. apply (f_equal (take (length q))) in E. by rewrite take_take, Nat.min_l, take_app_length in E by lia.
Qed.
Lemma find_short_cons a k c x p : find (TShort (a :: k) c) (x :: p) = if decide (x = a) then find (TShort k c) p else None.
Proof.
  cbn [find length take drop]. destruct (decide (x = a)) as [->|Hne].
  - destruct (decide (take (length k) p = k)) as [E|E]; [by rewrite E, !bool_decide_true|].
    rewrite !bool_decide_false; [done|done|]. by intros [= ?].
  - rewrite bool_decide_false; [done|]. by intros [= -> _].
Qed.

Lemma hexkey_before q x r : hexkey (q ++ x :: r) → path q.
Proof.
  induction q as [|y q IH]; intros H; [constructor|]. destruct (hexkey_cons _ _ H) as [[Hy Hk]|[_ E]]; [|by destruct q].
  constructor; [done|by apply IH].
Qed.

(** What is left of a short node below a nibble of its key. *)
Lemma lift_child q a k2 c : canon (TShort (q ++ a :: k2) c) →
  (is_nibble a ∧ canon (lift k2 c)) ∨ (a = 16 ∧ k2 = [] ∧ ∃ v, v ≠ [] ∧ c = TValue v).
Proof.
  intros Hc. inversion Hc as [p v Hp Hv E|p cs Hp Hne Hcs|]; subst.
  - destruct k2 as [|y k2] using rev_ind.
    + right. apply app_inj_tail in E as [-> <-]. split; [done|]. split; [done|]. by exists v.
    + left. clear IHk2. rewrite app_comm_cons, app_assoc in E. apply app_inj_tail in E as [-> <-].
      apply Forall_app in Hp as [_ Hp]. inversion_clear Hp as [|?? Ha Hk2]. split; [done|].
      assert (lift (k2 ++ [16]) (TValue v) = TShort (k2 ++ [16]) (TValue v)) as -> by (by destruct k2). by constructor.
  - left. apply Forall_app in Hp as [_ Hp]. inversion_clear Hp as [|?? Ha Hk2]. split; [done|].
    destruct k2; [done|]. by constructor.
Qed.

Definition branch (a : Z) (t : tree) (b : Z) (t' : tree) : list tree :=
  <[Z.to_nat b := t']> (<[Z.to_nat a := t]> (replicate 17 TNil)).

(** A tree that may stand at a place of a full node. *)
Definition below (x : Z) (t : tree) : Prop := (is_nibble x ∧ canon t) ∨ (x = 16 ∧ ∃ v, v ≠ [] ∧ t = TValue v).

Lemma below_range x t : below x t → 0 <= x <= 16.
Proof. intros [[Hn _]|[-> _]]; [unfold is_nibble in Hn; lia|lia]. Qed.
Lemma below_some x t : below x t → t ≠ TNil.
Proof. intros [[_ H]|(_ & v & _ & ->)]; [|done]. intros ->. inversion H. Qed.
Lemma below_nibble x t i : below x t → Z.to_nat x = i → (i < 16)%nat → canon t.
Proof. intros [[_ H]|[-> _]] E Hi; [done|lia]. Qed.
Lemma below_value x t : below x t → Z.to_nat x = 16%nat → ∃ v, v ≠ [] ∧ t = TValue v.
Proof. intros [[H _]|[_ H]] E; [unfold is_nibble in H; lia|done]. Qed.

Lemma lift_below q a k2 c : canon (TShort (q ++ a :: k2) c) → below a (lift k2 c).
Proof.
  intros [[Hn Hc]|(-> & -> & w & Hw & ->)]%lift_child; [by left|]. right. split; [done|]. by exists w.
Qed.
Lemma leaf_below b key v : hexkey (b :: key) → v ≠ [] → below b (lift key (TValue v)).
Proof.
  intros [[Hn (p & Hp & ->)]|[-> ->]]%hexkey_cons Hv; [left|right; split; [done|by exists v]]. split; [done|].
  assert (lift (p ++ [16]) (TValue v) = TShort (p ++ [16]) (TValue v)) as -> by (by destruct p). by constructor.
Qed.

Lemma branch_lookup a t1 b t2 i : 0 <= a <= 16 → 0 <= b <= 16 →
  branch a t1 b t2 !! i = if decide (i = Z.to_nat b) then Some t2 else if decide (i = Z.to_nat a) then Some t1
    else if decide (i < 17)%nat then Some TNil else None.
Proof.
  intros Ha Hb. unfold branch. destruct (decide (i = Z.to_nat b)) as [->|Hib].
  - apply list_lookup_insert_eq. rewrite length_insert, length_replicate. lia.
  - rewrite list_lookup_insert_ne by done. destruct (decide (i = Z.to_nat a)) as [->|Hia].
    + apply list_lookup_insert_eq. rewrite length_replicate. lia.
    + rewrite list_lookup_insert_ne by done. destruct (decide (i < 17)%nat); [by apply lookup_replicate_2|].
      apply lookup_ge_None. rewrite length_replicate. lia.
Qed.

Lemma branch_canon a t1 b t2 : a ≠ b → below a t1 → below b t2 → canon (TFull (branch a t1 b t2)).
Proof.
  intros Hab H1 H2. pose proof (below_range _ _ H1) as Ha. pose proof (below_range _ _ H2) as Hb.
  pose proof (λ i, branch_lookup a t1 b t2 i Ha Hb) as Hlk. constructor.
  - unfold branch. by rewrite !length_insert, length_replicate.
  - intros i d Hi Hd Hn. rewrite Hlk in Hd. destruct (decide (i = Z.to_nat b)) as [E|]; [|destruct (decide (i = Z.to_nat a)) as [E|]].
    + injection Hd as <-. by eapply below_nibble.
    + injection Hd as <-. by eapply below_nibble.
    + destruct (decide _); [by injection Hd as <-|done].
  - intros d Hd Hn. rewrite Hlk in Hd. destruct (decide (16%nat = Z.to_nat b)) as [E|]; [|destruct (decide (16%nat = Z.to_nat a)) as [E|]].
    + injection Hd as <-. by eapply below_value.
    + injection Hd as <-. by eapply below_value.
    + destruct (decide _); [by injection Hd as <-|done].
  - exists (Z.to_nat a), (Z.to_nat b), t1, t2. split; [lia|]. rewrite !Hlk, (decide_False (P := Z.to_nat a = Z.to_nat b)) by lia.
    rewrite !decide_True by done. split_and!; [done|by eapply below_some|done|by eapply below_some].
Qed.

Lemma branch_find a k2 c b key2 v : 0 <= a <= 16 → 0 <= b <= 16 → a ≠ b → ∀ p,
  find (TFull (branch a (lift k2 c) b (lift key2 (TValue v)))) p = updated (find (TShort (a :: k2) c)) (b :: key2) (Some v) p.
Proof.
  intros Ha Hb Hab [|x p]; [done|]. rewrite find_full. unfold updated. rewrite find_short_cons.
  unfold index. destruct (Z.leb_spec 0 x) as [Hx|Hx].
  2:{ rewrite (decide_False (P := x = a)), (decide_False (P := x :: p = b :: key2)); [done|by intros [= -> ->]; lia|lia]. }
  rewrite branch_lookup by done. destruct (decide (Z.to_nat x = Z.to_nat b)) as [E|E].
  - assert (x = b) as -> by lia. rewrite (decide_False (P := b = a)) by done. cbn [mbind option_bind]. rewrite find_lift.
    destruct (decide (p = key2)) as [->|Hp].
    + rewrite decide_True by done. apply find_leaf.
    + rewrite decide_False by (by intros [= ->]). destruct (find (TShort key2 (TValue v)) p) eqn:Ef; [|done].
      apply find_short_inv in Ef as (r & -> & Hr). destruct r; [by rewrite app_nil_r in Hp|done].
  - rewrite (decide_False (P := x :: p = b :: key2)) by (intros [= -> ->]; done).
    destruct (decide (Z.to_nat x = Z.to_nat a)) as [E'|E'].
    + assert (x = a) as -> by lia. rewrite decide_True by done. cbn [mbind option_bind]. by rewrite find_lift.
    + rewrite (decide_False (P := x = a)) by (by intros ->). by destruct (decide _).
Qed.

Lemma ins_split q a k2 c b key2 v : canon (TShort (q ++ a :: k2) c) → hexkey (q ++ b :: key2) → a ≠ b → v ≠ [] →
  inserted (q ++ b :: key2) v (TShort (q ++ a :: k2) c)
    (lift q (TFull (branch a (lift k2 c) b (lift key2 (TValue v))))).
Proof.
  intros Hc Hk Hab Hv. pose proof (hexkey_before _ _ _ Hk) as Hq. pose proof (hexkey_path _ _ Hq Hk) as Hkb.
  pose proof (lift_below _ _ _ _ Hc) as H1. pose proof (leaf_below _ _ v Hkb Hv) as H2.
  pose proof (branch_canon _ _ _ _ Hab H1 H2) as Hcan.
  pose proof (branch_find a k2 c b key2 v (below_range _ _ H1) (below_range _ _ H2) Hab) as Hfind. split; [| | |done].
  - intros p. rewrite find_lift. rewrite (updated_short q _ _ _ _ Hfind). unfold updated. by rewrite find_short_app.
  - intros _. destruct q; [done|]. by constructor.
  - intros E. by destruct q.
Qed.

(** ** Deleting *)

Lemma del_absent key t : place key t → find t key = None → deleted key t t.
Proof.
  intros Hp Hf. split.
  - intros p. unfold updated. by destruct (decide (p = key)) as [->|].
  - intros Hk. destruct Hp as [[_ ?]|[-> _]]; [done|by apply hexkey_nil in Hk].
  - intros ->. destruct Hp as [[Hk%hexkey_nil _]|[_ [?|(v & _ & ->)]]]; done.
  - destruct Hp as [[_ [->|?]]|[_ [->|(v & _ & ->)]]]; done.
Qed.
Lemma del_value v : v ≠ [] → deleted [] (TValue v) TNil.
Proof.
  intros Hv. split; [|by left|done|done]. intros p. unfold updated. destruct (decide (p = [])); [done|]. by destruct p.
Qed.
Lemma del_leaf k v : hexkey k → deleted k (TShort k (TValue v)) TNil.
Proof.
  intros Hk. split; [|by left|done|done]. intros p. unfold updated. destruct (decide (p = k)) as [->|Hne]; [done|].
  destruct (find (TShort k (TValue v)) p) eqn:E; [|done]. apply find_short_inv in E as (q & -> & Hq).
  destruct q; [by rewrite app_nil_r in Hne|done].
Qed.

(** Two short nodes in a row become one. *)
Definition merge (k : bytes) (c : tree) : tree := match c with TShort k' v => TShort (k ++ k') v | _ => TShort k c end.
Lemma find_merge k c p : find (merge k c) p = find (TShort k c) p.
Proof. destruct c; try done. apply find_short_app. Qed.
Lemma merge_canon k c : path k → k ≠ [] → canon c → canon (merge k c).
Proof.
  intros Hk Hne Hc. inversion Hc as [p v Hp Hv|p cs Hp Hnp Hcs|cs]; subst; cbn [merge].
  - rewrite app_assoc. constructor; [by apply Forall_app|done].
  - constructor; [by apply Forall_app|by destruct k|done].
  - by constructor.
Qed.
Lemma del_short k c c' key : canon (TShort k c) → path k → is_full c → hexkey key → deleted key c c' →
  deleted (k ++ key) (TShort k c) (merge k c').
Proof.
  intros Hc Hk Hf Hkey [H1 _ _ H4]. specialize (H4 Hf).
  assert (k ≠ []) by (intros ->; inversion Hc; subst; [by destruct p|done]).
  split; [|intros _; right; by apply merge_canon|intros E; by destruct k|done].
  intros p. rewrite find_merge. by apply updated_short.
Qed.

(** A full node with one child left becomes a short one. *)
Definition single (i : nat) (t : tree) : tree :=
  match t with TShort k c => TShort (Z.of_nat i :: k) c | _ => TShort [Z.of_nat i] t end.

(** The children of a full node while it is being changed. *)
Definition children_ok (ts : list tree) : Prop :=
  length ts = 17%nat ∧ (∀ i c, (i < 16)%nat → ts !! i = Some c → c ≠ TNil → canon c) ∧
  (∀ c, ts !! 16%nat = Some c → c ≠ TNil → ∃ v, v ≠ [] ∧ c = TValue v).

Lemma single_ok ts i t : children_ok ts → ts !! i = Some t → t ≠ TNil →
  (∀ j c, ts !! j = Some c → j ≠ i → c = TNil) → canon (single i t) ∧ same (TFull ts) (single i t).
Proof.
  intros (Hl & Hc & Hv) Hi Hn Hrest. pose proof (lookup_lt_Some _ _ _ Hi) as Hlt. split.
  - destruct (decide (i < 16)%nat) as [Hi16|Hi16].
    + specialize (Hc i t Hi16 Hi Hn). assert (path [Z.of_nat i]) by (constructor; [unfold is_nibble; lia|constructor]).
      replace (single i t) with (merge [Z.of_nat i] t) by (by destruct t). by apply merge_canon.
    + assert (i = 16%nat) as -> by lia. destruct (Hv t Hi Hn) as (v & Hne & ->). apply (canon_leaf []); [constructor|done].
  - intros [|x p]; [by destruct t|]. replace (find (single i t) (x :: p)) with (find (TShort [Z.of_nat i] t) (x :: p)).
    2:{ destruct t; try done. cbn [single]. by rewrite <- (find_short_app [Z.of_nat i]). }
    rewrite find_short_cons, find_full. destruct (decide (x = Z.of_nat i)) as [->|Hne].
    + rewrite index_nat, Hi. cbn [mbind option_bind find length take drop]. by rewrite bool_decide_true.
    + unfold index. destruct (Z.leb_spec 0 x); [|done]. destruct (ts !! Z.to_nat x) as [c|] eqn:E; [|done].
      by rewrite (Hrest _ _ E) by lia.
Qed.

(** The children after one of them was deleted from. *)
Lemma del_children cs i c c' key : canon (TFull cs) → cs !! i = Some c → place key c → hexkey (Z.of_nat i :: key) →
  deleted key c c' → children_ok (<[i := c']> cs) ∧ ∃ j t, <[i := c']> cs !! j = Some t ∧ t ≠ TNil.
Proof.
  intros Hc Hi Hpl Hk [H1 H2 H3 H4]. pose proof (lookup_lt_Some _ _ _ Hi) as Hlt.
  destruct (canon_full_inv cs Hc) as (Hl & Hch & Hval & (a & b & ta & tb & Hab & Ha & Hna & Hb & Hnb)).
  split; [split; [by rewrite length_insert|split]|].
  - intros j d Hj Hd Hdn. destruct (decide (i = j)) as [->|Hij].
    + rewrite list_lookup_insert_eq in Hd by done. injection Hd as <-.
      destruct (hexkey_cons _ _ Hk) as [[_ Hkey]|[E _]]; [by destruct (H2 Hkey)|lia].
    + rewrite list_lookup_insert_ne in Hd by done. by apply (Hch j).
  - intros d Hd Hdn. destruct (decide (i = 16%nat)) as [->|Hij].
    + rewrite list_lookup_insert_eq in Hd by done. injection Hd as <-.
      destruct (hexkey_cons _ _ Hk) as [[Hn _]|[_ ->]]; [unfold is_nibble in Hn; lia|]. by rewrite H3 in Hdn.
    + rewrite list_lookup_insert_ne in Hd by done. by apply Hval.
  - destruct (decide (i = a)) as [->|].
    + exists b, tb. by rewrite list_lookup_insert_ne.
    + exists a, ta. by rewrite list_lookup_insert_ne.
Qed.
Lemma del_full cs i c c' key t' : cs !! i = Some c → deleted key c c' → canon t' → same (TFull (<[i := c']> cs)) t' →
  deleted (Z.of_nat i :: key) (TFull cs) t'.
Proof.
  intros Hi [H1 _ _ _] Hc Hs. split; [|by right|done|done]. intros p. rewrite <- Hs. by apply (updated_full cs i c).
Qed.
