(* ===== verification/TrieHash.v ===== *)
(** * The hash of a trie

    [tree_item] is the item a node of a tree is encoded as, with small children inside and
    large ones by their hash.  [stands n t] says that the node [n], parts of which may
    still be in the database and some of whose hashes are cached, stands for the tree [t];
    hashing it gives the hash of the tree, whatever is loaded and cached. *)

From S2P Require Import Prelude Rlp RlpStream StateData TrieEncoding TrieNode TrieSpec.

Section trie.
Variable Keccak256Hash : bytes → Hash.
(** The database, and whether nodes may be missing from it. *)
Variable db : Database.
Variable lossy : bool.

Abbreviation hashData := (hashData Keccak256Hash).
Abbreviation hasher_hash := (hasher_hash Keccak256Hash).

(** ** The encoding of a tree *)

Definition compact_of (k : bytes) : bytes := default [] (hexToCompact k).

Section ref.
Variable tree_item : tree → item.
Definition large (t : tree) : bool := 32 <=? zlen (rlp (tree_item t)).
(** How a node refers to a child. *)
Definition ref_of (t : tree) : item :=
  match t with
  | TNil | TValue _ => tree_item t
  | _ => if large t then IStr (hashData (rlp (tree_item t))) else tree_item t
  end.
End ref.

Fixpoint tree_item (t : tree) : item :=
  match t with
  | TNil => IStr []
  | TValue v => IStr v
  | TShort k c => IList [IStr (compact_of k); ref_of tree_item c]
  | TFull cs => IList (map (ref_of tree_item) cs)
  end.
Definition enc (t : tree) : bytes := rlp (tree_item t).
Abbreviation ref := (ref_of tree_item).
Abbreviation is_large := (large tree_item).
Definition tree_hash (t : tree) : bytes := hashData (enc t).

(** ** Nodes in the database *)

Definition clean (h : option bytes) : nodeFlag := {| fl_hash := h; fl_dirty := false |}.

(** A child as it is read, and a node read by its hash. *)
Fixpoint loaded_ref (t : tree) : node :=
  match t with
  | TNil => nilNode
  | TValue v => valueNode v
  | TShort k c => if is_large t then hashNode (tree_hash t) else shortNode k (loaded_ref c) (clean None)
  | TFull cs => if is_large t then hashNode (tree_hash t) else fullNode (map loaded_ref cs) (clean None)
  end.
Definition loaded_with (h : option bytes) (t : tree) : node :=
  match t with
  | TNil => nilNode
  | TValue v => valueNode v
  | TShort k c => shortNode k (loaded_ref c) (clean h)
  | TFull cs => fullNode (map loaded_ref cs) (clean h)
  end.
Definition loaded (t : tree) : node := loaded_with (Some (tree_hash t)) t.

Definition internal (t : tree) : Prop := match t with TShort _ _ | TFull _ => True | _ => False end.

(** The database has the node under its hash, or has lost it. *)
Definition entry (t : tree) : Prop :=
  db_node db (BytesToHash (tree_hash t)) = Some (loaded t) ∨
  (lossy = true ∧ db_node db (BytesToHash (tree_hash t)) = Some nilNode).

(** The nodes of the tree that have a hash are in the database; [top] is the root, which
    has a hash whatever its size. *)
Inductive backed : bool → tree → Prop :=
| bk_nil top : backed top TNil
| bk_value top v : backed top (TValue v)
| bk_short top k c :
    (top || is_large (TShort k c) = true → entry (TShort k c)) → backed false c → backed top (TShort k c)
| bk_full top cs :
    (top || is_large (TFull cs) = true → entry (TFull cs)) → (∀ i c, cs !! i = Some c → backed false c) →
    backed top (TFull cs).

(** A cached hash is the hash of the node; a clean node is in the database, or inside its
    parent. *)
Definition flags_ok (top : bool) (f : nodeFlag) (t : tree) : Prop :=
  (∀ h, fl_hash f = Some h →
    h = tree_hash t ∧ top || is_large t = true ∧ (fl_dirty f = false → backed top t)) ∧
  (fl_hash f = None → fl_dirty f = false → top || is_large t = false).

(** Every node that gets a hash has it cached. *)
Definition flags_set (top : bool) (f : nodeFlag) (t : tree) : Prop := fl_hash f = None → top || is_large t = false.
Inductive settled : bool → node → tree → Prop :=
| se_nil top t : settled top nilNode t
| se_value top v t : settled top (valueNode v) t
| se_hash top h t : settled top (hashNode h) t
| se_short top k c t f : flags_set top f (TShort k t) → settled false c t → settled top (shortNode k c f) (TShort k t)
| se_full top cs ts f : flags_set top f (TFull ts) →
    (∀ i c t, cs !! i = Some c → ts !! i = Some t → settled false c t) → settled top (fullNode cs f) (TFull ts).

(** Below a node with a cached hash, every hash is cached. *)
Inductive stands : bool → node → tree → Prop :=
| st_nil top : stands top nilNode TNil
| st_value top v : stands top (valueNode v) (TValue v)
| st_short top k c t f : flags_ok top f (TShort k t) → (is_Some (fl_hash f) → settled false c t) → stands false c t →
    stands top (shortNode k c f) (TShort k t)
| st_full top cs ts f : flags_ok top f (TFull ts) → length cs = length ts →
    (is_Some (fl_hash f) → ∀ i c t, cs !! i = Some c → ts !! i = Some t → settled false c t) →
    (∀ i c t, cs !! i = Some c → ts !! i = Some t → stands false c t) → stands top (fullNode cs f) (TFull ts)
| st_hash top t : internal t → top || is_large t = true → backed top t → stands top (hashNode (tree_hash t)) t.

(** ** Small facts *)

Lemma canon_internal t : canon t → internal t.
Proof. by destruct 1. Qed.

Lemma stands_new top k c t : stands false c t → stands top (shortNode k c {| fl_hash := None; fl_dirty := true |}) (TShort k t).
Proof. intros H. constructor; [|by intros [? [=]]|done]. by split; [intros ? [=]|]. Qed.

Lemma backed_top t : backed false t → (internal t → entry t) → backed true t.
Proof. destruct 1; intros He; constructor; try done; intros; by apply He. Qed.
Lemma stands_nil top t : stands top nilNode t → t = TNil.
Proof. by inversion 1. Qed.
Lemma stands_tnil top n : stands top n TNil → n = nilNode.
Proof. inversion 1; [done|]. by match goal with H : internal TNil |- _ => destruct H end. Qed.
Lemma stands_value top v t : stands top (valueNode v) t → t = TValue v.
Proof. by inversion 1. Qed.
Lemma stands_tvalue top n v : stands top n (TValue v) → n = valueNode v.
Proof. inversion 1; [done|]. by match goal with H : internal (TValue _) |- _ => destruct H end. Qed.

(** What is read from the database stands for the tree. *)
Lemma loaded_ref_settled t : settled false (loaded_ref t) t.
Proof.
  revert t. fix IH 1. intros [|k c|cs|v]; cbn [loaded_ref]; [constructor| | |constructor].
  - destruct (is_large (TShort k c)) eqn:El; constructor; [by intros _; rewrite El|apply IH].
  - destruct (is_large (TFull cs)) eqn:El; constructor; [by intros _; rewrite El|]. clear El.
    induction cs as [|t cs IHcs]; intros i c u Hi Ht; [discriminate Hi|].
    destruct i as [|i]; [injection Hi as <-; injection Ht as <-; apply IH|exact (IHcs i c u Hi Ht)].
Qed.
Lemma loaded_ref_stands t : backed false t → stands false (loaded_ref t) t.
Proof.
  intros H. remember false as top eqn:E. induction H as [| |top k c He Hc IH|top cs He Hc IH]; subst top; [constructor..| |].
  - cbn [loaded_ref]. destruct (is_large (TShort k c)) eqn:El.
    + constructor; [done|by rewrite El|]. constructor; [|done]. by rewrite El.
    + constructor; [by split; [intros ? [=]|]|by intros [? [=]]|]. by apply IH.
  - cbn [loaded_ref]. destruct (is_large (TFull cs)) eqn:El.
    + constructor; [done|by rewrite El|]. constructor; [|done]. by rewrite El.
    + constructor; [by split; [intros ? [=]|]|by rewrite length_map|by intros [? [=]]|]. intros i c t Hi Ht.
      rewrite list_lookup_fmap, Ht in Hi. injection Hi as <-. by apply (IH i).
Qed.
Lemma loaded_settled top t : internal t → settled top (loaded t) t.
Proof.
  destruct t as [|k c|cs|v]; try done; intros _; constructor; try done; [apply loaded_ref_settled|].
  intros i c t Hi Ht. rewrite list_lookup_fmap, Ht in Hi. injection Hi as <-. apply loaded_ref_settled.
Qed.
Lemma loaded_stands top t : internal t → backed top t → top || is_large t = true → stands top (loaded t) t.
Proof.
  intros Hi Hb Hl. pose proof (loaded_settled top t Hi) as Hs. unfold loaded in *. destruct Hb as [| |top k c He Hc|top cs He Hc]; [done..| |].
  - constructor; [|by inversion Hs|by apply loaded_ref_stands]. split; [|done]. intros h [= <-]. split; [done|]. split; [done|]. by constructor.
  - constructor; [|by rewrite length_map|by inversion Hs|].
    + split; [|done]. intros h [= <-]. split; [done|]. split; [done|]. by constructor.
    + intros i c t Hi' Ht. rewrite list_lookup_fmap, Ht in Hi'. injection Hi' as <-. eapply loaded_ref_stands. by eapply Hc.
Qed.

(** ** Hashing *)

(** Keys and values of a size a Go slice can have. *)
Definition fine (t : tree) : Prop :=
  ∀ p v, find t p = Some v → zlen p < 2 ^ 56 ∧ zlen v < 2 ^ 56 ∧ Forall is_byte v.
Lemma fine_short k c : fine (TShort k c) → fine c.
Proof.
  intros H p v Hf. destruct (H (k ++ p) v) as (H1 & H2 & H3); [by rewrite find_short|].
  rewrite zlen_app in H1. pose proof (zlen_nonneg k). split; [lia|done].
Qed.
Lemma fine_child cs i c : fine (TFull cs) → cs !! i = Some c → fine c.
Proof.
  intros H Hi p v Hf. destruct (H (Z.of_nat i :: p) v) as (H1 & H2 & H3); [by rewrite (find_full_at _ _ _ _ Hi)|].
  rewrite zlen_cons in H1. split; [lia|done].
Qed.
Lemma fine_value v : fine (TValue v) → Forall is_byte v.
Proof. intros H. by destruct (H [] v) as (_ & _ & ?). Qed.

(** The key of a canonical short node. *)
Lemma canon_key k c : canon (TShort k c) → ∃ b p, path p ∧ k = spelled b p ∧ hexToCompact k = Some (compact_of k) ∧
  compact_of k = compact b p ∧ b = hasTerm k.
Proof.
  intros H. assert (∃ b p, path p ∧ k = spelled b p ∧ b = hasTerm k) as (b & p & Hp & -> & Hb).
  { inversion_clear H as [p v Hp _|p cs Hp _ _|].
    - exists true, p. by rewrite hasTerm_key.
    - exists false, k. unfold spelled. by rewrite app_nil_r, hasTerm_path. }
  exists b, p. unfold compact_of. rewrite hexToCompact_compact by done. done.
Qed.

Lemma hashData_bytes b : Forall is_byte (hashData b).
Proof. apply be_encode_bytes. Qed.
Lemma compact_bytes b p : path p → Forall is_byte (compact b p).
Proof. intros Hp. by apply bytes_of_byte, flagged_path. Qed.

(** The item of a node, seen by its parent or as a root. *)
Definition ref_at (top : bool) (t : tree) : item :=
  if top || is_large t then IStr (tree_hash t) else tree_item t.
Lemma ref_internal t : internal t → ref t = ref_at false t.
Proof. by destruct t. Qed.

Lemma nodeToHash_ok top c t : to_item (node_value c) = Some (tree_item t) → value_ok (node_value c) →
  nodeToHash Keccak256Hash c top = Some (if top || is_large t then hashNode (tree_hash t) else c).
Proof.
  intros Hi Hv. unfold nodeToHash. rewrite EncodeToBytes_ok, Hi by done. cbn [fmap option_fmap option_map mbind option_bind].
  f_equal. unfold tree_hash, enc, large. destruct (Z.ltb_spec (zlen (rlp (tree_item t))) 32), (Z.leb_spec 32 (zlen (rlp (tree_item t))));
    try lia; by destruct top.
Qed.

(** What hashing a node gives. *)
Record hashed_ok (top : bool) (n : node) (t : tree) (r : node * node) : Prop := {
  hs_cached : stands top r.2 t;
  hs_settled : settled top r.2 t;
  hs_item : to_item (node_value r.1) = Some (ref_at top t);
  hs_value : value_ok (node_value r.1);
  hs_there : r.1 ≠ nilNode;
  hs_hash : top || is_large t = true → r.1 = hashNode (tree_hash t);
}.

Lemma hashed_hash top n t cached : stands top cached t → settled top cached t → top || is_large t = true →
  hashed_ok top n t (hashNode (tree_hash t), cached).
Proof. intros H Hs Hl. split; simpl; try done; [unfold ref_at; by rewrite Hl|apply hashData_bytes]. Qed.

Lemma with_hash_ok top f t c : flags_ok top f t → (∀ h, c ≠ hashNode h) →
  flags_ok top (with_hash (if top || is_large t then hashNode (tree_hash t) else c) f) t ∧
  flags_set top (with_hash (if top || is_large t then hashNode (tree_hash t) else c) f) t.
Proof.
  intros [H1 H2] Hc. split; [|unfold flags_set, with_hash; by destruct (top || is_large t)].
  destruct (top || is_large t) eqn:El; unfold with_hash.
  - split; [|done]. intros h [= <-]. split; [done|]. split; [done|]. cbn [fl_dirty]. intros Hd.
    destruct (fl_hash f) as [h|] eqn:Ef; [by apply (H1 h)|]. by specialize (H2 eq_refl Hd).
  - assert (match c with hashNode h => Some h | _ => None end = None) as -> by (destruct c; try done; by destruct (Hc h)).
    by split; [intros ? [=]|].
Qed.

(** The loop over the children of a full node. *)
Fixpoint hash_children (i : nat) (cs : list node) : option (list (node * node)) :=
  match cs with
  | [] => Some []
  | c :: cs =>
      r ← (if decide (i = 16%nat) then Some (c, c)
           else match c with nilNode => Some (valueNode [], nilNode) | _ => hasher_hash c false end);
      rs ← hash_children (S i) cs;
      Some (r :: rs)
  end.
Lemma hasher_full cs f top : fl_hash f = None → hasher_hash (fullNode cs f) top =
  l ← hash_children 0 cs;
  hashed ← nodeToHash Keccak256Hash (fullNode (l.*1) f) top;
  Some (hashed, fullNode (l.*2) (with_hash hashed f)).
Proof. intros Hf. cbn [TrieNode.hasher_hash node_cache fst]. rewrite Hf. reflexivity. Qed.

Definition child_value (c : node) : value := match c with nilNode => VBytes [] | _ => node_value c end.
Lemma child_value_there c : c ≠ nilNode → child_value c = node_value c.
Proof. by destruct c. Qed.

(** The child at place [i] of a full node. *)
Definition child_ok (i : nat) (t : tree) : Prop :=
  if decide (i = 16%nat) then t = TNil ∨ ∃ v, Forall is_byte v ∧ t = TValue v else t = TNil ∨ canon t.

Definition kid_ok (t : tree) (r : node * node) : Prop :=
  stands false r.2 t ∧ settled false r.2 t ∧ to_item (child_value r.1) = Some (ref t) ∧ value_ok (child_value r.1).

Lemma hash_children_ok cs : ∀ ts i, length cs = length ts →
  (∀ j t, ts !! j = Some t → child_ok (i + j) t) →
  (∀ j c t, cs !! j = Some c → ts !! j = Some t → stands false c t ∧
     (canon t → ∃ r, hasher_hash c false = Some r ∧ hashed_ok false c t r)) →
  ∃ l, hash_children i cs = Some l ∧ length l = length ts ∧
    ∀ j t r, ts !! j = Some t → l !! j = Some r → kid_ok t r.
Proof.
  induction cs as [|c cs IH]; intros [|t ts] i Hl Hok Hst; try done; [by exists []|]. cbn [hash_children].
  destruct (Hst 0%nat c t eq_refl eq_refl) as [Hc Hh]. pose proof (Hok 0%nat t eq_refl) as Ht. rewrite Nat.add_0_r in Ht.
  assert (∃ r, (if decide (i = 16%nat) then Some (c, c)
    else match c with nilNode => Some (valueNode [], nilNode) | _ => hasher_hash c false end) = Some r ∧ kid_ok t r) as (r & -> & Hr).
  { unfold child_ok in Ht. destruct (decide (i = 16%nat)).
    - exists (c, c). split; [done|]. destruct Ht as [->|(v & Hv & ->)].
      + apply stands_tnil in Hc as ->. split; [apply st_nil|split; [apply se_nil|split; [done|constructor]]].
      + apply stands_tvalue in Hc as ->. split; [apply st_value|split; [apply se_value|by split]].
    - destruct Ht as [->|Hcan].
      + apply stands_tnil in Hc as ->. eexists. split; [done|]. split; [apply st_nil|split; [apply se_nil|split; [done|constructor]]].
      + destruct (Hh Hcan) as (r & Hr & [H1 H1' H2 H3 H4 _]).
        assert (c ≠ nilNode) by (intros ->; apply stands_nil in Hc as ->; inversion Hcan).
        exists r. split; [by destruct c|]. unfold kid_ok. rewrite child_value_there by done.
        split; [done|]. split; [done|]. split; [|done]. by rewrite ref_internal by (by apply canon_internal). }
  destruct (IH ts (S i)) as (l & -> & Hll & Hkids).
  { by injection Hl. }
  { intros j t' Hj. rewrite Nat.add_succ_l, <- Nat.add_succ_r. by apply Hok. }
  { intros j c' t' Hj Hj'. by apply (Hst (S j)). }
  exists (r :: l). cbn [mbind option_bind length]. split; [done|]. split; [by rewrite Hll|].
  intros [|j] t' r' [= E] [= E']; [by subst|by eapply (Hkids j)].
Qed.

Lemma mapM_lookup {A B} (f : A → option B) (l : list A) (k : list B) : length l = length k →
  (∀ j a b, l !! j = Some a → k !! j = Some b → f a = Some b) → mapM f l = Some k.
Proof.
  revert k. induction l as [|a l IH]; intros [|b k] Hl H; try done. cbn [mapM].
  rewrite (H 0%nat a b) by done. cbn [mbind option_bind]. rewrite (IH k); [done|by injection Hl|]. intros j x y Hx Hy. by apply (H (S j)).
Qed.
Lemma value_ok_list (l : list value) : (∀ j v, l !! j = Some v → value_ok v) → fold_right (λ v P, value_ok v ∧ P) True l.
Proof. induction l as [|v l IH]; intros H; simpl; [done|]. split; [by apply (H 0%nat)|]. apply IH. intros j w Hj. by apply (H (S j)). Qed.

Lemma full_value cs f : node_value (fullNode cs f) = VList (map child_value cs).
Proof. done. Qed.

Lemma kids_value (l : list (node * node)) (ts : list tree) f : length l = length ts →
  (∀ j t r, ts !! j = Some t → l !! j = Some r → kid_ok t r) →
  to_item (node_value (fullNode (l.*1) f)) = Some (tree_item (TFull ts)) ∧ value_ok (node_value (fullNode (l.*1) f)).
Proof.
  intros Hl Hk. rewrite full_value. cbn [to_item value_ok tree_item]. split.
  - rewrite (mapM_lookup to_item (map child_value (l.*1)) (map ref ts)); [done|by rewrite !length_map|].
    intros j v i Hv Hi. rewrite !list_lookup_fmap in Hv. rewrite list_lookup_fmap in Hi.
    destruct (l !! j) as [r|] eqn:Er; [|done]. destruct (ts !! j) as [t|] eqn:Et; [|done]. injection Hv as <-. injection Hi as <-.
    by destruct (Hk j t r Et Er) as (_ & _ & H & _).
  - apply value_ok_list. intros j v Hv. rewrite !list_lookup_fmap in Hv. destruct (l !! j) as [r|] eqn:Er; [|done].
    injection Hv as <-. pose proof (lookup_lt_Some _ _ _ Er) as Hlt. rewrite Hl in Hlt. apply lookup_lt_is_Some in Hlt as [t Et].
    by destruct (Hk j t r Et Er) as (_ & _ & _ & H).
Qed.

Lemma canon_child cs i t : canon (TFull cs) → fine (TFull cs) → cs !! i = Some t → child_ok i t.
Proof.
  intros Hcan Hf Hi. inversion_clear Hcan as [| |? Hl Hc Hv _]. unfold child_ok. pose proof (lookup_lt_Some _ _ _ Hi).
  destruct (tnil_dec t) as [->|Hn]; [by destruct (decide _); left|].
  destruct (decide (i = 16%nat)) as [->|]; right; [|apply (Hc i t); [lia|done..]].
  destruct (Hv t Hi Hn) as (v & _ & ->). exists v. split; [|done]. by eapply fine_value, fine_child.
Qed.

(** The child of a short node, hashed. *)
Lemma collapse_val k c t : canon (TShort k t) → stands false c t → fine t →
  (canon t → ∃ r, hasher_hash c false = Some r ∧ hashed_ok false c t r) →
  ∃ r, match c with fullNode _ _ | shortNode _ _ _ => hasher_hash c false | _ => Some (c, c) end = Some r ∧
    stands false r.2 t ∧ settled false r.2 t ∧ to_item (node_value r.1) = Some (ref t) ∧ value_ok (node_value r.1).
Proof.
  intros Hcan Hc Hfine IH. inversion Hcan as [p' v Hp' Hv0|p' cs Hp' Hne Hcf|]; subst t.
  - apply stands_tvalue in Hc as ->. eexists. split; [done|]. split; [apply st_value|]. split; [apply se_value|]. split; [done|]. by eapply fine_value.
  - destruct (IH Hcf) as (r & Hr & [H1 H1' H2 H3 _ _]). exists r.
    split; [inversion Hc; subst; try done; cbn in Hr; by injection Hr as <-|]. by rewrite ref_internal by (by apply canon_internal).
Qed.
Lemma short_item k t cv f : canon (TShort k t) → to_item (node_value cv) = Some (ref t) → value_ok (node_value cv) →
  to_item (node_value (shortNode (compact_of k) cv f)) = Some (tree_item (TShort k t)) ∧ value_ok (node_value (shortNode (compact_of k) cv f)).
Proof.
  intros Hcan Hit Hv. destruct (canon_key k t Hcan) as (b & p & Hp & _ & _ & Hcb & _). split.
  - cbn [node_value to_item mapM]. cbn [to_item]. by rewrite Hit.
  - cbn. split; [rewrite Hcb; by apply compact_bytes|by split].
Qed.

(** Hashing a node gives the hash of the tree, or the node itself when it is small, and
    leaves a node that stands for the same tree. *)
Lemma node_hash_ok top n t : stands top n t → canon t → fine t →
  ∃ r, hasher_hash n top = Some r ∧ hashed_ok top n t r.
Proof.
  induction 1 as [| |top k c t f Hf Hse Hc IH|top cs ts f Hf Hl Hse Hc IH|top t Hi Hl Hb]; intros Hcan Hfine; [by inversion Hcan..| | |].
  - destruct (fl_hash f) as [h|] eqn:Eh.
    { rewrite <- Eh in Hse. destruct (proj1 Hf h Eh) as (-> & Hl & _). exists (hashNode (tree_hash (TShort k t)), shortNode k c f).
      split; [cbn; by rewrite Eh|]. apply hashed_hash; [by constructor|constructor; [by intros Hn; rewrite Hn in Eh|eauto]|done]. }
    destruct (canon_key k t Hcan) as (b & p & Hp & Hk & Hcomp & Hcb & _).
    destruct (collapse_val k c t Hcan Hc (fine_short _ _ Hfine) (λ H, IH H (fine_short _ _ Hfine))) as ([cv hv] & Hr & Hs & Hsr & Hit & Hv).
    cbn [fst snd] in Hs, Hsr, Hit, Hv.
    destruct (short_item k t cv f Hcan Hit Hv) as [Hit' Hv'].
    eexists. split.
    { cbn [TrieNode.hasher_hash node_cache fst]. rewrite Eh. rewrite Hcomp. cbn [mbind option_bind]. rewrite Hr. cbn [mbind option_bind]. rewrite (nodeToHash_ok top _ (TShort k t)) by done. reflexivity. }
    pose proof (with_hash_ok top f (TShort k t) (shortNode (compact_of k) cv f) Hf ltac:(done)) as [Hw Hw'].
    destruct (top || is_large (TShort k t)) eqn:El.
    + apply hashed_hash; [by constructor|by constructor|done].
    + split; cbn [fst snd]; try done; [by constructor|by constructor|unfold ref_at; by rewrite El|by rewrite El].
  - destruct (fl_hash f) as [h|] eqn:Eh.
    { rewrite <- Eh in Hse. destruct (proj1 Hf h Eh) as (-> & Hlg & _). exists (hashNode (tree_hash (TFull ts)), fullNode cs f).
      split; [cbn; by rewrite Eh|]. apply hashed_hash; [by constructor|constructor; [by intros Hn; rewrite Hn in Eh|eauto]|done]. }
    rewrite hasher_full by done.
    destruct (hash_children_ok cs ts 0 Hl) as (l & Hch & Hll & Hkids).
    { intros j t Hj. by apply (canon_child ts). }
    { intros j c t Hj Ht. split; [by eapply Hc|]. intros Hct. apply (IH j c t Hj Ht Hct). by eapply fine_child. }
    destruct (kids_value l ts f Hll Hkids) as [Hit Hv].
    assert (Hst : ∀ i c t, l.*2 !! i = Some c → ts !! i = Some t → stands false c t).
    { intros i c t Hi Ht. rewrite list_lookup_fmap in Hi. destruct (l !! i) as [r|] eqn:Er; [|done]. injection Hi as <-.
      by destruct (Hkids i t r Ht Er). }
    assert (Hsr : ∀ i c t, l.*2 !! i = Some c → ts !! i = Some t → settled false c t).
    { intros i c t Hi Ht. rewrite list_lookup_fmap in Hi. destruct (l !! i) as [r|] eqn:Er; [|done]. injection Hi as <-.
      by destruct (Hkids i t r Ht Er) as (_ & ? & _). }
    rewrite Hch. cbn [mbind option_bind]. rewrite (nodeToHash_ok top _ (TFull ts)) by done. cbn [mbind option_bind].
    pose proof (with_hash_ok top f (TFull ts) (fullNode (l.*1) f) Hf ltac:(done)) as [Hw Hw']. eexists. split; [done|].
    assert (length (l.*2) = length ts) by (by rewrite length_map).
    destruct (top || is_large (TFull ts)) eqn:El.
    + apply hashed_hash; [by constructor|by constructor|done].
    + split; cbn [fst snd]; try done; [by constructor|by constructor|unfold ref_at; by rewrite El|by rewrite El].
  - exists (hashNode (tree_hash t), hashNode (tree_hash t)). split; [done|]. apply hashed_hash; [by constructor|constructor|done].
Qed.
End trie.
