(* ===== verification/TrieRefine.v ===== *)
(** * The trie implements its trees

    Reading, inserting and deleting on nodes that stand for a tree do what
    [TrieTree] says, whatever is loaded; they fail only for a node the database has lost. *)

From S2P Require Import Prelude Rlp RlpStream StateData TrieEncoding TrieNode Trie TrieSpec TrieTree TrieHash.

Section refine.
Variable Keccak256Hash : bytes → Hash.
Variable db : Database.
Variable lossy : bool.

Abbreviation stands := (stands Keccak256Hash db lossy).
Abbreviation backed := (backed Keccak256Hash db lossy).
Abbreviation tree_hash := (tree_hash Keccak256Hash).

(** The only failure: a node that the database does not have. *)
Definition missing (e : trie_error) : Prop :=
  let '(MissingNodeError h _) := e in lossy = true ∧ db_node db h = Some nilNode.

(** A computation that only reads the trie. *)
Definition does {A} (m : TrM A) (P : A → Prop) : Prop :=
  ∀ s, tr_db s = db → wp m (λ a s', s' = s ∧ P a) (λ e s', s' = s ∧ missing e) (λ _, False) s.

Lemma does_ret {A} (a : A) (P : A → Prop) : P a → does (ret a) P.
Proof. intros H s Hs. by apply wp_ret. Qed.
Lemma does_bind {A B} (m : TrM A) (k : A → TrM B) P Q : does m P → (∀ a, P a → does (k a) Q) → does (bind m k) Q.
Proof.
  intros Hm Hk s Hs. apply wp_bind. eapply wp_mono; [by apply Hm| |done|done]. intros a s' [-> Ha]. by apply Hk.
Qed.
Lemma does_mono {A} (m : TrM A) (P Q : A → Prop) : does m P → (∀ a, P a → Q a) → does m Q.
Proof. intros Hm H s Hs. eapply wp_mono; [by apply Hm| |done|done]. intros a s' [-> Ha]. split; [done|by apply H]. Qed.
Lemma does_some {A B} p (o : option A) a (k : A → TrM B) Q : o = Some a → does (k a) Q → does (bind (or_panic p o) k) Q.
Proof. intros -> H. exact H. Qed.

Lemma does_ret_bind {A B} (a : A) (k : A → TrM B) Q : does (k a) Q → does (bind (ret a) k) Q.
Proof. done. Qed.

Definition is_hash (n : node) : bool := match n with hashNode _ => true | _ => false end.

(** Loading a node. *)
Lemma resolveHash_ok top t h prefix : stands top (hashNode h) t →
  does (resolveHash h prefix) (λ n, stands top n t ∧ is_hash n = false ∧ settled Keccak256Hash top n t).
Proof.
  intros Hst. inversion Hst as [| | | |top' t' Hi Hl Hb]; subst. intros s Hs.
  unfold resolveHash. apply wp_bind, wp_gets. rewrite Hs.
  assert (He : entry Keccak256Hash db lossy t) by (inversion Hb; subst; by auto).
  assert (Hn : loaded Keccak256Hash t ≠ nilNode ∧ is_hash (loaded Keccak256Hash t) = false) by (by destruct t).
  apply wp_bind. destruct He as [E|[Hy E]]; rewrite E; cbn [or_panic].
  - apply wp_ret. pose proof (loaded_stands Keccak256Hash db lossy top t Hi Hb Hl) as H. pose proof (loaded_settled Keccak256Hash top t Hi).
    destruct (loaded Keccak256Hash t) eqn:E'; try (by destruct Hn); apply wp_ret; done.
  - apply wp_ret, wp_fail. done.
Qed.
Lemma resolve_ok n t prefix : stands false n t → does (resolve n prefix) (λ n, stands false n t ∧ is_hash n = false).
Proof.
  intros H. unfold resolve. destruct n; try (by apply does_ret). eapply does_mono; [by apply resolveHash_ok|]. by intros n (? & ? & _).
Qed.

(** The steps that are left: two for each nibble, and one to load the node. *)
Definition steps (n : node) (key : bytes) : nat := 2 * length key + (if is_hash n then 1 else 0).

Lemma stands_hash_internal top h t : stands top (hashNode h) t → internal t.
Proof. by inversion 1. Qed.

Lemma place_canon key t : place key t → internal t → hexkey key ∧ canon t.
Proof. by intros [[Hk [->|Hc]]|[-> [->|(v & _ & ->)]]] Hi. Qed.

(** Every step down leaves fewer of them. *)
Lemma canon_key_nonempty k t : canon (TShort k t) → k ≠ [].
Proof. intros H ->. inversion H; subst; [by destruct p|done]. Qed.
Lemma steps_short k c f key n : k ≠ [] → (steps (shortNode k c f) (k ++ key) < S n)%nat → (steps c key < n)%nat.
Proof.
  intros Hk. unfold steps. rewrite length_app. cbn [is_hash].
  assert (0 < length k)%nat by (destruct k; [done|simpl; lia]). destruct (is_hash c); lia.
Qed.
Lemma steps_full cs f x key c n : (steps (fullNode cs f) (x :: key) < S n)%nat → (steps c key < n)%nat.
Proof. unfold steps. cbn [is_hash length]. destruct (is_hash c); lia. Qed.
Lemma steps_hash h key c n : is_hash c = false → (steps (hashNode h) key < S n)%nat → (steps c key < n)%nat.
Proof. unfold steps. intros ->. cbn [is_hash]. lia. Qed.

(** ** Reading *)

Lemma tryGet_ok fuel : ∀ top n t key pos, stands top n t → place (drop pos key) t → (steps n (drop pos key) < fuel)%nat →
  does (tryGet fuel n key pos) (λ r, r.1.1 = find t (drop pos key) ∧ stands top r.1.2 t ∧
    (settled Keccak256Hash top n t → settled Keccak256Hash top r.1.2 t)).
Proof.
  induction fuel as [|fuel IH]; intros top n t key pos Hst Hpl Hfuel; [lia|]. cbn [tryGet].
  inversion Hst as [|top' v|top' k c tc f Hf Hse Hc|top' cs ts f Hf Hl Hse Hc|top' t' Hi Hlg Hb]; subst.
  - by apply does_ret.
  - apply does_ret. destruct Hpl as [[_ [|H]]|[-> _]]; [done|inversion H|done].
  - destruct (place_canon _ _ Hpl I) as [Hk Hcan].
    destruct (_ || negb _) eqn:Eq.
    + apply does_ret. split; [|done]. symmetry. apply find_short_other. apply orb_true_iff in Eq as [Hlt|Hne].
      * apply Nat.ltb_lt in Hlt. intros E. apply (f_equal length) in E. rewrite length_take, length_drop in E. lia.
      * apply negb_true_iff, bool_decide_eq_false in Hne. done.
    + apply orb_false_iff in Eq as [_ Heq]. apply negb_false_iff, bool_decide_eq_true in Heq.
      assert (Hd : drop pos key = k ++ drop (pos + length k) key) by (rewrite <- Heq at 1; by rewrite <- drop_drop, take_drop).
      rewrite Hd in Hk. destruct (place_short k tc _ Hcan Hk) as [Hpl' _].
      rewrite Hd in Hfuel. apply steps_short in Hfuel; [|by eapply canon_key_nonempty].
      eapply does_bind; [by apply (IH false c tc key (pos + length k)%nat Hc Hpl')|].
      intros [[v nn] did] (Hv & Hs & Hss). cbn [fst snd] in *. apply does_ret. cbn [fst snd]. rewrite Hd, find_short.
      split; [done|]. destruct did; [|done]. split; [constructor; eauto|]. inversion 1; subst. constructor; eauto.
  - destruct (place_canon _ _ Hpl I) as [Hk Hcan].
    destruct (drop pos key) as [|x key2] eqn:Ed; [by apply hexkey_nil in Hk|].
    destruct (place_full ts x key2 Hcan Hk) as (i & t & -> & Hi & Hpl' & _).
    assert (Hx : key !! pos = Some (Z.of_nat i)) by (rewrite <- (Nat.add_0_r pos), <- lookup_drop, Ed; done).
    assert (Hd2 : drop (pos + 1) key = key2) by (rewrite <- drop_drop, Ed; done).
    pose proof (lookup_lt_Some _ _ _ Hi) as Hlt. rewrite <- Hl in Hlt. destruct (lookup_lt_is_Some_2 cs i Hlt) as [c Hci].
    eapply does_some; [exact Hx|]. eapply does_some; [by rewrite index_nat|].
    eapply does_bind; [apply (IH false c t key (pos + 1)%nat); [by eapply Hc|by rewrite Hd2|rewrite Hd2; by eapply steps_full]|].
    intros [[v nn] did] (Hv & Hs & Hss). cbn [fst snd] in *. rewrite Hd2 in Hv. rewrite (find_full_at _ _ _ _ Hi).
    destruct did; [|by apply does_ret]. eapply does_some; [by apply set_index_nat|]. apply does_ret. cbn [fst snd].
    assert (Hset : ∀ P : node → tree → Prop, P nn t → (∀ j d u, cs !! j = Some d → ts !! j = Some u → P d u) →
      ∀ j d u, <[i := nn]> cs !! j = Some d → ts !! j = Some u → P d u).
    { intros P Hnn HP j d u Hj Hu. destruct (decide (i = j)) as [->|Hij].
      - rewrite list_lookup_insert_eq in Hj by done. injection Hj as <-. rewrite Hi in Hu. by injection Hu as <-.
      - rewrite list_lookup_insert_ne in Hj by done. by eapply HP. }
    split; [done|]. split; [constructor; [done|by rewrite length_insert| |by apply Hset]|].
    + intros Hh. apply Hset; eauto.
    + inversion 1; subst. constructor; [done|]. apply Hset; eauto.
  - destruct (place_canon _ _ Hpl Hi) as [Hk Hcan].
    eapply does_bind; [by apply (resolveHash_ok top t)|]. intros child (Hch & Hnh & Hcs). cbn beta.
    eapply does_bind; [apply (IH top child t key pos Hch Hpl); by eapply steps_hash|].
    intros [[v nn] did] (Hv & Hs & Hss). apply does_ret. cbn [fst snd] in *. by eauto.
Qed.

(** ** Inserting *)

Lemma new_ok top t : flags_ok Keccak256Hash db lossy top newFlag t.
Proof. by split; [intros ? [=]|]. Qed.
Lemma new_short top k c t : stands false c t → stands top (shortNode k c newFlag) (TShort k t).
Proof. apply stands_new. Qed.
Lemma new_full top cs ts : length cs = length ts → (∀ i c t, cs !! i = Some c → ts !! i = Some t → stands false c t) →
  stands top (fullNode cs newFlag) (TFull ts).
Proof. intros Hl H. constructor; [apply new_ok|done|by intros [? [=]]|done]. Qed.
Lemma hash_not_nil top n t : stands top n t → internal t → n ≠ nilNode.
Proof. by intros H Hi ->; apply stands_nil in H as ->. Qed.

Lemma insert_nil fuel prefix key value :
  trie_insert (S fuel) nilNode prefix key value = ret (true, match key with [] => value | _ => shortNode key value newFlag end).
Proof. by destruct key. Qed.
Lemma lift_stands k n t : stands false n t →
  stands false (match k with [] => n | _ => shortNode k n newFlag end) (lift k t).
Proof. intros H. destruct k; [done|]. by apply new_short. Qed.

Lemma replicate_stands : ∀ i c t, replicate 17 nilNode !! i = Some c → replicate 17 TNil !! i = Some t → stands false c t.
Proof. intros i c t [-> _]%lookup_replicate [-> _]%lookup_replicate. constructor. Qed.
Lemma insert_stands (cs : list node) (ts : list tree) i n t : length cs = length ts →
  (∀ j c u, cs !! j = Some c → ts !! j = Some u → stands false c u) → stands false n t →
  ∀ j c u, <[i := n]> cs !! j = Some c → <[i := t]> ts !! j = Some u → stands false c u.
Proof.
  intros Hl H Hn j c u Hc Hu. destruct (decide (i = j)) as [->|Hij].
  - assert (Hlt : (j < length cs)%nat) by (apply lookup_lt_Some in Hc; by rewrite length_insert in Hc).
    rewrite list_lookup_insert_eq in Hc by done. rewrite list_lookup_insert_eq in Hu by lia.
    injection Hc as <-. by injection Hu as <-.
  - rewrite list_lookup_insert_ne in Hc by done. rewrite list_lookup_insert_ne in Hu by done. by eapply H.
Qed.

(** What an insertion promises. *)
Definition insert_post (top : bool) (key v : bytes) (t : tree) (r : bool * node) : Prop :=
  ∃ t', inserted key v t t' ∧ stands top r.2 t' ∧ (r.1 = false → t' = t).

Lemma spelled_range b p x : path p → x ∈ spelled b p → 0 <= x <= 16.
Proof.
  unfold spelled. intros Hp [Hx|Hx]%elem_of_app.
  - apply (proj1 (Forall_forall _ _) Hp) in Hx. unfold is_nibble in Hx. lia.
  - destruct b; [apply list_elem_of_singleton in Hx; lia|by apply not_elem_of_nil in Hx].
Qed.

Lemma drop_past {A} (q : list A) a r : drop (S (length q)) (q ++ a :: r) = r.
Proof. by induction q. Qed.

Lemma insert_short fuel k c f prefix key value : key ≠ [] →
  trie_insert (S fuel) (shortNode k c f) prefix key value =
    let matchlen := prefixLen key k in
    if (matchlen =? length k)%nat then
      let! (dirty, nn) := trie_insert fuel c (prefix ++ take matchlen key) (drop matchlen key) value in
      if dirty : bool then ret (true, shortNode k nn newFlag) else ret (false, shortNode k c f)
    else
      let! a := or_panic PSlice (k !! matchlen) in
      let! (_, c1) := trie_insert fuel nilNode (prefix ++ take (S matchlen) k) (drop (S matchlen) k) c in
      let! cs := or_panic PSlice (set_index (replicate 17 nilNode) a c1) in
      let! b := or_panic PSlice (key !! matchlen) in
      let! (_, c2) := trie_insert fuel nilNode (prefix ++ take (S matchlen) key) (drop (S matchlen) key) value in
      let! cs := or_panic PSlice (set_index cs b c2) in
      if (matchlen =? 0)%nat then ret (true, fullNode cs newFlag)
      else ret (true, shortNode (take matchlen key) (fullNode cs newFlag) newFlag).
Proof. by destruct key. Qed.

(** The case of a short node whose key differs. *)
Lemma insert_split fuel top k c tc f prefix key v q a k2 b key2 :
  canon (TShort k tc) → stands false c tc → hexkey key → v ≠ [] →
  k = q ++ a :: k2 → key = q ++ b :: key2 → a ≠ b → prefixLen key k = length q →
  does (trie_insert (S (S fuel)) (shortNode k c f) prefix key (valueNode v)) (insert_post top key v (TShort k tc)).
Proof.
  intros Hcan Hc Hk Hv Ek Ekey Hab Hpl.
  pose proof Hcan as Hcan'. rewrite Ek in Hcan'. pose proof Hk as Hk'. rewrite Ekey in Hk'.
  pose proof (ins_split q a k2 tc b key2 v Hcan' Hk' Hab Hv) as Hins. rewrite <- Ek, <- Ekey in Hins.
  assert (Ha : 0 <= a <= 16).
  { destruct (canon_key _ _ Hcan) as (bt & p & Hp & E & _). apply (spelled_range bt p); [done|]. rewrite <- E, Ek. set_solver. }
  assert (Hb : 0 <= b <= 16).
  { destruct (spelled_key _ Hk) as (p & Hp & E). apply (spelled_range true p); [done|]. rewrite <- E, Ekey. set_solver. }
  rewrite insert_short by (intros E; rewrite E in Hk; by apply hexkey_nil in Hk). cbv zeta. rewrite Hpl.
  rewrite (proj2 (Nat.eqb_neq _ _)) by (rewrite Ek, length_app; simpl; lia).
  eapply does_some; [rewrite Ek; by apply list_lookup_middle|]. rewrite Ek, drop_past, insert_nil.
  apply does_ret_bind. cbn beta iota.
  eapply does_some; [apply set_index_Z; unfold zlen; rewrite length_replicate; lia|].
  eapply does_some; [rewrite Ekey; by apply list_lookup_middle|]. rewrite Ekey, drop_past, insert_nil.
  apply does_ret_bind. cbn beta iota.
  eapply does_some; [apply set_index_Z; unfold zlen; rewrite length_insert, length_replicate; lia|].
  rewrite take_app_length, <- Ekey, <- Ek.
  set (cs := <[Z.to_nat b := _]> _). set (ts := branch a (lift k2 tc) b (lift key2 (TValue v))) in *.
  assert (Hfull : ∀ top, stands top (fullNode cs newFlag) (TFull ts)).
  { intros tp. apply new_full; [unfold cs, ts, branch; by rewrite !length_insert, !length_replicate|].
    apply insert_stands; [by rewrite !length_insert, !length_replicate| |apply lift_stands; constructor].
    apply insert_stands; [by rewrite !length_replicate|apply replicate_stands|by apply lift_stands]. }
  destruct q as [|y q]; (apply does_ret; eexists; split; [exact Hins|]; split; [|done]).
  - apply Hfull.
  - apply new_short, Hfull.
Qed.

(** The key of a node is no longer than a key that agrees with it. *)
Lemma key_no_longer key a k2 t : canon (TShort (key ++ a :: k2) t) → hexkey key → False.
Proof.
  intros Hcan Hk. destruct (canon_key _ _ Hcan) as (bt & p & Hp & E & _).
  destruct Hk as (p0 & Hp0 & ->). unfold spelled in E. destruct bt.
  - assert (Hh : hexkey ((p0 ++ [16]) ++ a :: k2)) by (exists p; by rewrite E).
    apply hexkey_prefix in Hh; [done|by exists p0].
  - rewrite app_nil_r in E. rewrite <- E in Hp. apply Forall_app in Hp as [Hp _]. apply Forall_app in Hp as [_ Hp].
    inversion_clear Hp as [|?? Hn _]. unfold is_nibble in Hn. lia.
Qed.

(** What inserting with some fuel does, wherever it starts. *)
Definition inserts (fuel : nat) : Prop := ∀ top n t prefix key v,
  stands top n t → place key t → v ≠ [] → (steps n key < fuel)%nat →
  does (trie_insert fuel n prefix key (valueNode v)) (insert_post top key v t).

Lemma insert_at_short fuel top k c tc f prefix key v : inserts fuel → stands top (shortNode k c f) (TShort k tc) →
  stands false c tc → canon (TShort k tc) → hexkey key → key ≠ [] → v ≠ [] → (steps (shortNode k c f) key < S fuel)%nat →
  does (trie_insert (S fuel) (shortNode k c f) prefix key (valueNode v)) (insert_post top key v (TShort k tc)).
Proof.
  intros IH Hst Hc Hcan Hk Hkey Hv Hfuel. destruct (prefixLen_spec key k) as (q & k1 & k2 & E1 & E2 & Hlen & Hcase).
  destruct k2 as [|a k2].
  - rewrite app_nil_r in E2. subst q. rewrite insert_short by done. cbv zeta. rewrite <- Hlen, Nat.eqb_refl.
    rewrite E1, drop_app_length. rewrite E1 in Hk, Hfuel. destruct (place_short k tc k1 Hcan Hk) as [Hpl' _].
    apply steps_short in Hfuel; [|by eapply canon_key_nonempty].
    eapply does_bind; [by apply (IH false c tc _ k1 v Hc Hpl' Hv)|].
    intros [dirty nn] (t' & Hins & Hs & Hd). cbn [fst snd] in *.
    pose proof (ins_match k tc t' k1 v Hcan Hk Hins Hv) as Hm.
    destruct dirty; apply does_ret; exists (TShort k t'); (split; [done|]); cbn [fst snd].
    + split; [|done]. by apply new_short.
    + rewrite (Hd eq_refl). done.
  - destruct Hcase as [->|[?|(x & y & k1' & k2' & Hxy & -> & [= -> ->])]]; [|done|].
    + exfalso. rewrite app_nil_r in E1. subst. by eapply key_no_longer.
    + destruct fuel as [|fuel]; [unfold steps in Hfuel; rewrite E1, length_app in Hfuel; simpl in Hfuel; lia|].
      by eapply (insert_split fuel top k c tc f prefix key v q y k2' x k1').
Qed.

Lemma insert_ok fuel : ∀ top n t prefix key v, stands top n t → place key t → v ≠ [] → (steps n key < fuel)%nat →
  does (trie_insert fuel n prefix key (valueNode v)) (insert_post top key v t).
Proof.
  induction fuel as [|fuel IH]; intros top n t prefix key v Hst Hpl Hv Hfuel; [lia|].
  destruct (decide (key = [])) as [->|Hkey].
  { cbn [trie_insert]. assert (Hsub : t = TNil ∨ ∃ w, w ≠ [] ∧ t = TValue w).
    { destruct Hpl as [[Hk%hexkey_nil _]|[_ ?]]; done. }
    destruct Hsub as [->|(w & Hw & ->)].
    - apply stands_tnil in Hst as ->. apply does_ret. exists (TValue v). split; [by apply ins_value|]. split; [constructor|done].
    - apply stands_tvalue in Hst as ->. apply does_ret. exists (TValue v). split; [by apply ins_value|]. split; [constructor|].
      cbn [fst]. intros E. apply negb_false_iff, bool_decide_eq_true in E. by subst. }
  assert (Hk : hexkey key) by (by destruct Hpl as [[? _]|[? _]]).
  inversion Hst as [|top' w|top' k c tc f Hf Hse Hc|top' cs ts f Hf Hl Hse Hc|top' t' Hi Hlg Hb]; subst.
  - rewrite insert_nil. apply does_ret. exists (TShort key (TValue v)). split; [by apply ins_nil|]. split; [|done]. cbn [snd].
    destruct key; [done|]. apply new_short; constructor.
  - exfalso. destruct Hpl as [[_ [|H]]|[? _]]; [done|inversion H|done].
  - destruct (place_canon _ _ Hpl I) as [_ Hcan]. by apply (insert_at_short fuel top k c tc).
  - destruct (place_canon _ _ Hpl I) as [_ Hcan]. destruct key as [|x key2]; [done|].
    destruct (place_full ts x key2 Hcan Hk) as (i & t & -> & Hi & Hpl' & _). cbn [trie_insert].
    pose proof (lookup_lt_Some _ _ _ Hi) as Hlt. rewrite <- Hl in Hlt. destruct (lookup_lt_is_Some_2 cs i Hlt) as [c Hci].
    eapply does_some; [by rewrite index_nat|].
    eapply does_bind; [apply (IH false c t _ key2 v); [by eapply Hc|done|done|by eapply steps_full]|].
    intros [dirty nn] (t' & Hins & Hs & Hd). cbn [fst snd] in *.
    pose proof (ins_full ts i t t' key2 v Hcan Hi Hk Hpl' Hins Hv) as Hm.
    destruct dirty.
    + eapply does_some; [by apply set_index_nat|]. apply does_ret. exists (TFull (<[i := t']> ts)). split; [done|]. cbn [fst snd].
      split; [|done]. apply new_full; [by rewrite !length_insert|]. by apply insert_stands.
    + apply does_ret. exists (TFull (<[i := t']> ts)). split; [done|]. cbn [fst snd]. rewrite (Hd eq_refl), list_insert_id by done. done.
  - destruct key as [|x key2]; [done|]. cbn [trie_insert].
    eapply does_bind; [by apply (resolveHash_ok top t)|]. intros child (Hch & Hnh & _). cbn beta.
    eapply does_bind; [apply (IH top child t prefix (x :: key2) v Hch Hpl Hv); by eapply steps_hash|].
    intros [dirty nn] (t' & Hins & Hs & Hd). cbn [fst snd] in *.
    destruct dirty; apply does_ret; exists t'; (split; [done|]); cbn [fst snd]; [done|]. by rewrite (Hd eq_refl).
Qed.

(** ** Deleting *)

(** [only_child] from place [i], when [pos] was the only child before. *)
Lemma only_child_spec cs : ∀ i pos, 0 <= i → -1 <= pos →
  let r := only_child i pos cs in
  (pos = -1 ∧ r = -1 ∧ ∀ j c, cs !! j = Some c → c = nilNode) ∨
  (pos = -1 ∧ ∃ k c, r = i + Z.of_nat k ∧ cs !! k = Some c ∧ c ≠ nilNode ∧ ∀ j d, cs !! j = Some d → j ≠ k → d = nilNode) ∨
  (pos = -1 ∧ r = -2 ∧ ∃ k l c d, k ≠ l ∧ cs !! k = Some c ∧ c ≠ nilNode ∧ cs !! l = Some d ∧ d ≠ nilNode) ∨
  (0 <= pos ∧ r = pos ∧ ∀ j c, cs !! j = Some c → c = nilNode) ∨
  (0 <= pos ∧ r = -2 ∧ ∃ k c, cs !! k = Some c ∧ c ≠ nilNode).
Proof.
  induction cs as [|n cs IH]; intros i pos Hi Hp; cbn [only_child].
  - destruct (Z.eq_dec pos (-1)) as [->|]; [by left|]. right; right; right; left. split; [lia|done].
  - assert (Hcase : n = nilNode ∨ n ≠ nilNode) by (destruct n; [by left|by right..]).
    destruct Hcase as [->|Hn].
    + specialize (IH (i + 1) pos ltac:(lia) Hp). cbv zeta in *.
      assert (Hall : (∀ j c, cs !! j = Some c → c = nilNode) → ∀ j c, (nilNode :: cs) !! j = Some c → c = nilNode)
        by (intros H [|j] c; [by intros [= <-]|apply H]).
      destruct IH as [(-> & -> & H)|[(-> & k & c & -> & Hk & Hn & H)|[(-> & -> & k & l & c & d & Hkl & H)|[(H0 & -> & H)|(H0 & -> & k & c & H)]]]].
      * left. split; [done|]. split; [done|by apply Hall].
      * right; left. split; [done|]. exists (S k), c. split; [lia|]. split; [done|]. split; [done|].
        intros [|j] d Hd Hne; [by injection Hd as <-|]. apply (H j); [done|lia].
      * right; right; left. split; [done|]. split; [done|]. exists (S k), (S l), c, d. split; [lia|done].
      * right; right; right; left. split; [done|]. split; [done|by apply Hall].
      * right; right; right; right. split; [done|]. split; [done|]. by exists (S k), c.
    + assert (E : (match n with nilNode => only_child (i + 1) pos cs | _ => if pos =? -1 then only_child (i + 1) i cs else -2 end) =
        if pos =? -1 then only_child (i + 1) i cs else -2) by (by destruct n).
      rewrite E. clear E. destruct (Z.eqb_spec pos (-1)) as [->|Hpos].
      * specialize (IH (i + 1) i ltac:(lia) ltac:(lia)). cbv zeta in *.
        destruct IH as [(? & _)|[(? & _)|[(? & _)|[(_ & -> & H)|(_ & -> & k & c & Hk & Hc)]]]]; try lia.
        -- right; left. split; [done|]. exists 0%nat, n. split; [lia|]. split; [done|]. split; [done|].
           intros [|j] d Hd Hne; [done|]. by apply (H j).
        -- right; right; left. split; [done|]. split; [done|]. exists 0%nat, (S k), n, c. by split_and!.
      * right; right; right; right. split; [lia|]. split; [done|]. by exists 0%nat, n.
Qed.

Lemma stands_nil_iff n t : stands false n t → (n = nilNode ↔ t = TNil).
Proof. intros H. split; intros ->; [by apply stands_nil in H|by apply stands_tnil in H]. Qed.

(** A full node after a deletion below it. *)
Lemma reduce_ok top cs ts prefix : length cs = length ts → children_ok ts →
  (∀ j c t, cs !! j = Some c → ts !! j = Some t → stands false c t) →
  (∃ j t, ts !! j = Some t ∧ t ≠ TNil) →
  does (reduce cs prefix) (λ n, is_hash n = false ∧ ∃ t', stands top n t' ∧ canon t' ∧ same (TFull ts) t').
Proof.
  intros Hl Hok Hst (j0 & t0 & Hj0 & Hn0). unfold reduce.
  assert (Hboth : ∀ j, (is_Some (cs !! j) ↔ is_Some (ts !! j))) by (intros j; rewrite !lookup_lt_is_Some; lia).
  assert (Hnil : ∀ j c t, cs !! j = Some c → ts !! j = Some t → (c = nilNode ↔ t = TNil)).
  { intros j c t Hc Ht. apply stands_nil_iff. by eapply Hst. }
  destruct (only_child_spec cs 0 (-1) ltac:(lia) ltac:(lia)) as [(_ & _ & H)|[(_ & k & c & Er & Hk & Hn & H)|[(_ & Er & k & l & c & d & Hkl & Hk & Hc & Hd & Hdn)|[(? & _)|(? & _)]]]]; try lia.
  - exfalso. destruct (proj2 (Hboth j0) ltac:(by eexists)) as [c Hc]. apply Hn0, (Hnil j0 c); [done..|by eapply H].
  - cbv zeta in Er. rewrite Er, Z.add_0_l. rewrite (proj2 (Z.leb_le _ _)) by lia.
    destruct (proj1 (Hboth k) ltac:(by eexists)) as [t Ht]. pose proof (Hst k c t Hk Ht) as Hs.
    assert (Htn : t ≠ TNil) by (intros E; by apply Hn, (Hnil k c t)).
    assert (Hrest : ∀ j u, ts !! j = Some u → j ≠ k → u = TNil).
    { intros j u Hu Hne. destruct (proj2 (Hboth j) ltac:(by eexists)) as [d Hd]. apply (Hnil j d); [done..|by eapply H]. }
    destruct (single_ok ts k t Hok Ht Htn Hrest) as [Hcan Hsame].
    eapply does_some; [by rewrite index_nat|]. cbv zeta.
    assert (Hshort : ∀ u, stands false c u → ∃ t', stands top (shortNode [Z.of_nat k] c newFlag) t' ∧ t' = TShort [Z.of_nat k] u)
      by (intros u Hu; eexists; split; [by apply new_short|done]).
    destruct (negb (Z.of_nat k =? 16)) eqn:E16.
    + eapply does_bind; [by apply (resolve_ok c t)|]. intros n [Hsn Hnh]. cbn beta.
      assert (Hkeep : single k t = TShort [Z.of_nat k] t → ∃ t', stands top (shortNode [Z.of_nat k] c newFlag) t' ∧ canon t' ∧ same (TFull ts) t').
      { intros E. exists (TShort [Z.of_nat k] t). rewrite <- E. split; [rewrite E; by apply new_short|done]. }
      inversion Hsn as [|? v|? k' c' tc f Hf Hc'|? cs' ts' f Hf Hl' Hc'|]; subst; try done; apply does_ret; (split; [done|]); try (by apply Hkeep).
      exists (TShort (Z.of_nat k :: k') tc). split; [by apply new_short|done].
    + apply does_ret. split; [done|]. exists (TShort [Z.of_nat k] t). split; [by apply new_short|].
      apply negb_false_iff, Z.eqb_eq in E16. assert (k = 16%nat) as -> by lia.
      destruct Hok as (_ & _ & Hv). by destruct (Hv t Ht Htn) as (v & _ & ->).
  - cbv zeta in Er. rewrite Er. cbn [Z.leb Z.compare]. apply does_ret. split; [done|]. exists (TFull ts).
    split; [by apply new_full|]. split; [|done].
    destruct Hok as (Hlen & Hch & Hv). constructor; try done.
    destruct (proj1 (Hboth k) ltac:(by eexists)) as [tk Htk], (proj1 (Hboth l) ltac:(by eexists)) as [tl Htl].
    exists k, l, tk, tl. split; [done|]. split; [done|]. split; [intros E; by apply Hc, (Hnil k c tk)|]. split; [done|].
    intros E; by apply Hdn, (Hnil l d tl).
Qed.

(** What a deletion promises. *)
Definition delete_post (top : bool) (key : bytes) (t : tree) (r : bool * node) : Prop :=
  (r.1 = true → is_hash r.2 = false) ∧ ∃ t', deleted key t t' ∧ stands top r.2 t' ∧ (r.1 = false → t' = t).

(** What deleting with some fuel does, wherever it starts. *)
Definition deletes (fuel : nat) : Prop := ∀ top n t prefix key, stands top n t → place key t → (steps n key < fuel)%nat →
  does (trie_delete fuel n prefix key) (delete_post top key t).

(** The case of a short node whose key agrees: its child is merged into it when it has become one. *)
Lemma delete_below_short fuel top k c tc f prefix key : deletes fuel → stands top (shortNode k c f) (TShort k tc) →
  stands false c tc → canon (TShort k tc) → hexkey (k ++ key) → (steps (shortNode k c f) (k ++ key) < S fuel)%nat →
  does (trie_delete (S fuel) (shortNode k c f) prefix (k ++ key)) (delete_post top (k ++ key) (TShort k tc)).
Proof.
  intros IH Hst Hc Hcan Hk Hfuel. pose proof (canon_key_nonempty _ _ Hcan) as Hk0. cbn [trie_delete].
  destruct (prefixLen_spec (k ++ key) k) as (q & k1 & k2 & E1 & E2 & Hlen & Hcase). rewrite <- Hlen.
  destruct k2 as [|a k2].
  2:{ exfalso. destruct Hcase as [->|[?|(x & y & k1' & k2' & Hxy & -> & [= -> ->])]]; [|done|].
      - apply (f_equal length) in E1, E2. rewrite !length_app in E1. rewrite !length_app in E2. simpl in *. lia.
      - rewrite E2, <- app_assoc in E1. apply app_inv_head in E1. by injection E1 as ->. }
  rewrite app_nil_r in E2. subst q. clear k1 E1 Hlen Hcase. rewrite Nat.ltb_irrefl.
  destruct (place_short k tc key Hcan Hk) as [Hpl' [(Hh & -> & v & Hv & ->)|(Hp & Hk1 & Hfull & Hctc)]].
  - rewrite app_nil_r, Nat.eqb_refl. apply does_ret. split; [done|]. exists TNil.
    split; [by apply del_leaf|]. split; [constructor|done].
  - rewrite (proj2 (Nat.eqb_neq _ _)), drop_app_length.
    2:{ rewrite length_app. destruct key; [by apply hexkey_nil in Hk1|simpl; lia]. }
    eapply does_bind; [by apply (IH false c tc _ key Hc Hpl'); eapply steps_short|].
    intros [dirty child] (Hnh & t' & Hdel & Hs & Hd). cbn [fst snd] in *.
    pose proof (del_short k tc t' key Hcan Hp Hfull Hk1 Hdel) as Hm. destruct dirty; cbv iota.
    + pose proof (de_full _ _ _ Hdel Hfull) as Hct'.
      inversion Hs as [|? v|? k' c' tc' f' Hf' Hc'|? cs' ts' f' Hf' Hl' Hc'|? t'' Hi' Hlg' Hb']; subst; try (by inversion Hct');
        [| |by specialize (Hnh eq_refl)];
        (apply does_ret; split; [done|]; eexists; split; [exact Hm|]; split; [|done]); cbn [merge snd];
        (by apply new_short).
    + apply does_ret. split; [done|]. exists (merge k t'). split; [done|]. rewrite (Hd eq_refl). cbn [fst snd]. by destruct tc.
Qed.

Lemma delete_at_short fuel top k c tc f prefix key : deletes fuel → stands top (shortNode k c f) (TShort k tc) →
  stands false c tc → canon (TShort k tc) → hexkey key → (steps (shortNode k c f) key < S fuel)%nat →
  does (trie_delete (S fuel) (shortNode k c f) prefix key) (delete_post top key (TShort k tc)).
Proof.
  intros IH Hst Hc Hcan Hk Hfuel. destruct (decide (take (length k) key = k)) as [E|E].
  - assert (Ek : key = k ++ drop (length k) key) by (rewrite <- E at 1; by rewrite take_drop).
    rewrite Ek in Hk, Hfuel |- *. by apply delete_below_short with (c := c).
  - destruct (prefixLen_spec key k) as (q & k1 & k2 & E1 & E2 & Hlen & _). cbn [trie_delete]. rewrite <- Hlen.
    destruct k2 as [|a k2]; [|rewrite (proj2 (Nat.ltb_lt _ _)) by (rewrite E2, length_app; simpl; lia)].
    + exfalso. apply E. rewrite app_nil_r in E2. subst q. by rewrite E1, take_app_length.
    + apply does_ret. split; [done|]. exists (TShort k tc). split; [|done]. apply del_absent; [by left; split; [|right]|]. by apply find_short_other.
Qed.

Lemma delete_ok fuel : ∀ top n t prefix key, stands top n t → place key t → (steps n key < fuel)%nat →
  does (trie_delete fuel n prefix key) (delete_post top key t).
Proof.
  induction fuel as [|fuel IH]; intros top n t prefix key Hst Hpl Hfuel; [lia|].
  inversion Hst as [|top' w|top' k c tc f Hf Hse Hc|top' cs ts f Hf Hl Hse Hc|top' t' Hi Hlg Hb]; subst.
  - apply does_ret. split; [done|]. exists TNil. split; [by apply del_absent|done].
  - apply does_ret. split; [done|]. exists TNil. destruct Hpl as [[_ [|H]]|[-> [|(v & Hv & [= ->])]]]; [done|inversion H|done|].
    split; [by apply del_value|]. split; [constructor|done].
  - destruct (place_canon _ _ Hpl I) as [Hk Hcan]. by apply (delete_at_short fuel top k c tc).
  - destruct (place_canon _ _ Hpl I) as [Hk Hcan]. destruct key as [|x key2]; [by apply hexkey_nil in Hk|].
    destruct (place_full ts x key2 Hcan Hk) as (i & t & -> & Hi & Hpl' & _).
    pose proof (lookup_lt_Some _ _ _ Hi) as Hlt. rewrite <- Hl in Hlt. destruct (lookup_lt_is_Some_2 cs i Hlt) as [c Hci].
    cbn [trie_delete]. eapply does_some; [by rewrite index_nat|].
    eapply does_bind; [apply (IH false c t _ key2); [by eapply Hc|done|by eapply steps_full]|].
    intros [dirty nn] (Hnh & t' & Hdel & Hs & Hd). cbn [fst snd] in *. destruct dirty.
    + eapply does_some; [by apply set_index_nat|].
      destruct (del_children ts i t t' key2 Hcan Hi Hpl' Hk Hdel) as [Hok Hsome].
      eapply does_bind; [apply (reduce_ok top _ (<[i := t']> ts)); [by rewrite !length_insert|done|by apply insert_stands|done]|].
      intros r (Hr & tr & Hsr & Hcr & Hsame). apply does_ret. split; [done|]. exists tr. split; [by eapply del_full|]. done.
    + apply does_ret. split; [done|]. exists (TFull ts). cbn [fst snd]. split; [|done]. rewrite (Hd eq_refl) in Hdel.
      apply del_absent; [done|]. rewrite (find_full_at _ _ _ _ Hi), (de_find _ _ _ Hdel). unfold updated. by rewrite decide_True.
  - destruct (place_canon _ _ Hpl Hi) as [Hk Hcan]. cbn [trie_delete].
    eapply does_bind; [by apply (resolveHash_ok top t)|]. intros child (Hch & Hnh & _). cbn beta.
    eapply does_bind; [apply (IH top child t prefix key Hch Hpl); by eapply steps_hash|].
    intros [dirty nn] (Hnh' & t' & Hdel & Hs & Hd). cbn [fst snd] in *.
    destruct dirty; apply does_ret; (split; [done|]); exists t'; (split; [done|]); cbn [fst snd]; [done|]. by rewrite (Hd eq_refl).
Qed.
End refine.
