(* ===== verification/TrieCodec.v ===== *)
(** * Reading a node back

    [decodeNode] on the encoding of a node of a canonical tree gives the node back, with
    the children as the database keeps them. *)

From S2P Require Import Prelude Rlp RlpStream StateData TrieEncoding TrieNode TrieSpec TrieTree TrieHash.

(** ** Sizes *)

Lemma rlp_str_le b : zlen b < 2 ^ 64 → zlen (rlp (IStr b)) <= zlen b + 9.
Proof.
  intros H. rewrite rlp_length. cbn [item_content]. pose proof (zlen_nonneg b). destruct (decide _); [lia|].
  pose proof (headsize_le (zlen b)). lia.
Qed.
Lemma rlp_list_le l n : zlen (concat (map rlp l)) <= n → n < 2 ^ 64 → zlen (rlp (IList l)) <= n + 9.
Proof.
  intros H Hn. rewrite rlp_length. cbn [item_content item_kind]. rewrite decide_False by done. pose proof (zlen_nonneg (concat (map rlp l))).
  pose proof (headsize_le (zlen (concat (map rlp l)))). lia.
Qed.
Lemma concat_le l n : (∀ j i, l !! j = Some i → zlen (rlp i) <= n) → zlen (concat (map rlp l)) <= zlen l * n.
Proof.
  induction l as [|i l IH]; intros H; [done|]. cbn [map concat]. rewrite zlen_app, zlen_cons.
  pose proof (H 0%nat i eq_refl). specialize (IH (λ j x Hj, H (S j) x Hj)). lia.
Qed.

Section codec.
Variable Keccak256Hash : bytes → Hash.
Abbreviation tree_item := (tree_item Keccak256Hash).
Abbreviation enc := (enc Keccak256Hash).
Abbreviation ref := (ref_of Keccak256Hash tree_item).
Abbreviation is_large := (large tree_item).
Abbreviation tree_hash := (tree_hash Keccak256Hash).
Abbreviation loaded_ref := (loaded_ref Keccak256Hash).
Abbreviation loaded_with := (loaded_with Keccak256Hash).

Lemma zlen_hash b : zlen (hashData Keccak256Hash b) = 32.
Proof. unfold zlen, hashData, hash_bytes. by rewrite length_be_encode. Qed.

Lemma ref_le t : child_ok 16 t ∨ child_ok 0 t → fine t → zlen (rlp (ref t)) < 2 ^ 57.
Proof.
  intros Hok Hf.
  assert (Hcan : canon t → zlen (rlp (ref t)) < 2 ^ 57).
  { intros Hc. rewrite ref_internal by (by apply canon_internal). unfold ref_at. cbn [orb]. destruct (is_large t) eqn:E.
    - assert (Hz : zlen (tree_hash t) = 32) by apply zlen_hash. pose proof (rlp_str_le (tree_hash t)). lia.
    - unfold large in E. apply Z.leb_gt in E. lia. }
  assert (Hv : ∀ v, t = TValue v → zlen (rlp (ref t)) < 2 ^ 57).
  { intros v ->. destruct (Hf [] v eq_refl) as (_ & Hl & _). pose proof (rlp_str_le v). change (ref (TValue v)) with (IStr v). lia. }
  assert (Hn : t = TNil → zlen (rlp (ref t)) < 2 ^ 57) by (intros ->; vm_compute; reflexivity).
  unfold child_ok in Hok. destruct Hok as [[->|(v & _ & ->)]|[->|Hc]]; eauto.
Qed.

Lemma key_le k c : canon (TShort k c) → fine (TShort k c) → zlen k < 2 ^ 56.
Proof.
  intros Hc Hf. destruct (canon_some _ Hc) as (p & v & Hp). destruct (Hf p v Hp) as [Hl _].
  apply find_short_inv in Hp as (q & -> & _). rewrite zlen_app in Hl. pose proof (zlen_nonneg q). lia.
Qed.
Lemma compact_le b p : zlen (compact b p) <= zlen p + 2.
Proof.
  unfold compact. rewrite zlen_bytes_of. pose proof (zlen_nonneg p). apply Z.div_le_upper_bound; [lia|].
  unfold flagged. rewrite zlen_cons. destruct (_ =? 1); rewrite ?zlen_cons; lia.
Qed.

Lemma child_ok_any i t : child_ok i t → child_ok 16 t ∨ child_ok 0 t.
Proof. unfold child_ok. destruct (decide (i = 16%nat)); [by left|by right]. Qed.

Lemma short_child k c : canon (TShort k c) → fine (TShort k c) → child_ok 16 c ∨ child_ok 0 c.
Proof.
  intros Hc Hf. inversion Hc as [p v Hp Hv|p cs Hp Hne Hcs|]; subst; [left|right]; unfold child_ok; simpl; right; [|done].
  exists v. split; [|done]. by eapply fine_value, fine_short.
Qed.

(** The payload of a node, and its encoding. *)
Definition items (t : tree) : list item := match tree_item t with IList l => l | IStr _ => [] end.
Lemma items_item t : canon t → tree_item t = IList (items t).
Proof. by destruct 1. Qed.
Lemma items_le t : canon t → fine t → zlen (concat (map rlp (items t))) < 2 ^ 62.
Proof.
  intros Hc Hf. assert (H : zlen (concat (map rlp (items t))) <= zlen (items t) * 2 ^ 57); [|assert (zlen (items t) <= 17); [|lia]].
  - apply concat_le. intros j i Hj. destruct t as [|k c|cs|]; try by inversion Hc.
    + pose proof (key_le k c Hc Hf). destruct (canon_key _ _ Hc) as (b & p & Hp & Hk & _ & Hcb & _).
      destruct j as [|[|j]]; [| |done]; injection Hj as <-.
      * rewrite Hcb. pose proof (compact_le b p). pose proof (rlp_str_le (compact b p)).
        assert (zlen p <= zlen k) by (rewrite Hk; unfold spelled; rewrite zlen_app; pose proof (zlen_nonneg (if b then [16] else [])); lia). lia.
      * pose proof (ref_le c (short_child k c Hc Hf) (fine_short _ _ Hf)). lia.
    + unfold items in Hj. cbn [TrieHash.tree_item] in Hj. rewrite list_lookup_fmap in Hj. destruct (cs !! j) as [c|] eqn:Ec; [|done].
      injection Hj as <-. pose proof (ref_le c (child_ok_any j c (canon_child _ _ _ Hc Hf Ec)) (fine_child _ _ _ Hf Ec)). lia.
  - destruct t as [|k c|cs|]; try by inversion Hc.
    unfold items. cbn [TrieHash.tree_item]. destruct (canon_full_inv cs Hc) as (Hl & _). unfold zlen. rewrite length_map. lia.
Qed.
Lemma enc_le t : canon t → fine t → zlen (enc t) < 2 ^ 63.
Proof.
  intros Hc Hf. unfold TrieHash.enc. rewrite items_item by done. pose proof (items_le t Hc Hf).
  pose proof (rlp_list_le (items t) (2 ^ 62) ltac:(lia) ltac:(lia)). lia.
Qed.

(** ** Decoding *)

Lemma SplitString_rlp b rest : zlen (rlp (IStr b) ++ rest) < 2 ^ 64 → SplitString (rlp (IStr b) ++ rest) = Some (inl (b, rest)).
Proof.
  intros H. unfold SplitString. rewrite Split_rlp by done. cbn [mbind option_bind item_content].
  destruct (decide (item_kind (IStr b) = KByte)) as [->|Hk]; [done|]. by rewrite (proj1 (item_kind_str b Hk)).
Qed.
Lemma SplitList_rlp l rest : zlen (rlp (IList l) ++ rest) < 2 ^ 64 → SplitList (rlp (IList l) ++ rest) = Some (inl (concat (map rlp l), rest)).
Proof. intros H. unfold SplitList. by rewrite Split_rlp. Qed.

Lemma loaded_ref_small t : internal t → is_large t = false → loaded_ref t = loaded_with None t.
Proof. destruct t; try done; intros _ H; cbn [TrieHash.loaded_ref]; by rewrite H. Qed.
Lemma loaded_ref_large t : internal t → is_large t = true → loaded_ref t = hashNode (tree_hash t).
Proof. destruct t; try done; intros _ H; cbn [TrieHash.loaded_ref]; by rewrite H. Qed.

Lemma kind_long b : 2 <= zlen b → item_kind (IStr b) = KString.
Proof. destruct b as [|x [|y b]]; intros H; [done|by exfalso|done]. Qed.

(** A reference to a child is read as the child. *)
Lemma decodeRef_ok emb t rest : t = TNil ∨ canon t → zlen (rlp (ref t) ++ rest) < 2 ^ 64 →
  (is_large t = false → canon t → emb (enc t ++ rest) = Some (inl (loaded_with None t))) →
  decodeRef emb (rlp (ref t) ++ rest) = Some (inl (loaded_ref t, rest)).
Proof.
  intros [->|Hc] Hz He; unfold decodeRef; rewrite Split_rlp by done; [done|].
  pose proof (canon_internal t Hc) as Hi. rewrite ref_internal in * by done. unfold ref_at in *. cbn [orb] in *.
  destruct (is_large t) eqn:El.
  - assert (H32 : zlen (tree_hash t) = 32) by apply zlen_hash. rewrite kind_long by lia. cbn [mbind option_bind item_content].
    rewrite H32, loaded_ref_large by done. done.
  - assert (Hsz : zlen (enc t ++ rest) - zlen rest < 32) by (rewrite zlen_app; unfold large in El; apply Z.leb_gt in El; unfold TrieHash.enc; lia).
    rewrite items_item in * by done. cbn [item_kind item_content mbind option_bind]. unfold TrieHash.enc in *. rewrite items_item in * by done.
    rewrite (proj2 (Z.ltb_ge _ _)) by (unfold HashLength; lia). rewrite (He eq_refl Hc). cbn [mbind option_bind]. by rewrite loaded_ref_small.
Qed.

Lemma decodeFull_loop_ok emb ts rest :
  (∀ j t, ts !! j = Some t → t = TNil ∨ canon t) →
  zlen (concat (map rlp (map ref ts)) ++ rest) < 2 ^ 64 →
  (∀ j t r, ts !! j = Some t → is_large t = false → canon t → zlen (enc t ++ r) < 2 ^ 64 → emb (enc t ++ r) = Some (inl (loaded_with None t))) →
  decodeFull_loop emb (length ts) (concat (map rlp (map ref ts)) ++ rest) = Some (inl (map loaded_ref ts, rest)).
Proof.
  induction ts as [|t ts IH]; intros Hok Hz He; [done|]. cbn [map concat length decodeFull_loop] in *. rewrite <- app_assoc in *.
  rewrite decodeRef_ok; [|by apply (Hok 0%nat)|done|].
  - cbn [mbind option_bind]. rewrite IH; [done|intros j; by apply (Hok (S j))|rewrite zlen_app in Hz; pose proof (zlen_nonneg (rlp (ref t))); lia|].
    intros j t' r Hj. by apply (He (S j)).
  - intros Hl Hc. apply (He 0%nat); [done..|]. rewrite ref_internal in Hz by (by apply canon_internal). unfold ref_at in Hz. by rewrite Hl in Hz.
Qed.

(** A node that is inside another is shorter. *)
Lemma inside_shorter l i : In i l → (length (rlp i) < length (rlp (IList l)))%nat.
Proof.
  intros Hi. pose proof (rlp_length (IList l)) as H. cbn [item_content item_kind] in H. rewrite decide_False in H by done.
  pose proof (headsize_pos (zlen (concat (map rlp l))) (zlen_nonneg _)).
  assert (zlen (rlp i) <= zlen (concat (map rlp l))); [|unfold zlen in *; lia].
  clear -Hi. induction l as [|j l IH]; [done|]. cbn [map concat]. rewrite zlen_app. pose proof (zlen_nonneg (concat (map rlp l))).
  pose proof (zlen_nonneg (rlp j)). destruct Hi as [->|Hi]; [lia|]. specialize (IH Hi). lia.
Qed.

Definition decodes (t : tree) : Prop := ∀ fuel h rest, (length (enc t) < fuel)%nat → zlen (enc t ++ rest) < 2 ^ 64 →
  decodeNode_loop fuel h (enc t ++ rest) = Some (inl (loaded_with h t)).

Lemma emb_ok parent fuel t r : canon parent → (length (enc parent) < S fuel)%nat → In (ref t) (items parent) →
  decodes t → canon t → is_large t = false → zlen (enc t ++ r) < 2 ^ 64 →
  decodeNode_loop fuel None (enc t ++ r) = Some (inl (loaded_with None t)).
Proof.
  intros Hp Hf Hin IH Hc Hl Hz. apply IH; [|done]. apply inside_shorter in Hin. rewrite <- items_item in Hin by done.
  rewrite ref_internal in Hin by (by apply canon_internal). unfold ref_at in Hin. rewrite Hl in Hin. cbn [orb] in Hin.
  unfold TrieHash.enc in *. lia.
Qed.

Lemma payload_lt t rest : canon t → zlen (enc t ++ rest) < 2 ^ 64 → zlen (concat (map rlp (items t))) < 2 ^ 64.
Proof.
  intros Hc Hz. unfold TrieHash.enc in *. rewrite items_item in * by done.
  pose proof (rlp_length (IList (items t))) as Hr. cbn [item_kind item_content] in Hr. rewrite decide_False in Hr by done.
  rewrite zlen_app in Hz. pose proof (zlen_nonneg rest). pose proof (headsize_pos (zlen (concat (map rlp (items t)))) (zlen_nonneg _)). lia.
Qed.

(** The frame of a node: a list of as many items as the node has. *)
Lemma decode_frame t fuel h rest : canon t → zlen (enc t ++ rest) < 2 ^ 64 → decodeNode_loop (S fuel) h (enc t ++ rest) =
  if zlen (items t) =? 2 then decodeShort (decodeNode_loop fuel None) h (concat (map rlp (items t)))
  else if zlen (items t) =? 17 then decodeFull (decodeNode_loop fuel None) h (concat (map rlp (items t)))
  else Some (inr (InvalidCount (zlen (items t)))).
Proof.
  intros Hc Hz. pose proof (payload_lt t rest Hc Hz). unfold TrieHash.enc in *. rewrite items_item in * by done. cbn [decodeNode_loop].
  assert (Hp : 0 < zlen (rlp (IList (items t)) ++ rest)).
  { rewrite zlen_app. pose proof (rlp_pos (IList (items t))). pose proof (zlen_nonneg rest). lia. }
  rewrite (proj2 (Z.eqb_neq _ _)) by lia. rewrite SplitList_rlp by done. cbn [mbind option_bind].
  unfold CountValues. rewrite CountValues_loop_rlp; [done|done|]. pose proof (rlp_concat_length (items t)). unfold zlen in *. lia.
Qed.

(** A full node is its 16 children and its value. *)
Lemma full_split cs : canon (TFull cs) → ∃ ts c, cs = ts ++ [c] ∧ length ts = 16%nat ∧ (c = TNil ∨ ∃ v, v ≠ [] ∧ c = TValue v) ∧
  ∀ j t, ts !! j = Some t → t = TNil ∨ canon t.
Proof.
  intros Hc. destruct (canon_full_inv cs Hc) as (Hl & Hk & Hv & _).
  destruct (lookup_lt_is_Some_2 cs 16%nat ltac:(lia)) as [c Hc16]. exists (take 16 cs), c.
  pose proof (take_S_r cs 16 c Hc16) as Ht. rewrite take_ge in Ht by lia. split; [done|]. split; [rewrite length_take; lia|]. split.
  - destruct (tnil_dec c); [by left|right; eauto].
  - intros j t Hj. apply lookup_take_Some in Hj as [Hj Hlt]. destruct (tnil_dec t); [by left|right; eauto].
Qed.

Lemma decode_ok t : canon t → decodes t.
Proof.
  induction 1 as [p v Hp Hv|p cs Hp Hne Hc IH|cs Hl Hk IH Hv Htwo]; intros fuel h rest Hf Hz; (destruct fuel as [|fuel]; [lia|]).
  - pose proof (canon_leaf p v Hp Hv) as Hcan. rewrite decode_frame by done. apply payload_lt in Hz; [|done].
    assert (Hit : items (TShort (p ++ [16]) (TValue v)) = [IStr (compact true p); IStr v]).
    { unfold items. cbn [TrieHash.tree_item ref_of]. unfold compact_of. change (p ++ [16]) with (spelled true p). by rewrite hexToCompact_compact. }
    rewrite Hit in *. cbn [map concat] in *. unfold decodeShort. rewrite SplitString_rlp by done. cbn [mbind option_bind].
    rewrite compactToHex_compact by done. cbn [mbind option_bind]. unfold spelled. rewrite hasTerm_key.
    rewrite zlen_app in Hz. pose proof (zlen_nonneg (rlp (IStr (compact true p)))). rewrite SplitString_rlp by lia. done.
  - pose proof (canon_ext p cs Hp Hne Hc) as Hcan. rewrite decode_frame by done. apply payload_lt in Hz; [|done].
    assert (Hit : items (TShort p (TFull cs)) = [IStr (compact false p); ref (TFull cs)]).
    { unfold items. cbn [TrieHash.tree_item]. unfold compact_of. replace p with (spelled false p) at 1 by apply app_nil_r. by rewrite hexToCompact_compact. }
    pose proof (emb_ok (TShort p (TFull cs)) fuel (TFull cs) [] Hcan Hf) as Hemb.
    rewrite Hit in *. cbn [map concat zlen length Z.of_nat] in *. unfold decodeShort. rewrite SplitString_rlp by done. cbn [mbind option_bind].
    rewrite compactToHex_compact by done. cbn [mbind option_bind]. unfold spelled. rewrite app_nil_r, hasTerm_path by done.
    rewrite zlen_app in Hz. pose proof (zlen_nonneg (rlp (IStr (compact false p)))). rewrite decodeRef_ok; [done|by right|lia|].
    intros Hsm Hcf. apply Hemb; [by right; left|done..|]. rewrite ref_internal in Hz by done. unfold ref_at in Hz. rewrite Hsm in Hz. unfold TrieHash.enc. cbn [orb] in Hz. lia.
  - pose proof (canon_full cs Hl Hk Hv Htwo) as Hcan. rewrite decode_frame by done. apply payload_lt in Hz; [|done].
    change (items (TFull cs)) with (map ref cs) in *. assert (zlen (map ref cs) = 17) as -> by (unfold zlen; rewrite length_map; lia).
    cbn [Z.eqb Pos.eqb]. destruct (full_split cs Hcan) as (ts & c & -> & Hts & Hc & Hkids). rewrite !map_app, concat_app in *.
    unfold decodeFull. rewrite <- Hts. rewrite decodeFull_loop_ok; [|done|done|].
    + cbn [mbind option_bind map concat]. rewrite zlen_app in Hz. pose proof (zlen_nonneg (concat (map rlp (map ref ts)))). cbn [map concat] in Hz.
      unfold TrieHash.loaded_with. rewrite map_app.
      destruct Hc as [->|(v & Hv0 & ->)]; [change (ref TNil) with (IStr []) in *; by rewrite SplitString_rlp by lia|].
      change (ref (TValue v)) with (IStr v) in *. rewrite SplitString_rlp by lia.
      cbn [mbind option_bind map]. destruct v; [done|]. rewrite (proj2 (Z.ltb_lt _ _)); [done|]. rewrite zlen_cons. pose proof (zlen_nonneg v). lia.
    + intros j t r Hj Hsm Hct Hzt. assert (Hj' : (ts ++ [c]) !! j = Some t) by (by apply lookup_app_l_Some).
      apply (emb_ok (TFull (ts ++ [c]))); [done|lia| |apply (IH j t); [apply lookup_lt_Some in Hj; lia|done|by destruct Hct]|done..].
      change (items (TFull (ts ++ [c]))) with (map ref (ts ++ [c])). apply in_map, list_elem_of_In. by eapply list_elem_of_lookup_2.
Qed.

(** A node read from its encoding is the node that was written. *)
Lemma decodeNode_ok t h : canon t → zlen (enc t) < 2 ^ 64 → decodeNode h (enc t) = Some (inl (loaded_with h t)).
Proof.
  intros Hc Hz. unfold decodeNode. pose proof (decode_ok t Hc (S (length (enc t))) h []) as H. rewrite app_nil_r in H. apply H; [lia|done].
Qed.
Lemma mustDecodeNode_ok t : canon t → fine t → mustDecodeNode (tree_hash t) (enc t) = Some (loaded Keccak256Hash t).
Proof. intros Hc Hf. unfold mustDecodeNode. rewrite decodeNode_ok; [done|done|]. pose proof (enc_le t Hc Hf). lia. Qed.
End codec.
