(* ===== verification/TrieMap.v ===== *)
(** * A trie is a map

    [represents tr m]: the trie [tr] holds the entries of the map [m], whatever part of it
    is in memory.  The operations of the trie are those of the map, and what the root hash
    says is the map. *)

From S2P Require Import Prelude Rlp RlpStream StateData TrieEncoding TrieNode Trie TrieSpec TrieTree TrieHash TrieRefine TrieCodec.

(** ** Maps and trees *)

(** Keys and values a Go program can hold; a value that is stored is not empty. *)
Definition key_ok (k : bytes) : Prop := Forall is_byte k ∧ zlen k < 2 ^ 54.
Definition val_ok (v : bytes) : Prop := Forall is_byte v ∧ zlen v < 2 ^ 56.

(** The entries of the map are those of a tree in canonical form. *)
Record contents (m : gmap bytes bytes) (t : tree) : Prop := {
  co_canon : t = TNil ∨ canon t;
  co_find k : Forall is_byte k → find t (keybytesToHex k) = m !! k;
  co_keys p v : find t p = Some v → ∃ k, key_ok k ∧ p = keybytesToHex k;
  co_entry k v : m !! k = Some v → key_ok k ∧ val_ok v ∧ v ≠ [];
}.

Lemma contents_empty : contents ∅ TNil.
Proof. split; [by left|intros k _; by rewrite lookup_empty|done|intros k v; by rewrite lookup_empty]. Qed.

Lemma zlen_hex k : zlen (keybytesToHex k) = 2 * zlen k + 1.
Proof. unfold keybytesToHex. rewrite zlen_app, zlen_nibbles. unfold zlen. simpl. lia. Qed.

Lemma contents_fine m t : contents m t → fine t.
Proof.
  intros H p v Hf. destruct (co_keys _ _ H p v Hf) as (k & [Hk Hl] & ->). rewrite (co_find _ _ H) in Hf by done.
  destruct (co_entry _ _ H k v Hf) as (_ & [Hv Hlv] & _). rewrite zlen_hex. split; [lia|done].
Qed.
Lemma contents_place m t k : contents m t → Forall is_byte k → place (keybytesToHex k) t.
Proof. intros H Hk. left. split; [by apply keybytesToHex_key|apply (co_canon _ _ H)]. Qed.

(** A map has one tree. *)
Lemma contents_tree m t t' : contents m t → contents m t' → t = t'.
Proof.
  intros H H'. assert (Hs : same t t').
  { assert (Hle : ∀ t t', contents m t → contents m t' → ∀ p v, find t p = Some v → find t' p = Some v).
    { intros a b Ha Hb p v Hf. destruct (co_keys _ _ Ha p v Hf) as (k & [Hk _] & ->).
      rewrite (co_find _ _ Ha) in Hf by done. by rewrite (co_find _ _ Hb). }
    intros p. destruct (find t p) as [v|] eqn:E; [by rewrite (Hle t t' H H' p v)|].
    destruct (find t' p) as [v|] eqn:E'; [|done]. by rewrite (Hle t' t H' H p v E') in E. }
  destruct (co_canon _ _ H) as [->|Hc], (co_canon _ _ H') as [->|Hc']; [done|..|by apply canon_unique].
  - destruct (canon_some _ Hc') as (p & v & Hf). by rewrite <- Hs in Hf.
  - destruct (canon_some _ Hc) as (p & v & Hf). by rewrite Hs in Hf.
Qed.
(** A tree has one map. *)
Lemma contents_map m m' t : contents m t → contents m' t → m = m'.
Proof.
  assert (Hle : ∀ m m', contents m t → contents m' t → ∀ k v, m !! k = Some v → m' !! k = Some v).
  { intros a b Ha Hb k v Hk. destruct (co_entry _ _ Ha k v Hk) as ((Hb1 & _) & _). by rewrite <- (co_find _ _ Hb), (co_find _ _ Ha). }
  intros H H'. apply map_eq. intros k. apply option_eq. intros v. split; eauto.
Qed.

Lemma contents_insert m t t' k v : contents m t → key_ok k → val_ok v → v ≠ [] →
  inserted (keybytesToHex k) v t t' → contents (<[k := v]> m) t'.
Proof.
  intros H Hk Hv Hne [Hf Hc _ _]. split.
  - right. by apply Hc, keybytesToHex_key, Hk.
  - intros k' Hk'. rewrite Hf. unfold updated. destruct (decide (keybytesToHex k' = keybytesToHex k)) as [E|Hn].
    + apply keybytesToHex_inj in E as ->; [by rewrite lookup_insert_eq|done|apply Hk].
    + rewrite lookup_insert_ne by (by intros ->). by apply (co_find _ _ H).
  - intros p w. rewrite Hf. unfold updated. destruct (decide _) as [->|Hn]; [by exists k|]. apply (co_keys _ _ H).
  - intros k' w. destruct (decide (k' = k)) as [->|Hn]; [rewrite lookup_insert_eq; by intros [= <-]|].
    rewrite lookup_insert_ne by done. apply (co_entry _ _ H).
Qed.
Lemma contents_delete m t t' k : contents m t → Forall is_byte k →
  deleted (keybytesToHex k) t t' → contents (delete k m) t'.
Proof.
  intros H Hk [Hf Hc _ _]. split.
  - by apply Hc, keybytesToHex_key.
  - intros k' Hk'. rewrite Hf. unfold updated. destruct (decide (keybytesToHex k' = keybytesToHex k)) as [E|Hn].
    + apply keybytesToHex_inj in E as ->; [by rewrite lookup_delete_eq|done..].
    + rewrite lookup_delete_ne by (by intros ->). by apply (co_find _ _ H).
  - intros p w. rewrite Hf. unfold updated. destruct (decide _) as [->|Hn]; [done|]. apply (co_keys _ _ H).
  - intros k' w. rewrite lookup_delete_Some. intros [_ Hw]. by apply (co_entry _ _ H).
Qed.

Section map.
Variable Keccak256Hash : bytes → Hash.

(** [lossy] allows the database to have lost nodes. *)
Definition represents (lossy : bool) (tr : Trie) (m : gmap bytes bytes) : Prop :=
  ∃ t, contents m t ∧ stands Keccak256Hash (tr_db tr) lossy true (root tr) t.

Lemma represents_new lossy db u : represents lossy {| tr_db := db; root := nilNode; unhashed := u |} ∅.
Proof. exists TNil. split; [apply contents_empty|constructor]. Qed.

(** ** The operations *)

Inductive op := OGet (k : bytes) | OUpdate (k v : bytes) | ODelete (k : bytes) | OHash.
Inductive answer := AValue (v : option bytes) | ADone | ARoot (h : Hash).

Definition op_ok (o : op) : Prop :=
  match o with OGet k | ODelete k => key_ok k | OUpdate k v => key_ok k ∧ val_ok v | OHash => True end.

Definition run_op (o : op) : TrM answer :=
  match o with
  | OGet k => let! v := TryGet k in ret (AValue v)
  | OUpdate k v => do! TryUpdate k v in ret ADone
  | ODelete k => do! TryDelete k in ret ADone
  | OHash => let! h := Trie_hash Keccak256Hash in ret (ARoot h)
  end.
Fixpoint run_ops (os : list op) : TrM (list answer) :=
  match os with
  | [] => ret []
  | o :: os => let! a := run_op o in let! l := run_ops os in ret (a :: l)
  end.

(** What the operations do to a map; storing an empty value deletes the key. *)
Definition map_op (o : op) (m : gmap bytes bytes) : gmap bytes bytes :=
  match o with
  | OGet _ | OHash => m
  | OUpdate k v => if decide (v = []) then delete k m else <[k := v]> m
  | ODelete k => delete k m
  end.
Definition map_ops (os : list op) (m : gmap bytes bytes) : gmap bytes bytes := fold_left (λ m o, map_op o m) os m.

(** The root of a map: the hash of the encoding of its tree. *)
Definition root_of (t : tree) : Hash := match t with TNil => emptyRoot | _ => BytesToHash (tree_hash Keccak256Hash t) end.
Lemma root_of_canon t : canon t → root_of t = BytesToHash (tree_hash Keccak256Hash t).
Proof. destruct 1; reflexivity. Qed.
Definition is_root (m : gmap bytes bytes) (h : Hash) : Prop := ∃ t, contents m t ∧ h = root_of t.
Definition answer_ok (o : op) (m : gmap bytes bytes) (a : answer) : Prop :=
  match o, a with
  | OGet k, AValue v => v = m !! k
  | OUpdate _ _, ADone | ODelete _, ADone => True
  | OHash, ARoot h => is_root m h
  | _, _ => False
  end.
Fixpoint answers_ok (os : list op) (m : gmap bytes bytes) (l : list answer) : Prop :=
  match os, l with
  | [], [] => True
  | o :: os, a :: l => answer_ok o m a ∧ answers_ok os (map_op o m) l
  | _, _ => False
  end.

(** An operation that fails says which node the database does not have. *)
Definition lost (lossy : bool) (tr : Trie) (e : trie_error) : Prop := missing (tr_db tr) lossy e.

Lemma key_steps n k : (steps n (keybytesToHex k) < key_fuel (keybytesToHex k))%nat.
Proof. unfold steps, key_fuel. destruct (is_hash n); lia. Qed.

Lemma TryGet_ok lossy tr m k : represents lossy tr m → key_ok k →
  wp (TryGet k) (λ v tr', v = m !! k ∧ tr_db tr' = tr_db tr ∧ represents lossy tr' m)
    (λ e tr', tr' = tr ∧ lost lossy tr e) (λ _, False) tr.
Proof.
  intros (t & Hc & Hst) [Hk _]. unfold TryGet. apply wp_bind, wp_gets, wp_bind.
  eapply wp_mono; [apply (tryGet_ok Keccak256Hash (tr_db tr) lossy _ true (root tr) t (keybytesToHex k) 0 Hst);
    [by eapply contents_place|apply key_steps|done]| |done|done].
  intros [[v n] did] s' (-> & Hv & Hn & _). cbn [fst snd] in *. rewrite drop_0 in Hv. rewrite (co_find _ _ Hc) in Hv by done. subst v.
  destruct did; [|by apply wp_ret; split; [|split; [|by exists t]]].
  apply wp_bind, wp_modify, wp_ret. split; [done|]. split; [done|]. by exists t.
Qed.

Lemma stands_frame lossy tr t n u : stands Keccak256Hash (tr_db tr) lossy true n t →
  stands Keccak256Hash (tr_db (set_root n (set_unhashed u tr))) lossy true n t.
Proof. done. Qed.

Lemma delete_map lossy tr m k : represents lossy tr m → key_ok k →
  wp (let! (_, n) := trie_delete (key_fuel (keybytesToHex k)) (root tr) [] (keybytesToHex k) in modify (set_root n))
    (λ _ tr', tr_db tr' = tr_db tr ∧ represents lossy tr' (delete k m))
    (λ e tr', tr' = tr ∧ lost lossy tr e) (λ _, False) tr.
Proof.
  intros (t & Hc & Hst) [Hk _]. apply wp_bind.
  eapply wp_mono; [apply (delete_ok Keccak256Hash (tr_db tr) lossy _ true (root tr) t [] (keybytesToHex k) Hst);
    [by eapply contents_place|apply key_steps|done]| |done|done].
  intros [d n] s' (-> & _ & t' & Hd & Hn & _). apply wp_modify. split; [done|]. exists t'. split; [by eapply contents_delete|done].
Qed.

Lemma insert_map lossy tr m k v : represents lossy tr m → key_ok k → val_ok v → v ≠ [] →
  wp (let! (_, n) := trie_insert (key_fuel (keybytesToHex k)) (root tr) [] (keybytesToHex k) (valueNode v) in modify (set_root n))
    (λ _ tr', tr_db tr' = tr_db tr ∧ represents lossy tr' (<[k := v]> m))
    (λ e tr', tr' = tr ∧ lost lossy tr e) (λ _, False) tr.
Proof.
  intros (t & Hc & Hst) Hk Hv Hne. apply wp_bind.
  eapply wp_mono; [apply (insert_ok Keccak256Hash (tr_db tr) lossy _ true (root tr) t [] (keybytesToHex k) v Hst);
    [eapply contents_place; [done|apply Hk]|done|apply key_steps|done]| |done|done].
  intros [d n] s' (-> & t' & Hd & Hn & _). apply wp_modify. split; [done|]. exists t'. split; [by eapply contents_insert|done].
Qed.

Definition same_trie (tr tr' : Trie) : Prop := tr_db tr' = tr_db tr ∧ root tr' = root tr.
Lemma represents_count lossy tr m u : represents lossy tr m → represents lossy (set_unhashed u tr) m.
Proof. done. Qed.

Lemma TryDelete_ok lossy tr m k : represents lossy tr m → key_ok k →
  wp (TryDelete k) (λ _ tr', tr_db tr' = tr_db tr ∧ represents lossy tr' (delete k m))
    (λ e tr', same_trie tr tr' ∧ lost lossy tr e) (λ _, False) tr.
Proof.
  intros Hr Hk. unfold TryDelete, count_update. apply wp_bind, wp_modify, wp_bind, wp_gets.
  eapply wp_mono; [apply (delete_map lossy); [by apply represents_count|done]|done| |done]. by intros e tr' [-> H].
Qed.
Lemma TryUpdate_ok lossy tr m k v : represents lossy tr m → key_ok k → val_ok v →
  wp (TryUpdate k v) (λ _ tr', tr_db tr' = tr_db tr ∧ represents lossy tr' (map_op (OUpdate k v) m))
    (λ e tr', same_trie tr tr' ∧ lost lossy tr e) (λ _, False) tr.
Proof.
  intros Hr Hk Hv. unfold TryUpdate, count_update. apply wp_bind, wp_modify, wp_bind, wp_gets. cbn [map_op].
  destruct (decide (v = [])) as [->|Hne].
  - eapply wp_mono; [apply (delete_map lossy); [by apply represents_count|done]|done| |done]. by intros e tr' [-> H].
  - assert (negb (zlen v =? 0) = true) as -> by (destruct v; [done|rewrite zlen_cons; pose proof (zlen_nonneg v); by rewrite (proj2 (Z.eqb_neq _ _)) by lia]).
    eapply wp_mono; [apply (insert_map lossy); [by apply represents_count|done..]|done| |done]. by intros e tr' [-> H].
Qed.

Lemma Trie_hash_ok lossy tr m : represents lossy tr m →
  wp (Trie_hash Keccak256Hash) (λ h tr', is_root m h ∧ tr_db tr' = tr_db tr ∧ represents lossy tr' m ∧
      ∀ t, contents m t → settled Keccak256Hash true (root tr') t) (λ _ _, False) (λ _, False) tr.
Proof.
  intros (t & Hc & Hst). unfold Trie_hash. apply wp_bind, wp_gets.
  destruct (co_canon _ _ Hc) as [->|Hcan].
  { apply stands_tnil in Hst as Hn. rewrite Hn. apply wp_ret. split; [by exists TNil|]. split; [done|]. split; [by exists TNil|]. intros t _. rewrite Hn. constructor. }
  destruct (node_hash_ok Keccak256Hash (tr_db tr) lossy true (root tr) t Hst Hcan (contents_fine m t Hc)) as ([hd ca] & Hh & [H1 H2 H3 H4 H5 H6]).
  cbn [fst snd] in *. specialize (H6 eq_refl). subst hd.
  destruct (root tr) eqn:En; [apply stands_nil in Hst as ->; inversion Hcan|..]; rewrite Hh;
    apply wp_bind, wp_ret, wp_bind, wp_modify, wp_bind, wp_modify, wp_ret;
    (split; [exists t; split; [done|by rewrite root_of_canon]|]; split; [done|]; split; [by exists t|]; intros t' Hc'; by rewrite (contents_tree m t' t)).
Qed.

Lemma run_op_ok lossy o tr m : represents lossy tr m → op_ok o →
  wp (run_op o) (λ a tr', answer_ok o m a ∧ tr_db tr' = tr_db tr ∧ represents lossy tr' (map_op o m))
    (λ e tr', same_trie tr tr' ∧ lost lossy tr e) (λ _, False) tr.
Proof.
  intros Hr Ho. destruct o as [k|k v|k|]; cbn [run_op]; apply wp_bind.
  - eapply wp_mono; [by apply (TryGet_ok lossy)| | |done]; [by intros v tr' (-> & Hd & H); apply wp_ret|by intros e tr' [-> H]].
  - destruct Ho as [Hk Hv]. eapply wp_mono; [by apply (TryUpdate_ok lossy)| |done|done]. intros [] tr' H; by apply wp_ret.
  - eapply wp_mono; [by apply (TryDelete_ok lossy)| |done|done]. intros [] tr' H; by apply wp_ret.
  - eapply wp_mono; [by apply (Trie_hash_ok lossy)| |done|done]. intros h tr' (Hh & Hd & H & _). by apply wp_ret.
Qed.

Lemma run_ops_ok lossy os : ∀ tr m, represents lossy tr m → Forall op_ok os →
  wp (run_ops os) (λ l tr', answers_ok os m l ∧ tr_db tr' = tr_db tr ∧ represents lossy tr' (map_ops os m))
    (λ e tr', lost lossy tr e ∧ ∃ before o after, os = before ++ o :: after ∧ represents lossy tr' (map_ops before m)) (λ _, False) tr.
Proof.
  induction os as [|o os IH]; intros tr m Hr Hok; cbn [run_ops]; [by apply wp_ret|]. inversion_clear Hok as [|?? Ho Hos].
  apply wp_bind. eapply wp_mono; [by apply run_op_ok| | |done].
  - intros a tr1 (Ha & Hd & Hr1). apply wp_bind. eapply wp_mono; [by apply IH| | |done].
    + intros l tr2 (Hl & Hd2 & Hr2). apply wp_ret. split; [done|]. split; [congruence|done].
    + intros e tr2 (He & before & o' & after & -> & Hr2). split; [unfold lost in *; by rewrite Hd in He|].
      by exists (o :: before), o', after.
  - intros e tr1 ([Hd Hroot] & He). split; [done|]. exists [], o, os. split; [done|].
    destruct Hr as (t & Hc & Hst). exists t. split; [done|]. by rewrite Hd, Hroot.
Qed.
End map.
