(* ===== verification/TrieBind.v ===== *)
(** * The root hash says what the trie holds

    Two canonical trees with the same hash are the same, unless two of their nodes collide
    under the hash function. *)

From S2P Require Import Prelude Rlp RlpStream StateData TrieEncoding TrieNode Trie TrieSpec TrieTree TrieHash TrieRefine TrieCodec TrieMap.

(** The nodes of a tree, itself first. *)
Inductive subtree : tree → tree → Prop :=
| sub_refl t : subtree t t
| sub_short s k c : subtree s c → subtree s (TShort k c)
| sub_full s cs i c : cs !! i = Some c → subtree s c → subtree s (TFull cs).

Lemma subtree_trans a b c : subtree a b → subtree b c → subtree a c.
Proof. intros Hab Hbc. induction Hbc; [done|by apply sub_short, IHHbc|by eapply sub_full, IHHbc]. Qed.

Section bind.
Variable Keccak256Hash : bytes → Hash.
Abbreviation enc := (enc Keccak256Hash).
Abbreviation tree_hash := (tree_hash Keccak256Hash).
Abbreviation loaded_ref := (loaded_ref Keccak256Hash).
Abbreviation loaded_with := (loaded_with Keccak256Hash).
Abbreviation is_large := (large (tree_item Keccak256Hash)).

(** No node of the one tree collides with a node of the other. *)
Definition distinct (t t' : tree) : Prop :=
  ∀ s s', subtree s t → subtree s' t' → tree_hash s = tree_hash s' → enc s = enc s'.

Lemma distinct_sub t t' s s' : distinct t t' → subtree s t → subtree s' t' → distinct s s'.
Proof. intros H Hs Hs' a b Ha Hb. apply H; by eapply subtree_trans. Qed.

Lemma hashNode_inj a b : hashNode a = hashNode b → a = b.
Proof. by intros [=]. Qed.
(** What a parent reads determines what the child is read as. *)
Lemma ref_binds t t' : canon t → canon t' → fine t → fine t' → distinct t t' →
  loaded_ref t = loaded_ref t' → loaded_with None t = loaded_with None t'.
Proof.
  intros Hc Hc' Hf Hf' Hd E. pose proof (canon_internal t Hc) as Hi. pose proof (canon_internal t' Hc') as Hi'.
  destruct (is_large t) eqn:El, (is_large t') eqn:El'.
  - rewrite !loaded_ref_large in E by done. apply hashNode_inj in E. pose proof (Hd t t' (sub_refl _) (sub_refl _) E) as Ee.
    pose proof (decodeNode_ok Keccak256Hash t None Hc) as H. pose proof (decodeNode_ok Keccak256Hash t' None Hc') as H'.
    pose proof (enc_le Keccak256Hash t Hc Hf). rewrite <- Ee in H'. rewrite H in H' by lia. specialize (H' ltac:(lia)). by injection H'.
  - rewrite loaded_ref_large, loaded_ref_small in E by done. by destruct t'.
  - rewrite loaded_ref_small, loaded_ref_large in E by done. by destruct t.
  - by rewrite !loaded_ref_small in E by done.
Qed.
Lemma ref_nil t : loaded_ref t = nilNode → t = TNil.
Proof. destruct t; try done; cbn [TrieHash.loaded_ref]; by destruct (is_large _). Qed.
Lemma ref_value t v : loaded_ref t = valueNode v → t = TValue v.
Proof. destruct t; try done; cbn [TrieHash.loaded_ref]; [by destruct (is_large _)..|by intros [= ->]]. Qed.

(** A child of a canonical node. *)
Definition is_child (t : tree) : Prop := t = TNil ∨ (∃ v, t = TValue v) ∨ canon t.
Lemma short_is_child k c : canon (TShort k c) → is_child c.
Proof. inversion 1; subst; [right; left; eauto|by right; right]. Qed.
Lemma full_is_child cs i c : canon (TFull cs) → cs !! i = Some c → is_child c.
Proof.
  intros Hc Hi. destruct (canon_full_inv cs Hc) as (Hl & Hk & Hv & _). destruct (tnil_dec c) as [->|Hn]; [by left|]. right.
  pose proof (lookup_lt_Some _ _ _ Hi). destruct (decide (i = 16%nat)) as [->|]; [left|right; apply (Hk i); [lia|done..]].
  destruct (Hv c Hi Hn) as (v & _ & ->). by exists v.
Qed.

Definition binds (t : tree) : Prop := ∀ t', canon t' → fine t → fine t' → distinct t t' → loaded_with None t = loaded_with None t' → t = t'.
Lemma child_binds c c' : is_child c → is_child c' → (canon c → binds c) → fine c → fine c' → distinct c c' → loaded_ref c = loaded_ref c' → c = c'.
Proof.
  intros Hc Hc' IH Hf Hf' Hd E. destruct Hc as [->|[[v ->]|Hc]]; [symmetry; by apply ref_nil|symmetry; by apply ref_value|].
  destruct Hc' as [->|[[v ->]|Hc']]; [by apply ref_nil|by apply ref_value|]. apply IH; [done..|]. by apply ref_binds.
Qed.

Lemma canon_binds t : canon t → binds t.
Proof.
  induction 1 as [p v Hp Hv|p cs Hp Hne Hc IH|cs Hl Hk IH Hv Htwo]; intros t' Hc' Hf Hf' Hd E.
  - destruct t' as [|k' c'|cs'|v']; try done. injection E as -> E. f_equal. symmetry. by apply ref_value.
  - destruct t' as [|k' c'|cs'|v']; try done. injection E as -> E. f_equal.
    apply child_binds; [by right; right|by eapply short_is_child|done|by eapply fine_short|by eapply fine_short| |done].
    eapply distinct_sub; [done|apply sub_short, sub_refl..].
  - pose proof (canon_full cs Hl Hk Hv Htwo) as Hcan. destruct t' as [|k' c'|cs'|v']; try done. injection E as E. f_equal.
    apply list_eq_same_length with (length cs); [|done|].
    { apply (f_equal length) in E. by rewrite !length_map in E. }
    intros i c c' Hi Hci Hci'. assert (Er : loaded_ref c = loaded_ref c').
    { assert (H : map loaded_ref cs !! i = map loaded_ref cs' !! i) by (by rewrite E). rewrite !list_lookup_fmap, Hci, Hci' in H. by injection H. }
    apply child_binds; [by apply (full_is_child cs i)|by apply (full_is_child cs' i)| |by apply (fine_child cs i)|by apply (fine_child cs' i)| |done].
    + intros Hcc. destruct (decide (i = 16%nat)) as [->|].
      * destruct (Hv c Hci ltac:(by destruct Hcc)) as (v & _ & ->). inversion Hcc.
      * apply (IH i c); [lia|done|by destruct Hcc].
    + eapply distinct_sub; [done|by eapply sub_full, sub_refl..].
Qed.

Lemma tree_hash_length t : length (tree_hash t) = 32%nat.
Proof. apply length_be_encode. Qed.
Lemma BytesToHash_inj a b : length a = 32%nat → length b = 32%nat → Forall is_byte a → Forall is_byte b → BytesToHash a = BytesToHash b → a = b.
Proof.
  intros Ha Hb Hab Hbb. unfold BytesToHash, HashLength, zlen. rewrite Ha, Hb. cbn [Z.of_nat Z.ltb]. intros E.
  change (be_decode a = be_decode b) in E. rewrite <- (be_encode_decode a), <- (be_encode_decode b), Ha, Hb, E by done. done.
Qed.

Lemma tree_hash_inj s t : BytesToHash (tree_hash s) = BytesToHash (tree_hash t) → tree_hash s = tree_hash t.
Proof. intros E. by apply BytesToHash_inj; [apply tree_hash_length|apply tree_hash_length|apply hashData_bytes|apply hashData_bytes|]. Qed.

(** The root hash of a tree determines the tree; [Hempty] is the value of [emptyRoot]. *)
Lemma root_binds (Hempty : Keccak256Hash [0x80] = emptyRoot) t t' : (t = TNil ∨ canon t) → (t' = TNil ∨ canon t') → fine t → fine t' → distinct t t' →
  root_of Keccak256Hash t = root_of Keccak256Hash t' → t = t'.
Proof.
  intros Hc Hc' Hf Hf' Hd E.
  assert (Hroot : ∀ u, u = TNil ∨ canon u → root_of Keccak256Hash u = BytesToHash (tree_hash u)).
  { intros u [->|Hu]; [|by apply root_of_canon]. unfold TrieHash.tree_hash, hashData, TrieHash.enc. change (rlp (tree_item Keccak256Hash TNil)) with [0x80].
    rewrite Hempty. vm_compute. reflexivity. }
  rewrite !Hroot in E by done. apply tree_hash_inj in E.
  pose proof (Hd t t' (sub_refl _) (sub_refl _) E) as Ee.
  assert (Hnil : ∀ u, canon u → fine u → enc u ≠ enc TNil).
  { intros u Hu Hfu Eu. pose proof (decodeNode_ok Keccak256Hash u None Hu) as H. pose proof (enc_le Keccak256Hash u Hu Hfu).
    change (enc TNil) with [0x80] in Eu. rewrite Eu in H. specialize (H ltac:(unfold zlen; simpl; lia)).
    assert (Hd80 : ∃ e, decodeNode None [0x80] = Some (inr e)) by (eexists; vm_compute; reflexivity). destruct Hd80 as [e He]. by rewrite He in H. }
  destruct Hc as [->|Hc], Hc' as [->|Hc']; [done|by destruct (Hnil t')|by destruct (Hnil t)|].
  apply (canon_binds t Hc); [done..|].
  pose proof (decodeNode_ok Keccak256Hash t None Hc) as H. pose proof (decodeNode_ok Keccak256Hash t' None Hc') as H'.
  pose proof (enc_le Keccak256Hash t Hc Hf). rewrite <- Ee in H'. rewrite H in H' by lia. specialize (H' ltac:(lia)). by injection H'.
Qed.
End bind.
