(* ===== verification/TrieCommit.v ===== *)
(** * Committing a trie

    [Commit] moves the nodes of a trie to the database; what is there afterwards is enough
    to open the trie again. *)

From S2P Require Import Prelude Rlp RlpStream StateData TrieEncoding TrieNode Trie TrieSpec TrieTree TrieHash TrieRefine TrieCodec TrieMap TrieBind.

Section commit.
Variable Keccak256Hash : bytes → Hash.
(** The nodes that are ever stored, no two of which have the same hash. *)
Variable U : tree → Prop.
Variable lossy : bool.

Abbreviation enc := (enc Keccak256Hash).
Abbreviation tree_hash := (tree_hash Keccak256Hash).
Abbreviation loaded := (loaded Keccak256Hash).
Abbreviation loaded_ref := (loaded_ref Keccak256Hash).
Abbreviation loaded_with := (loaded_with Keccak256Hash).
Abbreviation is_large := (large (tree_item Keccak256Hash)).
Abbreviation settled := (settled Keccak256Hash).
Abbreviation stands db := (stands Keccak256Hash db lossy).
Abbreviation backed db := (backed Keccak256Hash db lossy).
Abbreviation entry db := (entry Keccak256Hash db lossy).
Abbreviation flags_ok db := (flags_ok Keccak256Hash db lossy).
Abbreviation node_key t := (BytesToHash (tree_hash t)).

Record universe : Prop := {
  un_closed s t : subtree s t → U t → U s;
  un_apart s t : U s → U t → canon s → canon t → tree_hash s = tree_hash t → s = t;
}.
Context (HU : universe).

Definition stored (h : Hash) (t : tree) : Prop := U t ∧ canon t ∧ fine t ∧ h = node_key t.
Record db_sound (db : Database) : Prop := {
  so_cleans h b : cleans db !! h = Some b → ∃ t, stored h t ∧ b = enc t;
  so_dirties h r : dirties_db db !! h = Some r → ∃ t, stored h t ∧ cached_obj h r = Some (loaded t);
  so_disk h b : diskdb db !! h = Some b → ∃ t, stored h t ∧ b = enc t;
}.

Lemma node_key_inj s t : U s → U t → canon s → canon t → node_key s = node_key t → s = t.
Proof.
  intros Hs Ht Hc Hc' E. apply (un_apart HU); [done..|]. by apply tree_hash_inj.
Qed.
Lemma hash_bytes_key t : hash_bytes (node_key t) = tree_hash t.
Proof.
  unfold hash_bytes, BytesToHash, HashLength, zlen. rewrite tree_hash_length. cbn [Z.of_nat Z.ltb].
  change (be_encode 32 (be_decode (tree_hash t)) = tree_hash t). rewrite <- (tree_hash_length Keccak256Hash t). by apply be_encode_decode, hashData_bytes.
Qed.
Lemma stored_key h s t : stored h s → U t → canon t → h = node_key t → s = t.
Proof. intros (Hs & Hc & _ & ->) Ht Hct E. by apply node_key_inj. Qed.

Lemma blob_loaded t : canon t → fine t → mustDecodeNode (hash_bytes (node_key t)) (enc t) = Some (loaded t).
Proof. intros. rewrite hash_bytes_key. by apply mustDecodeNode_ok. Qed.

(** A sound database gives the node, or says it does not have it. *)
Lemma db_sound_node db t : db_sound db → U t → canon t →
  db_node db (node_key t) = Some (loaded t) ∨
  (cleans db !! node_key t = None ∧ dirties_db db !! node_key t = None ∧ diskdb db !! node_key t = None ∧ db_node db (node_key t) = Some nilNode).
Proof.
  intros [H1 H2 H3] Ht Hc. unfold db_node.
  assert (Hb : ∀ b, (∃ s, stored (node_key t) s ∧ b = enc s) → mustDecodeNode (hash_bytes (node_key t)) b = Some (loaded t)).
  { intros b (s & Hs & ->). pose proof Hs as (_ & _ & Hf & _). apply stored_key with (t := t) in Hs as ->; [|done..]. by apply blob_loaded. }
  destruct (cleans db !! node_key t) as [b|] eqn:E1; [left; by apply Hb, H1|].
  destruct (dirties_db db !! node_key t) as [r|] eqn:E2.
  - left. destruct (H2 _ _ E2) as (s & Hs & E). by apply stored_key with (t := t) in Hs as ->.
  - destruct (diskdb db !! node_key t) as [b|] eqn:E3; [left; by apply Hb, H3|by right].
Qed.

(** ** A database that grows *)

Record grows (db db' : Database) : Prop := {
  gr_cleans : cleans db' = cleans db;
  gr_dirties : dirties_db db ⊆ dirties_db db';
  gr_disk : diskdb db' = diskdb db;
}.
Lemma grows_refl db : grows db db.
Proof. by split. Qed.
Lemma grows_trans a b c : grows a b → grows b c → grows a c.
Proof. intros [H1 H2 H3] [H4 H5 H6]. split; [congruence|by etrans|congruence]. Qed.

Section grow.
Context (db db' : Database) (Hg : grows db db') (Hs : db_sound db) (Hs' : db_sound db').

Lemma found_grows t : U t → canon t → db_node db (node_key t) = Some (loaded t) → db_node db' (node_key t) = Some (loaded t).
Proof.
  intros Ht Hc E. destruct (db_sound_node db' t Hs' Ht Hc) as [|(E1 & E2 & E3 & _)]; [done|].
  destruct Hg as [Hc1 Hc2 Hc3]. unfold db_node in E. rewrite Hc1 in E1. rewrite Hc3 in E3. rewrite E1, E3 in E.
  rewrite (lookup_weaken_None _ _ _ E2 Hc2) in E. injection E as E. by destruct Hc.
Qed.
Lemma entry_grows t : U t → canon t → entry db t → entry db' t.
Proof.
  intros Ht Hc [E|[Hl E]]; [left; by apply found_grows|].
  destruct (db_sound_node db' t Hs' Ht Hc) as [|(_ & _ & _ & E')]; [by left|by right].
Qed.
Lemma backed_grows top t : is_child t → U t → backed db top t → backed db' top t.
Proof.
  intros Hch Ht Hb. revert Hch Ht. induction Hb as [| |top k c He Hc IH|top cs He Hc IH]; intros Hch Ht; [constructor..| |].
  - destruct Hch as [|[[? ?]|Hcan]]; [done..|]. constructor; [intros Hl; apply entry_grows; auto|].
    apply IH; [by eapply short_is_child|]. eapply (un_closed HU); [apply sub_short, sub_refl|done].
  - destruct Hch as [|[[? ?]|Hcan]]; [done..|]. constructor; [intros Hl; apply entry_grows; auto|]. intros i c Hi.
    apply (IH i); [done|by eapply full_is_child|]. eapply (un_closed HU); [by eapply sub_full, sub_refl|done].
Qed.
Lemma flags_grows top f t : canon t → U t → flags_ok db top f t → flags_ok db' top f t.
Proof.
  intros Hc Ht [H1 H2]. split; [|done]. intros h Hh. destruct (H1 h Hh) as (-> & Hl & Hb). split; [done|]. split; [done|].
  intros Hd. apply backed_grows; [by right; right|done|auto].
Qed.
Lemma stands_grows top n t : is_child t → U t → stands db top n t → stands db' top n t.
Proof.
  intros Hch Ht Hst. revert Hch Ht. induction Hst as [| |top k c t f Hf Hse Hc IH|top cs ts f Hf Hl Hse Hc IH|top t Hi Hl Hb];
    intros Hch Ht; [constructor..| | |].
  - destruct Hch as [|[[? ?]|Hcan]]; [done..|]. constructor; [by apply flags_grows|done|].
    apply IH; [by eapply short_is_child|]. eapply (un_closed HU); [apply sub_short, sub_refl|done].
  - destruct Hch as [|[[? ?]|Hcan]]; [done..|]. constructor; [by apply flags_grows|done|done|]. intros i c t Hi Hti.
    apply (IH i c t Hi Hti); [by eapply full_is_child|]. eapply (un_closed HU); [by eapply sub_full, sub_refl|done].
  - constructor; [done|done|by apply backed_grows].
Qed.
End grow.

(** ** Storing a node *)

Definition committed (top : bool) (t : tree) (c : node) : Prop :=
  if top || is_large t then c = hashNode (tree_hash t)
  else c ≠ nilNode ∧ ∃ r, simplifyNode c = Some r ∧ r ≠ rawNil ∧ expandNode None r = Some (loaded_with None t).

Lemma db_insert_ok t n r db : db_sound db → U t → canon t → fine t → simplifyNode n = Some r → (∀ b, r ≠ rawNode b) →
  expandNode (Some (tree_hash t)) r = Some (loaded t) →
  ∃ db', db_insert (node_key t) n db = Some db' ∧ grows db db' ∧ db_sound db' ∧ db_node db' (node_key t) = Some (loaded t).
Proof.
  intros Hso Ht Hc Hf Hr Hraw He. unfold db_insert. destruct (dirties_db db !! node_key t) as [r0|] eqn:Ed.
  - exists db. split; [done|]. split; [apply grows_refl|]. split; [done|].
    destruct (db_sound_node db t Hso Ht Hc) as [|(_ & E & _)]; [done|by rewrite E in Ed].
  - rewrite Hr. eexists. split; [reflexivity|].
    assert (Hso' : db_sound {| cleans := cleans db; dirties_db := <[node_key t:=r]> (dirties_db db); diskdb := diskdb db |}).
    { split; cbn [cleans dirties_db diskdb]; [apply Hso| |apply Hso]. intros h r' Hh. apply lookup_insert_Some in Hh as [[<- <-]|[_ Hh]]; [|by apply Hso].
      exists t. split; [done|]. unfold cached_obj. rewrite hash_bytes_key. destruct r as [| | | | |b]; try done; by destruct (Hraw b). }
    split; [split; [done|by apply insert_subseteq|done]|]. split; [done|].
    destruct (db_sound_node _ t Hso' Ht Hc) as [|(_ & E & _)]; [done|]. cbn [dirties_db] in E. by rewrite lookup_insert_eq in E.
Qed.

Lemma store_ok top t n r db : db_sound db → U t → canon t → fine t → simplifyNode n = Some r → (∀ b, r ≠ rawNode b) → r ≠ rawNil → n ≠ nilNode →
  (∀ h, expandNode h r = Some (loaded_with h t)) → (node_cache n).1 = (if top || is_large t then Some (tree_hash t) else None) →
  ∃ c db', store_node n db = Some (c, db') ∧ grows db db' ∧ db_sound db' ∧ committed top t c ∧
    (top || is_large t = true → entry db' t).
Proof.
  intros Hso Ht Hc Hf Hr Hraw Hnil Hn He Hh. unfold store_node, committed. rewrite Hh. destruct (top || is_large t).
  - destruct (db_insert_ok t n r db Hso Ht Hc Hf Hr Hraw (He _)) as (db' & E & Hg & Hso' & Hnode).
    rewrite E. eexists _, db'. split; [done|]. split; [done|]. split; [done|]. split; [done|]. intros _. by left.
  - exists n, db. split; [done|]. split; [apply grows_refl|]. split; [done|]. split; [|done]. split; [done|]. by exists r.
Qed.

(** ** The children *)

Definition raw_child (c : node) : option raw := match c with nilNode => Some rawNil | _ => simplifyNode c end.
Definition raw_node (r : raw) : option node := match r with rawNil => Some nilNode | _ => expandNode None r end.
(** A child as it is stored in its parent. *)
Definition kid_raw (t : tree) (c : node) : Prop := ∃ r, raw_child c = Some r ∧ raw_node r = Some (loaded_ref t).

Lemma kid_nil : kid_raw TNil nilNode.
Proof. by exists rawNil. Qed.
Lemma kid_value v : kid_raw (TValue v) (valueNode v).
Proof. by exists (rawValue v). Qed.
Lemma kid_hash t : internal t → is_large t = true → kid_raw t (hashNode (tree_hash t)).
Proof. intros Hi Hl. exists (rawHash (tree_hash t)). split; [done|]. cbn. by rewrite loaded_ref_large. Qed.
Lemma kid_committed t c : internal t → committed false t c → kid_raw t c.
Proof.
  intros Hi. unfold committed. cbn [orb]. destruct (is_large t) eqn:El; [intros ->; by apply kid_hash|].
  intros (Hn & r & Hr & Hrn & He). exists r. rewrite loaded_ref_small by done. split; [by destruct c|by destruct r].
Qed.
Lemma raw_children cs : ∀ ts, length cs = length ts → (∀ j c t, cs !! j = Some c → ts !! j = Some t → kid_raw t c) →
  ∃ rs, mapM raw_child cs = Some rs ∧ mapM raw_node rs = Some (map loaded_ref ts).
Proof.
  induction cs as [|c cs IH]; intros [|t ts] Hl H; try done; [by exists []|].
  destruct (H 0%nat c t eq_refl eq_refl) as (r & Hr & Hn). destruct (IH ts ltac:(by injection Hl)) as (rs & Hrs & Hns).
  { intros j c' t' Hj Hj'. by apply (H (S j)). }
  exists (r :: rs). cbn [mapM map]. rewrite Hr, Hn. cbn [mbind option_bind]. by rewrite Hrs, Hns.
Qed.
Lemma simplify_full cs f : simplifyNode (fullNode cs f) = rawFullNode <$> mapM raw_child cs.
Proof.
  cbn [simplifyNode].
  assert (E : (fix children (cs : list node) : option (list raw) := match cs with [] => Some []
    | c :: cs => n ← match c with nilNode => Some rawNil | _ => simplifyNode c end; ns ← children cs; Some (n :: ns) end) cs = mapM raw_child cs).
  { induction cs as [|c cs IH]; [done|]. cbn [mapM]. by rewrite <- IH. }
  by rewrite E.
Qed.
Lemma expand_full h rs : expandNode h (rawFullNode rs) = cs ← mapM raw_node rs; Some (fullNode cs {| fl_hash := h; fl_dirty := false |}).
Proof.
  cbn [expandNode].
  assert (E : (fix children (cs : list raw) : option (list node) := match cs with [] => Some []
    | c :: cs => n ← match c with rawNil => Some nilNode | _ => expandNode None c end; ns ← children cs; Some (n :: ns) end) rs = mapM raw_node rs).
  { induction rs as [|r rs IH]; [done|]. cbn [mapM]. by rewrite <- IH. }
  by rewrite E.
Qed.

Fixpoint commit_children (i : nat) (cs : list node) (db : Database) : option (list node * Database) :=
  match cs with
  | [] => Some ([], db)
  | c :: cs =>
      '(c', db) ← (if decide (i = 16%nat) then Some (c, db)
                   else match c with nilNode | hashNode _ => Some (c, db) | _ => commit c db end);
      '(cs', db) ← commit_children (S i) cs db;
      Some (c' :: cs', db)
  end.

(** What committing a node does. *)
Definition commits (top : bool) (n : node) (t : tree) : Prop := ∀ db, stands db top n t → settled top n t → fine t → U t → db_sound db →
  ∃ c db', commit n db = Some (c, db') ∧ grows db db' ∧ db_sound db' ∧ committed top t c ∧ backed db' top t.

(** The children of a full node, one after the other. *)
Lemma commit_children_ok cs : ∀ ts i db, length cs = length ts → db_sound db →
  (∀ j c t, cs !! j = Some c → ts !! j = Some t → stands db false c t ∧ settled false c t ∧ fine t ∧ U t ∧ is_child t ∧
     ((i + j)%nat ≠ 16%nat → ¬ ∃ v, t = TValue v) ∧ ((i + j)%nat = 16%nat → ¬ canon t) ∧ (canon t → commits false c t)) →
  ∃ l db', commit_children i cs db = Some (l, db') ∧ length l = length ts ∧ grows db db' ∧ db_sound db' ∧
    (∀ j c t, l !! j = Some c → ts !! j = Some t → kid_raw t c) ∧ (∀ j t, ts !! j = Some t → backed db' false t).
Proof.
  induction cs as [|c cs IH]; intros [|t ts] i db Hl Hso H; try done.
  { exists [], db. split_and!; [done..|apply grows_refl|done|done|done]. }
  cbn [commit_children]. destruct (H 0%nat c t eq_refl eq_refl) as (Hst & Hse & Hf & Ht & Hch & Hv & Hc16 & Hcom). rewrite Nat.add_0_r in Hv, Hc16.
  assert (∃ c' db1, (if decide (i = 16%nat) then Some (c, db) else match c with nilNode | hashNode _ => Some (c, db) | _ => commit c db end) = Some (c', db1) ∧
    grows db db1 ∧ db_sound db1 ∧ kid_raw t c' ∧ backed db1 false t) as (c' & db1 & -> & Hg & Hso1 & Hk & Hb).
  { assert (Hleaf : kid_raw t c → backed db false t → ∃ c' db1, Some (c, db) = Some (c', db1) ∧ grows db db1 ∧ db_sound db1 ∧ kid_raw t c' ∧ backed db1 false t).
    { intros Hk Hb. exists c, db. split_and!; [done|apply grows_refl|done..]. }
    destruct Hch as [->|[[v ->]|Hcan]].
    - apply stands_tnil in Hst as ->. destruct (decide _); apply Hleaf; first [apply kid_nil|constructor].
    - apply stands_tvalue in Hst as ->. destruct (decide _) as [|Hn]; [apply Hleaf; [apply kid_value|constructor]|]. destruct (Hv Hn). by exists v.
    - destruct (decide _) as [->|Hn]; [by destruct (Hc16 eq_refl)|]. destruct (Hcom Hcan db Hst Hse Hf Ht Hso) as (c' & db1 & Hc & Hg & Hso1 & Hcm & Hb).
      pose proof (canon_internal t Hcan) as Hi. exists c', db1. assert (kid_raw t c') by (by apply kid_committed).
      split; [|done]. inversion Hst; subst; done. }
  cbn [mbind option_bind]. destruct (IH ts (S i) db1) as (l & db2 & -> & Hll & Hg2 & Hso2 & Hks & Hbs); [by injection Hl|done| |].
  { intros j c0 t0 Hj Hj'. destruct (H (S j) c0 t0 Hj Hj') as (Hst0 & ? & ? & ? & ? & ?). rewrite Nat.add_succ_r in *. split; [|done].
    by apply (stands_grows db db1). }
  exists (c' :: l), db2. cbn [mbind option_bind]. split; [done|]. split; [by simpl; rewrite Hll|]. split; [by eapply grows_trans|]. split; [done|]. split.
  - intros [|j] c0 t0 Hj Hj'; [by injection Hj as <-; injection Hj' as <-|by eapply (Hks j)].
  - intros [|j] t0 Hj; [injection Hj as <-; by apply (backed_grows db1 db2)|by eapply (Hbs j)].
Qed.
Lemma commit_full cs f db : ¬ (∃ h, node_cache (fullNode cs f) = (Some h, false)) → commit (fullNode cs f) db =
  '(kids, db) ← commit_children 0 cs db; store_node (fullNode kids {| fl_hash := fl_hash f; fl_dirty := false |}) db.
Proof. intros H. cbn [commit node_cache] in *. destruct (fl_hash f), (fl_dirty f); try done. destruct H. by eexists. Qed.
Lemma commit_short k v f db : ¬ (∃ h, node_cache (shortNode k v f) = (Some h, false)) → commit (shortNode k v f) db =
  '(cv, db) ← match v with fullNode _ _ => commit v db | _ => Some (v, db) end;
  key ← hexToCompact k; store_node (shortNode key cv {| fl_hash := fl_hash f; fl_dirty := false |}) db.
Proof. intros H. cbn [commit node_cache] in *. destruct (fl_hash f), (fl_dirty f); try done. destruct H. by eexists. Qed.

Lemma clean_or f : (∃ h, fl_hash f = Some h ∧ fl_dirty f = false) ∨ ∀ n, node_cache n = (fl_hash f, fl_dirty f) → ¬ ∃ h, node_cache n = (Some h, false).
Proof. destruct f as [[h|] []]; cbn; [right|left; eauto|right|right]; intros n -> [h' [=]]. Qed.

Lemma flags_cache db top f t : flags_ok db top f t → flags_set Keccak256Hash top f t →
  fl_hash f = if top || is_large t then Some (tree_hash t) else None.
Proof.
  intros [H _] Hs. destruct (fl_hash f) as [h|] eqn:E; [destruct (H h eq_refl) as (-> & -> & _); done|]. by rewrite Hs.
Qed.

Definition commit_post (db : Database) (top : bool) (n : node) (t : tree) : Prop :=
  ∃ c db', commit n db = Some (c, db') ∧ grows db db' ∧ db_sound db' ∧ committed top t c ∧ backed db' top t.

(** A node that is in the database is left alone. *)
Lemma commit_clean db top n t : db_sound db → commit n db = Some (hashNode (tree_hash t), db) → top || is_large t = true → backed db top t →
  commit_post db top n t.
Proof.
  intros Hso Hc Hl Hb. exists (hashNode (tree_hash t)), db. split; [done|]. split; [apply grows_refl|]. split; [done|]. split; [|done].
  unfold committed. by rewrite Hl.
Qed.
Lemma commit_hash db top h t : db_sound db → stands db top (hashNode h) t → commit_post db top (hashNode h) t.
Proof. intros Hso Hst. inversion Hst; subst. by apply commit_clean. Qed.

Lemma simplify_there n r : simplifyNode n = Some r → r ≠ rawNil ∧ ∀ b, r ≠ rawNode b.
Proof.
  destruct n; cbn [simplifyNode]; intros H; try done; [| |by injection H as <-..].
  - destruct (simplifyNode n); [|done]. by injection H as <-.
  - apply fmap_Some in H as (rs & _ & ->). done.
Qed.

(** The child of a short node. *)
Lemma commit_val db k c t : canon (TShort k t) → stands db false c t → settled false c t → fine t → U t → db_sound db → (canon t → commits false c t) →
  ∃ cv db', match c with fullNode _ _ => commit c db | _ => Some (c, db) end = Some (cv, db') ∧ grows db db' ∧ db_sound db' ∧
    (∃ r, simplifyNode cv = Some r ∧ expandNode None r = Some (loaded_ref t)) ∧ backed db' false t.
Proof.
  intros Hcan Hst Hse Hf Ht Hso Hcom.
  assert (Hkid : ∀ cv, cv ≠ nilNode → kid_raw t cv → ∃ r, simplifyNode cv = Some r ∧ expandNode None r = Some (loaded_ref t)).
  { intros cv Hn (r & Hr & Hx). unfold raw_child in Hr. exists r. assert (Hs : simplifyNode cv = Some r) by (by destruct cv).
    split; [done|]. destruct (simplify_there cv r Hs) as [Hrn _]. by destruct r. }
  inversion Hcan as [p v Hp Hv|p cs Hp Hne Hc|]; subst.
  - apply stands_tvalue in Hst as ->. eexists _, db. split; [done|]. split; [apply grows_refl|]. split; [done|].
    split; [apply Hkid; [done|apply kid_value]|constructor].
  - inversion Hst as [| | |? ns ? f|? ? Hi Hl Hb]; subst.
    + destruct (Hcom Hc db Hst Hse Hf Ht Hso) as (cv & db' & E & Hg & Hso' & Hcm & Hb). exists cv, db'. rewrite E. split_and!; try done.
      apply Hkid; [|by apply kid_committed]. unfold committed in Hcm. destruct (_ || _); [by rewrite Hcm|apply Hcm].
    + eexists _, db. split; [done|]. split; [apply grows_refl|]. split; [done|]. split; [apply Hkid; [done|by apply kid_hash]|done].
Qed.

Lemma commit_short_ok db top k c f t : canon (TShort k t) → stands db top (shortNode k c f) (TShort k t) →
  settled top (shortNode k c f) (TShort k t) → fine (TShort k t) → U (TShort k t) → db_sound db → (canon t → commits false c t) →
  commit_post db top (shortNode k c f) (TShort k t).
Proof.
  intros Hcan Hst Hse Hf Ht Hso Hcom. inversion Hst as [| |? ? ? ? ? Hfl _ Hsc| |]; subst. inversion Hse as [| | |? ? ? ? ? Hfs Hsec|]; subst.
  destruct (clean_or f) as [(h & Eh & Ed)|Hdirty].
  { destruct (proj1 Hfl h Eh) as (-> & Hl & Hb). apply commit_clean; [done| |done|auto]. cbn [commit node_cache]. by rewrite Eh, Ed. }
  assert (Htc : U t) by (eapply (un_closed HU); [apply sub_short, sub_refl|done]).
  destruct (commit_val db k c t Hcan Hsc Hsec (fine_short _ _ Hf) Htc Hso Hcom) as (cv & db1 & Hcv & Hg1 & Hso1 & (r & Hr & Hx) & Hb).
  destruct (canon_key k t Hcan) as (b & p & Hp & Hk & Hcomp & Hcb & _).
  destruct (store_ok top (TShort k t) (shortNode (compact_of k) cv {| fl_hash := fl_hash f; fl_dirty := false |}) (rawShortNode (compact_of k) r) db1)
    as (c' & db2 & Hs & Hg2 & Hso2 & Hcm & He); try done.
  - cbn [simplifyNode]. by rewrite Hr.
  - intros h. cbn [expandNode]. rewrite Hcb, compactToHex_compact, <- Hk by done. cbn [mbind option_bind]. by rewrite Hx.
  - exact (flags_cache db top f _ Hfl Hfs).
  - exists c', db2. rewrite commit_short by (by apply Hdirty). rewrite Hcv. cbn [mbind option_bind]. rewrite Hcomp. cbn [mbind option_bind].
    split; [done|]. split; [by eapply grows_trans|]. split; [done|]. split; [done|]. constructor; [done|].
    apply (backed_grows db1 db2); [done..|by eapply short_is_child|done|done].
Qed.

Lemma commit_full_ok db top cs f ts : canon (TFull ts) → stands db top (fullNode cs f) (TFull ts) →
  settled top (fullNode cs f) (TFull ts) → fine (TFull ts) → U (TFull ts) → db_sound db →
  (∀ i c t, cs !! i = Some c → ts !! i = Some t → canon t → commits false c t) →
  commit_post db top (fullNode cs f) (TFull ts).
Proof.
  intros Hcan Hst Hse Hf Ht Hso Hcom. inversion Hst as [| | |? ? ? ? Hfl Hl _ Hsc|]; subst. inversion Hse as [| | | |? ? ? ? Hfs Hsec]; subst.
  destruct (clean_or f) as [(h & Eh & Ed)|Hdirty].
  { destruct (proj1 Hfl h Eh) as (-> & Hlg & Hb). apply commit_clean; [done| |done|auto]. cbn [commit node_cache]. by rewrite Eh, Ed. }
  destruct (canon_full_inv ts Hcan) as (Hlt & Hk & Hv & _).
  assert (HUc : ∀ i t, ts !! i = Some t → U t) by (intros i t Hi; eapply (un_closed HU); [by eapply sub_full, sub_refl|done]).
  destruct (commit_children_ok cs ts 0 db Hl Hso) as (l & db1 & Hch & Hll & Hg1 & Hso1 & Hkids & Hb).
  { intros j c t Hj Hj'. split_and!; [by eapply Hsc|by eapply Hsec|by eapply fine_child|by eapply HUc|by eapply full_is_child| | |by eapply Hcom].
    - intros Hn [v ->]. pose proof (lookup_lt_Some _ _ _ Hj'). assert (Hcv : canon (TValue v)) by (apply (Hk j); [lia|done|done]). inversion Hcv.
    - intros E Hct. simpl in E. subst j. destruct (Hv t Hj' ltac:(by destruct Hct)) as (v & _ & ->). inversion Hct. }
  destruct (raw_children l ts Hll Hkids) as (rs & Hrs & Hns).
  destruct (store_ok top (TFull ts) (fullNode l {| fl_hash := fl_hash f; fl_dirty := false |}) (rawFullNode rs) db1)
    as (c' & db2 & Hs & Hg2 & Hso2 & Hcm & He); try done.
  - by rewrite simplify_full, Hrs.
  - intros h. by rewrite expand_full, Hns.
  - exact (flags_cache db top f _ Hfl Hfs).
  - exists c', db2. rewrite commit_full by (by apply Hdirty). rewrite Hch. cbn [mbind option_bind].
    split; [done|]. split; [by eapply grows_trans|]. split; [done|]. split; [done|]. constructor; [done|].
    intros i t Hi. apply (backed_grows db1 db2); [done..|by eapply full_is_child|by eapply HUc|by eapply Hb].
Qed.

Lemma commit_ok top n t : canon t → commits top n t.
Proof.
  intros Hcan. revert top n. induction Hcan as [p v Hp Hv|p cs Hp Hne Hc IH|cs Hl Hk IH Hv Htwo]; intros top n db Hst Hse Hf Ht Hso;
    (inversion Hst; subst; [|by apply commit_hash]).
  - apply commit_short_ok; [by constructor|done..|]. intros Hcv. inversion Hcv.
  - apply commit_short_ok; [by constructor|done..|]. intros _. apply IH.
  - apply commit_full_ok; [by constructor|done..|]. intros i c t Hi Hti Hct.
    destruct (decide (i = 16%nat)) as [->|].
    + destruct (Hv t Hti ltac:(by destruct Hct)) as (v & _ & ->). inversion Hct.
    + apply lookup_lt_Some in Hti as Hlt. apply (IH i t); [lia|done|by destruct Hct].
Qed.
End commit.

(** ** Opening and committing a trie *)

Section opening.
Variable Keccak256Hash : bytes → Hash.
Abbreviation represents := (represents Keccak256Hash).
Abbreviation is_root := (is_root Keccak256Hash).
Abbreviation Trie_hash := (Trie_hash Keccak256Hash).
Abbreviation Trie_Commit := (Trie_Commit Keccak256Hash).

Lemma Trie_New_ok lossy t h db : canon t → h = BytesToHash (tree_hash Keccak256Hash t) → h ≠ 0 → h ≠ emptyRoot → backed Keccak256Hash db lossy true t →
  match Trie_New h db with
  | Ret _ tr => tr_db tr = db ∧ stands Keccak256Hash db lossy true (root tr) t
  | Fail e _ => missing db lossy e
  | _ => False
  end.
Proof.
  intros Hc -> H0 He Hb. unfold Trie_New. rewrite (proj2 (Z.eqb_neq _ _) H0), (proj2 (Z.eqb_neq _ _) He). cbn [negb andb].
  set (s := {| tr_db := db; root := nilNode; unhashed := 0 |}). rewrite hash_bytes_key.
  assert (Hst : stands Keccak256Hash db lossy true (hashNode (tree_hash Keccak256Hash t)) t) by (constructor; [by apply canon_internal|done|done]).
  pose proof (resolveHash_ok Keccak256Hash db lossy true t (tree_hash Keccak256Hash t) [] Hst s eq_refl) as Hw. unfold wp in Hw. unfold bind.
  destruct (resolveHash (tree_hash Keccak256Hash t) [] s) as [n s'|e s'|p|]; [|by destruct Hw|done..]. by destruct Hw as (-> & Hn & _).
Qed.

(** A clean root is in the database. *)
Lemma clean_backed db lossy n t : stands Keccak256Hash db lossy true n t → internal t → (node_cache n).2 = false → backed Keccak256Hash db lossy true t.
Proof.
  assert (Hflag : ∀ f, flags_ok Keccak256Hash db lossy true f t → fl_dirty f = false → backed Keccak256Hash db lossy true t).
  { intros f [H H'] Hd. destruct (fl_hash f) as [h|] eqn:E; [by apply (H h eq_refl)|by specialize (H' eq_refl Hd)]. }
  intros Hst Hi Hn. inversion Hst; subst; try done; by eapply Hflag.
Qed.

(** The rest of [Commit], when there is a root. *)
Definition commit_root (rootHash : Hash) : TrM Hash :=
  let! r := gets root in
  if negb (node_cache r).2 then ret rootHash
  else
    let! db := gets tr_db in
    let! (newRoot, db) := or_panic PExplicit (commit r db) in
    do! modify (set_tr_db db) in
    match newRoot with
    | hashNode _ => do! modify (set_root newRoot) in ret rootHash
    | _ => throw PExplicit
    end.

Lemma Trie_Commit_ok lossy U tr m : universe Keccak256Hash U → (∀ t, contents m t → U t) → db_sound Keccak256Hash U (tr_db tr) →
  represents lossy tr m →
  wp Trie_Commit (λ h tr', is_root m h ∧ grows (tr_db tr) (tr_db tr') ∧ db_sound Keccak256Hash U (tr_db tr') ∧ represents lossy tr' m ∧
    ∀ t, contents m t → backed Keccak256Hash (tr_db tr') lossy true t) (λ _ _, False) (λ _, False) tr.
Proof.
  intros HU HUm Hso Hr. pose proof Hr as (t & Hc & Hst). unfold Trie_Commit. apply wp_bind, wp_gets.
  destruct (co_canon _ _ Hc) as [->|Hcan].
  { apply stands_tnil in Hst as Hn. rewrite Hn. apply wp_ret. split; [by exists TNil|]. split; [apply grows_refl|]. split; [done|]. split; [by exists TNil|].
    intros t Ht. rewrite (contents_tree m t TNil) by done. constructor. }
  assert (Hnn : root tr ≠ nilNode) by (intros E; rewrite E in Hst; apply stands_nil in Hst as ->; inversion Hcan).
  assert (Hgo : wp (let! rootHash := Trie_hash in commit_root rootHash) (λ h tr', is_root m h ∧ grows (tr_db tr) (tr_db tr') ∧
    db_sound Keccak256Hash U (tr_db tr') ∧ represents lossy tr' m ∧ ∀ t, contents m t → backed Keccak256Hash (tr_db tr') lossy true t)
    (λ (_ : trie_error) _, False) (λ _, False) tr); [|destruct (root tr); [done|exact Hgo..]].
  apply wp_bind. eapply wp_mono; [by apply (Trie_hash_ok Keccak256Hash lossy tr m)| |done|done].
  intros h tr1 (Hh & Hd1 & (t1 & Hc1 & Hst1) & Hset). rewrite (contents_tree m t1 t) in Hst1 by done. clear t1 Hc1. specialize (Hset t Hc).
  apply wp_bind, wp_gets. destruct (node_cache (root tr1)).2 eqn:Edirty; cbn [negb].
  - apply wp_bind, wp_gets. pose proof (contents_fine m t Hc) as Hf. rewrite Hd1 in Hst1.
    destruct (commit_ok Keccak256Hash U lossy HU true (root tr1) t Hcan (tr_db tr) Hst1 Hset Hf (HUm t Hc) Hso) as (c & db' & Hcm & Hg & Hso' & -> & Hb).
    rewrite Hd1, Hcm. apply wp_bind, wp_ret, wp_bind, wp_modify, wp_bind, wp_modify, wp_ret. split; [done|]. split; [done|]. split; [done|]. split.
    + exists t. split; [done|]. constructor; [by apply canon_internal|done|done].
    + intros t' Hc'. by rewrite (contents_tree m t' t).
  - apply wp_ret. split; [done|]. rewrite Hd1. split; [apply grows_refl|]. split; [done|]. split; [exists t; rewrite Hd1 in *; done|].
    intros t' Hc'. rewrite (contents_tree m t' t) by done. rewrite Hd1 in Hst1. apply (clean_backed (tr_db tr) lossy (root tr1)); [done|by apply canon_internal|done].
Qed.
End opening.
