(* ===== verification/TrieProof.v ===== *)
(** * Merkle proofs ([trie/proof.go])

    [Prove] collects the nodes on the path of a key, [VerifyProof] follows them from the
    root hash.  Only the proofs of one key are modelled, not those of a range. *)

From S2P Require Import Prelude Rlp RlpStream StateData TrieEncoding TrieNode Trie TrieSpec TrieTree TrieHash TrieRefine TrieCodec TrieMap TrieBind TrieCommit.

(** A set of proof nodes by their hash. *)
Abbreviation proof_db := (gmap bytes bytes) (only parsing).

Section proof.
Variable Keccak256Hash : bytes → Hash.

(** ** Making a proof *)

(** [hasher.proofHash]: the collapsed node and what its parent refers to it by. *)
Definition proofHash (original : node) : option (node * node) :=
  match original with
  | shortNode k v f =>
      key ← hexToCompact k;
      '(cv, _) ← match v with
                 | fullNode _ _ | shortNode _ _ _ => hasher_hash Keccak256Hash v false
                 | _ => Some (v, v)
                 end;
      let sn := shortNode key cv f in
      hashed ← nodeToHash Keccak256Hash sn false;
      Some (sn, hashed)
  | fullNode cs f =>
      l ← hash_children Keccak256Hash 0 cs;
      let fn := fullNode (l.*1) f in
      hashed ← nodeToHash Keccak256Hash fn false;
      Some (fn, hashed)
  | n => Some (n, n)
  end.

(** The nodes on the path to the key. *)
Fixpoint prove_path (fuel : nat) (tn : node) (key : bytes) : TrM (list node) :=
  match fuel with
  | O => λ _, NoFuel
  | S fuel =>
      match key with
      | [] => ret []
      | x :: key1 =>
          match tn with
          | nilNode => ret []
          | shortNode k v f =>
              if (length key <? length k)%nat || negb (bool_decide (take (length k) key = k)) then ret [tn]
              else let! ns := prove_path fuel v (drop (length k) key) in ret (tn :: ns)
          | fullNode cs f =>
              let! c := or_panic PSlice (index cs x) in
              let! ns := prove_path fuel c key1 in
              ret (tn :: ns)
          | hashNode h => let! n := resolveHash h [] in prove_path fuel n key
          | valueNode _ => throw PExplicit
          end
      end
  end.

(** The nodes that have a hash, and the first one, go into the proof. *)
Fixpoint put_nodes (i fromLevel : nat) (nodes : list node) (proofDb : proof_db) : option proof_db :=
  match nodes with
  | [] => Some proofDb
  | n :: nodes =>
      match fromLevel with
      | S fromLevel => put_nodes (S i) fromLevel nodes proofDb
      | O =>
          '(n, hn) ← proofHash n;
          match hn with
          | hashNode hash =>
              enc ← EncodeToBytes (node_value n);
              put_nodes (S i) 0 nodes (<[hash := enc]> proofDb)
          | _ =>
              if decide (i = 0%nat) then
                enc ← EncodeToBytes (node_value n);
                put_nodes (S i) 0 nodes (<[hashData Keccak256Hash enc := enc]> proofDb)
              else put_nodes (S i) 0 nodes proofDb
          end
      end
  end.

(** [Prove(key, fromLevel, proofDb)]. *)
Definition Prove (key : bytes) (fromLevel : nat) (proofDb : proof_db) : TrM proof_db :=
  let k := keybytesToHex key in
  let! r := gets root in
  let! nodes := prove_path (key_fuel k) r k in
  or_panic PExplicit (put_nodes 0 fromLevel nodes proofDb).
End proof.

(** ** Checking a proof *)

(** [get(tn, key, skipResolved)]: the rest of the key and the node below; [None] is a panic. *)
Fixpoint get (skipResolved : bool) (tn : node) (key : bytes) : option (bytes * node) :=
  match tn with
  | shortNode k v _ =>
      if (length key <? length k)%nat || negb (bool_decide (take (length k) key = k)) then Some ([], nilNode)
      else if skipResolved then get skipResolved v (drop (length k) key)
      else Some (drop (length k) key, v)
  | fullNode cs _ =>
      match key with
      | [] => None
      | x :: key =>
          if skipResolved then g ← index (map (get skipResolved) cs) x; g key
          else c ← index cs x; Some (key, c)
      end
  | hashNode _ | nilNode => Some (key, tn)
  | valueNode _ => Some ([], tn)
  end.

Inductive proof_error :=
| ProofNodeMissing (i : Z) (hash : bytes)
| BadProofNode (i : Z) (e : decode_error).

(** [copy(wantHash[:], cld)]. *)
Definition copy_hash (wantHash cld : bytes) : bytes :=
  take (length wantHash) cld ++ drop (length cld) wantHash.

Fixpoint VerifyProof_loop (fuel : nat) (i : Z) (wantHash key : bytes) (proofDb : proof_db) : option (option bytes + proof_error) :=
  match fuel with
  | O => None
  | S fuel =>
      match proofDb !! wantHash with
      | None => Some (inr (ProofNodeMissing i wantHash))
      | Some buf =>
          r ← decodeNode (Some wantHash) buf;
          match r with
          | inr e => Some (inr (BadProofNode i e))
          | inl n =>
              '(keyrest, cld) ← get true n key;
              match cld with
              | nilNode => Some (inl None)
              | hashNode h => VerifyProof_loop fuel (i + 1) (copy_hash wantHash h) keyrest proofDb
              | valueNode v => Some (inl (Some v))
              | _ => VerifyProof_loop fuel (i + 1) wantHash key proofDb
              end
          end
      end
  end.

(** The value, or that there is none; [None] is a panic, or a want of fuel. *)
Definition VerifyProof (rootHash : Hash) (key : bytes) (proofDb : proof_db) : option (option bytes + proof_error) :=
  VerifyProof_loop (key_fuel (keybytesToHex key)) 0 (hash_bytes rootHash) (keybytesToHex key) proofDb.
