(* ===== verification/TrieVerify.v ===== *)
(** * What a Merkle proof proves *)

From S2P Require Import Prelude Rlp RlpStream StateData TrieEncoding TrieNode Trie TrieSpec TrieTree TrieHash TrieRefine TrieCodec TrieMap TrieBind TrieCommit TrieProof.

(** Following [key] from [t] leads to [s], with [key'] left. *)
Inductive onpath : tree → bytes → tree → bytes → Prop :=
| on_here t key : onpath t key t key
| on_short k c key s key' : onpath c key s key' → onpath (TShort k c) (k ++ key) s key'
| on_full cs i c key s key' : cs !! i = Some c → onpath c key s key' → onpath (TFull cs) (Z.of_nat i :: key) s key'.

Lemma onpath_subtree t key s key' : onpath t key s key' → subtree s t.
Proof. induction 1; [constructor|by apply sub_short|by eapply sub_full]. Qed.
Lemma onpath_trans t key s key' u key'' : onpath t key s key' → onpath s key' u key'' → onpath t key u key''.
Proof. induction 1; intros H'; [done|constructor; auto|econstructor; eauto]. Qed.

Lemma fine_sub s t : subtree s t → fine t → fine s.
Proof. induction 1; intros Hf; [done|by eapply IHsubtree, fine_short|by eapply IHsubtree, fine_child]. Qed.

Section verify.
Variable Keccak256Hash : bytes → Hash.
Abbreviation enc := (enc Keccak256Hash).
Abbreviation tree_hash := (tree_hash Keccak256Hash).
Abbreviation loaded_ref := (loaded_ref Keccak256Hash).
Abbreviation loaded_with := (loaded_with Keccak256Hash).
Abbreviation is_large := (large (tree_item Keccak256Hash)).

(** Where [get] stops: at the value, where there is none, or at a hash. *)
Definition got (t : tree) (key key' : bytes) (n : node) : Prop :=
  (n = nilNode ∧ find t key = None) ∨ (∃ v, n = valueNode v ∧ find t key = Some v) ∨
  (∃ s, n = hashNode (tree_hash s) ∧ onpath t key s key' ∧ canon s ∧ is_large s = true ∧ find t key = find s key' ∧ hexkey key' ∧ (length key' <= length key)%nat).
Definition gets_below (t : tree) : Prop := ∀ key h, hexkey key → ∃ key' n, get true (loaded_with h t) key = Some (key', n) ∧ got t key key' n ∧
  (is_hash n = true → (length key' < length key)%nat).

Lemma get_child c key : is_child c → place key c → (canon c → gets_below c) → ∃ key' n, get true (loaded_ref c) key = Some (key', n) ∧ got c key key' n.
Proof.
  intros [->|[[v ->]|Hc]] Hpl IH.
  - exists key, nilNode. split; [done|]. by left.
  - assert (key = []) as -> by (destruct Hpl as [[_ [|Hv]]|[-> _]]; [done|inversion Hv|done]). exists [], (valueNode v). split; [done|]. right; left. by exists v.
  - pose proof (canon_internal c Hc) as Hi. destruct (place_canon key c Hpl Hi) as [Hk _]. destruct (is_large c) eqn:El.
    + exists key, (hashNode (tree_hash c)). rewrite loaded_ref_large by done. split; [done|]. right; right. exists c. by split_and!; [|constructor|..].
    + rewrite loaded_ref_small by done. destruct (IH Hc key None Hk) as (key' & n & Hg & Hgot & _). by exists key', n.
Qed.
Lemma got_short k c key key' n : got c key key' n → got (TShort k c) (k ++ key) key' n.
Proof.
  intros [[-> H]|[(v & -> & H)|(s & -> & H1 & H2 & H3 & H4 & H5 & H6)]]; [left|right; left|right; right]; rewrite ?find_short.
  - done.
  - by exists v.
  - exists s. split_and!; try done; [by constructor|]. rewrite length_app. lia.
Qed.
Lemma got_full cs i c key key' n : cs !! i = Some c → got c key key' n → got (TFull cs) (Z.of_nat i :: key) key' n.
Proof.
  intros Hi [[-> H]|[(v & -> & H)|(s & -> & H1 & H2 & H3 & H4 & H5 & H6)]]; [left|right; left|right; right]; rewrite ?(find_full_at _ _ _ _ Hi).
  - done.
  - by exists v.
  - exists s. split_and!; try done; [by econstructor|]. simpl. lia.
Qed.
Lemma got_le t key key' n : got t key key' n → is_hash n = true → (length key' <= length key)%nat.
Proof. by intros [[-> _]|[(v & -> & _)|(s & _ & _ & _ & _ & _ & _ & H)]]. Qed.

Lemma get_short k c : canon (TShort k c) → (canon c → gets_below c) → gets_below (TShort k c).
Proof.
  intros Hcan IH key h Hk. cbn [TrieHash.loaded_with get]. destruct (_ || negb _) eqn:Eq.
  - exists [], nilNode. split; [done|]. split; [|done]. left. split; [done|]. apply find_short_other.
    apply orb_true_iff in Eq as [Hlt|Hne]; [|by apply negb_true_iff, bool_decide_eq_false in Hne].
    apply Nat.ltb_lt in Hlt. intros E. apply (f_equal length) in E. rewrite length_take in E. lia.
  - apply orb_false_iff in Eq as [_ Heq]. apply negb_false_iff, bool_decide_eq_true in Heq.
    assert (Hd : key = k ++ drop (length k) key) by (rewrite <- Heq at 1; by rewrite take_drop).
    set (key1 := drop (length k) key) in *. rewrite Hd in Hk. destruct (place_short k c _ Hcan Hk) as [Hpl _].
    destruct (get_child c key1 (short_is_child k c Hcan) Hpl IH) as (key' & n & Hg & Hgot). exists key', n. split; [done|].
    rewrite Hd. split; [by apply got_short|]. intros Hn. pose proof (got_le _ _ _ _ Hgot Hn). rewrite length_app.
    assert (0 < length k)%nat; [|lia]. destruct k; [|simpl; lia]. inversion Hcan; [by destruct p|done].
Qed.
Lemma get_full cs : canon (TFull cs) → (∀ i c, cs !! i = Some c → canon c → gets_below c) → gets_below (TFull cs).
Proof.
  intros Hcan IH key h Hk. destruct key as [|x key]; [by apply hexkey_nil in Hk|].
  destruct (place_full cs x key Hcan Hk) as (i & c & -> & Hi & Hpl & _).
  destruct (get_child c key (full_is_child cs i c Hcan Hi) Hpl (IH i c Hi)) as (key' & n & Hg & Hgot). exists key', n.
  cbn [TrieHash.loaded_with get]. rewrite index_nat, !list_lookup_fmap, Hi. cbn [fmap option_fmap option_map mbind option_bind].
  split; [done|]. split; [by eapply got_full|]. intros Hn. pose proof (got_le _ _ _ _ Hgot Hn). simpl. lia.
Qed.
Lemma get_ok t : canon t → gets_below t.
Proof.
  induction 1 as [p v Hp Hv|p cs Hp Hne Hc IH|cs Hl Hk IH Hv Htwo].
  - apply get_short; [by constructor|]. intros H. inversion H.
  - by apply get_short; [constructor|].
  - apply get_full; [by constructor|]. intros i c Hi Hcc. destruct (decide (i = 16%nat)) as [->|].
    + destruct (Hv c Hi ltac:(by destruct Hcc)) as (v & _ & ->). inversion Hcc.
    + apply lookup_lt_Some in Hi as Hlt. apply (IH i c); [lia|done|by destruct Hcc].
Qed.

(** ** Checking *)

(** The proof nodes are kept by their hash, and none collides with a node of the tree. *)
Definition honest (t : tree) (p : gmap bytes bytes) : Prop :=
  ∀ s b, subtree s t → canon s → p !! tree_hash s = Some b → b = enc s.

Lemma verify_ok fuel : ∀ t key i p, canon t → fine t → hexkey key → honest t p → (length key < fuel)%nat →
  ∃ r, VerifyProof_loop fuel i (tree_hash t) key p = Some r ∧
    match r with
    | inl v => v = find t key
    | inr (ProofNodeMissing _ h) => p !! h = None ∧ ∃ s key', onpath t key s key' ∧ canon s ∧ h = tree_hash s ∧ (s = t ∨ is_large s = true)
    | inr (BadProofNode _ _) => False
    end.
Proof.
  induction fuel as [|fuel IH]; intros t key i p Hc Hf Hk Hp Hfuel; [lia|]. cbn [VerifyProof_loop].
  destruct (p !! tree_hash t) as [b|] eqn:Eb.
  2:{ eexists. split; [done|]. split; [done|]. exists t, key. split_and!; [constructor|done|done|by left]. }
  rewrite (Hp t b (sub_refl _) Hc Eb). rewrite decodeNode_ok by (done || (pose proof (enc_le Keccak256Hash t Hc Hf); lia)).
  cbn [mbind option_bind]. destruct (get_ok t Hc key (Some (tree_hash t)) Hk) as (key' & n & -> & Hgot & Hlt). cbn [mbind option_bind].
  destruct Hgot as [[-> Hn]|[(v & -> & Hv)|(s & -> & Hon & Hcs & Hls & Hfs & Hks & _)]]; [by eexists..|].
  specialize (Hlt eq_refl). assert (copy_hash (tree_hash t) (tree_hash s) = tree_hash s) as ->.
  { unfold copy_hash. rewrite (drop_ge (tree_hash t)), take_ge, app_nil_r by (rewrite !tree_hash_length; lia). done. }
  pose proof (onpath_subtree _ _ _ _ Hon) as Hsub.
  destruct (IH s key' (i + 1) p Hcs (fine_sub s t Hsub Hf) Hks) as (r & Hr & Hok); [|lia|].
  { intros u b' Hu. apply Hp. by eapply subtree_trans. }
  exists r. split; [done|]. destruct r as [v|[j h|j e]]; [by rewrite Hfs| |done].
  destruct Hok as (Hnone & u & key'' & Hou & Hcu & -> & Hlu). split; [done|]. exists u, key''.
  split_and!; [by eapply onpath_trans|done..|right]. by destruct Hlu as [->|].
Qed.
End verify.
