(* ===== verification/TrieProve.v ===== *)
(** * What [Prove] collects *)

From S2P Require Import Prelude Rlp RlpStream StateData TrieEncoding TrieNode Trie TrieSpec TrieTree TrieHash TrieRefine TrieCodec TrieMap TrieBind TrieCommit TrieProof TrieVerify.

Section prove.
Variable Keccak256Hash : bytes → Hash.
Variable db : Database.
Variable lossy : bool.
Abbreviation stands := (stands Keccak256Hash db lossy).
Abbreviation enc := (enc Keccak256Hash).
Abbreviation tree_hash := (tree_hash Keccak256Hash).
Abbreviation is_large := (large (tree_item Keccak256Hash)).
Abbreviation does := (does db lossy).

Lemma encoded c t : to_item (node_value c) = Some (tree_item Keccak256Hash t) → value_ok (node_value c) → EncodeToBytes (node_value c) = Some (enc t).
Proof. intros Hi Hv. by rewrite EncodeToBytes_ok, Hi. Qed.

(** The collapsed node is encoded as the tree. *)
Lemma proofHash_ok top n t : stands top n t → canon t → fine t → is_hash n = false →
  ∃ c, proofHash Keccak256Hash n = Some (c, if is_large t then hashNode (tree_hash t) else c) ∧
    EncodeToBytes (node_value c) = Some (enc t) ∧ is_hash c = false.
Proof.
  intros Hst Hcan Hf Hn. inversion Hst as [| |? k c t' f _ _ Hc|? cs ts f _ Hl _ Hc|]; subst; try done; [inversion Hcan..| |].
  - destruct (collapse_val Keccak256Hash db lossy k c t' Hcan Hc (fine_short _ _ Hf)) as ([cv hv] & Hr & _ & _ & Hit & Hv).
    { intros Hct. apply (node_hash_ok Keccak256Hash db lossy); [done..|]. by eapply fine_short. }
    destruct (short_item Keccak256Hash k t' cv f Hcan Hit Hv) as [Hit' Hv']. exists (shortNode (compact_of k) cv f).
    destruct (canon_key k t' Hcan) as (b & p & _ & _ & Hcomp & _).
    split; [|split; [by apply encoded|done]]. cbn [proofHash]. rewrite Hcomp. cbn [mbind option_bind]. rewrite Hr. cbn [mbind option_bind].
    by rewrite (nodeToHash_ok Keccak256Hash false _ (TShort k t')).
  - destruct (hash_children_ok Keccak256Hash db lossy cs ts 0 Hl) as (l & Hch & Hll & Hkids).
    { intros j t Hj. by apply (canon_child ts). }
    { intros j c t Hj Ht. split; [by eapply Hc|]. intros Hct. apply (node_hash_ok Keccak256Hash db lossy); [by eapply Hc|done|by eapply fine_child]. }
    destruct (kids_value Keccak256Hash db lossy l ts f Hll Hkids) as [Hit Hv]. exists (fullNode (l.*1) f).
    split; [|split; [by apply encoded|done]]. cbn [proofHash]. rewrite Hch. cbn [mbind option_bind].
    by rewrite (nodeToHash_ok Keccak256Hash false _ (TFull ts)).
Qed.

(** A node of the path, the first of which is the root. *)
Definition on_way (t : tree) (key : bytes) (n : node) (s : tree) : Prop :=
  (∃ top, stands top n s) ∧ is_hash n = false ∧ canon s ∧ ∃ key', onpath t key s key'.
Record way (t : tree) (key : bytes) (l : list (node * tree)) : Prop := {
  wa_on n s : (n, s) ∈ l → on_way t key n s;
  wa_all s key' : onpath t key s key' → canon s → ∃ n, (n, s) ∈ l;
  wa_head : canon t → ∃ n l', l = (n, t) :: l';
}.

Lemma way_here t key n l : (∃ top, stands top n t) → is_hash n = false → canon t →
  (∀ m s, (m, s) ∈ l → on_way t key m s) → (∀ s key', onpath t key s key' → canon s → s = t ∨ ∃ m, (m, s) ∈ l) → way t key ((n, t) :: l).
Proof.
  intros Hst Hn Hc Hon Hall. split; [| |by exists n, l].
  - intros m s [[= -> ->]|Hin]%elem_of_cons; [|by apply Hon]. split_and!; [done..|]. exists key. constructor.
  - intros s key' Ho Hcs. destruct (Hall s key' Ho Hcs) as [->|[m Hin]]; [exists n; by left|exists m; by right].
Qed.
Lemma way_short top n k c key l : stands top n (TShort k c) → is_hash n = false → canon (TShort k c) → way c key l → way (TShort k c) (k ++ key) ((n, TShort k c) :: l).
Proof.
  intros Hst Hn Hc [Hon Hall _]. apply way_here; [by exists top|done|done| |].
  - intros m s Hin. destruct (Hon m s Hin) as (? & ? & ? & key' & ?). split_and!; [done..|]. exists key'. by constructor.
  - intros s key' Ho Hcs. inversion Ho as [|k' c' key1 s' key1' Hsub E1 E2|]; subst; [by left|right].
    apply app_inv_head in E2 as ->. by eapply Hall.
Qed.
Lemma way_full top n cs i c key l : stands top n (TFull cs) → is_hash n = false → canon (TFull cs) → cs !! i = Some c → way c key l →
  way (TFull cs) (Z.of_nat i :: key) ((n, TFull cs) :: l).
Proof.
  intros Hst Hn Hc Hi [Hon Hall _]. apply way_here; [by exists top|done|done| |].
  - intros m s Hin. destruct (Hon m s Hin) as (? & ? & ? & key' & ?). split_and!; [done..|]. exists key'. by econstructor.
  - intros s key' Ho Hcs. inversion Ho as [| |cs' j c' key1 s' key1' Hj Hsub E1 E2]; subst; [by left|right].
    apply Nat2Z.inj in E2 as ->. rewrite Hi in Hj. injection Hj as <-. by eapply Hall.
Qed.
Lemma way_stop top n k c key : stands top n (TShort k c) → is_hash n = false → canon (TShort k c) → take (length k) key ≠ k →
  way (TShort k c) key [(n, TShort k c)].
Proof.
  intros Hst Hn Hc Hne. apply way_here; [by exists top|done|done|by intros m s Hin; apply not_elem_of_nil in Hin|].
  intros s key' Ho _. left. inversion Ho; subst; [done|]. by rewrite take_app_length in Hne.
Qed.
Lemma way_leaf t key : ¬ canon t → (∀ s key', onpath t key s key' → s = t) → way t key [].
Proof. intros Hc H. split; [by intros n s Hin; apply not_elem_of_nil in Hin| |done]. intros s key' Ho Hcs. by rewrite (H s key' Ho) in Hcs. Qed.

Lemma prove_path_ok fuel : ∀ top n t key, stands top n t → place key t → (steps n key < fuel)%nat →
  does (prove_path fuel n key) (λ ns, ∃ l, ns = l.*1 ∧ way t key l).
Proof.
  induction fuel as [|fuel IH]; intros top n t key Hst Hpl Hfuel; [lia|]. cbn [prove_path].
  destruct (decide (key = [])) as [->|Hkey].
  { apply does_ret. exists []. split; [done|].
    destruct Hpl as [[Hk _]|[_ [->|(v & _ & ->)]]]; [by apply hexkey_nil in Hk|..]; (apply way_leaf; [by intros H; inversion H|by inversion 1]). }
  destruct key as [|x key2]; [done|]. set (key := x :: key2) in *.
  inversion Hst as [|top' v|top' k c tc f _ _ Hc|top' cs ts f _ Hl _ Hc|top' t' Hi Hlg Hb]; subst.
  - apply does_ret. exists []. split; [done|]. apply way_leaf; [by intros H; inversion H|by inversion 1].
  - destruct Hpl as [[_ [|H]]|[? _]]; [done|inversion H|done].
  - destruct (place_canon _ _ Hpl I) as [Hk Hcan]. destruct (_ || negb _) eqn:Eq.
    + apply does_ret. exists [(shortNode k c f, TShort k tc)]. split; [done|]. eapply way_stop; [done..|].
      apply orb_true_iff in Eq as [Hlt|Hne]; [|by apply negb_true_iff, bool_decide_eq_false in Hne].
      apply Nat.ltb_lt in Hlt. intros E. apply (f_equal length) in E. rewrite length_take in E. lia.
    + apply orb_false_iff in Eq as [_ Heq]. apply negb_false_iff, bool_decide_eq_true in Heq.
      assert (Hd : key = k ++ drop (length k) key) by (rewrite <- Heq at 1; by rewrite take_drop).
      set (key1 := drop (length k) key) in *. assert (Hlen : length key = (length k + length key1)%nat) by (rewrite Hd, length_app; done).
      rewrite Hd in Hk. clearbody key1.
      destruct (place_short k tc _ Hcan Hk) as [Hpl' _].
      assert (Hk0 : k ≠ []) by (intros ->; inversion Hcan; subst; [by destruct p|done]).
      eapply does_bind; [apply (IH false c tc key1 Hc Hpl')|].
      { unfold steps in *. rewrite Hlen in Hfuel. cbn [is_hash] in Hfuel.
        assert (0 < length k)%nat by (destruct k; [done|simpl; lia]). destruct (is_hash c); lia. }
      rewrite Hd. intros ns (l & -> & Hw). apply does_ret. exists ((shortNode k c f, TShort k tc) :: l). split; [done|]. by eapply way_short.
  - destruct (place_canon _ _ Hpl I) as [Hk Hcan].
    destruct (place_full ts x key2 Hcan Hk) as (i & t & -> & Hi & Hpl' & _).
    pose proof (lookup_lt_Some _ _ _ Hi) as Hlt. rewrite <- Hl in Hlt. destruct (lookup_lt_is_Some_2 cs i Hlt) as [c Hci].
    eapply does_some; [by rewrite index_nat|].
    eapply does_bind; [apply (IH false c t key2); [by eapply Hc|done|]|].
    { unfold steps in *. unfold key in Hfuel. cbn [is_hash length] in Hfuel. destruct (is_hash c); lia. }
    intros ns (l & -> & Hw). apply does_ret. exists ((fullNode cs f, TFull ts) :: l). split; [done|]. by eapply way_full.
  - eapply does_bind; [by apply (resolveHash_ok Keccak256Hash db lossy top t)|]. intros child (Hch & Hnh & _). apply (IH top child t key Hch Hpl).
    unfold steps in *. rewrite Hnh. cbn [is_hash] in Hfuel. lia.
Qed.

(** ** The proof set *)

(** What is in the set is a node by its hash. *)
Definition proof_set (t : tree) (key : bytes) (p : gmap bytes bytes) : Prop :=
  (∀ h b, p !! h = Some b → ∃ s key', onpath t key s key' ∧ canon s ∧ h = tree_hash s ∧ b = enc s) ∧
  (∀ s key', onpath t key s key' → canon s → s = t ∨ is_large s = true → is_Some (p !! tree_hash s)).

(** The nodes that are put into the set, the first one whatever its size. *)
Lemma put_nodes_ok t key l : fine t → (∀ n s, (n, s) ∈ l → on_way t key n s) → ∀ i p,
  ∃ p', put_nodes Keccak256Hash i 0 (l.*1) p = Some p' ∧
    (∀ h b, p' !! h = Some b → p !! h = Some b ∨ ∃ n s, (n, s) ∈ l ∧ h = tree_hash s ∧ b = enc s) ∧
    (∀ h, is_Some (p !! h) → is_Some (p' !! h)) ∧
    (∀ j n s, l !! j = Some (n, s) → (i + j)%nat = 0%nat ∨ is_large s = true → is_Some (p' !! tree_hash s)).
Proof.
  intros Hf. induction l as [|[n s] l IH]; intros Hon i p.
  { exists p. split; [done|]. split; [by left|]. by split. }
  destruct (Hon n s ltac:(by left)) as ([top Hst] & Hn & Hcs & key' & Ho).
  destruct (proofHash_ok top n s Hst Hcs (fine_sub s t (onpath_subtree _ _ _ _ Ho) Hf) Hn) as (c & Hp & He & Hc).
  assert (Hstep : ∃ p1, put_nodes Keccak256Hash i 0 (((n, s) :: l).*1) p = put_nodes Keccak256Hash (S i) 0 (l.*1) p1 ∧
    ((p1 = p ∧ i ≠ 0%nat ∧ is_large s = false) ∨ p1 = <[tree_hash s := enc s]> p)).
  { cbn [fmap list_fmap fst put_nodes]. rewrite Hp. cbn [mbind option_bind]. destruct (is_large s) eqn:El.
    - rewrite He. eexists. split; [reflexivity|by right].
    - destruct (decide (i = 0%nat)) as [->|Hi].
      + exists (<[tree_hash s := enc s]> p). split; [|by right]. destruct c; try done; rewrite He; reflexivity.
      + exists p. split; [by destruct c|by left]. }
  destruct Hstep as (p1 & -> & Hp1). destruct (IH (λ m u Hin, Hon m u (list_elem_of_further _ _ _ Hin)) (S i) p1) as (p' & Hp' & Hsub & Hkeep & Hall).
  exists p'. split; [done|]. split_and!.
  - intros h b Hb. destruct (Hsub h b Hb) as [Hb1|(m & u & Hin & ?)]; [|right; exists m, u; split; [by right|done]].
    destruct Hp1 as [(-> & _)| ->]; [by left|]. apply lookup_insert_Some in Hb1 as [[<- <-]|[_ Hb1]]; [right; exists n, s; split; [by left|done]|by left].
  - intros h Hh. apply Hkeep. destruct Hp1 as [(-> & _)| ->]; [done|]. destruct (decide (h = tree_hash s)) as [->|Hne]; [rewrite lookup_insert_eq; eauto|by rewrite lookup_insert_ne].
  - intros [|j] m u Hj Hl; [injection Hj as <- <-|apply (Hall j m u Hj); destruct Hl as [|]; [lia|by right]].
    apply Hkeep. destruct Hp1 as [(_ & Hi & Hsm)| ->]; [|rewrite lookup_insert_eq; eauto]. destruct Hl as [|Hl]; [lia|by rewrite Hl in Hsm].
Qed.

Lemma Prove_ok top n t key k s : tr_db s = db → root s = n → stands top n t → k = keybytesToHex key → Forall is_byte key → canon t → fine t →
  wp (Prove Keccak256Hash key 0 ∅) (λ p s', s' = s ∧ proof_set t k p) (λ e s', s' = s ∧ missing db lossy e) (λ _, False) s.
Proof.
  intros Hdb Hroot Hst -> Hb Hc Hf. unfold Prove. apply wp_bind, wp_gets, wp_bind. rewrite Hroot.
  assert (Hpl : place (keybytesToHex key) t) by (left; split; [by apply keybytesToHex_key|by right]).
  eapply wp_mono; [apply (prove_path_ok _ top n t (keybytesToHex key) Hst Hpl); [apply key_steps|done]| |done|done].
  intros ns s' (-> & l & -> & [Hon Hall Hhead]). destruct (put_nodes_ok t (keybytesToHex key) l Hf Hon 0 ∅) as (p & -> & Hsub & _ & Hin).
  apply wp_ret. split; [done|]. split.
  - intros h b Hp. destruct (Hsub h b Hp) as [He|(m & u & Hmu & -> & ->)]; [by rewrite lookup_empty in He|].
    destruct (Hon m u Hmu) as (_ & _ & Hcu & key' & Ho). by exists u, key'.
  - intros u key' Ho Hcu [->|Hl].
    + destruct (Hhead Hc) as (m & l' & ->). apply (Hin 0%nat m t); [done|by left].
    + destruct (Hall u key' Ho Hcu) as (m & Hmu). apply list_elem_of_lookup in Hmu as [j Hj]. apply (Hin j m u Hj). by right.
Qed.
End prove.
