(* ===== verification/TrieTotal.v ===== *)
(** * Decoding untrusted bytes

    Nodes come from other peers: [decodeNode] returns a node or an error whatever it is
    given. *)

From S2P Require Import Prelude Rlp RlpStream StateData TrieEncoding TrieNode.

(** Bytes that fit in memory. *)
Definition buffer (b : bytes) : Prop := Forall is_byte b ∧ zlen b < 2 ^ 64.
Lemma buffer_app a b : buffer (a ++ b) → buffer a ∧ buffer b.
Proof.
  intros [H Hl]. apply Forall_app in H as [Ha Hb]. rewrite zlen_app in Hl. pose proof (zlen_nonneg a). pose proof (zlen_nonneg b).
  split; (split; [done|lia]).
Qed.

(** What is split off is shorter; the payload of a list has a header before it. *)
Definition part (b c rest : bytes) : Prop := ∃ h, b = h ++ c ++ rest.
Lemma parsed_head b k h c rest : parsed b k h c rest → (0 < length h + length c)%nat ∧ (k = KList → (0 < length h)%nat).
Proof.
  intros [_ Hk]. assert (Hp : ∀ s l n, 0 <= n → (0 < length (puthead s l n))%nat).
  { intros s l n Hn. pose proof (zlen_puthead s l n Hn). pose proof (headsize_pos n Hn). unfold zlen in *. lia. }
  destruct k; [destruct Hk as (-> & x & -> & _); split; [simpl; lia|done]|..]; destruct Hk as [-> _];
    pose proof (Hp (tag_small KString) (tag_large KString) (zlen c) (zlen_nonneg c)); pose proof (Hp (tag_small KList) (tag_large KList) (zlen c) (zlen_nonneg c));
    split; intros; lia.
Qed.
Lemma Split_total b : buffer b → ∃ r, Split b = Some r ∧
  ∀ k c rest, r = inl (k, c, rest) → part b c rest ∧ (k = KList → (length c < length b)%nat).
Proof.
  intros [Hb Hl]. destruct (readKind b) as [[[k ts] cs]|e] eqn:Hk; [|unfold Split; rewrite Hk; by eexists].
  destruct (readKind_inv _ _ _ _ Hb Hl Hk) as (h & c & rest & Hp & <- & <-). pose proof Hp as [-> _].
  rewrite (Split_parts k h c rest Hl Hk). eexists. split; [done|]. intros k' c' rest' [= <- <- <-]. split; [by exists h|].
  intros HL. destruct (parsed_head _ _ _ _ _ Hp) as [_ H]. specialize (H HL). rewrite !length_app. lia.
Qed.
Lemma part_buffer b c rest : buffer b → part b c rest → buffer c ∧ buffer rest ∧ (length rest <= length b)%nat.
Proof.
  intros Hb [h ->]. apply buffer_app in Hb as [_ Hb]. apply buffer_app in Hb as [Hc Hr]. split; [done|]. split; [done|]. rewrite !length_app. lia.
Qed.

Lemma SplitString_total b : buffer b → ∃ r, SplitString b = Some r ∧ ∀ c rest, r = inl (c, rest) → part b c rest.
Proof.
  intros Hb. destruct (Split_total b Hb) as ([[[k c] rest]|e] & Hs & Hr); unfold SplitString; rewrite Hs; cbn [mbind option_bind]; [|by eexists].
  destruct (decide (k = KList)); eexists; (split; [done|]); [done|]. intros c' rest' [= <- <-]. by eapply Hr.
Qed.
Lemma SplitList_total b : buffer b → ∃ r, SplitList b = Some r ∧ ∀ c rest, r = inl (c, rest) → part b c rest ∧ (length c < length b)%nat.
Proof.
  intros Hb. destruct (Split_total b Hb) as ([[[k c] rest]|e] & Hs & Hr); unfold SplitList; rewrite Hs; cbn [mbind option_bind]; [|by eexists].
  destruct (decide (k = KList)) as [Hk|]; eexists; (split; [done|]); [|done]. intros c' rest' [= <- <-]. destruct (Hr k c rest eq_refl) as [Hp Hl]. auto.
Qed.
Lemma CountValues_loop_total fuel : ∀ i b, buffer b → (length b < fuel)%nat → ∃ r, CountValues_loop fuel i b = Some r.
Proof.
  induction fuel as [|fuel IH]; intros i b Hbuf Hf; [lia|]. cbn [CountValues_loop].
  destruct b as [|x b']; [by eexists|]. set (b := x :: b') in *. destruct (readKind b) as [[[k ts] cs]|e] eqn:Hk; [|by eexists].
  pose proof Hbuf as [Hb Hl]. destruct (readKind_inv _ _ _ _ Hb Hl Hk) as (h & c & rest & Hp & <- & <-).
  destruct (parsed_head _ _ _ _ _ Hp) as [Hpos _]. destruct Hp as [Eb _]. clearbody b. subst b.
  assert (Hr : buffer rest) by (apply buffer_app in Hbuf as [_ Hbuf]; by apply buffer_app in Hbuf as [_ ?]).
  rewrite !zlen_app in Hl. pose proof (zlen_nonneg h). pose proof (zlen_nonneg c). pose proof (zlen_nonneg rest).
  rewrite add64_small by (unfold is_u64; lia). rewrite app_assoc, slice_tail by (rewrite zlen_app; lia). cbn [mbind option_bind].
  apply IH; [done|]. rewrite !length_app in Hf. lia.
Qed.

Lemma compactToHex_total c : Forall is_byte c → ∃ h, compactToHex c = Some h.
Proof.
  intros Hc. unfold compactToHex. destruct c as [|x c]; [by eexists|]. rewrite (proj2 (Z.eqb_neq _ _)) by (rewrite zlen_cons; pose proof (zlen_nonneg c); lia).
  set (tail := concat (map nibbles_of c) ++ [16]). assert (∃ a b, keybytesToHex (x :: c) = a :: b :: tail) as (a & b & ->) by (by eexists _, _).
  change (index (a :: b :: tail) 0) with (Some a). cbn [mbind option_bind].
  assert (Ht : 1 <= zlen tail) by (unfold tail; rewrite zlen_app; pose proof (zlen_nonneg (concat (map nibbles_of c))); unfold zlen at 2; simpl; lia).
  assert (Hand : 0 <= Z.land a 1 <= 1) by (rewrite land_1; pose proof (Z.mod_pos_bound a 2); lia).
  assert (Hslice : ∀ (l : bytes) i j, 0 <= i <= j → j <= zlen l → ∃ s, slice l i j = Some s ∧ zlen s = j - i).
  { intros l i j Hi Hj. unfold slice. rewrite !(proj2 (Z.leb_le _ _)) by lia. cbn. eexists. split; [done|]. unfold zlen in *. rewrite length_take, length_drop. lia. }
  assert (Hz : zlen (a :: b :: tail) = zlen tail + 2) by (rewrite !zlen_cons; lia).
  destruct (a <? 2).
  - destruct (Hslice (a :: b :: tail) 0 (zlen (a :: b :: tail) - 1)) as (s & -> & Hs); [lia..|]. cbn [mbind option_bind].
    destruct (Hslice s (2 - Z.land a 1) (zlen s)) as (s1 & -> & _); [lia..|]. by eexists.
  - cbn [mbind option_bind]. destruct (Hslice (a :: b :: tail) (2 - Z.land a 1) (zlen (a :: b :: tail))) as (s' & -> & _); [lia..|]. by eexists.
Qed.

(** ** Nodes *)

Section total.
Variable emb : bytes → option (node + decode_error).
Variable n : nat.
Context (Hemb : ∀ b, buffer b → (length b <= n)%nat → ∃ r, emb b = Some r).

Lemma decodeRef_total b : buffer b → (length b <= n)%nat → ∃ r, decodeRef emb b = Some r ∧
  ∀ nd rest, r = inl (nd, rest) → buffer rest ∧ (length rest <= n)%nat.
Proof.
  intros Hb Hl. destruct (Split_total b Hb) as ([[[k c] rest]|e] & Hs & Hr); unfold decodeRef; rewrite Hs; cbn [mbind option_bind]; [|by eexists].
  destruct (Hr k c rest eq_refl) as [Hp _]. destruct (part_buffer b c rest Hb Hp) as (_ & Hbr & Hlr).
  assert (Hok : ∀ (nd nd' : node) (rest' : bytes), inl (nd, rest) = inl (B := decode_error) (nd', rest') → buffer rest' ∧ (length rest' <= n)%nat).
  { intros nd nd' rest' [= _ <-]. split; [done|lia]. }
  destruct k; [by eexists| |].
  - destruct (zlen c =? 0); [eexists; split; [done|by apply Hok]|]. destruct (zlen c =? 32); eexists; (split; [done|]); [by apply Hok|done].
  - destruct (_ <? _); [by eexists|]. destruct (Hemb b Hb Hl) as ([nd|e] & ->); cbn [mbind option_bind]; eexists; (split; [done|]); [by apply Hok|done].
Qed.
Lemma decodeShort_total h b : buffer b → (length b <= n)%nat → ∃ r, decodeShort emb h b = Some r.
Proof.
  intros Hb Hl. unfold decodeShort. destruct (SplitString_total b Hb) as ([[kbuf rest]|e] & -> & Hr); cbn [mbind option_bind]; [|by eexists].
  destruct (part_buffer b kbuf rest Hb (Hr _ _ eq_refl)) as (Hk & Hbr & Hlr). destruct (compactToHex_total kbuf (proj1 Hk)) as [key ->]. cbn [mbind option_bind].
  destruct (hasTerm key).
  - destruct (SplitString_total rest Hbr) as ([[v r]|e] & -> & _); by eexists.
  - destruct (decodeRef_total rest Hbr ltac:(lia)) as ([[nd r]|e] & -> & _); by eexists.
Qed.
Lemma decodeFull_loop_total k : ∀ b, buffer b → (length b <= n)%nat → ∃ r, decodeFull_loop emb k b = Some r ∧
  ∀ cs rest, r = inl (cs, rest) → buffer rest ∧ (length rest <= n)%nat.
Proof.
  induction k as [|k IH]; intros b Hb Hl; cbn [decodeFull_loop].
  { eexists. split; [done|]. by intros cs rest [= _ <-]. }
  destruct (decodeRef_total b Hb Hl) as ([[c rest]|e] & -> & Hr); cbn [mbind option_bind]; [|by eexists].
  destruct (Hr _ _ eq_refl) as [Hbr Hlr]. destruct (IH rest Hbr Hlr) as ([[cs rest']|e] & -> & Hr'); cbn [mbind option_bind]; eexists; (split; [done|]); [|done].
  intros cs' rest'' [= _ <-]. by eapply Hr'.
Qed.
Lemma decodeFull_total h b : buffer b → (length b <= n)%nat → ∃ r, decodeFull emb h b = Some r.
Proof.
  intros Hb Hl. unfold decodeFull. destruct (decodeFull_loop_total 16 b Hb Hl) as ([[cs rest]|e] & -> & Hr); cbn [mbind option_bind]; [|by eexists].
  destruct (Hr _ _ eq_refl) as [Hbr _]. destruct (SplitString_total rest Hbr) as ([[v r]|e] & -> & _); by eexists.
Qed.
End total.

Lemma decodeNode_loop_total fuel : ∀ h b, buffer b → (length b < fuel)%nat → ∃ r, decodeNode_loop fuel h b = Some r.
Proof.
  induction fuel as [|fuel IH]; intros h b Hb Hf; [lia|]. cbn [decodeNode_loop]. destruct (zlen b =? 0); [by eexists|].
  destruct (SplitList_total b Hb) as ([[c rest]|e] & -> & Hr); cbn [mbind option_bind]; [|by eexists].
  destruct (Hr _ _ eq_refl) as [Hp Hlc]. destruct (part_buffer b c rest Hb Hp) as (Hc & _).
  assert (Hemb : ∀ b', buffer b' → (length b' <= length c)%nat → ∃ r, decodeNode_loop fuel None b' = Some r) by (intros b' Hb' Hl'; apply IH; [done|lia]).
  destruct (CountValues_loop_total (S (length c)) 0 c Hc ltac:(lia)) as [cnt Hcnt]. unfold CountValues. rewrite Hcnt. cbn [mbind option_bind].
  destruct (_ =? 2); [by apply (decodeShort_total _ (length c))|]. destruct (_ =? 17); [by apply (decodeFull_total _ (length c))|by eexists].
Qed.
