(* ===== verification/TrieProps.v ===== *)
(** * The trie: its contract

    The theorems about package trie, and a small trie they are evaluated on. *)

From S2P Require Import Prelude Rlp RlpStream StateData StateModel TrieEncoding TrieNode Trie TrieSpec TrieTree TrieHash TrieRefine TrieCodec.
From S2P Require Import TrieMap TrieBind TrieCommit TrieProof TrieVerify TrieProve TrieTotal.

Section props.
Variable Keccak256Hash : bytes → Hash.
Abbreviation represents := (represents Keccak256Hash).
Abbreviation Trie_hash := (Trie_hash Keccak256Hash).
Abbreviation Trie_Commit := (Trie_Commit Keccak256Hash).
Abbreviation is_root := (is_root Keccak256Hash).
Abbreviation distinct := (distinct Keccak256Hash).
Abbreviation hashData := (hashData Keccak256Hash).

(** C5 A trie is a finite map.  Any sequence of reads, updates, deletions and root
    computations answers and leaves what the sequence does on the map, whatever part of the
    trie is in memory; it never panics or runs out of steps, and when it fails it names a
    node the database has lost and leaves the map as it was before the operation that
    failed. *)
Theorem trie_refines_map (lossy : bool) (tr : Trie) (m : gmap bytes bytes) (os : list op) :
  represents lossy tr m → Forall op_ok os →
  match run_ops Keccak256Hash os tr with
  | Ret l tr' => answers_ok Keccak256Hash os m l ∧ represents lossy tr' (map_ops os m)
  | Fail e tr' => lost lossy tr e ∧
      ∃ before o after, os = before ++ o :: after ∧ represents lossy tr' (map_ops before m)
  | Panic _ | NoFuel => False
  end.
Proof. intros Hr Hok. pose proof (run_ops_ok Keccak256Hash lossy os tr m Hr Hok) as H. unfold wp in H. destruct (run_ops _ os tr); naive_solver. Qed.

Lemma Trie_hash_root lossy tr m : represents lossy tr m → ∃ h tr', Trie_hash tr = Ret h tr' ∧ is_root m h.
Proof.
  intros Hr. pose proof (Trie_hash_ok Keccak256Hash lossy tr m Hr) as H. unfold wp in H.
  destruct (Trie_hash tr) as [h tr'|e tr'|p|]; try done. exists h, tr'. split; [done|apply H].
Qed.
Lemma is_root_fun m h h' : is_root m h → is_root m h' → h = h'.
Proof. intros (t & Hc & ->) (t' & Hc' & ->). by rewrite (contents_tree m t t'). Qed.

(** C18 The root hash depends on the content of a trie only: two tries with the same
    entries have the same root hash, in whatever order the entries were written,
    overwritten and deleted, whatever is loaded, cached or lost. *)
Theorem root_hash_history_independent (lossy lossy' : bool) (tr tr' : Trie) (m : gmap bytes bytes) :
  represents lossy tr m → represents lossy' tr' m →
  ∃ h s s', Trie_hash tr = Ret h s ∧ Trie_hash tr' = Ret h s'.
Proof.
  intros Hr Hr'. destruct (Trie_hash_root lossy tr m Hr) as (h & s & H & Hh), (Trie_hash_root lossy' tr' m Hr') as (h' & s' & H' & Hh').
  exists h, s, s'. pose proof (is_root_fun m h h' Hh Hh') as ->. done.
Qed.

Lemma is_root_inj m m' h : Keccak256Hash [0x80] = emptyRoot → (∀ t t', contents m t → contents m' t' → distinct t t') →
  is_root m h → is_root m' h → m = m'.
Proof.
  intros He Hd (t & Hc & ->) (t' & Hc' & E). assert (t = t') as <-; [|by eapply contents_map].
  apply (root_binds Keccak256Hash He); [apply Hc|apply Hc'|by eapply contents_fine|by eapply contents_fine|by apply Hd|exact E].
Qed.

(** C10 The root hash commits to the content: two tries with the same root hash have the
    same entries, unless a node of the one and a node of the other collide under
    Keccak-256. *)
Theorem root_hash_binds (lossy lossy' : bool) (tr tr' s s' : Trie) (m m' : gmap bytes bytes) (h : Hash) :
  Keccak256Hash [0x80] = emptyRoot →
  represents lossy tr m → represents lossy' tr' m' →
  (∀ t t', contents m t → contents m' t' → distinct t t') →
  Trie_hash tr = Ret h s → Trie_hash tr' = Ret h s' → m = m'.
Proof.
  intros He Hr Hr' Hd H H'. destruct (Trie_hash_root lossy tr m Hr) as (h1 & s1 & E & Hh), (Trie_hash_root lossy' tr' m' Hr') as (h2 & s2 & E' & Hh').
  rewrite H in E. rewrite H' in E'. injection E as <- _. injection E' as <- _. by eapply is_root_inj.
Qed.

(** ** Committing *)

Lemma is_root_tree m h t : is_root m h → contents m t → canon t → h = BytesToHash (tree_hash Keccak256Hash t).
Proof. intros (t' & Hc' & ->) Hc Hcan. rewrite (contents_tree m t' t) by done. by apply root_of_canon. Qed.

(** C19 A committed trie can be opened again by its root: [Commit] never fails, returns the
    root of the content and stores the nodes the database did not have, and [New] at that
    root gives a trie with the same content.  Every other trie on the database keeps its
    content.  [U] holds the nodes that are ever stored, without hash collisions. *)
Theorem commit_reopens (U : tree → Prop) (lossy : bool) (tr : Trie) (m : gmap bytes bytes) :
  universe Keccak256Hash U → db_sound Keccak256Hash U (tr_db tr) → (∀ t, contents m t → U t) →
  (∀ h, m ≠ ∅ → is_root m h → h ≠ 0 ∧ h ≠ emptyRoot) →
  represents lossy tr m →
  match Trie_Commit tr with
  | Ret h tr' =>
      is_root m h ∧ represents lossy tr' m ∧ db_sound Keccak256Hash U (tr_db tr') ∧
      match Trie_New h (tr_db tr') with
      | Ret _ tr'' => tr_db tr'' = tr_db tr' ∧ represents lossy tr'' m
      | Fail e _ => lost lossy tr' e
      | Panic _ | NoFuel => False
      end ∧
      (∀ other m', tr_db other = tr_db tr → (∀ t, contents m' t → U t) →
        represents lossy other m' → represents lossy (set_tr_db (tr_db tr') other) m')
  | _ => False
  end.
Proof.
  intros HU Hso HUm H0 Hr. pose proof (Trie_Commit_ok Keccak256Hash lossy U tr m HU HUm Hso Hr) as H. unfold wp in H.
  destruct (Trie_Commit tr) as [h tr'|e tr'|p|]; try done. destruct H as (Hh & Hg & Hso' & Hr' & Hb).
  split; [done|]. split; [done|]. split; [done|]. split.
  - destruct Hr as (t & Hc & _). destruct (co_canon _ _ Hc) as [->|Hcan].
    + destruct Hh as (t' & Hc' & ->). rewrite (contents_tree m t' TNil) by done. rewrite (contents_map m ∅ TNil) by (done || apply contents_empty).
      split; [done|]. apply represents_new.
    + assert (Hne : m ≠ ∅) by (intros ->; rewrite (contents_tree ∅ t TNil) in Hcan by (done || apply contents_empty); inversion Hcan).
      destruct (H0 h Hne Hh) as [Hz He]. pose proof (Trie_New_ok Keccak256Hash lossy t h (tr_db tr') Hcan (is_root_tree m h t Hh Hc Hcan) Hz He (Hb t Hc)) as Hn.
      destruct (Trie_New h (tr_db tr')) as [u tr''|e tr''|p|]; try done. destruct Hn as [Hd Hst]. split; [done|]. exists t. by rewrite Hd.
  - intros other m' Hd HUm' (t & Hc & Hst). exists t. split; [done|]. rewrite Hd in Hst.
    apply (stands_grows Keccak256Hash U lossy HU (tr_db tr)); [done..| |by apply HUm'|done].
    destruct (co_canon _ _ Hc) as [->|]; [by left|by right; right].
Qed.

(** ** Proofs *)

Lemma is_root_bytes m h t : is_root m h → contents m t → canon t → hash_bytes h = tree_hash Keccak256Hash t.
Proof. intros Hh Hc Hcan. rewrite (is_root_tree m h t) by done. apply hash_bytes_key. Qed.
Lemma contents_some m t : contents m t → m ≠ ∅ → canon t.
Proof. intros Hc Hne. destruct (co_canon _ _ Hc) as [->|]; [|done]. destruct Hne. by apply (contents_map m ∅ TNil), contents_empty. Qed.

Lemma VerifyProof_ok m t h key p : m ≠ ∅ → contents m t → is_root m h → key_ok key → honest Keccak256Hash t p →
  ∃ r, VerifyProof h key p = Some r ∧
    match r with
    | inl v => v = m !! key
    | inr (ProofNodeMissing _ hash) => p !! hash = None ∧
        ∃ s key', onpath t (keybytesToHex key) s key' ∧ canon s ∧ hash = tree_hash Keccak256Hash s ∧ (s = t ∨ large (tree_item Keccak256Hash) s = true)
    | inr (BadProofNode _ _) => False
    end.
Proof.
  intros Hne Hc Hh [Hk _] Hp. pose proof (contents_some m t Hc Hne) as Hcan. unfold VerifyProof. rewrite (is_root_bytes m h t) by done.
  destruct (verify_ok Keccak256Hash (key_fuel (keybytesToHex key)) t (keybytesToHex key) 0 p Hcan (contents_fine m t Hc) (keybytesToHex_key key Hk) Hp)
    as (r & Hr & Hok); [unfold key_fuel; lia|]. exists r. split; [done|]. destruct r as [v|[i hash|i e]]; [|done..]. by rewrite (co_find _ _ Hc) in Hok.
Qed.

(** C12 A Merkle proof cannot lie: whatever nodes a peer sends, kept by their hashes,
    [VerifyProof] against the root hash of a trie returns the value the trie has for the
    key, or that it has none, or names a node that was not sent; it never panics and never
    loops, unless a node of the proof collides with a node of the trie. *)
Theorem VerifyProof_sound (m : gmap bytes bytes) (rootHash : Hash) (key : bytes) (proof : gmap bytes bytes) :
  m ≠ ∅ → is_root m rootHash → key_ok key →
  (∀ h b, proof !! h = Some b → h = hashData b) →
  (∀ t s h b, contents m t → subtree s t → proof !! h = Some b → hashData b = tree_hash Keccak256Hash s → b = enc Keccak256Hash s) →
  match VerifyProof rootHash key proof with
  | Some (inl v) => v = m !! key
  | Some (inr (ProofNodeMissing _ h)) => proof !! h = None
  | Some (inr (BadProofNode _ _)) | None => False
  end.
Proof.
  intros Hne Hh Hk Hp Hcol. pose proof Hh as (t & Hc & _).
  destruct (VerifyProof_ok m t rootHash key proof Hne Hc Hh Hk) as (r & -> & Hr).
  { intros s b Hs _ Hb. apply (Hcol t s _ b Hc Hs Hb). by rewrite <- (Hp _ _ Hb). }
  destruct r as [v|[i h|i e]]; [done| |done]. apply Hr.
Qed.

(** C20 Every key can be proved, present or absent: [Prove] collects nodes by their hashes
    with which [VerifyProof] returns the entry of the key, does not change the trie, and
    fails only for a node the database has lost. *)
Theorem Prove_verifies (lossy : bool) (tr : Trie) (m : gmap bytes bytes) (key : bytes) (rootHash : Hash) :
  represents lossy tr m → m ≠ ∅ → key_ok key → is_root m rootHash → (∀ t, contents m t → distinct t t) →
  match Prove Keccak256Hash key 0 ∅ tr with
  | Ret proof tr' => tr' = tr ∧ (∀ h b, proof !! h = Some b → h = hashData b) ∧
      VerifyProof rootHash key proof = Some (inl (m !! key))
  | Fail e tr' => tr' = tr ∧ lost lossy tr e
  | Panic _ | NoFuel => False
  end.
Proof.
  intros (t & Hc & Hst) Hne Hk Hh Hd. pose proof (contents_some m t Hc Hne) as Hcan.
  pose proof (Prove_ok Keccak256Hash (tr_db tr) lossy true (root tr) t key _ tr eq_refl eq_refl Hst eq_refl (proj1 Hk) Hcan (contents_fine m t Hc)) as Hw.
  unfold wp in Hw. destruct (Prove Keccak256Hash key 0 ∅ tr) as [p tr'|e tr'|q|]; try done. destruct Hw as (-> & Hset & Hall).
  split; [done|]. split; [intros h b Hb; destruct (Hset h b Hb) as (s & key' & _ & _ & -> & ->); done|].
  destruct (VerifyProof_ok m t rootHash key p Hne Hc Hh Hk) as (r & -> & Hr).
  { intros s b Hs _ Hb. destruct (Hset _ b Hb) as (u & key' & Ho & _ & E & ->). symmetry. apply (Hd t Hc); [done|by eapply onpath_subtree|done]. }
  destruct r as [v|[i h|i e]]; [by rewrite Hr| |done]. destruct Hr as (Hnone & s & key' & Ho & Hcs & -> & Hl).
  destruct (Hall s key' Ho Hcs Hl) as [b Hb]. by rewrite Hnone in Hb.
Qed.
End props.

(** ** Nodes and keys as bytes *)

(** A node is read back as it was written: decoding the encoding of a node of a trie
    gives the node, with its small children and the hashes of its large ones. *)
Theorem decodeNode_round_trip (Keccak256Hash : bytes → Hash) (t : tree) (hash : option bytes) :
  canon t → fine t → decodeNode hash (enc Keccak256Hash t) = Some (inl (loaded_with Keccak256Hash hash t)).
Proof. intros Hc Hf. apply decodeNode_ok; [done|]. pose proof (enc_le Keccak256Hash t Hc Hf). lia. Qed.

(** C22 Decoding a node never panics or runs out of steps: for any bytes a peer sends,
    [decodeNode] returns a node or an error. *)
Theorem decodeNode_never_panics (hash : option bytes) (buf : bytes) :
  Forall is_byte buf → zlen buf < 2 ^ 64 → ∃ r, decodeNode hash buf = Some r.
Proof. intros Hb Hl. apply decodeNode_loop_total; [done|lia]. Qed.

(** Keys on disk: [compactToHex] undoes [hexToCompact] on every key of a node, with or
    without terminator, even or odd, and the in-place version writes the same bytes. *)
Theorem compact_key_round_trip (key : bytes) :
  (path key ∨ hexkey key) →
  ∃ c, hexToCompact key = Some c ∧ compactToHex c = Some key ∧
    (key ≠ [] → ∃ buf, hexToCompactInPlace key = Some (buf, zlen c) ∧ take (length c) buf = c).
Proof.
  intros H. assert (∃ term p, path p ∧ key = spelled term p) as (term & p & Hp & ->).
  { destruct H as [Hp|(p & Hp & ->)]; [exists false, key; split; [done|]; unfold spelled; by rewrite app_nil_r|by exists true, p]. }
  exists (compact term p). split; [by apply hexToCompact_compact|]. split; [by apply compactToHex_compact|]. by apply hexToCompactInPlace_compact.
Qed.

(** ** A small trie *)

(** A hash that can be computed, with the right value on the empty trie. *)
Definition toy_hash (b : bytes) : Hash := if bool_decide (b = [0x80]) then emptyRoot else fold_hash b.

Definition no_nodes : Database := {| cleans := ∅; dirties_db := ∅; diskdb := ∅ |}.
Definition empty_trie : Trie := {| tr_db := no_nodes; root := nilNode; unhashed := 0 |}.

(** Two keys that share a nibble, one of which has a value too long to stay inside its parent. *)
Definition demo_value : bytes := replicate 40 7.
Definition demo_ops : list op := [OUpdate [1; 2] [5]; OUpdate [9] [3]; OUpdate [1; 3] demo_value; ODelete [9]].
Definition demo_map : gmap bytes bytes := {[ [1; 2] := [5]; [1; 3] := demo_value ]}.
(** The same entries, written in another order. *)
Definition demo_ops' : list op := [OUpdate [1; 3] demo_value; OUpdate [1; 2] [6]; OHash; OUpdate [1; 2] [5]].
Definition demo (os : list op) : Trie := match run_ops toy_hash os empty_trie with Ret _ tr => tr | _ => empty_trie end.
Definition demo_trie : Trie := demo demo_ops.
Definition demo_trie' : Trie := demo demo_ops'.
Definition demo_tree : tree :=
  TShort [0; 1; 0] (TFull (replicate 2 TNil ++ [TShort [16] (TValue [5]); TShort [16] (TValue demo_value)] ++ replicate 13 TNil)).

Lemma demo_ops_ok : Forall op_ok demo_ops ∧ Forall op_ok demo_ops'.
Proof. split; repeat constructor; unfold is_byte; try lia; vm_compute; congruence. Qed.
Lemma demo_run lossy os l : match run_ops toy_hash os empty_trie with Ret l' _ => Some l' | _ => None end = Some l → Forall op_ok os →
  represents toy_hash lossy (demo os) (map_ops os ∅).
Proof.
  intros E Hok. pose proof (run_ops_ok toy_hash lossy os empty_trie ∅ (represents_new toy_hash lossy no_nodes 0) Hok) as H.
  unfold wp in H. unfold demo. destruct (run_ops toy_hash os empty_trie) as [l' tr|e tr|p|]; [|done..]. apply H.
Qed.
Lemma demo_represents lossy : represents toy_hash lossy demo_trie demo_map.
Proof.
  replace demo_map with (map_ops demo_ops ∅) by (vm_compute; reflexivity).
  eapply demo_run; [vm_compute; reflexivity|apply demo_ops_ok].
Qed.
Lemma demo_represents' lossy : represents toy_hash lossy demo_trie' demo_map.
Proof.
  replace demo_map with (map_ops demo_ops' ∅) by (vm_compute; reflexivity).
  eapply demo_run; [vm_compute; reflexivity|apply demo_ops_ok].
Qed.

(** The tree of a node that is all in memory. *)
Fixpoint forget (n : node) : tree :=
  match n with
  | nilNode | hashNode _ => TNil
  | valueNode v => TValue v
  | shortNode k c _ => TShort k (forget c)
  | fullNode cs _ => TFull (map forget cs)
  end.
Fixpoint in_memory (n : node) : bool :=
  match n with
  | nilNode | valueNode _ => true
  | hashNode _ => false
  | shortNode _ c _ => in_memory c
  | fullNode cs _ => forallb in_memory cs
  end.
Lemma stands_forget K db lossy top n t : stands K db lossy top n t → in_memory n = true → t = forget n.
Proof.
  induction 1 as [| |top k c t f Hf Hse Hc IH|top cs ts f Hf Hl Hse Hc IH|]; cbn [in_memory forget]; intros Hm; try done; f_equal; [auto|].
  apply list_eq_same_length with (length ts); [by rewrite length_map|done|]. intros i t t' Hi Ht Ht'. rewrite list_lookup_fmap in Ht'.
  destruct (cs !! i) as [c|] eqn:Ec; [|done]. injection Ht' as <-. apply (IH i c t Ec Ht).
  rewrite forallb_forall in Hm. apply Hm, list_elem_of_In. by eapply list_elem_of_lookup_2.
Qed.
Lemma demo_contents : contents demo_map demo_tree.
Proof.
  destruct (demo_represents false) as (t & Hc & Hst). apply stands_forget in Hst; [|vm_compute; reflexivity].
  assert (E : forget (root demo_trie) = demo_tree) by (vm_compute; reflexivity). by rewrite Hst, E in Hc.
Qed.
Definition demo_root : Hash := root_of toy_hash demo_tree.
Lemma demo_is_root : is_root toy_hash demo_map demo_root.
Proof. exists demo_tree. split; [apply demo_contents|done]. Qed.
Lemma demo_hash : match Trie_hash toy_hash demo_trie with Ret h _ => h = demo_root | _ => False end.
Proof. vm_compute. reflexivity. Qed.

(** Its nodes do not collide. *)
Fixpoint subtrees (t : tree) : list tree :=
  t :: match t with TShort _ c => subtrees c | TFull cs => concat (map subtrees cs) | _ => [] end.
Lemma subtree_in s t : subtree s t → s ∈ subtrees t.
Proof.
  induction 1 as [t|s k c H IH|s cs i c Hi H IH]; [destruct t; by left|by right|right].
  cbn [subtrees]. apply list_elem_of_In, in_concat. exists (subtrees c). split; [|by apply list_elem_of_In].
  apply in_map, list_elem_of_In. by eapply list_elem_of_lookup_2.
Qed.
Definition encs_apart (K : bytes → Hash) (l : list bytes) : bool :=
  let hs := map (λ a, (a, hashData K a)) (remove_dups l) in
  forallb (λ x, forallb (λ y, implb (bool_decide (x.2 = y.2)) (bool_decide (x.1 = y.1))) hs) hs.
Lemma encs_apart_spec K l a b : encs_apart K l = true → a ∈ l → b ∈ l → hashData K a = hashData K b → a = b.
Proof.
  intros H Ha Hb E. unfold encs_apart in H. rewrite forallb_forall in H.
  assert (Hin : ∀ c, c ∈ l → In (c, hashData K c) (map (λ a, (a, hashData K a)) (remove_dups l))).
  { intros c Hc. apply in_map_iff. exists c. split; [done|]. by apply list_elem_of_In, elem_of_remove_dups. }
  specialize (H _ (Hin a Ha)). rewrite forallb_forall in H. specialize (H _ (Hin b Hb)). cbn [fst snd] in H.
  rewrite bool_decide_true in H by done. by apply bool_decide_eq_true in H.
Qed.
Definition encs (t : tree) : list bytes := map (enc toy_hash) (subtrees t).
Lemma subtree_enc s t : subtree s t → enc toy_hash s ∈ encs t.
Proof. intros H. unfold encs. apply list_elem_of_fmap_2. by apply subtree_in. Qed.
Lemma demo_apart : encs_apart toy_hash (encs demo_tree) = true.
Proof. vm_compute. reflexivity. Qed.
Lemma demo_encs s t : subtree s demo_tree → subtree t demo_tree → tree_hash toy_hash s = tree_hash toy_hash t → enc toy_hash s = enc toy_hash t.
Proof. intros Hs Ht. apply (encs_apart_spec toy_hash (encs demo_tree)); [apply demo_apart|by apply subtree_enc..]. Qed.
Lemma demo_distinct t t' : contents demo_map t → contents demo_map t' → distinct toy_hash t t'.
Proof.
  intros Hc Hc'. rewrite (contents_tree _ _ _ Hc demo_contents), (contents_tree _ _ _ Hc' demo_contents).
  intros s s'. apply demo_encs.
Qed.
Definition demo_universe (t : tree) : Prop := subtree t demo_tree.
Lemma demo_universe_ok : universe toy_hash demo_universe.
Proof.
  split; [intros s t; apply subtree_trans|]. intros s t Hs Ht Hcs Hct E.
  assert (Hf : ∀ u, subtree u demo_tree → fine u) by (intros u Hu; by apply (fine_sub u demo_tree), (contents_fine _ _ demo_contents)).
  apply (canon_binds toy_hash s Hcs t Hct (Hf s Hs) (Hf t Ht)).
  - intros a b Ha Hb. apply demo_encs; by eapply subtree_trans.
  - assert (Hd : ∀ u, canon u → subtree u demo_tree → decodeNode None (enc toy_hash u) = Some (inl (loaded_with toy_hash None u))).
    { intros u Hu Hsu. apply decodeNode_ok; [done|]. pose proof (enc_le toy_hash u Hu (Hf u Hsu)). lia. }
    pose proof (Hd s Hcs Hs) as Es. pose proof (Hd t Hct Ht) as Et. rewrite (demo_encs s t Hs Ht E), Et in Es. by injection Es.
Qed.
Lemma demo_canon : canon demo_tree.
Proof. by destruct (co_canon _ _ demo_contents). Qed.
Lemma no_nodes_sound : db_sound toy_hash demo_universe no_nodes.
Proof. split; intros h b; cbn [cleans dirties_db diskdb no_nodes]; by rewrite lookup_empty. Qed.

(** ** The theorems on the small trie *)

Lemma trie_refines_map_witness :
  match run_ops toy_hash [OGet [1; 3]; ODelete [1; 2]; OGet [1; 2]; OHash] demo_trie with
  | Ret l tr => answers_ok toy_hash [OGet [1; 3]; ODelete [1; 2]; OGet [1; 2]; OHash] demo_map l ∧
      represents toy_hash false tr {[ [1; 3] := demo_value ]}
  | _ => False
  end.
Proof.
  assert (Hok : Forall op_ok [OGet [1; 3]; ODelete [1; 2]; OGet [1; 2]; OHash]) by (repeat constructor; unfold is_byte; lia).
  pose proof (trie_refines_map toy_hash false demo_trie demo_map _ (demo_represents false) Hok) as H.
  assert (E : match run_ops toy_hash [OGet [1; 3]; ODelete [1; 2]; OGet [1; 2]; OHash] demo_trie with Fail _ _ => false | _ => true end = true)
    by (vm_compute; reflexivity).
  destruct (run_ops _ _ _) as [l tr|e tr|p|]; [|discriminate E|destruct H|destruct H].
  replace (map_ops _ demo_map) with ({[ [1; 3] := demo_value ]} : gmap bytes bytes) in H by (vm_compute; reflexivity). exact H.
Defined.

Lemma root_hash_history_independent_witness :
  demo_trie ≠ demo_trie' ∧ ∃ h s s', Trie_hash toy_hash demo_trie = Ret h s ∧ Trie_hash toy_hash demo_trie' = Ret h s'.
Proof.
  split; [intros E; apply (f_equal unhashed) in E; vm_compute in E; discriminate E|].
  apply (root_hash_history_independent toy_hash false false demo_trie demo_trie' demo_map (demo_represents false) (demo_represents' false)).
Defined.

Definition demo_after (tr : Trie) : Trie := match Trie_hash toy_hash tr with Ret _ tr => tr | _ => tr end.
Lemma root_hash_binds_witness : demo_map = demo_map.
Proof.
  apply (root_hash_binds toy_hash false false demo_trie demo_trie' (demo_after demo_trie) (demo_after demo_trie') demo_map demo_map demo_root);
    [vm_compute; reflexivity|apply demo_represents|apply demo_represents'|apply demo_distinct|vm_compute; reflexivity|vm_compute; reflexivity].
Defined.

Lemma commit_reopens_witness :
  match Trie_Commit toy_hash demo_trie with
  | Ret h tr => h = demo_root ∧ match Trie_New h (tr_db tr) with Ret _ tr' => represents toy_hash false tr' demo_map | _ => False end
  | _ => False
  end.
Proof.
  assert (Hn : ∀ h, demo_map ≠ ∅ → is_root toy_hash demo_map h → h ≠ 0 ∧ h ≠ emptyRoot).
  { intros h _ Hh. rewrite (is_root_fun toy_hash _ h demo_root Hh demo_is_root). vm_compute. split; discriminate. }
  assert (HU : ∀ t, contents demo_map t → demo_universe t).
  { intros t Hc. rewrite (contents_tree _ _ _ Hc demo_contents). apply sub_refl. }
  pose proof (commit_reopens toy_hash demo_universe false demo_trie demo_map demo_universe_ok no_nodes_sound HU Hn (demo_represents false)) as H.
  destruct (Trie_Commit toy_hash demo_trie) as [h tr|e tr|p|]; [|destruct H..]. destruct H as (Hh & _ & _ & H & _).
  split; [exact (is_root_fun toy_hash _ h demo_root Hh demo_is_root)|].
  destruct (Trie_New h (tr_db tr)) as [u tr'|[e1 e2] tr'|p|]; [apply H|destruct H as [H _]; discriminate H|destruct H..].
Defined.

(** What an honest peer sends for the key [1; 2], and a node of another trie. *)
Definition blobs_db (l : list bytes) : gmap bytes bytes := list_to_map (map (λ b, (hashData toy_hash b, b)) l).
Lemma blobs_db_spec l h b : blobs_db l !! h = Some b → h = hashData toy_hash b ∧ b ∈ l.
Proof.
  intros H. apply elem_of_list_to_map_2, list_elem_of_In, in_map_iff in H as (c & [= <- <-] & Hc). split; [done|by apply list_elem_of_In].
Qed.
Definition demo_blobs : list bytes := [[194; 32; 9]; enc toy_hash demo_tree; enc toy_hash (TFull (replicate 2 TNil ++ [TShort [16] (TValue [5]); TShort [16] (TValue demo_value)] ++ replicate 13 TNil))].

Lemma VerifyProof_sound_witness : VerifyProof demo_root [1; 2] (blobs_db demo_blobs) = Some (inl (Some [5])) ∧ Some [5] = demo_map !! [1; 2].
Proof.
  assert (E : VerifyProof demo_root [1; 2] (blobs_db demo_blobs) = Some (inl (Some [5]))) by (vm_compute; reflexivity).
  split; [exact E|]. assert (Hne : demo_map ≠ ∅) by (intros Hm; apply (f_equal (λ m, m !! [1; 2])) in Hm; vm_compute in Hm; discriminate Hm).
  assert (Hk : key_ok [1; 2]) by (split; [repeat constructor; unfold is_byte; lia|reflexivity]).
  assert (Hcol : ∀ t s h b, contents demo_map t → subtree s t → blobs_db demo_blobs !! h = Some b → hashData toy_hash b = tree_hash toy_hash s → b = enc toy_hash s).
  { intros t s h b Hc Hs Hb Eh. rewrite (contents_tree _ _ _ Hc demo_contents) in Hs. apply blobs_db_spec in Hb as [_ Hb].
    apply (encs_apart_spec toy_hash (demo_blobs ++ encs demo_tree)); [vm_compute; reflexivity| | |exact Eh]; apply elem_of_app; [by left|right; by apply subtree_enc]. }
  pose proof (VerifyProof_sound toy_hash demo_map demo_root [1; 2] (blobs_db demo_blobs) Hne demo_is_root Hk
    (λ h b Hb, proj1 (blobs_db_spec demo_blobs h b Hb)) Hcol) as H.
  rewrite E in H. exact H.
Defined.

Lemma Prove_verifies_witness :
  match Prove toy_hash [9] 0 ∅ demo_trie with
  | Ret proof _ => VerifyProof demo_root [9] proof = Some (inl None)
  | _ => False
  end.
Proof.
  assert (Hne : demo_map ≠ ∅) by (intros Hm; apply (f_equal (λ m, m !! [1; 2])) in Hm; vm_compute in Hm; discriminate Hm).
  assert (Hk : key_ok [9]) by (split; [repeat constructor; unfold is_byte; lia|reflexivity]).
  pose proof (Prove_verifies toy_hash false demo_trie demo_map [9] demo_root (demo_represents false) Hne Hk demo_is_root (λ t Hc, demo_distinct t t Hc Hc)) as H.
  destruct (Prove toy_hash [9] 0 ∅ demo_trie) as [p tr|[e1 e2] tr|q|]; [|destruct H as [_ [H _]]; discriminate H|destruct H..].
  destruct H as (_ & _ & H). exact H.
Defined.

Lemma decodeNode_round_trip_witness :
  decodeNode None (enc toy_hash demo_tree) = Some (inl (loaded_with toy_hash None demo_tree)).
Proof. apply decodeNode_round_trip; [apply demo_canon|apply (contents_fine _ _ demo_contents)]. Defined.

Lemma decodeNode_never_panics_witness : ∃ r, decodeNode None [194; 32; 9; 255] = Some r.
Proof. apply decodeNode_never_panics; [repeat constructor; unfold is_byte; lia|reflexivity]. Defined.

Lemma compact_key_round_trip_witness :
  ∃ c, hexToCompact [1; 2; 16] = Some c ∧ compactToHex c = Some [1; 2; 16] ∧
    ([1; 2; 16] ≠ [] → ∃ buf, hexToCompactInPlace [1; 2; 16] = Some (buf, zlen c) ∧ take (length c) buf = c).
Proof. apply (compact_key_round_trip [1; 2; 16]). right. exists [1; 2]. split; [repeat constructor; unfold is_nibble; lia|reflexivity]. Defined.
