(* ===== verification/SecureTrie.v ===== *)
(** * Tries with hashed keys, and the database of a state ([trie/secure_trie.go], [core/state/database.go])

    A [SecureTrie] stores a key under its hash and remembers the key.  [cachingDB] opens
    tries and reads code through caches: the model of the caches says what they hold, not
    what they evict.  The tries and the state's database share one node database by pointer:
    here the state's database holds it, [with_nodes] is its value after a trie has written to
    it, and a trie that comes out of a cache, which keeps the pointer it was filed with, is
    attached to that value.  So the caches are only for tries of the same node database,
    which is what the sessions of [StateTries] ask of their callers. *)

From S2P Require Import Prelude Rlp RlpStream StateData TrieEncoding TrieNode Trie.

(** [secKeyCacheOwner == t], and the cache, which is another trie's when it is not. *)
Record SecureTrie := { st_trie : Trie; secKeyCache : gmap bytes bytes; is_owner : bool }.
Abbreviation SecM := (M trie_error SecureTrie).

Definition set_st_trie (tr : Trie) (t : SecureTrie) : SecureTrie :=
  {| st_trie := tr; secKeyCache := secKeyCache t; is_owner := is_owner t |}.
(** [getSecKeyCache], and the change made to what it returns. *)
Definition with_keys (f : gmap bytes bytes → gmap bytes bytes) (t : SecureTrie) : SecureTrie :=
  {| st_trie := st_trie t; secKeyCache := f (if is_owner t then secKeyCache t else ∅); is_owner := true |}.

(** A method of the trie inside. *)
Definition on_trie {A} (m : TrM A) : SecM A := λ t,
  match m (st_trie t) with
  | Ret a tr => Ret a (set_st_trie tr t)
  | Fail e tr => Fail e (set_st_trie tr t)
  | Panic p => Panic p
  | NoFuel => NoFuel
  end.

Definition NewSecure (r : Hash) (db : Database) : outcome trie_error Trie SecureTrie :=
  match Trie_New r db with
  | Ret _ tr => Ret {| st_trie := tr; secKeyCache := ∅; is_owner := false |} tr
  | Fail e tr => Fail e tr
  | Panic p => Panic p
  | NoFuel => NoFuel
  end.

(** The copy is not the owner of the keys. *)
Definition Secure_Copy (t : SecureTrie) : SecureTrie :=
  {| st_trie := st_trie t; secKeyCache := secKeyCache t; is_owner := false |}.
Definition ResetCopy (t : SecureTrie) : SecureTrie := {| st_trie := st_trie t; secKeyCache := ∅; is_owner := false |}.

Section secure.
Variable Keccak256Hash : bytes → Hash.

(** [SecureTrie.hashKey]. *)
Definition hashKey (key : bytes) : bytes := hash_bytes (Keccak256Hash key).

Definition Secure_TryGet (key : bytes) : SecM (option bytes) := on_trie (TryGet (hashKey key)).
Definition Secure_TryUpdate (key value : bytes) : SecM unit :=
  let hk := hashKey key in
  do! on_trie (TryUpdate hk value) in
  modify (with_keys (insert hk key)).
Definition Secure_TryDelete (key : bytes) : SecM unit :=
  let hk := hashKey key in
  do! modify (with_keys (delete hk)) in
  on_trie (TryDelete hk).
Definition Secure_Hash : SecM Hash := on_trie (Trie_hash Keccak256Hash).
(** On a database that does not keep the preimages of keys. *)
Definition Secure_Commit : SecM Hash :=
  let! t := gets id in
  do! (if (size (with_keys id t).(secKeyCache) =? 0)%nat then modify (with_keys id)
       else modify (λ t, {| st_trie := st_trie t; secKeyCache := ∅; is_owner := true |})) in
  on_trie (Trie_Commit Keccak256Hash).
End secure.

(** ** The database of a state *)

Record triePair := { tp_root : Hash; tp_trie : SecureTrie }.

(** The caches of tries are nil in a database made by [NewDatabase]; an account has up to
    three tries in the cache, the nil ones left out here. *)
Record cachingDB := {
  cd_db : Database;
  prefixed_codes : gmap Hash bytes;
  codeCache : gmap Hash bytes;
  codeSizeCache : gmap Hash Z;
  accountTrieCache : option (gmap Hash SecureTrie);
  storageTrieCache : option (gmap Hash (list triePair));
}.

Definition NewDatabase (nodes : Database) (codes : gmap Hash bytes) : cachingDB :=
  {| cd_db := nodes; prefixed_codes := codes; codeCache := ∅; codeSizeCache := ∅; accountTrieCache := None; storageTrieCache := None |}.
Definition NewDatabaseWithConfigAndCache (nodes : Database) (codes : gmap Hash bytes) : cachingDB :=
  {| cd_db := nodes; prefixed_codes := codes; codeCache := ∅; codeSizeCache := ∅; accountTrieCache := Some ∅; storageTrieCache := Some ∅ |}.

(** The node database behind the pointer has been written to. *)
Definition with_nodes (nodes : Database) (db : cachingDB) : cachingDB :=
  {| cd_db := nodes; prefixed_codes := prefixed_codes db; codeCache := codeCache db; codeSizeCache := codeSizeCache db;
     accountTrieCache := accountTrieCache db; storageTrieCache := storageTrieCache db |}.

(** What the trie's pointer to the node database leads to. *)
Definition attach (db : Database) (t : SecureTrie) : SecureTrie := set_st_trie (set_tr_db db (st_trie t)) t.

Definition open_new (db : cachingDB) (r : Hash) : outcome trie_error Trie SecureTrie := NewSecure r (cd_db db).
Definition cached_trie (db : cachingDB) (t : SecureTrie) : outcome trie_error Trie SecureTrie :=
  let t := attach (cd_db db) (Secure_Copy t) in Ret t (st_trie t).

(** [db.OpenTrie(root)]. *)
Definition cd_OpenTrie (db : cachingDB) (r : Hash) : outcome trie_error Trie SecureTrie :=
  match c ← accountTrieCache db; c !! r with
  | Some t => cached_trie db t
  | None => open_new db r
  end.

Definition find_pair (r : Hash) (ps : list triePair) : option triePair := List.find (λ p, tp_root p =? r) ps.

(** [db.OpenStorageTrie(addrHash, root)]. *)
Definition cd_OpenStorageTrie (db : cachingDB) (addrHash r : Hash) : outcome trie_error Trie SecureTrie :=
  match c ← storageTrieCache db; ps ← c !! addrHash; find_pair r ps with
  | Some p => cached_trie db (tp_trie p)
  | None => open_new db r
  end.

Definition with_caches (atc : option (gmap Hash SecureTrie)) (stc : option (gmap Hash (list triePair))) (db : cachingDB) : cachingDB :=
  {| cd_db := cd_db db; prefixed_codes := prefixed_codes db; codeCache := codeCache db; codeSizeCache := codeSizeCache db;
     accountTrieCache := atc; storageTrieCache := stc |}.
Definition CacheAccount (r : Hash) (t : SecureTrie) (db : cachingDB) : cachingDB :=
  with_caches (insert r (ResetCopy t) <$> accountTrieCache db) (storageTrieCache db) db.
Definition CacheStorage (addrHash r : Hash) (t : SecureTrie) (db : cachingDB) : cachingDB :=
  with_caches (accountTrieCache db)
    ((λ c, <[addrHash := {| tp_root := r; tp_trie := ResetCopy t |} :: take 2 (default [] (c !! addrHash))]> c) <$> storageTrieCache db) db.
Definition Purge (db : cachingDB) : cachingDB :=
  with_caches ((λ _, ∅) <$> accountTrieCache db) ((λ _, ∅) <$> storageTrieCache db) db.

(** [rawdb.ReadCode]: the code under its hash, where trie nodes are, or under the prefix. *)
Definition ReadCodeWithPrefix (db : cachingDB) (h : Hash) : bytes := default [] (prefixed_codes db !! h).
Definition ReadCode (db : cachingDB) (h : Hash) : bytes :=
  let data := default [] (diskdb (cd_db db) !! h) in
  if negb (zlen data =? 0) then data else ReadCodeWithPrefix db h.

Definition add_code (h : Hash) (code : bytes) (db : cachingDB) : cachingDB :=
  {| cd_db := cd_db db; prefixed_codes := prefixed_codes db; codeCache := <[h := code]> (codeCache db);
     codeSizeCache := <[h := zlen code]> (codeSizeCache db);
     accountTrieCache := accountTrieCache db; storageTrieCache := storageTrieCache db |}.

(** The code and the database with what was cached, [None] for "not found". *)
Definition cd_ContractCode (db : cachingDB) (addrHash codeHash : Hash) : option bytes * cachingDB :=
  let read :=
    let code := ReadCode db codeHash in
    if 0 <? zlen code then (Some code, add_code codeHash code db) else (None, db) in
  match codeCache db !! codeHash with
  | Some code => if 0 <? zlen code then (Some code, db) else read
  | None => read
  end.
Definition cd_ContractCodeSize (db : cachingDB) (addrHash codeHash : Hash) : option Z * cachingDB :=
  match codeSizeCache db !! codeHash with
  | Some n => (Some n, db)
  | None => let '(code, db) := cd_ContractCode db addrHash codeHash in (zlen <$> code, db)
  end.
