(* ===== verification/StateRoot.v ===== *)
(** * The state root

    What [IntermediateRoot] computes, on tries that keep maps: the interface [TrieStore]
    says what the state database relies on. *)

From S2P Require Import Prelude Params VmData VmState Rlp RlpStream StateData StateObjects StateDbOps TrieCodec TrieMap.

(** A trie holds a map from hashed keys to values; its hash is the root of the map. *)
Class TrieStore (D T SN : Type) `{Backend D T SN} := {
  holds : T → gmap bytes bytes → Prop;
  hashed : bytes → bytes;
  is_state_root : gmap bytes bytes → Hash → Prop;
  store_get t m k : holds t m → TryGet t k = inl (default [] (m !! hashed k)) ∨ ∃ e, TryGet t k = inr e;
  store_update t m k v t' : holds t m → val_ok v → v ≠ [] → TryUpdate t k v = inl t' → holds t' (<[hashed k := v]> m);
  store_delete t m k t' : holds t m → TryDelete t k = inl t' → holds t' (delete (hashed k) m);
  store_hash t m : holds t m → is_state_root m (Trie_Hash t);
}.

(** ** Encodings *)

Lemma puthead_bytes a n : 0 <= a → a + 63 < 256 → 0 <= n < 2 ^ 64 → Forall is_byte (puthead a (a + 55) n).
Proof.
  intros Ha Ha' Hn. unfold puthead. destruct (Z.ltb_spec n 56); [repeat constructor; unfold is_byte; lia|].
  constructor; [|apply be_encode_bytes]. rewrite zlen_putint. unfold is_byte.
  destruct (decide (n = 0)) as [->|]; [lia|]. pose proof (putint_size_range n ltac:(lia)). lia.
Qed.
Lemma rlp_str_ok b : Forall is_byte b → zlen b < 2 ^ 55 → val_ok (rlp (IStr b)) ∧ zlen (rlp (IStr b)) <= zlen b + 9.
Proof.
  intros Hb Hl. pose proof (zlen_nonneg b). pose proof (rlp_str_le b ltac:(lia)). split; [|done]. split; [|lia].
  destruct (decide (item_kind (IStr b) = KByte)) as [Hk|Hk].
  - destruct b as [|x [|y b]]; try done. simpl in *. by destruct (x <=? 0x7F).
  - destruct (item_kind_str b Hk) as [_ Hx]. rewrite rlp_str by done. apply Forall_app. split; [|done]. apply (puthead_bytes 0x80); lia.
Qed.
Lemma rlp_list_ok l : Forall (λ i, val_ok (rlp i)) l → zlen (concat (map rlp l)) < 2 ^ 55 → val_ok (rlp (IList l)).
Proof.
  intros Hf Hl. pose proof (zlen_nonneg (concat (map rlp l))). pose proof (rlp_list_le l _ (Z.le_refl _) ltac:(lia)). split; [|lia].
  cbn [rlp]. apply Forall_app. split; [apply (puthead_bytes 0xC0); lia|].
  clear -Hf. induction Hf as [|i l [Hi _] Hf IH]; [constructor|]. cbn [map concat]. by apply Forall_app.
Qed.
Lemma rlp_not_nil i : rlp i ≠ [].
Proof. intros E. pose proof (rlp_pos i) as H. rewrite E in H. done. Qed.

(** An account Go can hold. *)
Definition account_ok (d : Account) : Prop := is_u64 (acc_Nonce d) ∧ 0 <= acc_Balance d < 2 ^ 256.
Definition account_rlp (d : Account) : bytes :=
  rlp (IList [IStr (be_min (acc_Nonce d)); IStr (be_min (acc_Balance d)); IStr (hash_bytes (acc_Root d)); IStr (hash_bytes (acc_CodeHash d))]).

Lemma zlen_hash_bytes h : zlen (hash_bytes h) = 32.
Proof. unfold zlen, hash_bytes. by rewrite length_be_encode. Qed.
Lemma account_encodes d : account_ok d → EncodeToBytes (account_value d) = Some (account_rlp d) ∧ val_ok (account_rlp d) ∧ account_rlp d ≠ [].
Proof.
  intros [Hn Hb]. split; [|split; [|apply rlp_not_nil]].
  - rewrite EncodeToBytes_ok.
    + cbn [account_value to_item mapM]. rewrite (proj2 (Z.ltb_ge _ _)) by lia. done.
    + cbn [account_value value_ok fold_right]. split; [done|]. split; [done|]. split; [apply be_encode_bytes|]. split; [apply be_encode_bytes|done].
  - assert (Hlen : ∀ b : bytes, zlen b <= 32 → zlen b < 2 ^ 55) by (intros; lia).
    destruct (rlp_str_ok (be_min (acc_Nonce d))) as [H1 L1]; [apply be_encode_bytes|apply Hlen; pose proof (zlen_be_min_le (acc_Nonce d) 8); unfold is_u64 in Hn; lia|].
    destruct (rlp_str_ok (be_min (acc_Balance d))) as [H2 L2]; [apply be_encode_bytes|apply Hlen, (zlen_be_min_le _ 32); lia|].
    destruct (rlp_str_ok (hash_bytes (acc_Root d))) as [H3 L3]; [apply be_encode_bytes|rewrite zlen_hash_bytes; lia|].
    destruct (rlp_str_ok (hash_bytes (acc_CodeHash d))) as [H4 L4]; [apply be_encode_bytes|rewrite zlen_hash_bytes; lia|].
    apply rlp_list_ok; [repeat (constructor; [assumption|]); constructor|]. cbn [map concat]. rewrite app_nil_r, !zlen_app.
    pose proof (zlen_be_min_le (acc_Nonce d) 8). pose proof (zlen_be_min_le (acc_Balance d) 32). rewrite zlen_hash_bytes in L3, L4. unfold is_u64 in Hn. lia.
Qed.

(** What the storage trie keeps of a slot; a zero slot is absent. *)
Definition slot_enc (v : Hash) : option bytes := if v =? 0 then None else EncodeToBytes (VBytes (TrimLeftZeroes (hash_bytes v))).
Lemma TrimLeftZeroes_bytes b : Forall is_byte b → Forall is_byte (TrimLeftZeroes b) ∧ zlen (TrimLeftZeroes b) <= zlen b.
Proof.
  induction b as [|x b IH]; intros H; [done|]. inversion_clear H as [|?? Hx Hb]. destruct (IH Hb) as [H1 H2]. cbn [TrimLeftZeroes]. rewrite zlen_cons.
  destruct (_ =? _); [split; [done|lia]|]. split; [by constructor|rewrite zlen_cons; lia].
Qed.
Lemma slot_encodes v : v ≠ 0 → ∃ enc, EncodeToBytes (VBytes (TrimLeftZeroes (hash_bytes v))) = Some enc ∧ val_ok enc ∧ enc ≠ [].
Proof.
  intros Hv. destruct (TrimLeftZeroes_bytes (hash_bytes v) (be_encode_bytes _ _)) as [Hb Hl]. rewrite zlen_hash_bytes in Hl.
  exists (rlp (IStr (TrimLeftZeroes (hash_bytes v)))). split; [by rewrite EncodeToBytes_ok|]. split; [apply rlp_str_ok; [done|lia]|apply rlp_not_nil].
Qed.

(** Writing a list of entries with different keys. *)
Definition put {K} (key : K → bytes) (val : K → option bytes) (m : gmap bytes bytes) (k : K) : gmap bytes bytes :=
  partial_alter (λ _, val k) (key k) m.
Lemma puts_written {K} (key : K → bytes) (val : K → option bytes) l : ∀ m, NoDup l → (∀ k k', k ∈ l → k' ∈ l → key k = key k' → k = k') →
  (∀ k, k ∈ l → fold_left (put key val) l m !! key k = val k) ∧
  (∀ h, (∀ k, k ∈ l → h ≠ key k) → fold_left (put key val) l m !! h = m !! h).
Proof.
  induction l as [|k0 l IH]; intros m Hnd Hinj; [split; [by intros k H; apply not_elem_of_nil in H|done]|].
  apply NoDup_cons in Hnd as [Hnot Hnd]. cbn [fold_left].
  destruct (IH (put key val m k0) Hnd ltac:(intros k k' Hk Hk'; apply Hinj; by right)) as [H1 H2]. split.
  - intros k [->|Hin]%elem_of_cons; [|by apply H1]. rewrite H2; [unfold put; by rewrite lookup_partial_alter_eq|].
    intros k' Hk' E. apply Hnot. rewrite (Hinj k0 k' ltac:(by left) ltac:(by right) E). done.
  - intros h Hh. rewrite H2 by (intros k Hk; apply Hh; by right). unfold put. rewrite lookup_partial_alter_ne; [done|].
    intros E. apply (Hh k0); [by left|done].
Qed.

Section root.
Context {D T SN : Type} {B : Backend D T SN} {TS : TrieStore D T SN}.
Variable Keccak256Hash : bytes → Hash.
Abbreviation StateObject := (StateObject T).
Abbreviation StateDB := (StateDB D T SN).
Abbreviation updateRoot := (updateRoot Keccak256Hash).
Abbreviation slot_key k := (hashed (hash_bytes k)).
Abbreviation account_key a := (hashed (addr_bytes a)).

(** ** Storage *)

(** The slots of [p] are written over the map [m]. *)
Record slots_written (p : Storage) (m m' : gmap bytes bytes) : Prop := {
  sw_in k v : p !! k = Some v → m' !! slot_key k = slot_enc v;
  sw_out h : (∀ k, k ∈ dom p → h ≠ slot_key k) → m' !! h = m !! h;
}.

(** What a write leaves of an object. *)
Definition kept (o o' : StateObject) : Prop :=
  address o' = address o ∧ data o' = data o ∧ deleted o' = deleted o ∧ (obj_dbErr o ≠ None → obj_dbErr o' ≠ None).
Lemma kept_refl o : kept o o.
Proof. done. Qed.
Lemma obj_kept_trans o1 o2 o3 : kept o1 o2 → kept o2 o3 → kept o1 o3.
Proof. intros (H1 & H2 & H3 & H4) (H5 & H6 & H7 & H8). split_and!; [congruence..|auto]. Qed.
Lemma setError_kept e o : kept o (obj_setError e o) ∧ obj_dbErr (obj_setError e o) ≠ None.
Proof. unfold obj_setError. destruct (obj_dbErr o) eqn:E; [rewrite E|]; done. Qed.

Abbreviation put_slot := (put (λ kv : Hash * Hash, slot_key kv.1) (λ kv, slot_enc kv.2)).

(** One slot: the origin is only changed at the slot. *)
Lemma update_slot_ok s tr o st kv : ∃ tr' o' st', update_slot s (tr, o, st) kv = (tr', o', st') ∧ kept o o' ∧
  (∀ k, k ≠ kv.1 → originStorage o' !! k = originStorage o !! k) ∧
  ∀ m, m !! slot_key kv.1 = slot_enc (default 0 (originStorage o !! kv.1)) → holds tr m → obj_dbErr o' = None → holds tr' (put_slot m kv).
Proof.
  destruct kv as [key value]. cbn [fst snd]. unfold update_slot. destruct (Z.eqb_spec value (default 0 (originStorage o !! key))) as [Heq|Hne].
  { exists tr, o, st. split; [done|]. split; [apply kept_refl|]. split; [done|]. intros m Hm Ht _. unfold put. cbn [fst snd].
    rewrite Heq, partial_alter_id by (symmetry; exact Hm). done. }
  set (o1 := set_originStorage (<[key:=value]> (originStorage o)) o).
  assert (Ho1 : kept o o1 ∧ ∀ k, k ≠ key → originStorage o1 !! k = originStorage o !! k).
  { split; [done|]. intros k Hk. unfold o1. cbn. by rewrite lookup_insert_ne. }
  assert (Herr : ∀ e, kept o (obj_setError e o1) ∧ (∀ k, k ≠ key → originStorage (obj_setError e o1) !! k = originStorage o !! k) ∧ obj_dbErr (obj_setError e o1) ≠ None).
  { intros e. destruct (setError_kept e o1) as [Hk He]. split; [by eapply obj_kept_trans|]. split; [|done].
    intros k Hkey. unfold obj_setError. destruct (obj_dbErr o1); by apply Ho1. }
  destruct (value =? 0) eqn:E0.
  - destruct (TryDelete tr (hash_bytes key)) as [tr'|e] eqn:Ed; eexists _, _, _; (split; [reflexivity|]).
    + split; [apply Ho1|]. split; [apply Ho1|]. intros m _ Ht _. unfold put, slot_enc. cbn [fst snd]. rewrite E0. by eapply store_delete.
    + destruct (Herr (ReadError e)) as (H1 & H2 & H3). split; [exact H1|]. split; [exact H2|]. intros m _ _ H. by destruct (H3 H).
  - apply Z.eqb_neq in E0 as Hv0. destruct (slot_encodes value Hv0) as (enc & He & Hok & Hn). rewrite He. change (default [] (Some enc)) with enc.
    destruct (TryUpdate tr (hash_bytes key) enc) as [tr'|e] eqn:Ed; eexists _, _, _; (split; [reflexivity|]).
    + split; [apply Ho1|]. split; [apply Ho1|]. intros m _ Ht _. unfold put, slot_enc. cbn [fst snd]. rewrite E0, He. by eapply store_update.
    + destruct (Herr (ReadError e)) as (H1 & H2 & H3). split; [exact H1|]. split; [exact H2|]. intros m _ _ H. by destruct (H3 H).
Qed.

Lemma err_back o o' : kept o o' → obj_dbErr o' = None → obj_dbErr o = None.
Proof. intros (_ & _ & _ & H) E. destruct (obj_dbErr o); [|done]. by destruct H. Qed.

(** The loop over the slots. *)
Lemma update_slots_ok s l : ∀ tr o st, ∃ tr' o' st', fold_left (update_slot s) l (tr, o, st) = (tr', o', st') ∧ kept o o' ∧
  ∀ m, NoDup l.*1 → (∀ k k', k ∈ l.*1 → k' ∈ l.*1 → slot_key k = slot_key k' → k = k') →
    (∀ k, k ∈ l.*1 → m !! slot_key k = slot_enc (default 0 (originStorage o !! k))) → holds tr m → obj_dbErr o' = None →
    holds tr' (fold_left put_slot l m).
Proof.
  induction l as [|kv l IH]; intros tr o st; [exists tr, o, st; split; [done|]; split; [apply kept_refl|done]|].
  destruct (update_slot_ok s tr o st kv) as (tr1 & o1 & st1 & E1 & Hk1 & Ho1 & H1). destruct (IH tr1 o1 st1) as (tr2 & o2 & st2 & E2 & Hk2 & H2).
  exists tr2, o2, st2. cbn [fold_left]. rewrite E1. split; [done|]. split; [by eapply obj_kept_trans|].
  intros m Hnd Hinj Hm Ht He. cbn [fmap list_fmap] in *. apply NoDup_cons in Hnd as [Hnot Hnd].
  assert (Ht1 : holds tr1 (put_slot m kv)) by (apply H1; [apply Hm; by left|done|by eapply err_back]).
  apply H2; [done| | |done|done].
  - intros k k' Hk Hk'. apply Hinj; by right.
  - intros k Hk. assert (Hne : k ≠ kv.1) by (by intros ->). unfold put. rewrite lookup_partial_alter_ne, Ho1 by (done || (intros E; apply Hne; symmetry; apply Hinj; [by left|by right|done])).
    apply Hm. by right.
Qed.

Lemma map_keys (p : Storage) k : k ∈ (map_to_list p).*1 ↔ k ∈ dom p.
Proof.
  rewrite list_elem_of_fmap, elem_of_dom. split.
  - intros ([k' v] & -> & Hin). apply elem_of_map_to_list in Hin. by exists v.
  - intros [v Hv]. exists (k, v). split; [done|]. by apply elem_of_map_to_list.
Qed.

(** The storage trie of an object is loaded, or can be opened, and holds [m]; the origin of
    the slots to be written is what the trie holds. *)
Definition writes (o : StateObject) : Storage := dirtyStorage o ∪ pendingStorage o.
Record storage_at (d : D) (o : StateObject) (m : gmap bytes bytes) : Prop := {
  st_loaded t : obj_trie o = Some t → holds t m;
  st_open t : obj_trie o = None → OpenStorageTrie d (addrHash Keccak256Hash o) (acc_Root (data o)) = inl t → holds t m;
  st_root : obj_trie o = None → is_state_root m (acc_Root (data o));
  st_origin k : k ∈ dom (writes o) → m !! slot_key k = slot_enc (default 0 (originStorage o !! k));
  st_distinct k k' : k ∈ dom (writes o) → k' ∈ dom (writes o) → slot_key k = slot_key k' → k = k';
}.

(** The new root of an account. *)
Lemma updateRoot_ok s o m : pipeCommit s = false → storage_at (db s) o m →
  ∃ o' s', updateRoot s o = (o', s') ∧ address o' = address o ∧ deleted o' = deleted o ∧
    (∃ st, s' = set_snapStorage st s) ∧ (∃ r, data o' = with_root r (data o)) ∧ (obj_dbErr o ≠ None → obj_dbErr o' ≠ None) ∧
    (obj_dbErr o' = None → ∃ m', slots_written (writes o) m m' ∧ is_state_root m' (acc_Root (data o'))).
Proof.
  intros Hp [Hload Hopen Hroot Horig Hinj]. unfold StateObjects.updateRoot, updateTrie.
  assert (Hsame : ∀ st0 : StateDB, ∃ st, st0 = set_snapStorage st st0) by (intros st0; exists (snapStorage st0); by destruct st0).
  assert (Hdata : data o = with_root (acc_Root (data o)) (data o)) by (by destruct (data o)).
  set (o1 := obj_finalise Keccak256Hash s o).
  assert (Ho1 : kept o o1 ∧ pendingStorage o1 = writes o ∧ originStorage o1 = originStorage o ∧ obj_trie o1 = obj_trie o).
  { unfold o1, obj_finalise, corrected_root. rewrite Hp. done. }
  destruct Ho1 as (Hk1 & Hpend & Hori & Htr). clearbody o1. pose proof Hk1 as (Ha1 & Hd1 & Hde1 & He1). case_bool_decide as Hemp.
  - rewrite Hpend in Hemp. assert (Hw : slots_written (writes o) m m) by (rewrite Hemp; split; [by intros k v; rewrite lookup_empty|done]).
    destruct (obj_trie o1) as [t|] eqn:Et.
    + eexists _, s. split; [reflexivity|]. split_and!; try done; [rewrite <- Hd1; by eexists|]. intros _. exists m. split; [done|]. apply store_hash. apply Hload. congruence.
    + exists o1, s. split; [done|]. split_and!; try done; [rewrite Hd1; by eexists|]. intros _. exists m. split; [done|]. rewrite Hd1. apply Hroot. congruence.
  - destruct (getTrie Keccak256Hash (db s) o1) as [tr o2] eqn:Eg.
    assert (H2 : kept o1 o2 ∧ originStorage o2 = originStorage o ∧ pendingStorage o2 = writes o ∧ (obj_dbErr o2 = None → holds tr m)).
    { unfold getTrie in Eg. destruct (obj_trie o1) as [t|] eqn:Et.
      - injection Eg as <- <-. split; [apply kept_refl|]. split; [done|]. split; [done|]. intros _. apply Hload. congruence.
      - assert (Hah : addrHash Keccak256Hash o1 = addrHash Keccak256Hash o) by (unfold addrHash; by rewrite Ha1). rewrite Hah, Hd1 in Eg.
        destruct (OpenStorageTrie (db s) _ _) as [t|e] eqn:Eo; injection Eg as <- <-.
        + split; [done|]. split; [done|]. split; [done|]. intros _. apply Hopen; [congruence|done].
        + set (o2 := set_obj_trie _ o1). destruct (setError_kept (CantCreateStorageTrie e) o2) as [Hk Hne].
          split; [by eapply obj_kept_trans|]. split; [|split; [|by intros H; destruct (Hne H)]]; unfold obj_setError; by destruct (obj_dbErr o2). }
    destruct H2 as (Hk2 & Hori2 & Hpend2 & Ht2). rewrite Hpend2.
    destruct (update_slots_ok s (map_to_list (writes o)) tr o2 None) as (tr3 & o3 & st3 & E3 & Hk3 & H3). rewrite E3.
    assert (Hk : kept o o3) by (eapply obj_kept_trans; [done|by eapply obj_kept_trans]). destruct Hk as (Ha3 & Hd3 & Hde3 & He3).
    eexists _, _. split; [reflexivity|]. cbn [address data deleted obj_dbErr set_data set_pendingStorage set_obj_trie]. split_and!; [done|done| | |done|].
    + destruct st3; [by eexists|apply Hsame].
    + rewrite Hd3. by eexists.
    + intros Hnone. pose proof (NoDup_fst_map_to_list (writes o)) as Hnd. exists (fold_left put_slot (map_to_list (writes o)) m).
      assert (Hinj' : ∀ k k', k ∈ (map_to_list (writes o)).*1 → k' ∈ (map_to_list (writes o)).*1 → slot_key k = slot_key k' → k = k')
        by (intros k k'; rewrite !map_keys; apply Hinj).
      destruct (puts_written (λ kv, slot_key kv.1) (λ kv, slot_enc kv.2) (map_to_list (writes o)) m) as [W1 W2].
      { by apply NoDup_map_to_list. }
      { intros [k v] [k' v'] Hk Hk' Ekk. assert (k = k') as <-.
        { apply Hinj'; [apply list_elem_of_fmap; by exists (k, v)|apply list_elem_of_fmap; by exists (k', v')|exact Ekk]. }
        apply elem_of_map_to_list in Hk, Hk'. rewrite Hk in Hk'. by injection Hk' as <-. }
      split.
      * split; [intros k v Hkv; by apply (W1 (k, v)), elem_of_map_to_list|].
        intros h Hh. apply W2. intros [k v] Hkv. apply Hh, map_keys, list_elem_of_fmap. by exists (k, v).
      * apply store_hash, H3; [done|done| | |done].
        -- intros k. rewrite map_keys, Hori2. apply Horig.
        -- apply Ht2. by eapply err_back.
Qed.

(** ** Accounts *)

(** Before the root is computed: the pending accounts are loaded, and the living ones have
    a storage trie that holds [ms a]. *)
Record account_at (s : StateDB) (m : gmap bytes bytes) (a : Address) (o : StateObject) : Prop := {
  at_address : address o = a;
  at_data : deleted o = false → account_ok (data o);
  at_storage : deleted o = false → storage_at (db s) o m;
}.

Definition with_new_root (m : gmap bytes bytes) (o o' : StateObject) : Prop :=
  address o' = address o ∧ deleted o' = deleted o ∧
  if deleted o then o' = o
  else ∃ r, data o' = with_root r (data o) ∧ encodeData o' = Some (account_rlp (with_root r (data o))) ∧
    (obj_dbErr o' = None → ∃ m', slots_written (writes o) m m' ∧ is_state_root m' r).

Lemma account_root_ok s m a o : pipeCommit s = false → stateObjects s !! a = Some o → account_at s m a o →
  ∃ s' o', account_root Keccak256Hash a s = Some s' ∧ stateObjects s' = <[a := o']> (stateObjects s) ∧ with_new_root m o o' ∧
    db s' = db s ∧ pipeCommit s' = pipeCommit s ∧ trie s' = trie s ∧ stateObjectsPending s' = stateObjectsPending s ∧ dbErr s' = dbErr s ∧ originalRoot s' = originalRoot s.
Proof.
  intros Hp Ho [Ha Hd Hst]. unfold account_root. rewrite Ho. cbn [mbind option_bind]. destruct (deleted o) eqn:Edel.
  { exists s, o. split; [done|]. split; [by rewrite insert_id|]. unfold with_new_root. by rewrite Edel. }
  destruct (updateRoot_ok s o m Hp (Hst eq_refl)) as (o' & s1 & E & Ha' & Hdel' & (st & ->) & (r & Hr) & Herr & Hw). rewrite E.
  specialize (Hd eq_refl). assert (Hok : account_ok (data o')) by (by rewrite Hr). destruct (account_encodes (data o') Hok) as (Henc & _ & _).
  assert (Hslim : ∃ slim, SlimAccountRLP Keccak256Hash (data o') = Some slim).
  { unfold SlimAccountRLP. rewrite EncodeToBytes_ok.
    - cbn [to_item mapM SlimAccount_of sl_Balance]. destruct Hok. rewrite (proj2 (Z.ltb_ge _ _)) by lia. by eexists.
    - cbn [value_ok fold_right SlimAccount_of sl_Nonce sl_Root sl_CodeHash]. destruct Hok.
      split; [done|]. split; [done|]. split; [destruct (_ =? _); [done|apply be_encode_bytes]|]. split; [destruct (_ =? _); [done|apply be_encode_bytes]|done]. }
  destruct Hslim as [slim Hslim]. rewrite Hslim, Henc. cbn [mbind option_bind].
  set (o2 := set_encodeData (Some (account_rlp (data o'))) o').
  assert (Hnew : with_new_root m o o2).
  { unfold with_new_root. rewrite Edel. split; [exact Ha'|]. split; [exact (eq_trans Hdel' Edel)|]. exists r. split; [exact Hr|]. split; [cbn; by rewrite Hr|].
    intros Hn. destruct (Hw Hn) as (m' & W & R). exists m'. rewrite Hr in R. by split. }
  destruct (bool_decide _); cbn [mbind option_bind]; (eexists _, o2; split; [reflexivity|]; by split_and!).
Qed.

Lemma accounts_ok l ms : ∀ s, pipeCommit s = false → NoDup l → (∀ a, a ∈ l → ∃ o, stateObjects s !! a = Some o ∧ account_at s (ms a) a o) →
  ∃ s', fold_left (λ s a, s ← s; account_root Keccak256Hash a s) l (Some s) = Some s' ∧
    (∀ a, a ∉ l → stateObjects s' !! a = stateObjects s !! a) ∧
    (∀ a o, a ∈ l → stateObjects s !! a = Some o → ∃ o', stateObjects s' !! a = Some o' ∧ with_new_root (ms a) o o') ∧
    trie s' = trie s ∧ stateObjectsPending s' = stateObjectsPending s ∧ dbErr s' = dbErr s ∧ db s' = db s ∧ originalRoot s' = originalRoot s.
Proof.
  induction l as [|a l IH]; intros s Hp Hnd Hat; [exists s; split; [done|]; split; [done|]; split; [by intros a o H; apply not_elem_of_nil in H|done]|].
  apply NoDup_cons in Hnd as [Hnot Hnd]. destruct (Hat a ltac:(by left)) as (o & Ho & Hao).
  destruct (account_root_ok s (ms a) a o Hp Ho Hao) as (s1 & o1 & E1 & Hobj & Hnew & Hdb & Hp1 & Htr & Hpe & Her & Hor). rewrite Hp in Hp1.
  destruct (IH s1 Hp1 Hnd) as (s2 & E2 & Hout & Hin & Htr2 & Hpe2 & Her2 & Hdb2 & Hor2).
  { intros b Hb. destruct (Hat b ltac:(by right)) as (ob & Hob & [H1 H2 H3]). exists ob. assert (b ≠ a) by (by intros ->).
    rewrite Hobj, lookup_insert_ne by done. split; [done|]. split; [done|done|by rewrite Hdb]. }
  exists s2. cbn [fold_left mbind option_bind]. rewrite E1. split; [exact E2|]. split_and!; [| |congruence..].
  - intros b Hb. apply not_elem_of_cons in Hb as [Hba Hb]. by rewrite Hout, Hobj, lookup_insert_ne by done.
  - intros b ob [->|Hb]%elem_of_cons Hob.
    + exists o1. rewrite Hout, Hobj, lookup_insert_eq by done. rewrite Ho in Hob. by injection Hob as <-.
    + assert (b ≠ a) by (by intros ->). apply Hin; [done|]. by rewrite Hobj, lookup_insert_ne.
Qed.

(** Writing the accounts. *)
Definition account_entry (o : StateObject) (enc : bytes) : option bytes := if deleted o then None else Some enc.
Lemma write_account_ok s t a o enc : stateObjects s !! a = Some o → address o = a → (deleted o = false → encodeData o = Some enc ∧ val_ok enc ∧ enc ≠ []) →
  ∃ t' s', write_account (t, s) a = Some (t', s') ∧ (∃ e, s' = set_dbErr e s) ∧ (dbErr s ≠ None → dbErr s' ≠ None) ∧
    ∀ m, holds t m → dbErr s' = None → holds t' (partial_alter (λ _, account_entry o enc) (account_key a) m).
Proof.
  intros Ho Ha Henc. unfold write_account. rewrite Ho. cbn [mbind option_bind].
  assert (Hsame : ∀ st0 : StateDB, ∃ e, st0 = set_dbErr e st0) by (intros st0; exists (dbErr st0); by destruct st0).
  assert (Herr : ∀ e, (∃ e', db_setError e s = set_dbErr e' s) ∧ dbErr (db_setError e s) ≠ None).
  { intros e. unfold db_setError. destruct (dbErr s) eqn:E; [rewrite E; split; [apply Hsame|done]|by split; [eexists|]]. }
  unfold account_entry. destruct (deleted o).
  - unfold deleteStateObject. rewrite Ha. destruct (TryDelete t (addr_bytes a)) as [t'|e] eqn:Ed; eexists _, _; (split; [reflexivity|]).
    + split; [apply Hsame|]. split; [done|]. intros m Ht _. by eapply store_delete.
    + destruct (Herr (DeleteObjectError a e)) as [H1 H2]. split; [exact H1|]. split; [done|]. intros m _ H. by destruct (H2 H).
  - destruct (Henc eq_refl) as (He & Hok & Hn). unfold updateStateObject. rewrite He, Ha. cbn [mbind option_bind].
    destruct (TryUpdate t (addr_bytes a) enc) as [t'|e] eqn:Ed; eexists _, _; (split; [reflexivity|]).
    + split; [apply Hsame|]. split; [done|]. intros m Ht _. by eapply store_update.
    + destruct (Herr (UpdateObjectError a e)) as [H1 H2]. split; [exact H1|]. split; [done|]. intros m _ H. by destruct (H2 H).
Qed.

Lemma write_accounts_ok l ent encs : ∀ t s,
  (∀ a, a ∈ l → ∃ o, stateObjects s !! a = Some o ∧ address o = a ∧ ent a = account_entry o (encs a) ∧
     (deleted o = false → encodeData o = Some (encs a) ∧ val_ok (encs a) ∧ encs a ≠ [])) →
  ∃ t' s', fold_left (λ ts a, ts ← ts; write_account ts a) l (Some (t, s)) = Some (t', s') ∧ (∃ e, s' = set_dbErr e s) ∧
    (dbErr s ≠ None → dbErr s' ≠ None) ∧
    ∀ m, holds t m → dbErr s' = None → holds t' (fold_left (put (λ a, account_key a) ent) l m).
Proof.
  induction l as [|a l IH]; intros t s H.
  { exists t, s. split; [done|]. split; [exists (dbErr s); by destruct s|done]. }
  destruct (H a ltac:(by left)) as (o & Ho & Ha & He & Henc).
  destruct (write_account_ok s t a o (encs a) Ho Ha Henc) as (t1 & s1 & E1 & (e1 & ->) & Hmono & Hw).
  destruct (IH t1 (set_dbErr e1 s)) as (t2 & s2 & E2 & (e2 & ->) & Hmono2 & Hw2).
  { intros b Hb. apply (H b). by right. }
  exists t2, (set_dbErr e2 (set_dbErr e1 s)). cbn [fold_left mbind option_bind]. rewrite E1. split; [exact E2|]. split; [by eexists|]. split; [auto|].
  intros m Ht Hn. apply Hw2; [|done]. unfold put. rewrite He. apply Hw; [done|]. destruct (dbErr (set_dbErr e1 s)) eqn:E; [|done].
  exfalso. apply Hmono2; [congruence|done].
Qed.

(** ** The root of the state *)

(** An error that was remembered. *)
Definition failed (s : StateDB) : Prop := dbErr s ≠ None ∨ ∃ a o, stateObjects s !! a = Some o ∧ obj_dbErr o ≠ None.

(** The entry of an account in the state trie, once its storage, which was [m], is written. *)
Definition entry_of (m : gmap bytes bytes) (o : StateObject) (e : option bytes) : Prop :=
  if deleted o then e = None
  else ∃ m' r, slots_written (writes o) m m' ∧ is_state_root m' r ∧ e = EncodeToBytes (account_value (with_root r (data o))).

(** The accounts [pend] are written over the map [m]. *)
Record accounts_written (s : StateDB) (ms : Address → gmap bytes bytes) (m m' : gmap bytes bytes) : Prop := {
  aw_in a o : a ∈ stateObjectsPending s → stateObjects s !! a = Some o → entry_of (ms a) o (m' !! account_key a);
  aw_out h : (∀ a, a ∈ stateObjectsPending s → h ≠ account_key a) → m' !! h = m !! h;
}.

Lemma errors_or (l : list Address) (f : Address → option StateObject) :
  (∃ a o, f a = Some o ∧ obj_dbErr o ≠ None) ∨ ∀ a o, a ∈ l → f a = Some o → obj_dbErr o = None.
Proof.
  induction l as [|a l [H|H]]; [right; intros a o Ha; by apply not_elem_of_nil in Ha|by left|].
  destruct (f a) as [o|] eqn:E; [destruct (obj_dbErr o) eqn:Ee|].
  - left. exists a, o. split; [done|]. by rewrite Ee.
  - right. intros b ob [->|Hb]%elem_of_cons Hob; [rewrite E in Hob; by injection Hob as <-|eauto].
  - right. intros b ob [->|Hb]%elem_of_cons Hob; [by rewrite E in Hob|eauto].
Qed.

Lemma roots_ok s t m ms : pipeCommit s = false → trie s = Some t → holds t m →
  (∀ a, a ∈ stateObjectsPending s → ∃ o, stateObjects s !! a = Some o ∧ account_at s (ms a) a o) →
  (∀ a b, a ∈ stateObjectsPending s → b ∈ stateObjectsPending s → account_key a = account_key b → a = b) →
  ∃ h s' t', (s ← AccountsIntermediateRoot Keccak256Hash s; StateIntermediateRoot s) = Some (h, s') ∧
    trie s' = Some t' ∧ stateObjectsPending s' = ∅ ∧
    (failed s' ∨ ∃ m', holds t' m' ∧ is_state_root m' h ∧ accounts_written s ms m m').
Proof.
  intros Hp Htr Ht Hat Hinj. unfold AccountsIntermediateRoot. set (l := elements (stateObjectsPending s)).
  assert (Hl : ∀ a, a ∈ l ↔ a ∈ stateObjectsPending s) by (intros a; apply elem_of_elements).
  destruct (accounts_ok l ms s Hp (NoDup_elements _) (λ a H, Hat a (proj1 (Hl a) H))) as (s1 & E1 & Hout & Hin & Htr1 & Hpe1 & Her1 & _ & _).
  rewrite E1. cbn [mbind option_bind]. unfold StateIntermediateRoot. rewrite Htr1, Htr. cbn [mbind option_bind]. rewrite Hpe1. fold l.
  set (obj a := stateObjects s1 !! a).
  set (encs a := match obj a with Some o => default [] (encodeData o) | None => [] end).
  set (ent a := match obj a with Some o => account_entry o (encs a) | None => None end).
  assert (Hnew : ∀ a, a ∈ l → ∃ o o', stateObjects s !! a = Some o ∧ obj a = Some o' ∧ address o' = a ∧ with_new_root (ms a) o o' ∧
    (deleted o = false → encodeData o' = Some (encs a) ∧ val_ok (encs a) ∧ encs a ≠ [])).
  { intros a Ha. destruct (Hat a (proj1 (Hl a) Ha)) as (o & Ho & [Had Hd _]). destruct (Hin a o Ha Ho) as (o' & Ho' & Hn). exists o, o'.
    pose proof Hn as (Ha' & Hde & Hr). split; [done|]. split; [exact Ho'|]. split; [congruence|]. split; [done|]. intros Hdel. rewrite Hdel in Hr. destruct Hr as (r & _ & He & _).
    assert (Er : encs a = account_rlp (with_root r (data o))) by (unfold encs, obj; by rewrite Ho', He). rewrite Er. split; [done|].
    destruct (account_encodes (with_root r (data o)) (Hd Hdel)) as (_ & Hv & Hne). done. }
  destruct (write_accounts_ok l ent encs t s1) as (t2 & s2 & E2 & (e2 & ->) & Hmono & Hw).
  { intros a Ha. destruct (Hnew a Ha) as (o & o' & _ & Ho' & Had & (_ & Hde & _) & Henc). exists o'. split; [exact Ho'|]. split; [done|].
    split; [unfold ent; by rewrite Ho'|]. by rewrite Hde. }
  rewrite E2. cbn [mbind option_bind]. eexists _, _, t2. split; [reflexivity|]. split; [done|]. split; [done|].
  destruct e2 as [e|]; [left; by left|]. destruct (errors_or l obj) as [(a & o & Ho & He)|Hok]; [left; right; by exists a, o|]. right.
  destruct (puts_written (λ a, account_key a) ent l m) as [W1 W2]; [apply NoDup_elements|intros a b Ha Hb; apply Hinj; by apply Hl|].
  exists (fold_left (put (λ a, account_key a) ent) l m). assert (Ht2 := Hw m Ht eq_refl). split; [done|]. split; [by apply store_hash|]. split.
  - intros a o Hpa Ho. apply Hl in Hpa. rewrite W1 by done. destruct (Hnew a Hpa) as (o0 & o' & Ho0 & Ho' & _ & (_ & Hde & Hr) & Henc).
    rewrite Ho in Ho0. injection Ho0 as <-. unfold entry_of, ent. rewrite Ho'. unfold account_entry. rewrite Hde. destruct (deleted o) eqn:Edel; [done|].
    destruct Hr as (r & _ & He & Hroot). destruct (Hroot (Hok a o' Hpa Ho')) as (m' & Hm' & Hr'). exists m', r. split; [done|]. split; [done|].
    destruct (Henc eq_refl) as (He' & _). rewrite He in He'. injection He' as <-.
    destruct (Hat a (proj1 (Hl a) Hpa)) as (o1 & Ho1 & [_ Hd _]). rewrite Ho in Ho1. injection Ho1 as <-. symmetry. apply (account_encodes (with_root r (data o)) (Hd Edel)).
  - intros h Hh. apply W2. intros a Ha. by apply Hh, Hl.
Qed.

(** C11 The state root commits to the accounts.  [IntermediateRoot] never panics on a state
    whose pending accounts are loaded; unless an error was remembered, it returns the root of
    the map that has, for every account the block touched, its encoding with the root of its
    storage after the slots were written, nothing for deleted accounts, and what it had for
    all the others, whatever order the maps of Go are iterated in. *)
Theorem IntermediateRoot_commits (deleteEmptyObjects : bool) (s : StateDB) (t : T) (m : gmap bytes bytes) (ms : Address → gmap bytes bytes) :
  let s1 := Finalise Keccak256Hash deleteEmptyObjects s in
  lightProcessed s = false → pipeCommit s1 = false → trie s1 = Some t → holds t m →
  (∀ a, a ∈ stateObjectsPending s1 → ∃ o, stateObjects s1 !! a = Some o ∧ account_at s1 (ms a) a o) →
  (∀ a b, a ∈ stateObjectsPending s1 → b ∈ stateObjectsPending s1 → account_key a = account_key b → a = b) →
  ∃ h s' t', IntermediateRoot Keccak256Hash deleteEmptyObjects s = Some (h, s') ∧
    trie s' = Some t' ∧ stateObjectsPending s' = ∅ ∧
    (failed s' ∨ ∃ m', holds t' m' ∧ is_state_root m' h ∧ accounts_written s1 ms m m').
Proof. intros s1 Hlp Hp Htr Ht Hat Hinj. unfold IntermediateRoot. rewrite Hlp. by apply (roots_ok s1 t). Qed.
End root.
