(* ===== verification/StateTries.v ===== *)
(** * The state on Merkle tries

    The database of [core/state/database.go] and the tries it opens implement the
    interface [Backend] the state database is verified against: the laws hold, and a trie
    holds a map from hashed keys to values. *)

From S2P Require Import Prelude Rlp RlpStream StateData StateRefine TrieEncoding TrieNode Trie TrieSpec TrieTree TrieHash TrieRefine TrieCodec.
From S2P Require Import TrieMap TrieBind TrieCommit SecureTrie StateRoot.

Section tries.
Variable Keccak256Hash : bytes → Hash.
(** The nodes that are ever stored: no two have the same hash, and none has that of the
    empty trie or the zero hash. *)
Variable U : tree → Prop.
Context (HU : universe Keccak256Hash U).
Context (HR : ∀ t, U t → canon t → BytesToHash (tree_hash Keccak256Hash t) ≠ emptyRoot ∧ BytesToHash (tree_hash Keccak256Hash t) ≠ 0).

Abbreviation represents := (represents Keccak256Hash true).
Abbreviation is_root := (is_root Keccak256Hash).
Abbreviation hashKey := (hashKey Keccak256Hash).
Abbreviation db_sound := (db_sound Keccak256Hash U).

(** The nodes of the map may be stored. *)
Definition storable (m : gmap bytes bytes) : Prop := ∀ t, contents m t → canon t → U t.
Lemma storable_empty : storable ∅.
Proof. intros t Hc Hcan. rewrite (contents_tree ∅ t TNil) in Hcan by (done || apply contents_empty). inversion Hcan. Qed.

(** A root is the root of one map. *)
Lemma root_of_empty t : (t = TNil ∨ canon t) → (canon t → U t) → root_of Keccak256Hash t = emptyRoot → t = TNil.
Proof.
  intros [->|Hc] Ht E; [done|]. rewrite root_of_canon in E by done. by destruct (HR t (Ht Hc) Hc).
Qed.
Lemma is_root_unique m m' r : storable m → storable m' → is_root m r → is_root m' r → m = m'.
Proof.
  intros Hs Hs' (t & Hc & ->) (t' & Hc' & E). assert (t = t') as <-; [|by eapply contents_map].
  destruct (co_canon _ _ Hc) as [->|Hcan].
  - symmetry. apply root_of_empty; [apply Hc'|by apply Hs'|]. by rewrite <- E.
  - destruct (co_canon _ _ Hc') as [->|Hcan']; [apply root_of_empty; [apply Hc|by apply Hs|exact E]|].
    rewrite !root_of_canon in E by done. by apply (node_key_inj Keccak256Hash U HU); [apply Hs|apply Hs'|..].
Qed.

(** ** Sound databases *)

Lemma sound_backed db t : db_sound db → is_child t → (canon t → U t) → ∀ top, backed Keccak256Hash db true top t.
Proof.
  intros Hso Hch Ht.
  assert (He : ∀ t, U t → canon t → entry Keccak256Hash db true t).
  { intros u Hu Hc. destruct (db_sound_node Keccak256Hash U HU db u Hso Hu Hc) as [E|(_ & _ & _ & E)]; [by left|by right]. }
  destruct Hch as [->|[[v ->]|Hcan]]; [constructor..|]. specialize (Ht Hcan). revert Ht.
  induction Hcan as [p v Hp Hv|p cs Hp Hne Hc IH|cs Hl Hk IH Hv Htwo]; intros Ht top.
  - constructor; [|constructor]. intros _. apply He; [done|by constructor].
  - constructor; [intros _; apply He; [done|by constructor]|]. apply IH. eapply (un_closed _ _ HU); [apply sub_short, sub_refl|done].
  - pose proof (canon_full cs Hl Hk Hv Htwo) as Hcan. constructor; [intros _; by apply He|]. intros i c Hi.
    destruct (full_is_child cs i c Hcan Hi) as [->|[[v ->]|Hcc]]; [constructor..|].
    destruct (decide (i = 16%nat)) as [->|].
    + destruct (Hv c Hi ltac:(by destruct Hcc)) as (v & _ & ->). constructor.
    + apply lookup_lt_Some in Hi as Hlt. apply (IH i c); [lia|done|by destruct Hcc|]. eapply (un_closed _ _ HU); [by eapply sub_full, sub_refl|done].
Qed.

Lemma Trie_New_sound db m r : db_sound db → storable m → is_root m r →
  match Trie_New r db with
  | Ret _ tr => tr_db tr = db ∧ represents tr m
  | Fail e _ => missing db true e
  | _ => False
  end.
Proof.
  intros Hso Hs (t & Hc & ->). destruct (co_canon _ _ Hc) as [->|Hcan].
  { rewrite (contents_map m ∅ TNil) by (done || apply contents_empty). split; [done|]. apply represents_new. }
  rewrite root_of_canon by done. destruct (HR t (Hs t Hc Hcan) Hcan) as [He Hz].
  pose proof (Trie_New_ok Keccak256Hash true t _ db Hcan eq_refl Hz He (sound_backed db t Hso ltac:(by right; right) (Hs t Hc) true)) as Hn.
  destruct (Trie_New _ db) as [u tr|e tr|p|]; try done. destruct Hn as [Hd Hst]. split; [done|]. exists t. by rewrite Hd.
Qed.

(** What the caches hold is what they are asked for. *)
Definition cached_ok (db : Database) (r : Hash) (t : SecureTrie) : Prop :=
  ∃ m, storable m ∧ is_root m r ∧ represents (set_tr_db db (st_trie t)) m.
Record cd_ok (db : cachingDB) : Prop := {
  cd_nodes : db_sound (cd_db db);
  cd_accounts c r t : accountTrieCache db = Some c → c !! r = Some t → cached_ok (cd_db db) r t;
  cd_storage c a ps p : storageTrieCache db = Some c → c !! a = Some ps → p ∈ ps → cached_ok (cd_db db) (tp_root p) (tp_trie p);
  cd_codes h code : codeCache db !! h = Some code → code = ReadCode db h;
  cd_sizes h n : codeSizeCache db !! h = Some n → n = zlen (ReadCode db h) ∧ 0 < n;
}.

(** What opening a root gives. *)
Definition opened (db : cachingDB) (m : gmap bytes bytes) (o : outcome trie_error Trie SecureTrie) : Prop :=
  match o with
  | Ret t _ => tr_db (st_trie t) = cd_db db ∧ represents (st_trie t) m
  | Fail e _ => missing (cd_db db) true e
  | _ => False
  end.
Lemma open_new_ok db m r : cd_ok db → storable m → is_root m r → opened db m (open_new db r).
Proof.
  intros Hok Hs Hr. pose proof (Trie_New_sound (cd_db db) m r (cd_nodes _ Hok) Hs Hr) as H. unfold open_new, NewSecure.
  by destruct (Trie_New r (cd_db db)).
Qed.
Lemma cached_open db m r t : storable m → is_root m r → cached_ok (cd_db db) r t → opened db m (cached_trie db t).
Proof. intros Hs Hr (m' & Hs' & Hr' & H). rewrite (is_root_unique m m' r) by done. by split. Qed.

Lemma OpenTrie_ok db m r : cd_ok db → storable m → is_root m r → opened db m (cd_OpenTrie db r).
Proof.
  intros Hok Hs Hr. unfold cd_OpenTrie. destruct (accountTrieCache db) as [c|] eqn:Ec; cbn [mbind option_bind]; [|by eapply open_new_ok].
  destruct (c !! r) as [t|] eqn:Et; [|by eapply open_new_ok]. eapply cached_open; [done..|]. by eapply cd_accounts.
Qed.
Lemma OpenStorageTrie_ok db m a r : cd_ok db → storable m → is_root m r → opened db m (cd_OpenStorageTrie db a r).
Proof.
  intros Hok Hs Hr. unfold cd_OpenStorageTrie. destruct (storageTrieCache db) as [c|] eqn:Ec; cbn [mbind option_bind]; [|by eapply open_new_ok].
  destruct (c !! a) as [ps|] eqn:Ep; cbn [mbind option_bind]; [|by eapply open_new_ok].
  destruct (find_pair r ps) as [p|] eqn:Ef; [|by eapply open_new_ok]. apply find_some in Ef as [Hin Er]. apply Z.eqb_eq in Er.
  eapply cached_open; [done|done|]. rewrite <- Er. eapply cd_storage; [done..|]. by apply list_elem_of_In.
Qed.

(** The operations that fill the caches keep them right. *)
Lemma CacheAccount_ok db r t m : cd_ok db → storable m → is_root m r → tr_db (st_trie t) = cd_db db → represents (st_trie t) m →
  cd_ok (CacheAccount r t db).
Proof.
  intros [H1 H2 H3 H4 H5] Hs Hr Hd Ht. split; cbn [CacheAccount with_caches cd_db accountTrieCache storageTrieCache codeCache codeSizeCache]; try done.
  intros c r' t' Hc Ht'. destruct (accountTrieCache db) as [c0|]; [|done]. injection Hc as <-. apply lookup_insert_Some in Ht' as [[<- <-]|[_ Ht']]; [|by eapply H2].
  exists m. split; [done|]. split; [done|]. unfold TrieMap.represents. cbn. by rewrite <- Hd.
Qed.
Lemma CacheStorage_ok db a r t m : cd_ok db → storable m → is_root m r → tr_db (st_trie t) = cd_db db → represents (st_trie t) m →
  cd_ok (CacheStorage a r t db).
Proof.
  intros [H1 H2 H3 H4 H5] Hs Hr Hd Ht. split; cbn [CacheStorage with_caches cd_db accountTrieCache storageTrieCache codeCache codeSizeCache]; try done.
  intros c a' ps p Hc Hps Hp. destruct (storageTrieCache db) as [c0|]; [|done]. injection Hc as <-.
  apply lookup_insert_Some in Hps as [[<- <-]|[_ Hps]]; [|by eapply H3]. apply elem_of_cons in Hp as [->|Hp].
  - exists m. split; [done|]. split; [done|]. unfold TrieMap.represents. cbn. by rewrite <- Hd.
  - apply list_elem_of_lookup in Hp as [i Hi]. apply lookup_take_Some in Hi as [Hi _]. destruct (c0 !! a) as [ps0|] eqn:E0; [|done].
    eapply H3; [done|exact E0|]. by eapply list_elem_of_lookup_2.
Qed.
Lemma Purge_ok db : cd_ok db → cd_ok (Purge db).
Proof.
  intros [H1 H2 H3 H4 H5]. split; cbn [Purge with_caches cd_db accountTrieCache storageTrieCache codeCache codeSizeCache]; try done.
  - intros c r t Hc. destruct (accountTrieCache db); [|done]. injection Hc as <-. by rewrite lookup_empty.
  - intros c a ps p Hc. destruct (storageTrieCache db); [|done]. injection Hc as <-. by rewrite lookup_empty.
Qed.
Lemma new_db_ok nodes codes : db_sound nodes → cd_ok (NewDatabaseWithConfigAndCache nodes codes).
Proof.
  intros H. split; cbn; try done; intros c; [intros r t [= <-]|intros a ps p [= <-]]; by rewrite lookup_empty.
Qed.

(** ** Code *)

Lemma ContractCode_ok db a h : cd_ok db →
  (cd_ContractCode db a h).1 = (if 0 <? zlen (ReadCode db h) then Some (ReadCode db h) else None) ∧ cd_ok (cd_ContractCode db a h).2.
Proof.
  intros Hok. unfold cd_ContractCode.
  assert (Hread : ∀ db', db' = (if 0 <? zlen (ReadCode db h) then add_code h (ReadCode db h) db else db) → cd_ok db').
  { intros db' ->. destruct (Z.ltb_spec 0 (zlen (ReadCode db h))); [|done]. destruct Hok as [H1 H2 H3 H4 H5].
    split; cbn [add_code cd_db accountTrieCache storageTrieCache codeCache codeSizeCache]; try done.
    - intros h' code. rewrite lookup_insert_Some. intros [[<- <-]|[_ Hc]]; [done|by apply H4].
    - intros h' n. rewrite lookup_insert_Some. intros [[<- <-]|[_ Hc]]; [done|by apply H5]. }
  destruct (codeCache db !! h) as [code|] eqn:Ec.
  - pose proof (cd_codes _ Hok h code Ec) as ->. destruct (0 <? zlen (ReadCode db h)) eqn:E; [done|]. done.
  - destruct (0 <? zlen (ReadCode db h)); (split; [done|]); by apply Hread.
Qed.
Lemma ContractCodeSize_ok db a h : cd_ok db →
  (cd_ContractCodeSize db a h).1 = zlen <$> (cd_ContractCode db a h).1 ∧ cd_ok (cd_ContractCodeSize db a h).2.
Proof.
  intros Hok. pose proof (ContractCode_ok db a h Hok) as [E Hok']. unfold cd_ContractCodeSize.
  destruct (codeSizeCache db !! h) as [n|] eqn:Es.
  - destruct (cd_sizes _ Hok h n Es) as [-> Hn]. split; [|done]. rewrite E, (proj2 (Z.ltb_lt _ _) Hn). done.
  - by destruct (cd_ContractCode db a h).
Qed.
(** ** Sessions *)

(** A trie over the node database of the state's, with the content [m]. *)
Record trie_of (db : cachingDB) (t : SecureTrie) (m : gmap bytes bytes) : Prop := {
  to_storable : storable m;
  to_nodes : tr_db (st_trie t) = cd_db db;
  to_content : represents (st_trie t) m;
}.

(** What is done with the database: a trie is filed under the hash it has, the caches are
    purged, code is read, a trie is committed to the node database. *)
Inductive cd_step : cachingDB → cachingDB → Prop :=
| cs_account db t m r t' : trie_of db t m → Secure_Hash Keccak256Hash t = Ret r t' → cd_step db (CacheAccount r t db)
| cs_storage db a t m r t' : trie_of db t m → Secure_Hash Keccak256Hash t = Ret r t' → cd_step db (CacheStorage a r t db)
| cs_purge db : cd_step db (Purge db)
| cs_code db a h : cd_step db (cd_ContractCode db a h).2
| cs_size db a h : cd_step db (cd_ContractCodeSize db a h).2
| cs_commit db t m r t' : trie_of db t m → Secure_Commit Keccak256Hash t = Ret r t' →
    cd_step db (with_nodes (tr_db (st_trie t')) db).
Definition session : cachingDB → cachingDB → Prop := rtc cd_step.

(** What commits leave as it was. *)
Definition same_codes (db db' : cachingDB) : Prop :=
  diskdb (cd_db db') = diskdb (cd_db db) ∧ prefixed_codes db' = prefixed_codes db.
Lemma same_codes_read db db' h : same_codes db db' → ReadCode db' h = ReadCode db h.
Proof. intros [E1 E2]. unfold ReadCode, ReadCodeWithPrefix. by rewrite E1, E2. Qed.

Lemma grown db db' n m t : TrieCommit.grows db db' → db_sound db → db_sound db' → storable m → contents m t →
  stands Keccak256Hash db true true n t → stands Keccak256Hash db' true true n t.
Proof.
  intros Hg Hso Hso' Hs Hc Hst. destruct (co_canon _ _ Hc) as [->|Hcan].
  - apply stands_tnil in Hst as ->. constructor.
  - apply (stands_grows Keccak256Hash U true HU db); try done; [by right; right|by apply Hs].
Qed.

Lemma committed_ok tr m h tr' : db_sound (tr_db tr) → storable m → represents tr m → Trie_Commit Keccak256Hash tr = Ret h tr' →
  TrieCommit.grows (tr_db tr) (tr_db tr') ∧ db_sound (tr_db tr').
Proof.
  intros Hso Hs Hr Hcm. pose proof Hr as (t & Hc & Hst). destruct (co_canon _ _ Hc) as [->|Hcan].
  - apply stands_tnil in Hst. unfold Trie_Commit, bind, gets in Hcm. rewrite Hst in Hcm. injection Hcm as _ <-.
    split; [apply grows_refl|done].
  - assert (HUm : ∀ t', contents m t' → U t') by (intros t' Hc'; rewrite (contents_tree m t' t) by done; by apply Hs).
    pose proof (Trie_Commit_ok Keccak256Hash true U tr m HU HUm Hso Hr) as Hw. unfold wp in Hw. rewrite Hcm in Hw.
    by destruct Hw as (_ & Hg & Hso' & _).
Qed.

Lemma secure_commit_trie t r t' : Secure_Commit Keccak256Hash t = Ret r t' →
  ∃ tr', Trie_Commit Keccak256Hash (st_trie t) = Ret r tr' ∧ st_trie t' = tr'.
Proof.
  unfold Secure_Commit, on_trie, bind, gets, modify.
  destruct (_ =? 0)%nat; cbn [st_trie with_keys]; destruct (Trie_Commit _ _) as [h tr|e tr|p|]; try done; intros [= <- <-]; by exists tr.
Qed.

Lemma with_nodes_ok db nodes : cd_ok db → TrieCommit.grows (cd_db db) nodes → db_sound nodes → cd_ok (with_nodes nodes db).
Proof.
  intros [H1 H2 H3 H4 H5] Hg Hso.
  assert (Hread : ∀ h, ReadCode (with_nodes nodes db) h = ReadCode db h).
  { intros h. apply same_codes_read. split; [apply Hg|done]. }
  assert (Hc : ∀ r t, cached_ok (cd_db db) r t → cached_ok nodes r t).
  { intros r t (m & Hs & Hr & (u & Hu & Hst)). exists m. split_and!; [done|done|]. exists u. split; [done|].
    cbn [tr_db root set_tr_db] in *. by apply (grown (cd_db db) nodes _ m). }
  split; cbn [with_nodes cd_db accountTrieCache storageTrieCache codeCache codeSizeCache]; try done.
  - intros c r t Ec Et. apply Hc. by eapply H2.
  - intros c a ps p Ec Ep Hp. apply Hc. by eapply H3.
  - intros h code Eh. rewrite Hread. by apply H4.
  - intros h n Eh. rewrite Hread. by apply H5.
Qed.

Lemma code_frame db a h : same_codes db (cd_ContractCode db a h).2.
Proof.
  unfold cd_ContractCode. destruct (codeCache db !! h) as [code|]; [destruct (0 <? zlen code); [done|]|];
    by destruct (0 <? zlen (ReadCode db h)).
Qed.

Lemma step_ok db db' : cd_step db db' → cd_ok db → cd_ok db' ∧ same_codes db db'.
Proof.
  assert (Hroot : ∀ db t m r t', trie_of db t m → Secure_Hash Keccak256Hash t = Ret r t' → is_root m r).
  { intros db0 t m r t' [_ _ Ht] H. pose proof (Trie_hash_ok Keccak256Hash true (st_trie t) m Ht) as Hw. unfold wp in Hw.
    unfold Secure_Hash, on_trie in H. destruct (Trie_hash _ _) as [h tr|e tr|p|]; try done. injection H as <- _. apply Hw. }
  intros Hst Hok. destruct Hst as [db t m r t' Ht Hh|db a t m r t' Ht Hh|db|db a h|db a h|db t m r t' [Hs Hd Hr] Hc].
  - split; [|done]. eapply CacheAccount_ok; [done|apply Ht|by eapply Hroot|apply Ht|apply Ht].
  - split; [|done]. eapply CacheStorage_ok; [done|apply Ht|by eapply Hroot|apply Ht|apply Ht].
  - split; [by apply Purge_ok|done].
  - split; [by apply ContractCode_ok|apply code_frame].
  - split; [by apply ContractCodeSize_ok|]. pose proof (code_frame db a h) as Hf. unfold cd_ContractCodeSize.
    destruct (codeSizeCache db !! h); [done|]. by destruct (cd_ContractCode db a h).
  - apply secure_commit_trie in Hc as (tr' & Hc & ->). pose proof (cd_nodes _ Hok) as Hn. rewrite <- Hd in Hn.
    destruct (committed_ok _ _ _ _ Hn Hs Hr Hc) as [Hg Hso]. rewrite Hd in Hg.
    split; [by apply with_nodes_ok|]. split; [apply Hg|done].
Qed.

Lemma session_ok db db' : session db db' → cd_ok db → cd_ok db' ∧ same_codes db db'.
Proof.
  induction 1 as [db|db db1 db' H1 _ IH]; intros Hok; [done|]. destruct (step_ok _ _ H1 Hok) as [Hok1 [E1 E2]].
  destruct (IH Hok1) as [Hok' [E3 E4]]. split; [done|]. split; congruence.
Qed.

(** The databases a session starts with: no trie caches, or empty ones. *)
Definition fresh (nodes : Database) (codes : gmap Hash bytes) (db : cachingDB) : Prop :=
  db = NewDatabase nodes codes ∨ db = NewDatabaseWithConfigAndCache nodes codes.
Lemma fresh_ok nodes codes db : db_sound nodes → fresh nodes codes db → cd_ok db.
Proof. intros H [-> | ->]; [by split|by apply new_db_ok]. Qed.

(** ** The interface of the state database *)

(** A trie that holds nothing. *)
Lemma empty_get tr k : represents tr ∅ → ∃ tr', TryGet k tr = Ret None tr'.
Proof.
  intros (t & Hc & Hst). rewrite (contents_tree ∅ t TNil) in Hst by (done || apply contents_empty). apply stands_tnil in Hst.
  unfold TryGet, gets, bind. rewrite Hst. unfold key_fuel. rewrite Nat.add_comm. cbn [Nat.add tryGet]. by eexists.
Qed.

Record good_db := { gd : cachingDB; gd_ok : cd_ok gd }.

Context {SN : Type} (account : SN → Hash → option SlimAccount + error) (slot : SN → Hash → Hash → bytes + error) (corrected : SN → bool).
Context (slots_have_accounts : ∀ sn h key enc, slot sn h key = inl enc → enc ≠ [] → ∃ acc, account sn h = inl (Some acc)).

Definition opened_trie (o : outcome trie_error Trie SecureTrie) : SecureTrie + error :=
  match o with Ret t _ => inl t | Fail _ _ => inr "missing trie node"%string | _ => inr "panic"%string end.
Definition no_trie (db : cachingDB) : SecureTrie :=
  {| st_trie := {| tr_db := cd_db db; root := nilNode; unhashed := 0 |}; secKeyCache := ∅; is_owner := false |}.

#[local] Instance trie_backend : Backend good_db SecureTrie SN := {|
  OpenTrie d r := opened_trie (cd_OpenTrie (gd d) r);
  OpenStorageTrie d a r := opened_trie (cd_OpenStorageTrie (gd d) a r);
  EmptyStorageTrie d a := match opened_trie (cd_OpenStorageTrie (gd d) a 0) with inl t => t | inr _ => no_trie (gd d) end;
  ContractCode d a h := match (cd_ContractCode (gd d) a h).1 with Some c => inl c | None => inr "not found"%string end;
  ContractCodeSize d a h := match (cd_ContractCodeSize (gd d) a h).1 with Some n => inl n | None => inr "not found"%string end;
  StateData.TryGet t k := match Secure_TryGet Keccak256Hash k t with
                          | Ret v _ => inl (default [] v) | Fail _ _ => inr "missing trie node"%string | _ => inr "panic"%string end;
  StateData.TryUpdate t k v := match Secure_TryUpdate Keccak256Hash k v t with
                               | Ret _ t => inl t | Fail _ _ => inr "missing trie node"%string | _ => inr "panic"%string end;
  StateData.TryDelete t k := match Secure_TryDelete Keccak256Hash k t with
                             | Ret _ t => inl t | Fail _ _ => inr "missing trie node"%string | _ => inr "panic"%string end;
  StateData.Trie_Hash t := match Secure_Hash Keccak256Hash t with Ret h _ => h | _ => 0 end;
  snap_Account := account;
  snap_Storage := slot;
  AccountsCorrected := corrected;
|}.

Lemma secure_empty t k : represents (st_trie t) ∅ → StateData.TryGet t k = inl [].
Proof. intros H. cbn. unfold Secure_TryGet, on_trie. destruct (empty_get (st_trie t) (hashKey k) H) as [tr' ->]. done. Qed.

Lemma is_root_empty : is_root ∅ emptyRoot.
Proof. exists TNil. split; [apply contents_empty|done]. Qed.

#[local] Instance trie_laws : BackendLaws good_db SecureTrie SN.
Proof.
  split.
  - intros d h key t. cbn. pose proof (OpenStorageTrie_ok (gd d) ∅ h emptyRoot (gd_ok d) storable_empty is_root_empty) as Ho.
    unfold opened in Ho. destruct (cd_OpenStorageTrie (gd d) h emptyRoot) as [t' tr|e tr|p|]; try done. cbn. intros [= <-].
    apply secure_empty, Ho.
  - intros d h key.
    assert (Hz : represents (st_trie (EmptyStorageTrie d h)) ∅); [|by apply secure_empty]. cbn.
    unfold cd_OpenStorageTrie.
    assert (Hnew : represents (st_trie (match opened_trie (open_new (gd d) 0) with inl t => t | inr _ => no_trie (gd d) end)) ∅) by (cbn; apply represents_new).
    destruct (storageTrieCache (gd d)) as [c|] eqn:Ec; cbn [mbind option_bind]; [|done]. destruct (c !! h) as [ps|] eqn:Ep; cbn [mbind option_bind]; [|done].
    destruct (find_pair 0 ps) as [p|] eqn:Ef; [|done]. exfalso. apply find_some in Ef as [Hin Er]. apply Z.eqb_eq in Er.
    destruct (cd_storage _ (gd_ok d) c h ps p Ec Ep ltac:(by apply list_elem_of_In)) as (m & Hs & (t & Hc & E) & _). rewrite Er in E.
    destruct (co_canon _ _ Hc) as [->|Hcan]; [done|]. rewrite root_of_canon in E by done. by destruct (HR t (Hs t Hc Hcan) Hcan).
  - apply slots_have_accounts.
  - intros d a h. cbn. destruct (ContractCodeSize_ok (gd d) a h (gd_ok d)) as [-> _].
    destruct (cd_ContractCode (gd d) a h).1; cbn; [done|by eexists].
Qed.

Lemma hashKey_ok k : key_ok (hashKey k).
Proof. split; [apply be_encode_bytes|]. unfold zlen, SecureTrie.hashKey, hash_bytes. by rewrite length_be_encode. Qed.

(** What the methods of a trie do to its map. *)
Lemma secure_get t m k : represents (st_trie t) m → StateData.TryGet t k = inl (default [] (m !! hashKey k)) ∨ ∃ e, StateData.TryGet t k = inr e.
Proof.
  intros H. pose proof (TryGet_ok Keccak256Hash true (st_trie t) m (hashKey k) H (hashKey_ok k)) as Hw. unfold wp in Hw.
  unfold StateData.TryGet, trie_backend, Secure_TryGet, on_trie. destruct (TryGet (hashKey k) (st_trie t)) as [v tr|e tr|p|]; [|right; by eexists|destruct Hw..].
  left. destruct Hw as [-> _]. reflexivity.
Qed.
Lemma secure_update t m k v t' : represents (st_trie t) m → val_ok v → v ≠ [] → StateData.TryUpdate t k v = inl t' →
  represents (st_trie t') (<[hashKey k := v]> m).
Proof.
  intros H Hv Hne. pose proof (TryUpdate_ok Keccak256Hash true (st_trie t) m (hashKey k) v H (hashKey_ok k) Hv) as Hw. unfold wp in Hw.
  unfold StateData.TryUpdate, trie_backend, Secure_TryUpdate, on_trie, bind, modify.
  destruct (TryUpdate (hashKey k) v (st_trie t)) as [u tr|e tr|p|]; [|intros E; discriminate E..]. intros E. injection E as <-.
  destruct Hw as [_ Hr]. cbn [map_op] in Hr. rewrite decide_False in Hr by done. exact Hr.
Qed.
Lemma secure_delete t m k t' : represents (st_trie t) m → StateData.TryDelete t k = inl t' → represents (st_trie t') (delete (hashKey k) m).
Proof.
  intros H. pose proof (TryDelete_ok Keccak256Hash true (st_trie t) m (hashKey k) H (hashKey_ok k)) as Hw. unfold wp in Hw.
  unfold StateData.TryDelete, trie_backend, Secure_TryDelete, on_trie, bind, modify. cbn [st_trie with_keys].
  destruct (TryDelete (hashKey k) (st_trie t)) as [u tr|e tr|p|]; [|intros E; discriminate E..]. intros E. injection E as <-. exact (proj2 Hw).
Qed.
Lemma secure_hash t m : represents (st_trie t) m → is_root m (StateData.Trie_Hash t).
Proof.
  intros H. pose proof (Trie_hash_ok Keccak256Hash true (st_trie t) m H) as Hw. unfold wp in Hw.
  unfold StateData.Trie_Hash, trie_backend, Secure_Hash, on_trie. destruct (Trie_hash Keccak256Hash (st_trie t)) as [h tr|e tr|p|]; [|destruct Hw..]. exact (proj1 Hw).
Qed.

#[local] Instance trie_store : TrieStore good_db SecureTrie SN := {|
  holds t m := represents (st_trie t) m; hashed := hashKey; is_state_root := is_root;
  store_get := secure_get; store_update := secure_update; store_delete := secure_delete; store_hash := secure_hash |}.
End tries.
