(* ===== verification/StateMerkle.v ===== *)
(** * The state database on Merkle tries

    What the laws of the interfaces give for [cachingDB] and its tries, on a small state. *)

From S2P Require Import Prelude Params VmData VmState Rlp RlpStream StateData StateObjects StateDbOps StateModel StateRefine TrieEncoding TrieNode Trie TrieSpec TrieTree.
From S2P Require Import TrieHash TrieRefine TrieCodec TrieMap TrieBind TrieCommit TrieProps SecureTrie StateRoot StateTries.

(** C21 The state database opens the tries it is asked for.  However it was used since it was
    made - tries filed in its caches under the hash they had at the time, the caches purged,
    code read, tries committed to the node database - [OpenTrie] and [OpenStorageTrie] at the
    root of a map give a trie with the entries of the map, or say that the root node is
    missing, and the code and the size of code they return are those on disk. *)
Theorem state_database_opens (Keccak256Hash : bytes → Hash) (U : tree → Prop) (nodes : Database) (codes : gmap Hash bytes)
    (start db : cachingDB) (m : gmap bytes bytes) (a r h : Hash) :
  universe Keccak256Hash U →
  (∀ t, U t → canon t → BytesToHash (tree_hash Keccak256Hash t) ≠ emptyRoot ∧ BytesToHash (tree_hash Keccak256Hash t) ≠ 0) →
  db_sound Keccak256Hash U nodes → fresh nodes codes start → session Keccak256Hash U start db →
  storable U m → is_root Keccak256Hash m r →
  opened Keccak256Hash db m (cd_OpenTrie db r) ∧ opened Keccak256Hash db m (cd_OpenStorageTrie db a r) ∧
  (cd_ContractCode db a h).1 = (if 0 <? zlen (ReadCode start h) then Some (ReadCode start h) else None) ∧
  (cd_ContractCodeSize db a h).1 = zlen <$> (cd_ContractCode db a h).1.
Proof.
  intros HU HR Hn Hf Hs Hm Hr.
  destruct (session_ok _ U HU _ _ Hs (fresh_ok _ _ _ _ _ Hn Hf)) as [Hok Hread].
  split_and!; [by apply (OpenTrie_ok _ U HU HR)|by apply (OpenStorageTrie_ok _ U HU HR)| |by eapply ContractCodeSize_ok].
  rewrite <- (same_codes_read _ _ h Hread). by eapply ContractCode_ok.
Qed.

(** ** Two accounts on an empty database *)

Definition none_stored (t : tree) : Prop := False.
Lemma none_universe : universe toy_hash none_stored.
Proof. by split. Qed.
Lemma none_root t : none_stored t → canon t → BytesToHash (tree_hash toy_hash t) ≠ emptyRoot ∧ BytesToHash (tree_hash toy_hash t) ≠ 0.
Proof. done. Qed.
Lemma none_sound : db_sound toy_hash none_stored no_nodes.
Proof. split; intros h b; cbn [cleans dirties_db diskdb no_nodes]; by rewrite lookup_empty. Qed.
Definition new_state : good_db toy_hash none_stored :=
  {| gd := NewDatabaseWithConfigAndCache no_nodes ∅; gd_ok := new_db_ok toy_hash none_stored no_nodes ∅ none_sound |}.

(** No snapshots. *)
Definition no_account (sn : unit) (h : Hash) : option SlimAccount + string := inl None.
Definition no_slot (sn : unit) (h k : Hash) : bytes + string := inl [].
Lemma no_slots sn h key enc : no_slot sn h key = inl enc → enc ≠ [] → ∃ acc, no_account sn h = inl (Some acc).
Proof. by intros [= <-]. Qed.
#[local] Instance demo_backend : Backend (good_db toy_hash none_stored) SecureTrie unit :=
  trie_backend toy_hash none_stored no_account no_slot (λ _, true).
#[local] Instance demo_laws : BackendLaws (good_db toy_hash none_stored) SecureTrie unit :=
  trie_laws toy_hash none_stored none_universe none_root no_account no_slot (λ _, true) no_slots.
#[local] Instance demo_store : TrieStore (good_db toy_hash none_stored) SecureTrie unit :=
  trie_store toy_hash none_stored no_account no_slot (λ _, true).

Definition start_state : option (StateDB (good_db toy_hash none_stored) SecureTrie unit) := newStateDB emptyRoot new_state None false.
Definition two_accounts : option (StateDB (good_db toy_hash none_stored) SecureTrie unit) :=
  s ← start_state;
  Some (db_SetState toy_hash 7 1 258 (db_SetBalance toy_hash 7 100 (db_SetNonce toy_hash 9 3 s))).
Definition two_finalised := Finalise toy_hash true <$> two_accounts.
Definition state_root_of (s : option (StateDB (good_db toy_hash none_stored) SecureTrie unit)) : option Hash :=
  s ← s; '(h, _) ← IntermediateRoot toy_hash true s; Some h.

Lemma two_made : is_Some two_accounts.
Proof.
  assert (H : match two_accounts with Some _ => true | None => false end = true) by (vm_compute; reflexivity).
  destruct two_accounts as [s|]; [by exists s|discriminate H].
Qed.
Definition two_state : StateDB (good_db toy_hash none_stored) SecureTrie unit := is_Some_proj two_made.
Definition two_done : StateDB (good_db toy_hash none_stored) SecureTrie unit := Finalise toy_hash true two_state.

Lemma empty_holds t : root (st_trie t) = nilNode → holds t ∅.
Proof. intros H. exists TNil. split; [apply contents_empty|]. rewrite H. constructor. Qed.

(** Their storage is empty and one slot is to be written. *)
Lemma two_accounts_at a : a ∈ stateObjectsPending two_done → ∃ o, stateObjects two_done !! a = Some o ∧ account_at toy_hash two_done ∅ a o.
Proof.
  assert (E : stateObjectsPending two_done = {[7; 9]}) by (vm_compute; reflexivity). rewrite E. intros [Ha|Ha]%elem_of_union; apply elem_of_singleton in Ha as ->.
  - destruct (stateObjects two_done !! 7) as [o|] eqn:Eo; [|vm_compute in Eo; discriminate Eo]. exists o. split; [done|]. vm_compute in Eo. injection Eo as <-.
    split; [done|intros _; split; [unfold is_u64|]; cbn; lia|intros _]. split.
    + intros t Et. injection Et as <-. by apply empty_holds.
    + intros t Et. discriminate Et.
    + intros Et. discriminate Et.
    + intros k Hk. assert (k = 1) as ->; [|vm_compute; reflexivity]. apply elem_of_dom in Hk as [v Hv]. change (({[1 := 258]} : gmap Z Z) !! k = Some v) in Hv.
      by apply lookup_singleton_Some in Hv as [<- _].
    + assert (H1 : ∀ k, k ∈ dom ({[1 := 258]} : gmap Z Z) → k = 1) by (intros k; rewrite dom_singleton_L; by intros ->%elem_of_singleton).
      intros k k' Hk Hk' _. rewrite (H1 k Hk), (H1 k' Hk'). done.
  - destruct (stateObjects two_done !! 9) as [o|] eqn:Eo; [|vm_compute in Eo; discriminate Eo]. exists o. split; [done|]. vm_compute in Eo. injection Eo as <-.
    split; [done|intros _; split; [unfold is_u64|]; cbn; lia|intros _]. split.
    + intros t Et. discriminate Et.
    + intros t _ Et. apply empty_holds. vm_compute in Et. by injection Et as <-.
    + intros _. exists TNil. split; [apply contents_empty|]. vm_compute. reflexivity.
    + intros k Hk. apply elem_of_dom in Hk as [v Hv]. change ((∅ : gmap Z Z) !! k = Some v) in Hv. by rewrite lookup_empty in Hv.
    + intros k k' Hk. apply elem_of_dom in Hk as [v Hv]. change ((∅ : gmap Z Z) !! k = Some v) in Hv. by rewrite lookup_empty in Hv.
Qed.
Lemma two_keys a b : a ∈ stateObjectsPending two_done → b ∈ stateObjectsPending two_done → hashed (addr_bytes a) = hashed (addr_bytes b) → a = b.
Proof.
  assert (E : stateObjectsPending two_done = {[7; 9]}) by (vm_compute; reflexivity). rewrite E.
  intros [Ha|Ha]%elem_of_union [Hb|Hb]%elem_of_union; apply elem_of_singleton in Ha as ->, Hb as ->; [done| | |done]; intros H; vm_compute in H; discriminate H.
Qed.

Definition no_failure (r : option (Hash * StateDB (good_db toy_hash none_stored) SecureTrie unit)) : bool :=
  match r with
  | Some (_, s) =>
      match dbErr s with None => true | _ => false end &&
      forallb (λ kv : Address * StateObject SecureTrie, match obj_dbErr kv.2 with None => true | _ => false end) (map_to_list (stateObjects s))
  | None => false
  end.
Lemma not_failed h s : no_failure (Some (h, s)) = true → ¬ failed s.
Proof.
  unfold no_failure. intros [H1 H2]%andb_true_iff [Hf|(a & o & Ho & Hf)].
  - destruct (dbErr s); [discriminate H1|by apply Hf].
  - rewrite forallb_forall in H2. specialize (H2 (a, o)). cbn [snd] in H2. destruct (obj_dbErr o); [|by apply Hf].
    specialize (H2 ltac:(apply list_elem_of_In; by apply elem_of_map_to_list)). discriminate H2.
Qed.

(** The state root of the two accounts is the root of a map with both. *)
Lemma IntermediateRoot_commits_witness :
  ∃ h s m, IntermediateRoot toy_hash true two_state = Some (h, s) ∧ is_root toy_hash m h ∧
    m !! hashKey toy_hash (addr_bytes 9) =
      EncodeToBytes (account_value {| acc_Nonce := 3; acc_Balance := 0; acc_Root := emptyRoot; acc_CodeHash := emptyCodeHash toy_hash |}).
Proof.
  destruct (trie two_done) as [t|] eqn:Et; [|vm_compute in Et; discriminate Et].
  assert (Ht : holds t ∅) by (apply empty_holds; vm_compute in Et; by injection Et as <-).
  destruct (IntermediateRoot_commits toy_hash true two_state t ∅ (λ _, ∅)) as (h & s & t' & E & _ & _ & Hr);
    [vm_compute; reflexivity|vm_compute; reflexivity|exact Et|exact Ht|apply two_accounts_at|apply two_keys|].
  assert (Hn : no_failure (IntermediateRoot toy_hash true two_state) = true) by (vm_compute; reflexivity).
  rewrite E in Hn. destruct Hr as [Hf|(m & _ & Hroot & Hin & _)]; [destruct (not_failed h s Hn Hf)|].
  exists h, s, m. split; [exact E|]. split; [exact Hroot|].
  assert (Hp : 9 ∈ stateObjectsPending two_done) by (apply elem_of_elements; vm_compute; right; left).
  destruct (stateObjects two_done !! 9) as [o|] eqn:Eo; [|vm_compute in Eo; discriminate Eo].
  specialize (Hin 9 o Hp Eo). unfold entry_of in Hin.
  assert (Ho : match stateObjects two_done !! 9 with Some o => (StateData.deleted o, data o, map_to_list (writes o)) | None => (true, emptyAccount toy_hash, []) end =
    (false, {| acc_Nonce := 3; acc_Balance := 0; acc_Root := emptyRoot; acc_CodeHash := emptyCodeHash toy_hash |}, [])) by (vm_compute; reflexivity).
  rewrite Eo in Ho. injection Ho as Hdel Hdata Hw. apply map_to_list_empty_iff in Hw.
  rewrite Hdel in Hin. destruct Hin as (m' & r & [_ Hout] & Hr' & He). rewrite Hw in Hout.
  assert (m' = ∅) as ->.
  { apply map_eq. intros k. rewrite lookup_empty. rewrite Hout; [by rewrite lookup_empty|]. intros k' Hk'. apply elem_of_dom in Hk' as [v Hv]. by rewrite lookup_empty in Hv. }
  destruct Hr' as (t0 & Hc0 & ->). rewrite (contents_tree ∅ t0 TNil Hc0 contents_empty) in He. rewrite Hdata in He. exact He.
Defined.

(** A cache with a trie that the node database does not have. *)
Definition demo_secure : SecureTrie := {| st_trie := demo_trie; secKeyCache := ∅; is_owner := false |}.
Definition demo_cache : cachingDB := CacheAccount demo_root demo_secure (NewDatabaseWithConfigAndCache no_nodes ∅).
Lemma demo_storable : storable demo_universe demo_map.
Proof. intros t Hc _. rewrite (contents_tree _ _ _ Hc demo_contents). apply sub_refl. Qed.
Definition has_root (t : tree) : bool := match t with TNil | TValue _ => false | _ => true end.
Definition proper (b : bool) (h : Hash) : bool := negb b || (negb (h =? emptyRoot) && negb (h =? 0)).
Lemma proper_spec h : proper true h = true → h ≠ emptyRoot ∧ h ≠ 0.
Proof. unfold proper. cbn [negb orb]. intros [He Hz]%andb_true_iff. split; apply Z.eqb_neq; by apply negb_true_iff. Qed.
Lemma demo_roots t : demo_universe t → canon t → BytesToHash (tree_hash toy_hash t) ≠ emptyRoot ∧ BytesToHash (tree_hash toy_hash t) ≠ 0.
Proof.
  intros Hs Hc. apply subtree_in, list_elem_of_In in Hs. assert (Hr : has_root t = true) by (by destruct Hc).
  assert (H : forallb (λ t, proper (has_root t) (BytesToHash (tree_hash toy_hash t))) (subtrees demo_tree) = true) by (vm_compute; reflexivity).
  pose proof (proj1 (forallb_forall _ _) H t Hs) as Ht. cbv beta in Ht. rewrite Hr in Ht. exact (proper_spec _ Ht).
Qed.
Lemma demo_session : session toy_hash demo_universe (NewDatabaseWithConfigAndCache no_nodes ∅) demo_cache.
Proof.
  apply rtc_once. destruct (Secure_Hash toy_hash demo_secure) as [r t|e t|p|] eqn:E; [|vm_compute in E; discriminate E..].
  assert (r = demo_root) as -> by (vm_compute in E; injection E as <- _; vm_compute; reflexivity).
  apply (cs_account toy_hash demo_universe _ demo_secure demo_map demo_root t); [|exact E].
  split; [apply demo_storable|vm_compute; reflexivity|apply demo_represents].
Qed.

Lemma state_database_opens_witness :
  match cd_OpenTrie demo_cache demo_root with Ret t _ => represents toy_hash true (st_trie t) demo_map | _ => False end ∧
  cd_OpenStorageTrie demo_cache 5 demo_root = Fail (MissingNodeError demo_root []) {| tr_db := no_nodes; root := nilNode; unhashed := 0 |}.
Proof.
  destruct (state_database_opens toy_hash demo_universe no_nodes ∅ (NewDatabaseWithConfigAndCache no_nodes ∅) demo_cache demo_map
    5 demo_root 0 demo_universe_ok demo_roots no_nodes_sound (or_intror eq_refl) demo_session demo_storable demo_is_root) as [H _].
  split; [|vm_compute; reflexivity].
  assert (E : match cd_OpenTrie demo_cache demo_root with Ret _ _ => true | _ => false end = true) by (vm_compute; reflexivity).
  destruct (cd_OpenTrie demo_cache demo_root) as [t tr|e tr|p|]; [|discriminate E..]. exact (proj2 H).
Defined.
