(* ===== verification/TrieFacts.v ===== *)
(** * Facts about the trie

    Behaviour the comments of the code do not suggest. *)

From S2P Require Import Prelude Rlp RlpStream StateData TrieEncoding TrieNode Trie TrieProof TrieProps.

(** A full node with a leaf and a child that is not in the database. *)
Definition lost_hash : bytes := replicate 32 1.
Definition lost_child : Trie := {|
  tr_db := no_nodes;
  root := fullNode ([nilNode; hashNode lost_hash; shortNode [3; 16] (valueNode [5]) newFlag] ++ replicate 14 nilNode) newFlag;
  unhashed := 0 |}.

(** When a deletion leaves one child and that child is missing, the error has the path of
    the parent; a read of the same child has its own path.  The comment of
    [MissingNodeError] calls [Path] the path to the missing node. *)
Theorem delete_reports_parent_path :
  (∃ tr, TryDelete [0x23] lost_child = Fail (MissingNodeError (BytesToHash lost_hash) []) tr) ∧
  (∃ tr, TryGet [0x13] lost_child = Fail (MissingNodeError (BytesToHash lost_hash) [1]) tr).
Proof. split; eexists; vm_compute; reflexivity. Qed.

(** A node with an empty key and itself as child, kept under a hash that is not its own. *)
Definition self_node : bytes := [0xE2; 0; 0xA0] ++ lost_hash.

Lemma self_node_decodes : decodeNode (Some lost_hash) self_node =
  Some (inl (shortNode [] (hashNode lost_hash) {| fl_hash := Some lost_hash; fl_dirty := false |})).
Proof. vm_compute. reflexivity. Qed.

(** [VerifyProof] does not check that a node has the hash it is kept under: on a database
    that is not keyed by the hashes of its values it can loop forever. *)
Theorem VerifyProof_trusts_its_database (fuel : nat) (i : Z) (key : bytes) :
  VerifyProof_loop fuel i lost_hash key {[ lost_hash := self_node ]} = None.
Proof.
  revert i. induction fuel as [|fuel IH]; intros i; [done|]. cbn [VerifyProof_loop]. rewrite lookup_singleton_eq.
  rewrite self_node_decodes. cbn [mbind option_bind get length take drop].
  rewrite (proj2 (Nat.ltb_ge _ _)) by lia. cbn [orb negb bool_decide decide]. rewrite bool_decide_true by done. cbn [negb mbind option_bind].
  rewrite drop_0. change (copy_hash lost_hash lost_hash) with lost_hash. apply IH.
Qed.
