(* ===== verification/StateTheorem.v ===== *)
(** * The state database refines the ledger

    Every sequence of operations gives the answers the ledger gives, and panics where the
    ledger has no answer. *)

From Stdlib Require Import FunctionalExtensionality.
From S2P Require Import Prelude Params VmData VmState Rlp RlpStream StateData StateObjects StateDbOps StateView.
From S2P Require Import StateLedger StateRefine StateSim StateJournal StateModel.

(** ** Operations and answers *)

Inductive op :=
| OExist (a : Address) | OEmpty (a : Address) | OGetBalance (a : Address) | OGetNonce (a : Address)
| OGetCode (a : Address) | OGetCodeSize (a : Address) | OGetCodeHash (a : Address)
| OGetState (a : Address) (key : Hash) | OGetCommittedState (a : Address) (key : Hash)
| OHasSuicided (a : Address) | OGetRefund | OGetLogs (h : Hash)
| OAddressInAccessList (a : Address) | OSlotInAccessList (a : Address) (slot : Hash)
| OCreateAccount (a : Address) | OAddBalance (a : Address) (v : Z) | OSubBalance (a : Address) (v : Z)
| OSetBalance (a : Address) (v : Z) | OSetNonce (a : Address) (n : Z) | OSetCode (a : Address) (c : bytes)
| OSetState (a : Address) (key value : Hash) | OSuicide (a : Address)
| OAddLog (l : Log) | OAddPreimage (h : Hash) (p : bytes) | OAddRefund (g : Z) | OSubRefund (g : Z)
| OAddAddressToAccessList (a : Address) | OAddSlotToAccessList (a : Address) (slot : Hash)
| OSnapshot | ORevertToSnapshot (id : Z).

Inductive answer :=
| Done | ABool (b : bool) | AInt (z : Z) | ABytes (c : bytes) | ABools (p : bool * bool) | ALogs (l : list TxLog).

Section run.
Context {D T SN : Type} {B : Backend D T SN} {BL : BackendLaws D T SN}.
Variable Keccak256Hash : bytes → Hash.

Abbreviation StateObject := (StateObject T).
Abbreviation StateDB := (StateDB D T SN).
Abbreviation konst := (@konst D T SN).
Abbreviation konst_of := (@konst_of D T SN B).
Abbreviation obj_view := (@obj_view D T SN B Keccak256Hash).
Abbreviation view := (@view D T SN B Keccak256Hash).
Abbreviation quiet := (@quiet D T SN B Keccak256Hash).
Abbreviation changes := (@changes D T SN B Keccak256Hash).
Abbreviation wf := (@wf D T SN B Keccak256Hash).
Abbreviation abs := (@abs D T SN B Keccak256Hash).
Abbreviation live := (@live D T SN B Keccak256Hash).
Abbreviation gone_at s a := (bool_decide (a ∈ snapDestructs s)) (only parsing).
Abbreviation tracked s := (bool_decide (is_Some (snap s))) (only parsing).
Abbreviation shown s a o := (obj_view (konst_of s) (gone_at s a) o) (only parsing).

(** An operation of the database; [None] is a panic. *)
Definition run_op (o : op) (s : StateDB) : option (answer * StateDB) :=
  let bool' '((b, s) : bool * StateDB) := Some (ABool b, s) in
  let int' '((z, s) : Z * StateDB) := Some (AInt z, s) in
  match o with
  | OExist a => bool' (db_Exist Keccak256Hash a s)
  | OEmpty a => bool' (db_Empty Keccak256Hash a s)
  | OGetBalance a => int' (db_GetBalance Keccak256Hash a s)
  | OGetNonce a => int' (db_GetNonce Keccak256Hash a s)
  | OGetCode a => let '(c, s) := db_GetCode Keccak256Hash a s in Some (ABytes c, s)
  | OGetCodeSize a => int' (db_GetCodeSize Keccak256Hash a s)
  | OGetCodeHash a => int' (db_GetCodeHash Keccak256Hash a s)
  | OGetState a key => int' (db_GetState Keccak256Hash a key s)
  | OGetCommittedState a key => int' (db_GetCommittedState Keccak256Hash a key s)
  | OHasSuicided a => bool' (db_HasSuicided Keccak256Hash a s)
  | OGetRefund => Some (AInt (db_GetRefund s), s)
  | OGetLogs h => Some (ALogs (db_GetLogs h s), s)
  | OAddressInAccessList a => Some (ABool (db_AddressInAccessList a s), s)
  | OSlotInAccessList a slot => r ← db_SlotInAccessList a slot s; Some (ABools r, s)
  | OCreateAccount a => Some (Done, db_CreateAccount Keccak256Hash a s)
  | OAddBalance a v => Some (Done, db_AddBalance Keccak256Hash a v s)
  | OSubBalance a v => Some (Done, db_SubBalance Keccak256Hash a v s)
  | OSetBalance a v => Some (Done, db_SetBalance Keccak256Hash a v s)
  | OSetNonce a n => Some (Done, db_SetNonce Keccak256Hash a n s)
  | OSetCode a c => Some (Done, db_SetCode Keccak256Hash a c s)
  | OSetState a key value => Some (Done, db_SetState Keccak256Hash a key value s)
  | OSuicide a => bool' (db_Suicide Keccak256Hash a s)
  | OAddLog l => Some (Done, db_AddLog l s)
  | OAddPreimage h p => Some (Done, db_AddPreimage h p s)
  | OAddRefund g => Some (Done, db_AddRefund g s)
  | OSubRefund g => s ← db_SubRefund g s; Some (Done, s)
  | OAddAddressToAccessList a => Some (Done, db_AddAddressToAccessList a s)
  | OAddSlotToAccessList a slot => s ← db_AddSlotToAccessList a slot s; Some (Done, s)
  | OSnapshot => int' (db_Snapshot s)
  | ORevertToSnapshot id => s ← db_RevertToSnapshot Keccak256Hash id s; Some (Done, s)
  end.

(** The same of the ledger, of which only the constants of the transaction are known. *)
Definition spec_op (k : konst) (o : op) (l : ledger) : option (answer * ledger) :=
  let K := Keccak256Hash in
  let t := bool_decide (is_Some (k_snap k)) in
  let w := l_cur l in
  let read {A} (f : A → answer) (d : A) (g : acct → A) (a : Address) := Some (f (w_read d g a w), l) in
  let change w := Some (Done, l_change (λ _, w) l) in
  match o with
  | OExist a => read ABool false (λ _, true) a
  | OEmpty a => read ABool true (acct_empty K) a
  | OGetBalance a => read AInt 0 (λ x, acc_Balance (a_data x)) a
  | OGetNonce a => read AInt 0 (λ x, acc_Nonce (a_data x)) a
  | OGetCode a => read ABytes [] a_code a
  | OGetCodeSize a => read AInt 0 (λ x, zlen (a_code x)) a
  | OGetCodeHash a => read AInt 0 (λ x, acc_CodeHash (a_data x)) a
  | OGetState a key => read AInt 0 (λ x, a_state x key) a
  | OGetCommittedState a key => read AInt 0 (λ x, a_committed x key) a
  | OHasSuicided a => read ABool false a_suicided a
  | OGetRefund => Some (AInt (w_refund w), l)
  | OGetLogs h => Some (ALogs (default [] (w_logs w !! h)), l)
  | OAddressInAccessList a => Some (ABool (ContainsAddress (w_al w) a), l)
  | OSlotInAccessList a slot => r ← Contains (w_al w) a slot; Some (ABools r, l)
  | OCreateAccount a => change (w_CreateAccount K t a w)
  | OAddBalance a v => change (w_AddBalance K t a v w)
  | OSubBalance a v => change (w_SubBalance K t a v w)
  | OSetBalance a v => change (w_SetBalance K t a v w)
  | OSetNonce a n => change (w_SetNonce K t a n w)
  | OSetCode a c => change (w_SetCode K t a c w)
  | OSetState a key value => change (w_SetState K t a key value w)
  | OSuicide a => Some (ABool (w_Suicide a w).1, l_change (λ w, (w_Suicide a w).2) l)
  | OAddLog lg => change (w_AddLog (k_thash k) (k_bhash k) (k_txIndex k) lg w)
  | OAddPreimage h p => change (w_AddPreimage h p w)
  | OAddRefund g => change (w_AddRefund g w)
  | OSubRefund g => w ← w_SubRefund g w; change w
  | OAddAddressToAccessList a => change (w_AddAddress a w)
  | OAddSlotToAccessList a slot => w ← w_AddSlot a slot w; change w
  | OSnapshot => Some (AInt (l_Snapshot l).1, (l_Snapshot l).2)
  | ORevertToSnapshot id => l ← l_RevertToSnapshot id l; Some (Done, l)
  end.

(** ** Reading *)

Lemma reading_ok {A} a (d : A) f g s : objects_ok s →
  (∀ s1 o, loaded s1 a o → ∃ o', f s1 o = (g (shown s1 a o), (o', s1)) ∧
     obj_ok o' ∧ address o' = a ∧ shown s1 a o' = shown s1 a o) →
  ∃ s', reading Keccak256Hash a d f s = (w_read d g a (view s), s') ∧ quiet s s'.
Proof.
  intros Hok Hf. unfold reading, w_read. rewrite live_view.
  destruct (getStateObject_ok Keccak256Hash a s Hok) as (s1 & -> & Hq & Hl1 & Hl2).
  destruct (live s a) as [o|] eqn:Hlive; simpl; [|by exists s1].
  destruct (live_at _ _ _ _ Hlive) as [Hat Hd]. destruct (object_at_address _ s a o Hok Hat) as [Ha Hoo].
  assert (Hl : loaded s1 a o) by (split; auto; apply (q_ok _ _ _ Hq Hok)).
  destruct (Hf s1 o Hl) as (o' & -> & Hoo' & Ha' & Hv). eexists. split.
  - f_equal. rewrite (q_konst _ _ _ Hq).
    pose proof (f_equal w_gone (q_view _ _ _ Hq)) as Hg. simpl in Hg. by rewrite Hg.
  - eapply quiet_trans; [done|]. by apply (same_change _ _ a o).
Qed.

(** A field of the object. *)
Lemma reading_field {A} a (d : A) (f : StateObject → A) g s : objects_ok s →
  (∀ k gone o, f o = g (obj_view k gone o)) →
  ∃ s', reading Keccak256Hash a d (λ s o, (f o, (o, s))) s = (w_read d g a (view s), s') ∧ quiet s s'.
Proof.
  intros Hok Hf. apply reading_ok; [done|]. intros s1 o [H1 H2 H3 H4 H5]. exists o.
  by rewrite (Hf (konst_of s1) (gone_at s1 a)).
Qed.

Lemma GetState_read a key s : objects_ok s → ∃ s',
  db_GetState Keccak256Hash a key s = (w_read 0 (λ x, a_state x key) a (view s), s') ∧ quiet s s'.
Proof.
  intros Hok. apply (reading_ok _ _ _ (λ x, a_state x key)); [done|]. intros s1 o [H1 H2 H3 H4 H5].
  destruct (read_state Keccak256Hash s1 o key H1 H5) as (o' & H & Hw & Hv). rewrite H3 in H, Hv.
  exists o'. split; [done|]. split; [by apply Hw|]. split; [by rewrite (wm_address _ _ Hw)|by apply Hv].
Qed.
Lemma GetCommitted_read a key s : objects_ok s → ∃ s',
  db_GetCommittedState Keccak256Hash a key s = (w_read 0 (λ x, a_committed x key) a (view s), s') ∧ quiet s s'.
Proof.
  intros Hok. apply (reading_ok _ _ _ (λ x, a_committed x key)); [done|]. intros s1 o [H1 H2 H3 H4 H5].
  destruct (read_committed Keccak256Hash s1 o key H1 H5) as (o' & H & Hw & Hv). rewrite H3 in H, Hv.
  exists o'. split; [done|]. split; [by apply Hw|]. split; [by rewrite (wm_address _ _ Hw)|].
  apply warmed_view; [done|by apply Hv].
Qed.
Lemma GetCode_read a s : objects_ok s → ∃ s',
  db_GetCode Keccak256Hash a s = (w_read [] a_code a (view s), s') ∧ quiet s s'.
Proof.
  intros Hok. apply (reading_ok _ _ _ a_code); [done|]. intros s1 o [H1 H2 H3 H4 H5].
  destruct (read_code Keccak256Hash s1 o H5) as (Hoo & Ha & _ & Hv). simpl.
  destruct (obj_Code Keccak256Hash (db s1) o) as [c o'] eqn:E. simpl in *. exists o'.
  split; [done|]. split; [done|]. split; [by rewrite Ha|apply Hv].
Qed.
Lemma GetCodeSize_read a s : objects_ok s → ∃ s',
  db_GetCodeSize Keccak256Hash a s = (w_read 0 (λ x, zlen (a_code x)) a (view s), s') ∧ quiet s s'.
Proof.
  intros Hok. apply (reading_ok _ _ _ (λ x, zlen (a_code x))); [done|]. intros s1 o [H1 H2 H3 H4 H5].
  simpl. unfold obj_CodeSize, obj_Code. destruct (code o) as [c|] eqn:Hc; [by exists o|].
  destruct (_ =? emptyCodeHash _) eqn:He; [by exists o|].
  pose proof (code_size (db s1) (addrHash Keccak256Hash o) (acc_CodeHash (data o))) as Hs.
  destruct (ContractCode _ _ _) as [c|e] eqn:Hcc; [rewrite Hs; by exists o|].
  destruct Hs as [e' ->]. pose proof (warmed_error (CantLoadCodeSize (acc_CodeHash (data o)) e') o) as Hw.
  eexists. split; [done|]. split; [by apply Hw|]. split; [by rewrite (wm_address _ _ Hw)|].
  by apply error_view.
Qed.

(** ** The refinement *)

(** What an operation does to the journal and the revisions. *)
Definition journals (o : op) (s s' : StateDB) : Prop :=
  match o with
  | OSnapshot => entries (journal s') = entries (journal s) ∧
      validRevisions s' = validRevisions s ++ [{| rev_id := nextRevisionId s; journalIndex := zlen (entries (journal s)) |}]
  | ORevertToSnapshot id => reverted id s s'
  | _ => entries (journal s) `prefix_of` entries (journal s') ∧ validRevisions s' = validRevisions s
  end.
Definition plain (o : op) : Prop := match o with OSnapshot | ORevertToSnapshot _ => False | _ => True end.

Definition agree (o : op) (s : StateDB) (r : option (answer * StateDB)) (r' : option (answer * ledger)) : Prop :=
  match r, r' with
  | Some (x, s'), Some (x', l) => x = x' ∧ wf s' ∧ abs s' = l ∧ konst_of s' = konst_of s ∧ journals o s s'
  | None, None => True
  | _, _ => False
  end.

Lemma journals_changes o s s' es : plain o → changes s s' es → journals o s s'.
Proof.
  intros Ho Hc. assert (H : entries (journal s) `prefix_of` entries (journal s') ∧ validRevisions s' = validRevisions s).
  { rewrite (c_entries _ _ _ _ Hc), (c_revisions _ _ _ _ Hc). split; [by apply prefix_app_r|done]. }
  by destruct o.
Qed.

Lemma agree_quiet o s x s' : plain o → wf s → quiet s s' → agree o s (Some (x, s')) (Some (x, abs s)).
Proof.
  intros Ho Hwf Hq. destruct (quiet_wf _ s s' Hwf Hq). split_and!; try done; [apply Hq|].
  apply journals_changes with []; [done|by apply quiet_changes].
Qed.

Lemma agree_changes o s x s' es w : plain o → wf s → changes s s' es → view s' = w →
  agree o s (Some (x, s')) (Some (x, l_change (λ _, w) (abs s))).
Proof.
  intros Ho Hwf Hc <-. destruct (changes_wf _ s s' es Hwf Hc) as [H1 H2]. split_and!; try done; [apply Hc|].
  by eapply journals_changes.
Qed.

(** Closes the case of an operation that only reads, and of one that journals. *)
Ltac by_reading H := destruct H as (s' & -> & Hq); by apply agree_quiet.
Ltac by_change H := let es := fresh in destruct H as (es & Hc & Hv); by eapply agree_changes.

Lemma op_agrees o s : wf s → agree o s (run_op o s) (spec_op (konst_of s) o (abs s)).
Proof.
  intros Hwf. pose proof (wf_objects _ _ Hwf) as Hok. pose proof (wf_world _ _ Hwf) as Hw.
  destruct o; cbn [run_op spec_op].
  - unfold db_Exist. destruct (getStateObject_ok Keccak256Hash a s Hok) as (s' & -> & Hq & _).
    cbn [abs l_cur]. unfold w_read. rewrite live_view. destruct (live s a); by apply agree_quiet.
  - unfold db_Empty. destruct (getStateObject_ok Keccak256Hash a s Hok) as (s' & -> & Hq & _).
    cbn [abs l_cur]. unfold w_read. rewrite live_view. destruct (live s a); by apply agree_quiet.
  - unfold db_GetBalance. by_reading (reading_field a 0 (λ o, acc_Balance (data o)) (λ x, acc_Balance (a_data x)) s Hok (λ _ _ _, eq_refl)).
  - unfold db_GetNonce. by_reading (reading_field a 0 (λ o, acc_Nonce (data o)) (λ x, acc_Nonce (a_data x)) s Hok (λ _ _ _, eq_refl)).
  - by_reading (GetCode_read a s Hok).
  - by_reading (GetCodeSize_read a s Hok).
  - unfold db_GetCodeHash. by_reading (reading_field a 0 (λ o, acc_CodeHash (data o)) (λ x, acc_CodeHash (a_data x)) s Hok (λ _ _ _, eq_refl)).
  - by_reading (GetState_read a key s Hok).
  - by_reading (GetCommitted_read a key s Hok).
  - unfold db_HasSuicided. by_reading (reading_field a false suicided a_suicided s Hok (λ _ _ _, eq_refl)).
  - apply agree_quiet; [done|done|apply quiet_refl].
  - apply agree_quiet; [done|done|apply quiet_refl].
  - unfold db_AddressInAccessList. cbn [abs l_cur StateView.view w_al].
    destruct (accessList s); by (apply (agree_quiet (OAddressInAccessList a)); [..|apply quiet_refl]).
  - pose proof (agree_quiet (OSlotInAccessList a slot) s) as H. unfold db_SlotInAccessList. cbn [abs l_cur StateView.view w_al].
    destruct (accessList s) as [al|]; simpl; [|by apply H; [..|apply quiet_refl]].
    destruct (Contains al a slot); [|done]. by apply H; [..|apply quiet_refl].
  - by_change (CreateAccount_ok Keccak256Hash a s Hok).
  - by_change (AddBalance_ok Keccak256Hash a v s Hok).
  - by_change (SubBalance_ok Keccak256Hash a v s Hok).
  - by_change (SetBalance_ok Keccak256Hash a v s Hok).
  - by_change (SetNonce_ok Keccak256Hash a n s Hok).
  - by_change (SetCode_ok Keccak256Hash a c s Hok).
  - by_change (SetState_ok Keccak256Hash a key value s Hok).
  - destruct (Suicide_ok Keccak256Hash a s Hok) as (es & s' & -> & Hc & Hv). by eapply agree_changes.
  - by_change (AddLog_ok Keccak256Hash l s Hw).
  - by_change (AddPreimage_ok Keccak256Hash h p s).
  - by_change (AddRefund_ok Keccak256Hash g s).
  - pose proof (SubRefund_ok Keccak256Hash g s) as H. cbn [abs l_cur].
    destruct (db_SubRefund g s) as [s'|], (w_SubRefund g (view s)) as [w'|]; try done.
    destruct H as [Hv [es Hc]]. by eapply agree_changes.
  - by_change (AddAddress_ok Keccak256Hash a s).
  - destruct (AddSlot_ok Keccak256Hash a slot s Hw) as (es & s' & w' & -> & H & Hc & Hv).
    cbn [abs l_cur]. rewrite H. by eapply agree_changes.
  - destruct (Snapshot_ok _ s Hwf) as (H1 & H2 & H3). cbv beta zeta.
    destruct (db_Snapshot s) as [id s'] eqn:E. cbn [fst snd] in *. split_and!; [by rewrite H2|done|done|..]; by injection E as _ <-.
  - pose proof (Revert_ok Keccak256Hash id s Hwf) as H.
    destruct (db_RevertToSnapshot _ id s), (l_RevertToSnapshot id (abs s)); done.
Qed.

(** ** Sequences of operations *)

(** The answers, and the state unless there was a panic. *)
Fixpoint run_ops (os : list op) (s : StateDB) : list answer * option StateDB :=
  match os with
  | [] => ([], Some s)
  | o :: os =>
      match run_op o s with
      | None => ([], None)
      | Some (x, s) => let '(xs, r) := run_ops os s in (x :: xs, r)
      end
  end.
Fixpoint spec_ops (k : konst) (os : list op) (l : ledger) : list answer * option ledger :=
  match os with
  | [] => ([], Some l)
  | o :: os =>
      match spec_op k o l with
      | None => ([], None)
      | Some (x, l) => let '(xs, r) := spec_ops k os l in (x :: xs, r)
      end
  end.

Lemma ops_agree os : ∀ s, wf s →
  (run_ops os s).1 = (spec_ops (konst_of s) os (abs s)).1 ∧
  match (run_ops os s).2, (spec_ops (konst_of s) os (abs s)).2 with
  | Some s', Some l' => wf s' ∧ abs s' = l' ∧ konst_of s' = konst_of s
  | None, None => True
  | _, _ => False
  end.
Proof.
  induction os as [|o os IH]; intros s Hwf; [done|]. simpl.
  pose proof (op_agrees o s Hwf) as H. unfold agree in H.
  destruct (run_op o s) as [[x s']|], (spec_op (konst_of s) o (abs s)) as [[x' l']|]; try done.
  destruct H as (-> & Hwf' & <- & Hk & _). specialize (IH s' Hwf'). rewrite Hk in IH.
  destruct (run_ops os s') as [xs r], (spec_ops (konst_of s) os (abs s')) as [xs' r']. simpl in *.
  destruct IH as [-> H]. split; [done|]. by destruct r, r'.
Qed.

Lemma ops_wf os s s' : wf s → (run_ops os s).2 = Some s' → wf s'.
Proof.
  intros Hwf H. destruct (ops_agree os s Hwf) as [_ Ha]. rewrite H in Ha.
  destruct (spec_ops _ os _).2; [apply Ha|done].
Qed.

Lemma new_wf root d sn verified s : newStateDB root d sn verified = Some s → wf s ∧
  abs s = {| l_cur := view s; l_saved := []; l_next := 0 |}.
Proof.
  intros H. assert (Hs : storagePool s = None ∧ stateObjects s = ∅ ∧ entries (journal s) = [] ∧
    dirties (journal s) = ∅ ∧ validRevisions s = [] ∧ nextRevisionId s = 0 ∧ accessList s = None ∧
    logs s = ∅ ∧ logSize s = 0).
  { unfold newStateDB in H. destruct (OpenTrie d root).
    - by injection H as <-.
    - destruct (_ || _); [done|]. by injection H as <-. }
  destruct Hs as (H1 & H2 & H3 & H4 & H5 & H6 & H7 & H8 & H9).
  split; [|unfold StateJournal.abs; by rewrite H5, H6]. split; rewrite ?H3, ?H5; try constructor; try done.
  - by rewrite H2.
  - by rewrite H2.
  - simpl. rewrite H7. split; [done|constructor].
  - simpl. by rewrite H8.
  - simpl. lia.
  - intros a. by rewrite H4.
  - intros a _. by rewrite H4.
  - intros a. by rewrite H4.
  - intros a x _. simpl. unfold live_acct. simpl. unfold view_acct, object_at. rewrite H2, lookup_empty.
    destruct (base_account _ _ a) as [d0|]; [|done]. intros [= <-]. simpl. extensionality key. by rewrite lookup_empty.
Qed.

(** C3 Starting from a freshly opened state database, whatever sequence of operations the
    virtual machine and the block processor issue - reads, balance, nonce, code and
    storage writes, account creation and suicide, logs, refunds, access lists, snapshots
    and reverts - every answer is the one of the ledger, which has no caches, no journal
    and copies the world at a snapshot; a panic happens exactly where the ledger has no
    next state (an unknown revision, a refund below zero). *)
Theorem StateDB_refines_ledger root d sn verified s os : newStateDB root d sn verified = Some s →
  let spec := spec_ops (konst_of s) os {| l_cur := view s; l_saved := []; l_next := 0 |} in
  (run_ops os s).1 = spec.1 ∧
  match (run_ops os s).2, spec.2 with
  | Some s', Some l' => view s' = l_cur l' ∧ nextRevisionId s' = l_next l'
  | None, None => True
  | _, _ => False
  end.
Proof.
  intros Hnew. destruct (new_wf _ _ _ _ _ Hnew) as [Hwf <-].
  destruct (ops_agree os s Hwf) as [H1 H2]. split; [done|].
  destruct (run_ops os s).2, (spec_ops _ os _).2; try done. by destruct H2 as (_ & <- & _).
Qed.

(** ** Reverting undoes everything *)

(** A revert to one of the saved worlds after the first [length P] keeps those. *)
Lemma spec_keeps k o l x l' P : spec_op k o l = Some (x, l') → P `prefix_of` l_saved l →
  (∀ i, o = ORevertToSnapshot i → i ∉ P.*1) → P `prefix_of` l_saved l'.
Proof.
  intros H HP Hno. assert (Hid : l_saved l' = l_saved l → P `prefix_of` l_saved l') by congruence.
  destruct o; cbn [spec_op] in H; try (apply Hid; by injection H as <- <-).
  - destruct (Contains _ _ _); [|done]. apply Hid. by injection H as <- <-.
  - destruct (w_SubRefund _ _); [|done]. apply Hid. by injection H as <- <-.
  - destruct (w_AddSlot _ _ _); [|done]. apply Hid. by injection H as <- <-.
  - injection H as <- <-. simpl. by apply prefix_app_r.
  - destruct (l_RevertToSnapshot id l) as [l1|] eqn:Hr; [|done]. injection H as <- <-.
    unfold l_RevertToSnapshot in Hr. destruct (list_find _ (l_saved l)) as [[i [id' w]]|] eqn:Hf; [|done].
    injection Hr as <-. simpl. apply list_find_Some in Hf as (Hi & Hid' & _). simpl in Hid'. subst id'.
    destruct HP as [Q HQ]. rewrite HQ in Hi |- *.
    destruct (decide (i < length P)%nat) as [Hlt|Hge].
    + exfalso. apply (Hno id eq_refl). rewrite lookup_app_l in Hi by done.
      apply list_elem_of_fmap. exists (id, w). split; [done|]. by eapply list_elem_of_lookup_2.
    + rewrite take_app_ge by lia. by apply prefix_app_r.
Qed.

Lemma specs_keep k os P : ∀ l, P `prefix_of` l_saved l →
  (∀ i, ORevertToSnapshot i ∈ os → i ∉ P.*1) →
  match (spec_ops k os l).2 with Some l' => P `prefix_of` l_saved l' | None => True end.
Proof.
  induction os as [|o os IH]; intros l HP Hno; [done|]. simpl.
  destruct (spec_op k o l) as [[x l']|] eqn:E; [|done].
  assert (HP' : P `prefix_of` l_saved l') by (eapply spec_keeps; [done..|]; intros i ->; apply Hno; by left).
  specialize (IH l' HP'). destruct (spec_ops k os l') as [xs r]. apply IH. intros i Hi. apply Hno. by right.
Qed.

Lemma revert_last l id w P Q : l_saved l = P ++ (id, w) :: Q → id ∉ P.*1 →
  l_RevertToSnapshot id l = Some {| l_cur := w; l_saved := P; l_next := l_next l |}.
Proof.
  intros Hl Hid. unfold l_RevertToSnapshot.
  assert (list_find (λ p : Z * world, p.1 = id) (l_saved l) = Some (length P, (id, w))) as ->.
  { apply list_find_Some. rewrite Hl. split; [by apply list_lookup_middle|]. split; [done|].
    intros j [i w'] Hj Hlt Hi. simpl in Hi. subst i. apply Hid. rewrite lookup_app_l in Hj by done.
    apply list_elem_of_fmap. exists (id, w'). split; [done|]. by eapply list_elem_of_lookup_2. }
  simpl. by rewrite Hl, take_app_length.
Qed.

Lemma saved_ids s : wf s → Forall (λ p, p.1 < nextRevisionId s) (l_saved (abs s)).
Proof. intros H. apply Forall_map. eapply Forall_impl; [apply (wf_ids _ _ H)|done]. Qed.

Lemma fresh_id s : wf s → nextRevisionId s ∉ (l_saved (abs s)).*1.
Proof.
  intros Hwf (p & Hp & Hin)%list_elem_of_fmap.
  pose proof (proj1 (Forall_forall _ _) (saved_ids s Hwf) p Hin) as H. simpl in H. lia.
Qed.

(** The journal and the revisions of a snapshot stay while nothing goes back behind it. *)
Record above_snapshot (P : list revision) (r : revision) (es : list (journalEntry T)) (s : StateDB) : Prop := {
  ab_revisions : P ++ [r] `prefix_of` validRevisions s;
  ab_entries : es `prefix_of` entries (journal s);
}.

Lemma revision_place P r l i r' : sorted l → P ++ [r] `prefix_of` l → l !! i = Some r' →
  (rev_id r' = rev_id r → i = length P ∧ r' = r) ∧
  (rev_id r < rev_id r' → (length P < i)%nat ∧ journalIndex r <= journalIndex r').
Proof.
  intros Hs [Q ->] Hi. assert (Hr : ((P ++ [r]) ++ Q) !! length P = Some r).
  { rewrite <- app_assoc. by apply list_lookup_middle. }
  destruct (Nat.lt_trichotomy i (length P)) as [Hlt|[->|Hgt]].
  - destruct (Hs _ _ _ _ Hi Hr Hlt). split; lia.
  - rewrite Hr in Hi. injection Hi as <-. split; [done|lia].
  - destruct (Hs _ _ _ _ Hr Hi Hgt). split; [lia|done].
Qed.

Lemma take_prefix {A} (p l : list A) n : p `prefix_of` l → (length p <= n)%nat → p `prefix_of` take n l.
Proof. intros [k ->] Hn. rewrite take_app_ge by done. by apply prefix_app_r. Qed.

Lemma step_above o s s' P r es : wf s → journals o s s' → journalIndex r = zlen es → above_snapshot P r es s →
  (∀ i, o = ORevertToSnapshot i → rev_id r < i) → above_snapshot P r es s'.
Proof.
  intros Hwf Hj Hr [Hrev Hes] Hno.
  assert (Hplain : entries (journal s) `prefix_of` entries (journal s') ∧ validRevisions s' = validRevisions s →
    above_snapshot P r es s') by (intros [He Hv]; split; [by rewrite Hv|by etrans]).
  destruct o; try by apply Hplain.
  - destruct Hj as [He Hv]. split; [rewrite Hv; by apply prefix_app_r|by rewrite He].
  - destruct Hj as (i & r' & Hi & Hid & Ev & Ee).
    destruct (revision_place _ _ _ _ _ (wf_sorted _ _ Hwf) Hrev Hi) as [_ [Hlt Hji]]; [rewrite Hid; by apply Hno|].
    split; rewrite ?Ev, ?Ee; apply take_prefix; try done; [rewrite length_app; simpl; lia|unfold zlen in *; lia].
Qed.

Lemma steps_above os P r es : journalIndex r = zlen es → ∀ s s' xs, wf s → above_snapshot P r es s →
  run_ops os s = (xs, Some s') → (∀ i, ORevertToSnapshot i ∈ os → rev_id r < i) → wf s' ∧ above_snapshot P r es s'.
Proof.
  intros Hr. induction os as [|o os IH]; intros s s' xs Hwf Hab Hrun Hno; [by injection Hrun as _ <-|].
  cbn [run_ops] in Hrun. pose proof (op_agrees o s Hwf) as Ha. unfold agree in Ha.
  destruct (run_op o s) as [[x s1]|]; [|done]. destruct (run_ops os s1) as [xs1 r1] eqn:E. injection Hrun as _ ->.
  destruct (spec_op _ o _) as [[x' l]|]; [|done]. destruct Ha as (_ & Hwf1 & _ & _ & Hj).
  apply (IH s1 s' xs1); try done; [|by intros i Hi; apply Hno; right].
  eapply step_above; [exact Hwf|exact Hj|done|done|]. intros i ->. apply Hno. by left.
Qed.

(** The counts of two journals with the same entries. *)
Lemma counted_same m m' (es : list (journalEntry T)) a : counted m es → counted m' es → a ≠ ripemd → m !! a = m' !! a.
Proof.
  intros [P1 E1 _] [P2 E2 _] Ha. pose proof (E1 a Ha) as H. rewrite <- (E2 a Ha) in H. pose proof (P1 a). pose proof (P2 a).
  destruct (m !! a), (m' !! a); simpl in H; congruence.
Qed.

(** C13 Take a snapshot, run any operations that do not go back behind it (nested
    snapshots and reverts included), and revert to it: the revert succeeds, everything
    observable - accounts, code, storage, suicides, logs, refund, preimages, access list -
    is what it was, the journal has the entries and the state the revisions it had, with the
    same worlds saved under them, and the journal counts every account as often as dirty as
    before but the one of RIPEMD-160, whose extra mark [touch] leaves on purpose. *)
Theorem revert_restores s id s1 os xs s2 : wf s → db_Snapshot s = (id, s1) →
  run_ops os s1 = (xs, Some s2) → (∀ i, ORevertToSnapshot i ∈ os → id < i) →
  ∃ s3, db_RevertToSnapshot Keccak256Hash id s2 = Some s3 ∧ wf s3 ∧ view s3 = view s ∧
    entries (journal s3) = entries (journal s) ∧
    (∀ a, a ≠ ripemd → dirties (journal s3) !! a = dirties (journal s) !! a) ∧
    validRevisions s3 = validRevisions s ∧ l_saved (abs s3) = l_saved (abs s).
Proof.
  intros Hwf Hsnap Hrun Hno. destruct (Snapshot_ok _ s Hwf) as (Hwf1 & Hid & Habs).
  rewrite Hsnap in Hwf1, Hid, Habs. cbn [fst snd] in *. simpl in Hid. subst id.
  destruct (ops_agree os s1 Hwf1) as [_ H]. rewrite Hrun in H. cbn [snd] in H.
  pose proof (specs_keep (konst_of s1) os (l_saved (abs s) ++ [(nextRevisionId s, view s)]) (abs s1)) as HP.
  rewrite Habs in HP. specialize (HP ltac:(reflexivity)). rewrite <- Habs in HP.
  destruct (spec_ops (konst_of s1) os (abs s1)).2 as [l'|]; [|done]. destruct H as (Hwf2 & <- & _).
  destruct HP as [Q HQ].
  { intros i Hi. specialize (Hno i Hi). intros (p & Hp & [Hin|Hin%list_elem_of_singleton]%elem_of_app)%list_elem_of_fmap.
    - pose proof (proj1 (Forall_forall _ _) (saved_ids s Hwf) p Hin) as Hlt. simpl in Hlt. lia.
    - subst p. simpl in Hp. lia. }
  rewrite <- app_assoc in HQ. cbn [app] in HQ.
  pose proof (Revert_ok Keccak256Hash (nextRevisionId s) s2 Hwf2) as Hr.
  rewrite (revert_last _ _ _ _ _ HQ (fresh_id s Hwf)) in Hr.
  destruct (db_RevertToSnapshot _ _ s2) as [s3|]; [|done].
  destruct Hr as (Hwf3 & Habs3 & _ & (i & r & Hi & Hir & Hv3 & He3)).
  pose proof (f_equal l_cur Habs3) as Hc. pose proof (f_equal l_saved Habs3) as Hs. simpl in Hc, Hs.
  set (r0 := {| rev_id := nextRevisionId s; journalIndex := zlen (entries (journal s)) |}).
  destruct (steps_above os (validRevisions s) r0 (entries (journal s)) eq_refl s1 s2 xs) as [_ [Hrev Hes]]; try done.
  { injection Hsnap as <-. by split. }
  destruct (revision_place _ _ _ _ _ (wf_sorted _ _ Hwf2) Hrev Hi) as [Heq _].
  destruct (Heq Hir) as [-> ->]. destruct Hrev as [Q1 HQ1], Hes as [Q2 HQ2].
  assert (E3 : entries (journal s3) = entries (journal s)).
  { rewrite He3, HQ2. simpl. unfold zlen. by rewrite Nat2Z.id, take_app_length. }
  exists s3. split_and!; try done.
  - intros a Ha. apply (counted_same _ _ (entries (journal s))); [rewrite <- E3; apply Hwf3|apply Hwf|done].
  - by rewrite Hv3, HQ1, <- app_assoc, take_app_length.
Qed.
End run.

(** The database over a layer with one account: its slot is read and written, a contract
    is made in a nested snapshot and taken back, the account is destructed and recreated
    and all of that is undone. *)
Definition demo : list op :=
  [OGetState 7 1; OSnapshot; OSetState 7 1 6; OAddBalance 8 3; OSnapshot; OSetCode 8 [1; 2]; OGetCodeSize 8;
   ORevertToSnapshot 1; OGetCodeSize 8; OSuicide 7; OCreateAccount 7; OGetState 7 1; OGetBalance 7;
   ORevertToSnapshot 0; OGetState 7 1; OExist 8; OGetBalance 7; ORevertToSnapshot 0].

Lemma StateDB_refines_ledger_witness : ∃ s, newStateDB 0 empty_store (Some one_account) false = Some s ∧
  (run_ops fold_hash demo s).1 =
    [AInt 5; AInt 0; Done; Done; AInt 1; Done; AInt 2; Done; AInt 0; ABool true; Done; AInt 0; AInt 0; Done;
     AInt 5; ABool false; AInt 50] ∧
  (run_ops fold_hash demo s).1 =
    (spec_ops fold_hash (konst_of s) demo {| l_cur := view fold_hash s; l_saved := []; l_next := 0 |}).1.
Proof.
  eexists. split; [reflexivity|]. split; [vm_compute; reflexivity|].
  eapply (StateDB_refines_ledger fold_hash 0 empty_store (Some one_account) false _ demo). reflexivity.
Defined.

Lemma revert_restores_witness : ∃ s s1 s2 s3, newStateDB 0 empty_store (Some one_account) false = Some s ∧
  db_Snapshot s = (0, s1) ∧ (run_ops fold_hash [OSetState 7 1 6; OAddRefund 4] s1).2 = Some s2 ∧
  db_RevertToSnapshot fold_hash 0 s2 = Some s3 ∧ view fold_hash s3 = view fold_hash s ∧
  entries (journal s3) = entries (journal s).
Proof.
  destruct (newStateDB 0 empty_store (Some one_account) false) as [s|] eqn:E; [|done].
  destruct (new_wf fold_hash _ _ _ _ _ E) as [Hwf _].
  destruct (run_ops fold_hash [OSetState 7 1 6; OAddRefund 4] (db_Snapshot s).2) as [xs [s2|]] eqn:Er.
  - destruct (revert_restores fold_hash s 0 (db_Snapshot s).2 [OSetState 7 1 6; OAddRefund 4] xs s2) as (s3 & H1 & _ & H2 & H3 & _).
    + exact Hwf.
    + injection E as <-. reflexivity.
    + exact Er.
    + intros i Hi. apply list_elem_of_In in Hi. simpl in Hi. destruct Hi as [Hi|[Hi|Hi]]; done.
    + exists s, (db_Snapshot s).2, s2, s3. split; [done|]. split; [injection E as <-; reflexivity|].
      by rewrite Er.
  - exfalso. injection E as <-. vm_compute in Er. discriminate.
Defined.
