(* ===== verification/StateVm.v ===== *)
(** * The virtual machine on the state database

    [StateDB] implements the interface the virtual machine is verified against
    ([VmState.StateDB] with [RevertLaws]), so that what is proved of calls holds of the
    journaled database: a call that fails leaves the view of the world as it was. *)

From Stdlib Require Import FunctionalExtensionality.
From S2P Require Import Prelude Uint256 Params VmData VmAnalysis VmState VmGas VmInstr VmJumpTable VmInterpreter VmEvm.
From S2P Require Import VmSpec VmFrame VmExec VmGasOk VmTables VmSafety VmModel.
From S2P Require Import Rlp RlpStream StateData StateObjects StateDbOps StateView StateLedger StateRefine StateSim.
From S2P Require Import StateJournal StateModel StateTheorem.

Section instance.
Context {D T SN : Type} {B : Backend D T SN} {BL : BackendLaws D T SN}.
Variable Keccak : bytes → Hash.

Abbreviation db_state := (StateData.StateDB D T SN).
Abbreviation view := (@view D T SN B Keccak).
Abbreviation wf := (@wf D T SN B Keccak).
Abbreviation abs := (@abs D T SN B Keccak).
Abbreviation run_op := (@run_op D T SN B Keccak).
Abbreviation spec_op := (@spec_op D T SN Keccak).

(** ** The codes of the accounts *)

Definition acct_code_ok (x : acct) : Prop :=
  Keccak (a_code x) = acc_CodeHash (a_data x) ∧ zlen (a_code x) < 2 ^ 63.
Definition codes_ok (w : world) : Prop := ∀ a x, w_acct w a = Some x → acct_code_ok x.
Definition all_codes_ok (l : ledger) : Prop :=
  codes_ok (l_cur l) ∧ Forall (λ p, codes_ok p.2) (l_saved l).
(** The refund counter is an unsigned integer. *)
Definition all_refunds_ok (l : ledger) : Prop :=
  0 <= w_refund (l_cur l) ∧ Forall (λ p, 0 <= w_refund p.2) (l_saved l).

Lemma codes_put a x w : codes_ok w → acct_code_ok x → codes_ok (put_acct a (Some x) w).
Proof. intros Hw Hx b y. simpl. unfold upd. case_if; [by intros [= <-]|apply Hw]. Qed.
Lemma fresh_code : acct_code_ok (fresh_acct Keccak).
Proof. split; [done|]. simpl. unfold zlen. simpl. lia. Qed.
Lemma codes_create t a w : codes_ok w → codes_ok (w_create Keccak t a w).
Proof.
  intros Hw. apply codes_put; [|apply fresh_code].
  destruct (w_acct w a); [|done]. destruct t; [|done]. intros b x. apply Hw.
Qed.
Lemma live_code w a x : codes_ok w → live_acct w a = Some x → acct_code_ok x.
Proof.
  intros Hw. unfold live_acct. destruct (w_acct w a) as [y|] eqn:E; [|done]. simpl.
  destruct (a_deleted y); [done|]. intros [= <-]. by apply (Hw a).
Qed.
Lemma codes_write t a f w : (∀ x, acct_code_ok x → acct_code_ok (f x)) → codes_ok w →
  codes_ok (w_write Keccak t a f w).
Proof.
  intros Hf Hw. unfold w_write. destruct (live_acct w a) as [x|] eqn:E.
  - apply codes_put; [done|]. by apply Hf, (live_code w a).
  - apply codes_put; [by apply codes_create|]. apply Hf, fresh_code.
Qed.

(** Go slices are shorter than [2^63]. *)
Definition allowed (o : op) : bool := match o with OSetCode _ c => zlen c <? 2 ^ 63 | _ => true end.

Lemma spec_codes k o l x l' : allowed o = true → spec_op k o l = Some (x, l') →
  all_codes_ok l → all_codes_ok l'.
Proof.
  intros Ha H [Hc Hs].
  assert (Hch : ∀ w, codes_ok w → l' = l_change (λ _, w) l → all_codes_ok l') by (by intros w ? ->).
  assert (Hw : ∀ a f, (∀ x, acct_code_ok x → acct_code_ok (f x)) →
    codes_ok (w_write Keccak (bool_decide (is_Some (k_snap k))) a f (l_cur l))) by (intros; by apply codes_write).
  destruct o; cbn [StateTheorem.spec_op] in H; try (by injection H as <- <-);
    try (injection H as <- <-; by (eapply Hch; [apply (Hw a)|reflexivity])).
  - destruct (Contains _ _ _); [|done]. by injection H as <- <-.
  - injection H as <- <-. eapply Hch; [|reflexivity]. unfold w_CreateAccount.
    destruct (live_acct (l_cur l) a); [|by apply codes_create].
    apply codes_put; [by apply codes_create|]. apply fresh_code.
  - injection H as <- <-. eapply Hch; [|reflexivity]. apply Hw. intros y _. split; [done|]. simpl.
    by apply Z.ltb_lt.
  - injection H as <- <-. eapply (Hch (w_Suicide a (l_cur l)).2); [|reflexivity]. unfold w_Suicide.
    destruct (live_acct (l_cur l) a) as [y|] eqn:E; [|done]. apply codes_put; [done|].
    exact (live_code (l_cur l) a y Hc E).
  - injection H as <- <-. eapply Hch; [|reflexivity]. unfold w_AddPreimage.
    by destruct (w_preimages (l_cur l) !! h).
  - destruct (w_SubRefund g (l_cur l)) as [w|] eqn:E; [|done]. injection H as <- <-.
    eapply Hch; [|reflexivity]. unfold w_SubRefund in E. destruct (_ <? _); [done|]. by injection E as <-.
  - destruct (w_AddSlot a slot (l_cur l)) as [w|] eqn:E; [|done]. injection H as <- <-.
    eapply Hch; [|reflexivity]. unfold w_AddSlot in E. destruct (AddSlot _ _ _); [|done]. by injection E as <-.
  - injection H as <- <-. split; [done|]. apply Forall_app. split; [done|]. by constructor.
  - destruct (l_RevertToSnapshot id l) as [l1|] eqn:E; [|done]. injection H as <- <-.
    unfold l_RevertToSnapshot in E. destruct (list_find _ _) as [[i [id' w]]|] eqn:Hf; [|done].
    injection E as <-. apply list_find_Some in Hf as (Hi & _). split; simpl.
    + exact (Forall_lookup_1 _ _ _ _ Hs Hi).
    + by apply Forall_take.
Qed.

Lemma write_refund t a f w : w_refund (w_write Keccak t a f w) = w_refund w.
Proof. unfold w_write, w_create. destruct (live_acct w a), (w_acct w a), t; done. Qed.

Lemma spec_refunds k o l x l' : spec_op k o l = Some (x, l') → all_refunds_ok l → all_refunds_ok l'.
Proof.
  intros H [Hc Hs].
  assert (Hch : ∀ w, 0 <= w_refund w → l' = l_change (λ _, w) l → all_refunds_ok l') by (by intros w ? ->).
  destruct o; cbn [StateTheorem.spec_op] in H; try (by injection H as <- <-);
    try (injection H as <- <-; by (eapply Hch; [rewrite write_refund|reflexivity])).
  - destruct (Contains _ _ _); [|done]. by injection H as <- <-.
  - injection H as <- <-. eapply Hch; [|reflexivity]. unfold w_CreateAccount, w_create.
    by destruct (live_acct (l_cur l) a), (w_acct (l_cur l) a), (bool_decide _).
  - injection H as <- <-. eapply (Hch (w_Suicide a (l_cur l)).2); [|reflexivity]. unfold w_Suicide.
    by destruct (live_acct (l_cur l) a).
  - injection H as <- <-. eapply Hch; [|reflexivity]. unfold w_AddPreimage.
    by destruct (w_preimages (l_cur l) !! h).
  - injection H as <- <-. eapply Hch; [|reflexivity]. apply u64_range.
  - destruct (w_SubRefund g (l_cur l)) as [w|] eqn:E; [|done]. injection H as <- <-.
    eapply Hch; [|reflexivity]. unfold w_SubRefund in E. destruct (Z.ltb_spec (w_refund (l_cur l)) g); [done|].
    injection E as <-. simpl. lia.
  - destruct (w_AddSlot a slot (l_cur l)) as [w|] eqn:E; [|done]. injection H as <- <-.
    eapply Hch; [|reflexivity]. unfold w_AddSlot in E. destruct (AddSlot _ _ _); [|done]. by injection E as <-.
  - injection H as <- <-. split; [done|]. apply Forall_app. split; [done|]. by constructor.
  - destruct (l_RevertToSnapshot id l) as [l1|] eqn:E; [|done]. injection H as <- <-.
    unfold l_RevertToSnapshot in E. destruct (list_find _ _) as [[i [id' w]]|] eqn:Hf; [|done].
    injection E as <-. apply list_find_Some in Hf as (Hi & _). split; simpl.
    + exact (Forall_lookup_1 _ _ _ _ Hs Hi).
    + by apply Forall_take.
Qed.

(** ** The instance *)

Definition good (s : db_state) : Prop := wf s ∧ all_codes_ok (abs s) ∧ all_refunds_ok (abs s).
Definition good_db : Type := { s : db_state | good s }.
Definition raw (s : good_db) : db_state := proj1_sig s.

Lemma good_op o s x s' : good s → allowed o = true → run_op o s = Some (x, s') → good s'.
Proof.
  intros (Hwf & Hc & Hr) Ha H. pose proof (op_agrees Keccak o s Hwf) as Hag. unfold agree in Hag. rewrite H in Hag.
  destruct (spec_op (konst_of s) o (abs s)) as [[x' l']|] eqn:E; [|done].
  destruct Hag as (-> & Hwf' & <- & _). split; [done|].
  split; [by eapply spec_codes|by eapply spec_refunds].
Qed.

(** An operation on the database with its invariant. *)
Definition step_op (o : op) (s : good_db) : option (answer * good_db) :=
  match decide (allowed o = true) with
  | left Ha =>
      match run_op o (raw s) as r return run_op o (raw s) = r → option (answer * good_db) with
      | Some (x, s') => λ E, Some (x, exist _ s' (good_op o (raw s) x s' (proj2_sig s) Ha E))
      | None => λ _, None
      end eq_refl
  | right _ => None
  end.
Definition do_op (o : op) (s : good_db) : good_db := match step_op o s with Some (_, s') => s' | None => s end.
Definition ask (o : op) (s : good_db) : answer := match step_op o s with Some (x, _) => x | None => Done end.
Definition as_int (x : answer) : Z := match x with AInt z => z | _ => 0 end.
Definition as_bool (x : answer) : bool := match x with ABool b => b | _ => false end.
Definition as_bools (x : answer) : bool * bool := match x with ABools p => p | _ => (false, false) end.
Definition as_bytes (x : answer) : bytes := match x with ABytes c => c | _ => [] end.

(** [state.StateDB] as a [vm.StateDB].  What a getter caches is not seen by the virtual
    machine, see [quiet]. *)
#[export] Instance state_vm_db : VmState.StateDB good_db := {|
  CreateAccount a := do_op (OCreateAccount a);
  SubBalance a v := do_op (OSubBalance a v);
  AddBalance a v := do_op (OAddBalance a v);
  GetBalance s a := as_int (ask (OGetBalance a) s);
  GetNonce s a := as_int (ask (OGetNonce a) s);
  SetNonce a n := do_op (OSetNonce a n);
  GetCodeHash s a := as_int (ask (OGetCodeHash a) s);
  GetCode s a := as_bytes (ask (OGetCode a) s);
  SetCode a c := do_op (OSetCode a c);
  GetCodeSize s a := as_int (ask (OGetCodeSize a) s);
  AddRefund g := do_op (OAddRefund g);
  SubRefund g s := snd <$> step_op (OSubRefund g) s;
  GetRefund s := as_int (ask OGetRefund s);
  GetCommittedState s a key := as_int (ask (OGetCommittedState a key) s);
  GetState s a key := as_int (ask (OGetState a key) s);
  SetState a key v := do_op (OSetState a key v);
  Suicide a s := (as_bool (ask (OSuicide a) s), do_op (OSuicide a) s);
  HasSuicided s a := as_bool (ask (OHasSuicided a) s);
  Exist s a := as_bool (ask (OExist a) s);
  Empty s a := as_bool (ask (OEmpty a) s);
  AddressInAccessList s a := as_bool (ask (OAddressInAccessList a) s);
  SlotInAccessList s a slot := as_bools (ask (OSlotInAccessList a slot) s);
  AddAddressToAccessList a := do_op (OAddAddressToAccessList a);
  AddSlotToAccessList a slot := do_op (OAddSlotToAccessList a slot);
  RevertToSnapshot id s := snd <$> step_op (ORevertToSnapshot id) s;
  Snapshot s := (as_int (ask OSnapshot s), do_op OSnapshot s);
  AddLog l := do_op (OAddLog l);
  AddPreimage h p := do_op (OAddPreimage h p);
|}.

(** ** The laws *)

(** A step is a step of the ledger. *)
Lemma step_spec o s : allowed o = true →
  match step_op o s with
  | Some (x, s') => spec_op (konst_of (raw s)) o (abs (raw s)) = Some (x, abs (raw s'))
  | None => spec_op (konst_of (raw s)) o (abs (raw s)) = None
  end.
Proof.
  intros Ha. pose proof (op_agrees Keccak o (raw s) (proj1 (proj2_sig s))) as H. unfold step_op.
  destruct (decide _) as [Ha'|]; [|done]. generalize (good_op o (raw s)). unfold agree in H.
  destruct (run_op o (raw s)) as [[x s']|]; intros Hg.
  - destruct (spec_op _ o _) as [[x' l']|]; [|done]. by destruct H as (-> & _ & <- & _).
  - by destruct (spec_op _ o _).
Qed.

(** Operations other than snapshots and reverts leave what was saved alone. *)
Definition plain (o : op) : bool := match o with OSnapshot | ORevertToSnapshot _ => false | _ => true end.
Lemma step_saved o s x s' : plain o = true → step_op o s = Some (x, s') →
  l_saved (abs (raw s')) = l_saved (abs (raw s)).
Proof.
  intros Hp H. assert (Ha : allowed o = true) by (unfold step_op in H; by destruct (decide _)).
  pose proof (step_spec o s Ha) as Hs. rewrite H in Hs.
  destruct o; try done; cbn [StateTheorem.spec_op] in Hs; try (apply Some_inj, (f_equal snd) in Hs; cbn in Hs; by rewrite <- Hs).
  - destruct (Contains _ _ _); [|done]. apply Some_inj, (f_equal snd) in Hs. cbn in Hs. by rewrite <- Hs.
  - destruct (w_SubRefund _ _); [|done]. apply Some_inj, (f_equal snd) in Hs. cbn in Hs. by rewrite <- Hs.
  - destruct (w_AddSlot _ _ _); [|done]. apply Some_inj, (f_equal snd) in Hs. cbn in Hs. by rewrite <- Hs.
Qed.
Lemma do_saved o s : plain o = true → l_saved (abs (raw (do_op o s))) = l_saved (abs (raw s)).
Proof. intros Hp. unfold do_op. destruct (step_op o s) as [[x s']|] eqn:E; [|done]. by eapply step_saved. Qed.

Variable E : env good_db.
Hypothesis E_transfer : Transfer E = core_Transfer.

Lemma dbop_saved ro s s' : dbop E ro s s' → l_saved (abs (raw s')) = l_saved (abs (raw s)).
Proof.
  intros H. destruct H as [| | | | | | | | | | | | | | |g s' Hro H]; rewrite ?E_transfer; unfold core_Transfer;
    cbn [CreateAccount SubBalance AddBalance SetNonce SetCode SetState Suicide AddLog AddPreimage AddRefund
         AddAddressToAccessList AddSlotToAccessList state_vm_db snd]; try by rewrite ?do_saved.
  simpl in H. destruct (step_op (OSubRefund g) s) as [[x s1]|] eqn:Es; [|done].
  injection H as <-. by apply (step_saved (OSubRefund g) s x).
Qed.

Lemma Snapshot_abs s id s1 : Snapshot s = (id, s1) →
  id = nextRevisionId (raw s) ∧ abs (raw s1) = (l_Snapshot (abs (raw s))).2.
Proof.
  intros H. cbn [Snapshot state_vm_db] in H. unfold ask, do_op in H. pose proof (step_spec OSnapshot s eq_refl) as Hs.
  destruct (step_op OSnapshot s) as [[x s']|]; [|done]. cbn [StateTheorem.spec_op] in Hs.
  apply Some_inj in Hs. injection H as <- <-. split; [|by apply (f_equal snd) in Hs].
  apply (f_equal fst) in Hs. cbn [fst] in Hs. by rewrite <- Hs.
Qed.

Lemma revert_abs id s P w Q : l_saved (abs (raw s)) = P ++ (id, w) :: Q → id ∉ P.*1 →
  ∃ s', RevertToSnapshot id s = Some s' ∧ view (raw s') = w ∧ l_saved (abs (raw s')) = P.
Proof.
  intros Hl Hid. pose proof (step_spec (ORevertToSnapshot id) s eq_refl) as Hs.
  cbn [StateTheorem.spec_op] in Hs. rewrite (revert_last _ _ _ _ _ Hl Hid) in Hs. simpl.
  destruct (step_op (ORevertToSnapshot id) s) as [[x s']|]; [|done].
  apply Some_inj, (f_equal snd) in Hs. cbn [snd] in Hs. exists s'.
  split; [done|]. split; [by apply (f_equal l_cur) in Hs|by apply (f_equal l_saved) in Hs].
Qed.

Lemma dbsteps_saved ro s s' : dbsteps E ro s s' → l_saved (abs (raw s)) `prefix_of` l_saved (abs (raw s')).
Proof.
  induction 1 as [|s s1 s2 _ IH Hop|s s1 id s2 _ IH Hs|s s1 id s2 s3 s4 _ IH1 Hs _ IH2 Hr].
  - done.
  - by rewrite (dbop_saved _ _ _ Hop).
  - destruct (Snapshot_abs _ _ _ Hs) as [_ H]. rewrite H. by apply prefix_app_r.
  - destruct (Snapshot_abs _ _ _ Hs) as [Hid H]. rewrite H in IH2. destruct IH2 as [Q HQ].
    unfold l_Snapshot in HQ. cbn [snd l_saved] in HQ. rewrite <- app_assoc in HQ. cbn [app] in HQ.
    destruct (revert_abs id s3 (l_saved (abs (raw s1))) (view (raw s1)) Q) as (s4' & Hr' & _ & Hp).
    + rewrite HQ, Hid. done.
    + rewrite Hid. apply fresh_id, (proj2_sig s1).
    + rewrite Hr in Hr'. injection Hr' as <-. by rewrite Hp.
Qed.

#[export] Instance state_revert : RevertLaws E.
Proof.
  refine {| same_state := λ s s', view (raw s') = view (raw s) |}.
  - done.
  - intros s id s1 s2 Hs Hd. destruct (Snapshot_abs _ _ _ Hs) as [-> H].
    apply dbsteps_saved in Hd as [Q HQ]. rewrite H in HQ. unfold l_Snapshot in HQ. cbn [snd l_saved] in HQ.
    rewrite <- app_assoc in HQ. cbn [app] in HQ.
    destruct (revert_abs (nextRevisionId (raw s)) s2 (l_saved (abs (raw s))) (view (raw s)) Q) as (s3 & H1 & H2 & _).
    + done.
    + apply fresh_id, (proj2_sig s).
    + by exists s3.
Defined.

(** What is left to assume of the libraries. *)
Record libraries_ok : Prop := {
  lib_gas a p i : precompile E a = Some p → is_u64 (RequiredGas p i);
  lib_len a p i : precompile E a = Some p → zlen (Run_precompiled p i).1 < 2 ^ 63;
  lib_hash : Keccak256Hash E = Keccak;
  lib_bitmap c1 c2 : Keccak c1 = Keccak c2 → codeBitmap c1 = codeBitmap c2;
}.

Lemma ask_code s a : as_bytes (ask (OGetCode a) s) = w_read [] a_code a (view (raw s)) ∧
  as_int (ask (OGetCodeHash a) s) = w_read 0 (λ x, acc_CodeHash (a_data x)) a (view (raw s)).
Proof.
  unfold ask. pose proof (step_spec (OGetCode a) s eq_refl) as H1.
  pose proof (step_spec (OGetCodeHash a) s eq_refl) as H2.
  destruct (step_op (OGetCode a) s) as [[x s']|], (step_op (OGetCodeHash a) s) as [[x' s'']|]; try done.
  apply Some_inj, (f_equal fst) in H1, H2. cbn in H1, H2. by rewrite <- H1, <- H2.
Qed.

Lemma state_env_ok : libraries_ok → env_ok E.
Proof.
  intros [H1 H2 H3 H4]. split; try done; [|intros s a|by rewrite H3].
  - intros s a. cbn [GetCode state_vm_db]. rewrite (proj1 (ask_code s a)). unfold w_read.
    destruct (live_acct (view (raw s)) a) as [x|] eqn:Hx; [|unfold zlen; simpl; lia].
    by apply (live_code (view (raw s)) a x (proj1 (proj1 (proj2 (proj2_sig s))))).
  - cbn [GetCode GetCodeHash state_vm_db]. destruct (ask_code s a) as [-> ->]. unfold w_read. rewrite H3.
    destruct (live_acct (view (raw s)) a) as [x|] eqn:Hx; [|done]. intros _.
    by apply (live_code (view (raw s)) a x (proj1 (proj1 (proj2 (proj2_sig s))))).
Qed.
End instance.

(** ** Calls *)

Section calls.
Context {D T SN : Type} {B : Backend D T SN} {BL : BackendLaws D T SN}.
Variable Keccak : bytes → Hash.
Context `{UL : Uint256Laws} {C : Type} {BC : BitmapCache C} {CL : CacheLaws (C := C)}.

(** C14 The virtual machine on the journaled database: every call returns with at most
    the gas it was given and the database well formed, and one that returns an error -
    out of gas, REVERT, a bad jump, a failed create below it, at any depth - leaves the
    view of the world exactly as it was before the call. *)
Theorem failed_call_restores_view (E : env (good_db Keccak)) (f : fork)
    (abort : Z → mstate (good_db Keccak) C → bool) (n : nat) (e : evm (good_db Keccak) C)
    caller addr input gas value :
  Transfer E = core_Transfer → libraries_ok Keccak E → (f = Berlin → rIsEIP150 (chainRules E) = true) →
  vm_ok E e → 1025 <= Z.of_nat n + depth e → is_u64 gas → zlen input < 2 ^ 63 →
  (is_ro E e = true → value = 0) →
  match Call (calls E (instructionSet f) abort n) caller addr input gas value e with
  | Ret (out, leftOverGas, err) e' =>
      0 <= leftOverGas <= gas ∧ wf Keccak (raw Keccak (sdb e')) ∧
      (err ≠ None → view Keccak (raw Keccak (sdb e')) = view Keccak (raw Keccak (sdb e)))
  | Panic p => p = PStateDB ∨ p = PExplicit
  | Fail _ _ => False
  | NoFuel => False
  end.
Proof.
  intros Htr Hlib Hf Hv Hn Hg Hi Hro. pose proof (state_env_ok Keccak E Hlib) as EOK.
  pose proof (evm_Call_ok E (RL := state_revert Keccak E Htr) EOK (depth e) _
    (run_at_ok E (RL := state_revert Keccak E Htr) EOK _ (instructionSet_ok E EOK f Hf) abort n _ Hn)
    e caller addr input gas value eq_refl Hv Hg Hi Hro) as H.
  rewrite calls_unfold. unfold wp in H.
  change (Call _ caller addr input gas value e) with
    (evm_Call E (run_at E (instructionSet f) abort n) caller addr input gas value e).
  destruct (evm_Call _ _ _ _ _ _ _ _) as [[[out left] err] e'| | |]; try done.
  destruct H as [(_ & Hl & _) He]. split; [done|]. split; [exact (proj1 (proj2_sig (sdb e')))|].
  destruct err; [|done]. intros _. exact (proj1 He).
Qed.
End calls.

(** ** A machine on the store in memory *)

Lemma toy_good (s : StateData.StateDB mstore mtrie layer) :
  newStateDB 0 empty_store None false = Some s → good toy_hash s.
Proof.
  intros H. destruct (new_wf toy_hash _ _ _ _ _ H) as [Hwf Habs]. split; [done|]. rewrite Habs.
  injection H as <-. split; [|done]. split; [|done]. intros a x. simpl. unfold view_acct, object_at. simpl.
  rewrite lookup_empty. unfold base_account. simpl. by rewrite lookup_empty.
Qed.
Definition toy_db : good_db toy_hash :=
  exist _ _ (toy_good _ (eq_refl (newStateDB 0 empty_store None false))).
(** A contract that jumps to itself for ever, put at an address. *)
Definition looping_db : good_db toy_hash := SetCode 0xAA [0x5b; 0x60; 0; 0x56] (AddBalance 0x0A 1000 toy_db).
Definition state_env : env (good_db toy_hash) := {|
  chainRules := toy_rules false; chainID := 56; CanTransfer := core_CanTransfer; Transfer := core_Transfer;
  GetHash n := n; Coinbase := 0xC0; GasLimit := 30000000; BlockNumber := 1000; Time := 1600000000;
  Difficulty := 2; Origin := 0x0A; GasPrice := 5; NoRecursion := false; EnablePreimageRecording := false;
  Keccak256Hash := toy_hash; CreateAddress a n := 0x1000 + a + n; CreateAddress2 a _ _ := 0x2000 + a;
  precompile _ := None |}.
Definition state_evm : evm (good_db toy_hash) (gmap Hash bytes) := {|
  sdb := looping_db; depth := 0; callGasTemp := 0; readOnly := false; returnData := [];
  jumpdests := ∅; bitmapCache := ∅ |}.
Lemma state_libraries : libraries_ok toy_hash state_env.
Proof. split; try done. intros c1 c2 H. by rewrite (toy_hash_inj _ _ H). Qed.
Lemma state_vm_ok : vm_ok state_env state_evm.
Proof. split; [by vm_compute|intros h a H; simpl in H; by rewrite lookup_empty in H..]. Qed.

Lemma failed_call_restores_view_witness :
  match Call (calls state_env (instructionSet Istanbul) (λ _ _, false) (Z.to_nat 1025))
          (AccountRef 0x0A) 0xAA [] 500 7 state_evm with
  | Ret (out, leftOverGas, err) e' =>
      0 <= leftOverGas <= 500 ∧ wf toy_hash (raw toy_hash (sdb e')) ∧
      (err ≠ None → view toy_hash (raw toy_hash (sdb e')) = view toy_hash (raw toy_hash (sdb state_evm)))
  | Panic p => p = PStateDB ∨ p = PExplicit
  | Fail _ _ => False
  | NoFuel => False
  end.
Proof.
  apply (failed_call_restores_view toy_hash state_env Istanbul (λ _ _, false) (Z.to_nat 1025) state_evm
    (AccountRef 0x0A) 0xAA [] 500 7).
  - reflexivity.
  - exact state_libraries.
  - discriminate.
  - exact state_vm_ok.
  - vm_compute. congruence.
  - unfold is_u64. lia.
  - vm_compute. reflexivity.
  - discriminate.
Defined.

(** The loop runs out of gas, after a transfer of 7 that is then undone. *)
Example state_call_fails :
  match Call (calls state_env (instructionSet Istanbul) (λ _ _, false) (Z.to_nat 1025))
          (AccountRef 0x0A) 0xAA [] 500 7 state_evm with
  | Ret (out, leftOverGas, err) e' =>
      (out, leftOverGas, err) = ([], 0, Some ErrOutOfGas) ∧ GetBalance (sdb e') 0x0A = 1000
  | _ => False
  end.
Proof. vm_compute. done. Qed.
