(* ===== verification/StateFinalise.v ===== *)
(** * The end of a transaction

    [Finalise] commits what the transaction did: the storage written becomes the committed
    one, suicided accounts and touched empty ones are gone, the journal and its revisions
    are closed, and the invariant holds for the next transaction. *)

From Stdlib Require Import FunctionalExtensionality.
From S2P Require Import Prelude Params VmData VmState Rlp RlpStream StateData StateObjects StateDbOps StateView.
From S2P Require Import StateLedger StateRefine StateSim StateJournal StateModel StateTheorem.

Section finalise.
Context {D T SN : Type} {B : Backend D T SN} {BL : BackendLaws D T SN}.
Variable Keccak256Hash : bytes → Hash.

Abbreviation StateObject := (StateObject T).
Abbreviation StateDB := (StateDB D T SN).
Abbreviation konst_of := (@konst_of D T SN B).
Abbreviation obj_view := (@obj_view D T SN B Keccak256Hash).
Abbreviation view := (@view D T SN B Keccak256Hash).
Abbreviation wf := (@wf D T SN B Keccak256Hash).
Abbreviation gone_at s a := (bool_decide (a ∈ snapDestructs s)) (only parsing).

(** ** The specification *)

(** The state becomes the committed state. *)
Definition commit_acct (x : acct) : acct := {|
  a_data := a_data x; a_code := a_code x; a_suicided := a_suicided x; a_deleted := a_deleted x;
  a_committed := a_state x; a_state := a_state x |}.
Definition doomed (del : bool) (x : acct) : bool := a_suicided x || (del && acct_empty Keccak256Hash x).

(** An account the transaction touched: it is dirty in the journal and loaded. *)
Definition touched (s : StateDB) (a : Address) : bool :=
  bool_decide (a ∈ dom (dirties (journal s))) && bool_decide (is_Some (stateObjects s !! a)).

(** ** One account *)

Definition kill (del : bool) (o : StateObject) : bool := suicided o || (del && obj_empty Keccak256Hash o).
Definition finalised (del : bool) (s : StateDB) (o : StateObject) : StateObject :=
  if kill del o then set_deleted true o else obj_finalise Keccak256Hash s o.

Lemma doomed_kill del k gone o : doomed del (obj_view k gone o) = kill del o.
Proof. done. Qed.

(** What an account's turn leaves alone. *)
Record same_rest (s s' : StateDB) : Prop := {
  sr_konst : konst_of s' = konst_of s;
  sr_pool : storagePool s' = storagePool s;
  sr_pipe : pipeCommit s' = pipeCommit s;
  sr_journal : journal s' = journal s;
  sr_revisions : validRevisions s' = validRevisions s;
  sr_next : nextRevisionId s' = nextRevisionId s;
  sr_refund : refund s' = refund s;
  sr_logs : logs s' = logs s;
  sr_logSize : logSize s' = logSize s;
  sr_preimages : preimages s' = preimages s;
  sr_al : accessList s' = accessList s;
}.
Lemma same_rest_refl s : same_rest s s.
Proof. by split. Qed.
Lemma same_rest_trans s1 s2 s3 : same_rest s1 s2 → same_rest s2 s3 → same_rest s1 s3.
Proof. intros [] []. split; congruence. Qed.

Lemma finalise_one del s a : objects_ok s → let s' := finalise_account Keccak256Hash del s a in
  same_rest s s' ∧
  (∀ b, stateObjects s' !! b =
     if bool_decide (b = a) then finalised del s <$> stateObjects s !! b else stateObjects s !! b) ∧
  (∀ b, gone_at s' b = gone_at s b || (bool_decide (b = a) && bool_decide (is_Some (snap s)) &&
     match stateObjects s !! a with Some o => kill del o | None => false end)).
Proof.
  intros [Hp Ha Ho]. unfold finalise_account. destruct (stateObjects s !! a) as [o|] eqn:E.
  2:{ split; [apply same_rest_refl|]. split; intros b; [|by rewrite andb_false_r, orb_false_r].
      case_bool_decide as Hb; [by rewrite Hb, E|done]. }
  assert (Hset : ∀ f b, <[a := f o]> (stateObjects s) !! b =
    if bool_decide (b = a) then f <$> stateObjects s !! b else stateObjects s !! b).
  { intros f b. case_bool_decide as Hb; [by rewrite Hb, E, lookup_insert_eq|by rewrite lookup_insert_ne by congruence]. }
  fold (kill del o). rewrite (Ha a o E).
  assert (Hf : ∀ o', o' = finalised del s o → ∀ b, <[a := o']> (stateObjects s) !! b =
    if bool_decide (b = a) then finalised del s <$> stateObjects s !! b else stateObjects s !! b)
    by (intros o' ->; apply Hset).
  unfold finalised at 1 in Hf. destruct (kill del o) eqn:Hk.
  - destruct (bool_decide (is_Some (snap s))) eqn:Hs; simpl.
    + split; [by split|]. split; [by apply Hf|]. intros b. rewrite !andb_true_r.
      rewrite <- bool_decide_or. apply bool_decide_ext. set_solver.
    + split; [by split|]. split; [by apply Hf|]. intros b. by rewrite !andb_false_r, orb_false_r.
  - split; [by split|]. split; [by apply Hf|]. intros b. by rewrite andb_false_r, orb_false_r.
Qed.

(** ** All of them *)

Lemma finalised_ext del s s' : same_rest s s' → finalised del s' = finalised del s.
Proof.
  intros [Hk _ Hp _ _ _ _ _ _ _ _]. extensionality o. unfold finalised, obj_finalise, corrected_root.
  pose proof (f_equal k_snap Hk) as Hs. simpl in Hs. by rewrite Hp, Hs.
Qed.

Lemma finalised_ok del s o : obj_ok o → address (finalised del s o) = address o ∧ obj_ok (finalised del s o).
Proof.
  intros [H1 H2]. unfold finalised. destruct (kill del o); [by split|]. unfold obj_finalise.
  by destruct (corrected_root _ _ _).
Qed.

Lemma finalise_all del l : ∀ s, objects_ok s → NoDup l →
  let s' := fold_left (finalise_account Keccak256Hash del) l s in
  same_rest s s' ∧ objects_ok s' ∧
  (∀ a, stateObjects s' !! a =
     if bool_decide (a ∈ l) then finalised del s <$> stateObjects s !! a else stateObjects s !! a) ∧
  (∀ a, gone_at s' a = gone_at s a || (bool_decide (a ∈ l) && bool_decide (is_Some (snap s)) &&
     match stateObjects s !! a with Some o => kill del o | None => false end)).
Proof.
  induction l as [|a l IH]; intros s Hok Hnd; simpl.
  - split; [apply same_rest_refl|]. split; [done|]. split; [done|]. intros b. by rewrite orb_false_r.
  - apply NoDup_cons in Hnd as [Hnin Hnd]. destruct (finalise_one del s a Hok) as (Hr & Ho & Hg).
    set (s1 := finalise_account Keccak256Hash del s a) in *.
    assert (Hok1 : objects_ok s1).
    { destruct Hok as [H1 H2 H3].
      assert (Hall : ∀ b o, stateObjects s1 !! b = Some o → address o = b ∧ obj_ok o).
      { intros b o. rewrite Ho. destruct (decide (b = a)) as [Hb|Hb];
          [rewrite bool_decide_true by done|rewrite bool_decide_false by done; intros; split; eauto].
        intros (o0 & Ho0 & ->)%fmap_Some_1.
        destruct (finalised_ok del s o0 (H3 _ _ Ho0)) as [-> ?]. split; eauto. }
      split; [by rewrite (sr_pool _ _ Hr)|..]; intros b o Hb; by apply (Hall b). }
    destruct (IH s1 Hok1 Hnd) as (Hr2 & Hok2 & Ho2 & Hg2).
    pose proof (f_equal k_snap (sr_konst _ _ Hr)) as Hsn. simpl in Hsn.
    split; [by eapply same_rest_trans|]. split; [done|]. rewrite (finalised_ext _ _ _ Hr) in Ho2.
    split; intros b.
    + rewrite Ho2, Ho. destruct (decide (b = a)) as [->|Hne].
      * rewrite (bool_decide_false (a ∈ l)), (bool_decide_true (a ∈ a :: l)), (bool_decide_true (a = a)) by set_solver.
        done.
      * rewrite (bool_decide_false (b = a)) by done.
        by rewrite (bool_decide_ext (b ∈ a :: l) (b ∈ l)) by set_solver.
    + rewrite Hg2, Hg, Ho, Hsn. destruct (decide (b = a)) as [->|Hne].
      * rewrite (bool_decide_false (a ∈ l)), (bool_decide_true (a ∈ a :: l)), (bool_decide_true (a = a)) by set_solver.
        by rewrite orb_false_r.
      * rewrite (bool_decide_false (b = a)) by done. rewrite orb_false_r.
        by rewrite (bool_decide_ext (b ∈ a :: l) (b ∈ l)) by set_solver.
Qed.

(** ** What is observed *)

Lemma finalise_view k gone s o : pipeCommit s = false →
  obj_view k gone (obj_finalise Keccak256Hash s o) = commit_acct (obj_view k gone o).
Proof.
  intros Hp. unfold obj_finalise, corrected_root. simpl. rewrite Hp. simpl.
  unfold StateView.obj_view, commit_acct. simpl.
  assert (Hc : ∀ key, committed_view Keccak256Hash k gone
      (set_dirtyStorage ∅ (set_pendingStorage (dirtyStorage o ∪ pendingStorage o) o)) key =
    match dirtyStorage o !! key with Some v => v | None => committed_view Keccak256Hash k gone o key end).
  { intros key. unfold committed_view. cbn [pendingStorage originStorage set_dirtyStorage set_pendingStorage].
    rewrite lookup_union. destruct (dirtyStorage o !! key) as [v|] eqn:Hd; [by destruct (pendingStorage o !! key)|].
    destruct (pendingStorage o !! key); [done|]. simpl. destruct (originStorage o !! key); [done|].
    by rewrite (slot_below_ext _ k gone o) by (done || by apply getTrie_ext). }
  f_equal; [by rewrite (Code_ext _ _ o)|extensionality key; apply Hc|].
  extensionality key. rewrite lookup_empty. apply Hc.
Qed.

Lemma commit_acct_id x : a_state x = a_committed x → commit_acct x = x.
Proof. intros H. unfold commit_acct. rewrite H. destruct x; simpl in *. by subst. Qed.

Lemma bare_settled k gone a d : a_state (obj_view k gone (bare_object a d)) = a_committed (obj_view k gone (bare_object a d)).
Proof. extensionality key. simpl. by rewrite lookup_empty. Qed.

(** An account that was not touched has nothing to commit. *)
Lemma untouched_settled s a x : wf s → touched s a = false → live_acct (view s) a = Some x → commit_acct x = x.
Proof.
  intros Hwf Ht Hl. apply commit_acct_id. unfold touched in Ht. apply andb_false_iff in Ht as [Ht|Ht].
  - apply (wf_settled _ _ Hwf a x); [|done]. apply bool_decide_eq_false, not_elem_of_dom in Ht.
    pose proof (count_le _ _ (wf_dirty _ _ Hwf) a) as H. rewrite Ht in H. simpl in H.
    pose proof (marks_nonneg a (entries (journal s))). lia.
  - apply bool_decide_eq_false, eq_None_not_Some in Ht. rewrite live_view in Hl.
    apply fmap_Some_1 in Hl as (o & Ho & ->). apply live_at in Ho as [Ho _]. unfold object_at in Ho. rewrite Ht in Ho.
    apply fmap_Some_1 in Ho as (d & _ & ->). apply bare_settled.
Qed.

Lemma clear_fields (s : StateDB) : let s' := clearJournalAndRefund s in
  stateObjects s' = stateObjects s ∧ snapDestructs s' = snapDestructs s ∧ konst_of s' = konst_of s ∧
  storagePool s' = storagePool s ∧ logs s' = logs s ∧ logSize s' = logSize s ∧ preimages s' = preimages s ∧
  accessList s' = accessList s ∧ validRevisions s' = [] ∧ nextRevisionId s' = nextRevisionId s ∧
  entries (journal s') = [] ∧ (0 < zlen (entries (journal s)) → refund s' = 0) ∧
  dirties (journal s') = (if 0 <? zlen (entries (journal s)) then ∅ else dirties (journal s)).
Proof.
  unfold clearJournalAndRefund. destruct (Z.ltb_spec 0 (zlen (entries (journal s)))); simpl; split_and!; try done; [|lia].
  destruct (entries (journal s)); [done|]. rewrite zlen_cons in *. pose proof (zlen_nonneg l). lia.
Qed.

Lemma deleted_finalise s o : deleted (obj_finalise Keccak256Hash s o) = deleted o.
Proof. unfold obj_finalise. by destruct (corrected_root _ _ _). Qed.

Lemma Finalise_objects del s : objects_ok s → pipeCommit s = false →
  let s1 := fold_left (finalise_account Keccak256Hash del) ((map_to_list (dirties (journal s))).*1) s in
  same_rest s s1 ∧ objects_ok s1 ∧
  ∀ a, live_acct (view s1) a =
    (x ← live_acct (view s) a; if touched s a && doomed del x then None else
       Some (if touched s a then commit_acct x else x)).
Proof.
  intros Hok Hp s1. assert (Hnd : NoDup ((map_to_list (dirties (journal s))).*1)) by apply NoDup_fst_map_to_list.
  destruct (finalise_all del _ s Hok Hnd) as (Hr & Hok1 & Ho & Hg). fold s1 in Hr, Hok1, Ho, Hg.
  split; [done|]. split; [done|]. intros a.
  specialize (Ho a). specialize (Hg a).
  assert (Hin : bool_decide (a ∈ (map_to_list (dirties (journal s))).*1) = bool_decide (a ∈ dom (dirties (journal s)))).
  { apply bool_decide_ext. rewrite elem_of_dom, list_elem_of_fmap. split.
    - intros ([b n] & -> & H%elem_of_map_to_list). by exists n.
    - intros [n Hn]. exists (a, n). split; [done|]. by apply elem_of_map_to_list. }
  rewrite Hin in Ho, Hg. unfold touched. rewrite !live_view. unfold live, object_at. rewrite Ho, (sr_konst _ _ Hr).
  destruct (stateObjects s !! a) as [o|] eqn:E.
  - rewrite (bool_decide_true (is_Some (Some o))), andb_true_r by by eexists.
    rewrite Hg. destruct (bool_decide (a ∈ dom (dirties (journal s)))) eqn:Hd; simpl.
    + unfold finalised. destruct (kill del o) eqn:Hk.
      * simpl. destruct (deleted o); [done|]. simpl. by rewrite doomed_kill, Hk.
      * rewrite andb_false_r, orb_false_r, deleted_finalise. destruct (deleted o); [done|].
        cbn [fmap option_fmap option_map mbind option_bind]. by rewrite doomed_kill, Hk, finalise_view.
    + rewrite orb_false_r. by destruct (deleted o).
  - rewrite (bool_decide_false (is_Some None)), andb_false_r by by intros [].
    assert (gone_at s1 a = gone_at s a) as -> by (by rewrite Hg, andb_false_r, orb_false_r).
    destruct (bool_decide (a ∈ dom (dirties (journal s)))); simpl; by destruct (base_account _ _ a).
Qed.

(** Accounts as seen do not depend on the journal and the refund. *)
Lemma clear_view (s : StateDB) a : w_acct (view (clearJournalAndRefund s)) a = w_acct (view s) a.
Proof.
  destruct (clear_fields s) as (H1 & H2 & H3 & _). rewrite !view_at. unfold object_at. by rewrite H1, H2, H3.
Qed.

(** C17 The end of a transaction (not pipelined): an account that was touched and either
    committed suicide or, with [deleteEmptyObjects], is empty is gone; every other account
    is unchanged, with the storage as it was last written now its committed storage; logs,
    preimages and access list stay; the journal is empty, the refund is zero if anything
    was journaled, no revision can be reverted to any more; and the database is well formed
    for the next transaction. *)
Theorem Finalise_commits del s : wf s → pipeCommit s = false →
  let s' := Finalise Keccak256Hash del s in
  wf s' ∧
  (∀ a, live_acct (view s') a =
     (x ← live_acct (view s) a; if touched s a && doomed del x then None else Some (commit_acct x))) ∧
  w_logs (view s') = w_logs (view s) ∧ w_preimages (view s') = w_preimages (view s) ∧
  w_al (view s') = w_al (view s) ∧ entries (journal s') = [] ∧
  (0 < zlen (entries (journal s)) → w_refund (view s') = 0) ∧
  ∀ id, db_RevertToSnapshot Keccak256Hash id s' = None.
Proof.
  intros Hwf Hp s'. pose proof Hwf as [H1 H2 H3 H4 H5 H6 H7 H8 H9].
  destruct (Finalise_objects del s H1 Hp) as (Hr & Hok & Hlive). set (s1 := fold_left _ _ s) in *.
  destruct (clear_fields s1) as (C1 & C2 & C3 & C4 & C5 & C6 & C7 & C8 & C9 & C10 & C11 & C12 & C13).
  change (clearJournalAndRefund s1) with s' in *. rewrite (sr_journal _ _ Hr) in C12, C13.
  assert (Hl : ∀ a, live_acct (view s') a =
    (x ← live_acct (view s) a; if touched s a && doomed del x then None else Some (commit_acct x))).
  { intros a. unfold live_acct at 1. change (view s') with (view (clearJournalAndRefund s1)). rewrite clear_view.
    change (live_acct (view s1) a = (x ← live_acct (view s) a; if touched s a && doomed del x then None else Some (commit_acct x))).
    rewrite Hlive. destruct (live_acct (view s) a) as [x|] eqn:Hx; [|done]. simpl.
    destruct (touched s a) eqn:Ht; [done|]. simpl. by rewrite (untouched_settled s a x Hwf Ht Hx). }
  clearbody s'. split; [|split; [done|]].
  - split; rewrite ?C9, ?C11; try constructor; try done.
    + destruct Hok. congruence.
    + intros a o. rewrite C1. apply Hok.
    + intros a o. rewrite C1. apply Hok.
    + simpl. rewrite C8, (sr_al _ _ Hr). apply H2.
    + simpl. rewrite C5, (sr_logs _ _ Hr). apply H2.
    + simpl. rewrite C6, (sr_logSize _ _ Hr). apply H2.
    + intros a. rewrite C13. case_if; [by rewrite lookup_empty|]. apply H4.
    + intros a Ha. rewrite C13. destruct (Z.ltb_spec 0 (zlen (entries (journal s)))) as [|Hz]; [by rewrite lookup_empty|].
      rewrite (count_eq _ _ H4 a Ha). destruct (entries (journal s)) as [|e l]; [done|].
      rewrite zlen_cons in Hz. pose proof (zlen_nonneg l). lia.
    + intros a. rewrite C13. case_if; [by rewrite lookup_empty|]. etransitivity; [|apply (count_le _ _ H4 a)].
      apply marks_nonneg.
    + intros a x _. rewrite Hl. destruct (live_acct (view s) a) as [y|]; [|done]. simpl.
      destruct (_ && _); [done|]. by intros [= <-].
  - simpl. rewrite C5, C7, C8, (sr_logs _ _ Hr), (sr_preimages _ _ Hr), (sr_al _ _ Hr).
    split_and!; try done. intros id. unfold db_RevertToSnapshot. by rewrite C9.
Qed.
End finalise.

(** A slot is written, an account is made and destructed, another is only touched. *)
Definition transaction : list op := [OSetState 7 1 6; OAddBalance 8 3; OSuicide 8; OAddBalance 9 0].

Definition after_transaction : option (StateDB mstore mtrie layer) :=
  s ← newStateDB 0 empty_store (Some one_account) false; (run_ops fold_hash transaction s).2.

Lemma transaction_result :
  match after_transaction with
  | Some s =>
      let s' := Finalise fold_hash true s in
      (db_GetCommittedState fold_hash 7 1 s).1 = 5 ∧ (db_GetCommittedState fold_hash 7 1 s').1 = 6 ∧
      (db_Exist fold_hash 8 s').1 = false ∧ (db_Exist fold_hash 9 s').1 = false ∧ pipeCommit s = false
  | None => False
  end.
Proof. vm_compute. done. Qed.

Lemma after_wf s : after_transaction = Some s → wf fold_hash s.
Proof.
  unfold after_transaction. generalize (new_wf fold_hash 0 empty_store (Some one_account) false).
  generalize (newStateDB 0 empty_store (Some one_account) false).
  intros [s0|] Hnew; [|by intros]. apply ops_wf. by apply (Hnew s0).
Qed.

Lemma Finalise_commits_witness : ∃ s, after_transaction = Some s ∧ pipeCommit s = false ∧
  (db_GetCommittedState fold_hash 7 1 (Finalise fold_hash true s)).1 = 6 ∧
  wf fold_hash (Finalise fold_hash true s).
Proof.
  pose proof transaction_result as Hres. pose proof after_wf as Hw. revert Hres Hw.
  generalize after_transaction. intros [s|] Hres Hw; [|destruct Hres].
  destruct Hres as (_ & Hres & _ & _ & Hp). exists s. split; [reflexivity|]. split; [exact Hp|].
  split; [exact Hres|]. exact (proj1 (Finalise_commits fold_hash true s (Hw s eq_refl) Hp)).
Defined.
