(* ===== verification/TxTransition.v ===== *)
(** * State transition ([core/state_transition.go], [core/gaspool.go])

    A message applied to the state: the nonce is checked, gas is bought from the sender
    and from the block's pool, the intrinsic gas is paid, the virtual machine runs, unused
    gas and the refund go back, and the fee goes to the system account (Parlia) or the
    coinbase.  The gas pool and the state are shared, so what is done before an error
    stays done. *)

From S2P Require Import Prelude Uint256 Params VmData VmAnalysis VmState VmGas VmInstr VmJumpTable VmInterpreter VmEvm.
From S2P Require Import VmSpec VmFrame VmExec VmGasOk VmTables VmSafety.

(** ** Errors *)

Inductive tx_error :=
| ErrNonceTooLow | ErrNonceTooHigh | ErrGasLimitReached | ErrInsufficientFundsForTransfer
| ErrInsufficientFunds | ErrTxGasUintOverflow | ErrIntrinsicGas.

(** ** The gas pool *)

(** [None] is the panic "gas pool pushed above uint64". *)
Definition AddGas (gp amount : Z) : option Z :=
  if MaxUint64 - amount <? gp then None else Some (add64 gp amount).
(** [None] is [ErrGasLimitReached]. *)
Definition SubGas (gp amount : Z) : option Z :=
  if gp <? amount then None else Some (gp - amount).

(** ** Intrinsic gas *)

Abbreviation tx_access_list := (list (Address * list Hash)) (only parsing).

(** The number of bytes that are not zero, counted in a loop. *)
Definition nonzero (data : bytes) : Z := zlen (filter (λ b, b ≠ 0) data).
(** [AccessList.StorageKeys]. *)
Definition StorageKeys (l : tx_access_list) : Z := fold_left (λ sum t, sum + zlen t.2) l 0.

Definition IntrinsicGas (data : bytes) (accessList : option tx_access_list)
    (isContractCreation isHomestead isEIP2028 : bool) : Z + tx_error :=
  let gas := if isContractCreation && isHomestead then TxGasContractCreation else TxGas in
  let bumped :=
    if 0 <? zlen data then
      let nz := nonzero data in
      let nonZeroGas := if isEIP2028 then TxDataNonZeroGasEIP2028 else TxDataNonZeroGasFrontier in
      if (MaxUint64 - gas) / nonZeroGas <? nz then None
      else
        let gas := add64 gas (mul64 nz nonZeroGas) in
        let z := sub64 (zlen data) nz in
        if (MaxUint64 - gas) / TxDataZeroGas <? z then None
        else Some (add64 gas (mul64 z TxDataZeroGas))
    else Some gas in
  match bumped with
  | None => inr ErrTxGasUintOverflow
  | Some gas =>
      inl (match accessList with
           | Some l =>
               add64 (add64 gas (mul64 (zlen l) TxAccessListAddressGas))
                 (mul64 (StorageKeys l) TxAccessListStorageKeyGas)
           | None => gas
           end)
  end.

(** ** Messages *)

(** [To] is nil for a contract creation; the access list is nil for an old transaction. *)
Record Message := {
  From : Address;
  To : option Address;
  msg_GasPrice : Z;
  msg_Gas : Z;
  msg_Value : Z;
  msg_Nonce : Z;
  CheckNonce : bool;
  msg_Data : bytes;
  msg_AccessList : option tx_access_list;
}.

Record ExecutionResult := { UsedGas : Z; Err : option vmerror; ReturnData : bytes }.

(** [result.Return()] and [result.Revert()]; [None] is nil. *)
Definition Return (r : ExecutionResult) : option bytes :=
  match Err r with Some _ => None | None => Some (ReturnData r) end.
Definition Revert (r : ExecutionResult) : option bytes :=
  if bool_decide (Err r = Some ErrExecutionReverted) then Some (ReturnData r) else None.

(** [consensus.SystemAddress]. *)
Definition SystemAddress : Address := 0xffffFFFfFFffffffffffffffFfFFFfffFFFfFFfE.

(** [vm.ActivePrecompiles]: the keys of the active map, in the order of a map's iteration. *)
Definition PrecompiledAddressesHomestead : list Address := [1; 2; 3; 4].
Definition PrecompiledAddressesByzantium : list Address := [1; 2; 3; 4; 5; 6; 7; 8].
Definition PrecompiledAddressesIstanbul : list Address := [1; 2; 3; 4; 5; 6; 7; 8; 9; 100; 101].
Definition PrecompiledAddressesBerlin : list Address := [1; 2; 3; 4; 5; 6; 7; 8; 9].
Definition ActivePrecompiles (r : Rules) : list Address :=
  if rIsBerlin r then PrecompiledAddressesBerlin
  else if rIsIstanbul r then PrecompiledAddressesIstanbul
  else if rIsByzantium r then PrecompiledAddressesByzantium
  else PrecompiledAddressesHomestead.

Section transition.
Context {U : Uint256} {S C : Type} {SDB : StateDB S} {BC : BitmapCache C}.
(** The EVM with its context, its entry points and the chain configuration. *)
Variable E : env S.
Variable K : evm_calls S C.
Variable c : ChainConfig.
Variable msg : Message.

(** The fields of [StateTransition] that change; [st_evm] holds the state. *)
Record StateTransition := { gp : Z; st_gas : Z; initialGas : Z; st_evm : evm S C }.
Definition TM (A : Type) : Type := M tx_error StateTransition A.

Definition NewStateTransition (e : evm S C) (gp : Z) : StateTransition :=
  {| gp := gp; st_gas := 0; initialGas := 0; st_evm := e |}.
Definition set_st_gas (g : Z) (s : StateTransition) : StateTransition :=
  {| gp := gp s; st_gas := g; initialGas := initialGas s; st_evm := st_evm s |}.
Definition set_st_evm (e : evm S C) (s : StateTransition) : StateTransition :=
  {| gp := gp s; st_gas := st_gas s; initialGas := initialGas s; st_evm := e |}.
Definition set_gp (g : Z) (s : StateTransition) : StateTransition :=
  {| gp := g; st_gas := st_gas s; initialGas := initialGas s; st_evm := st_evm s |}.
Definition set_initialGas (g : Z) (s : StateTransition) : StateTransition :=
  {| gp := gp s; st_gas := st_gas s; initialGas := g; st_evm := st_evm s |}.

Definition state {A} (f : S → A) : TM A := gets (λ s, f (sdb (st_evm s))).
Definition in_state (f : S → S) : TM unit :=
  modify (λ s, set_st_evm (set_sdb (st_evm s) (f (sdb (st_evm s)))) s).
(** A call of the EVM; its errors are part of what it returns. *)
Definition in_evm {A} (m : EM S C A) : TM A := λ s,
  match m (st_evm s) with
  | Ret a e => Ret a (set_st_evm e s)
  | Fail _ _ => Panic PExplicit
  | Panic p => Panic p
  | NoFuel => NoFuel
  end.

Definition gasUsed (s : StateTransition) : Z := sub64 (initialGas s) (st_gas s).

Definition buyGas : TM unit :=
  let mgval := msg_Gas msg * msg_GasPrice msg in
  let! have := state (λ db, GetBalance db (From msg)) in
  if have <? mgval then fail ErrInsufficientFunds else
  let! g := gets gp in
  let! g := or_fail ErrGasLimitReached (SubGas g (msg_Gas msg)) in
  do! modify (set_gp g) in
  do! modify (λ s, set_st_gas (add64 (st_gas s) (msg_Gas msg)) s) in
  do! modify (set_initialGas (msg_Gas msg)) in
  in_state (SubBalance (From msg) mgval).

Definition preCheck : TM unit :=
  let! stNonce := state (λ db, GetNonce db (From msg)) in
  if CheckNonce msg && (stNonce <? msg_Nonce msg) then fail ErrNonceTooHigh
  else if CheckNonce msg && (msg_Nonce msg <? stNonce) then fail ErrNonceTooLow
  else buyGas.

Definition refundGas : TM unit :=
  let! used := gets gasUsed in
  let! counter := state GetRefund in
  let refund := if counter <? used / 2 then counter else used / 2 in
  do! modify (λ s, set_st_gas (add64 (st_gas s) refund) s) in
  let! gas := gets st_gas in
  do! in_state (AddBalance (From msg) (gas * msg_GasPrice msg)) in
  let! g := gets gp in
  let! g := or_panic PExplicit (AddGas g gas) in
  modify (set_gp g).

(** [PrepareAccessList] of statedb.go, over the two operations it calls. *)
Definition PrepareAccessList (sender : Address) (dst : option Address) (precompiles : list Address)
    (l : tx_access_list) (s : S) : S :=
  let s := AddAddressToAccessList sender s in
  let s := match dst with Some d => AddAddressToAccessList d s | None => s end in
  let s := fold_left (λ s a, AddAddressToAccessList a s) precompiles s in
  fold_left (λ s el, fold_left (λ s key, AddSlotToAccessList el.1 key s) el.2 (AddAddressToAccessList el.1 s)) l s.

(** The message is run: a creation, or a call after the nonce is raised. *)
Definition execute : TM (bytes * option vmerror) :=
  let! gas := gets st_gas in
  match To msg with
  | None =>
      let! (res, _, leftOver, vmerr) := in_evm (Create K (AccountRef (From msg)) (msg_Data msg) gas (msg_Value msg)) in
      do! modify (set_st_gas leftOver) in
      ret (res, vmerr)
  | Some to =>
      let! n := state (λ db, GetNonce db (From msg)) in
      do! in_state (SetNonce (From msg) (add64 n 1)) in
      let! (res, leftOver, vmerr) := in_evm (Call K (AccountRef (From msg)) to (msg_Data msg) gas (msg_Value msg)) in
      do! modify (set_st_gas leftOver) in
      ret (res, vmerr)
  end.

(** Who gets the fee. *)
Definition fee_recipient : Address := match Parlia c with Some _ => SystemAddress | None => Coinbase E end.

Definition TransitionDb : TM ExecutionResult :=
  do! preCheck in
  let homestead := IsHomestead c (BlockNumber E) in
  let istanbul := IsIstanbul c (BlockNumber E) in
  let contractCreation := bool_decide (To msg = None) in
  match IntrinsicGas (msg_Data msg) (msg_AccessList msg) contractCreation homestead istanbul with
  | inr e => fail e
  | inl gas =>
      let! have := gets st_gas in
      if have <? gas then fail ErrIntrinsicGas else
      do! modify (set_st_gas (have - gas)) in
      let! db := state id in
      if (0 <? msg_Value msg) && negb (CanTransfer E db (From msg) (msg_Value msg))
      then fail ErrInsufficientFundsForTransfer else
      let rules := mkRules c (BlockNumber E) in
      do! (if rIsBerlin rules then
             in_state (PrepareAccessList (From msg) (To msg) (ActivePrecompiles rules) (default [] (msg_AccessList msg)))
           else ret tt) in
      let! (res, vmerr) := execute in
      do! refundGas in
      let! used := gets gasUsed in
      do! in_state (AddBalance fee_recipient (used * msg_GasPrice msg)) in
      ret {| UsedGas := used; Err := vmerr; ReturnData := res |}
  end.

(** [ApplyMessage(evm, msg, gp)]. *)
Definition ApplyMessage (e : evm S C) (pool : Z) : outcome tx_error StateTransition ExecutionResult :=
  TransitionDb (NewStateTransition e pool).
End transition.

(** ** The intrinsic gas is the sum *)

Definition base_gas (create homestead : bool) : Z := if create && homestead then TxGasContractCreation else TxGas.
Definition byte_gas (eip2028 : bool) : Z := if eip2028 then TxDataNonZeroGasEIP2028 else TxDataNonZeroGasFrontier.
Definition data_cost (data : bytes) (eip2028 : bool) : Z :=
  nonzero data * byte_gas eip2028 + (zlen data - nonzero data) * TxDataZeroGas.
Definition list_cost (l : option tx_access_list) : Z :=
  match l with
  | None => 0
  | Some l => zlen l * TxAccessListAddressGas + StorageKeys l * TxAccessListStorageKeyGas
  end.

Lemma nonzero_range data : 0 <= nonzero data <= zlen data.
Proof.
  unfold nonzero. split; [apply zlen_nonneg|]. unfold zlen. pose proof (length_filter (λ b, b ≠ 0) data). lia.
Qed.

(** The overflow test of the code, as a comparison. *)
Lemma overflow_test gas k n : 0 <= gas <= MaxUint64 → 0 < k → 0 <= n →
  ((MaxUint64 - gas) / k <? n) = (2 ^ 64 <=? gas + n * k).
Proof.
  intros Hg Hk Hn. unfold MaxUint64 in *. destruct (Z.leb_spec (2 ^ 64) (gas + n * k)).
  - apply Z.ltb_lt. apply Z.div_lt_upper_bound; lia.
  - apply Z.ltb_ge. apply Z.div_le_lower_bound; lia.
Qed.

Lemma add_mul64 gas n k : 0 <= gas → 0 <= n * k → gas + n * k < 2 ^ 64 → add64 gas (mul64 n k) = gas + n * k.
Proof. intros. unfold add64, mul64. rewrite (u64_small (n * k)) by (unfold is_u64; lia). by apply u64_small; unfold is_u64; lia. Qed.

(** [IntrinsicGas] fails exactly when the price of the data does not fit in 64 bits,
    and otherwise is the base price plus the price of every zero and non-zero byte, plus
    that of the access list (whose addition, unlike the data's, can wrap around). *)
Theorem IntrinsicGas_exact data l create homestead eip2028 : zlen data < 2 ^ 63 →
  let cost := base_gas create homestead + data_cost data eip2028 in
  IntrinsicGas data l create homestead eip2028 =
    if 2 ^ 64 <=? cost then inr ErrTxGasUintOverflow
    else inl (match l with None => cost | Some _ => u64 (cost + list_cost l) end).
Proof.
  intros Hd cost. pose proof (nonzero_range data) as Hnz. pose proof (zlen_nonneg data) as Hz.
  unfold IntrinsicGas. fold (base_gas create homestead) (byte_gas eip2028).
  assert (Hb : 0 <= base_gas create homestead <= 53000) by (unfold base_gas, TxGasContractCreation, TxGas; by destruct (_ && _); lia).
  assert (Hk : 0 < byte_gas eip2028 <= 68) by (unfold byte_gas, TxDataNonZeroGasEIP2028, TxDataNonZeroGasFrontier; by destruct eip2028; lia).
  set (b := base_gas create homestead) in *. set (k := byte_gas eip2028) in *.
  assert (Hdata : (if 0 <? zlen data then
      if (MaxUint64 - b) / k <? nonzero data then None
      else if (MaxUint64 - add64 b (mul64 (nonzero data) k)) / TxDataZeroGas <? sub64 (zlen data) (nonzero data) then None
      else Some (add64 (add64 b (mul64 (nonzero data) k)) (mul64 (sub64 (zlen data) (nonzero data)) TxDataZeroGas))
    else Some b) = if 2 ^ 64 <=? cost then None else Some cost).
  { unfold cost, data_cost. fold b k. unfold TxDataZeroGas.
    destruct (Z.ltb_spec 0 (zlen data)) as [Hpos|Hzero].
    2:{ assert (zlen data = 0) as E0 by lia. assert (nonzero data = 0) as -> by lia. rewrite E0.
        rewrite (proj2 (Z.leb_gt _ _)) by lia. f_equal. lia. }
    rewrite overflow_test by (unfold MaxUint64; lia).
    destruct (Z.leb_spec (2 ^ 64) (b + nonzero data * k)) as [Ho|Ho]; [by rewrite (proj2 (Z.leb_le _ _)) by lia|].
    rewrite add_mul64, sub64_small by (unfold is_u64; lia).
    rewrite overflow_test by (unfold MaxUint64; lia).
    rewrite Z.add_assoc. destruct (Z.leb_spec (2 ^ 64) (b + nonzero data * k + (zlen data - nonzero data) * 4)); [done|].
    by rewrite add_mul64 by lia. }
  cbv zeta. rewrite Hdata. destruct (2 ^ 64 <=? cost); [done|]. f_equal. destruct l as [l|]; [|done].
  unfold add64, mul64, list_cost, u64. rewrite <- Z.add_mod_idemp_l by lia.
  rewrite Zplus_mod_idemp_l, Zplus_mod_idemp_r, Zplus_mod_idemp_l. rewrite <- Zplus_mod_idemp_l, Zplus_mod_idemp_r.
  rewrite Zplus_mod_idemp_l. f_equal. lia.
Qed.

Lemma IntrinsicGas_range data l create homestead eip2028 :
  (∀ g, IntrinsicGas data l create homestead eip2028 = inl g → 0 <= g) ∧
  (∀ err, IntrinsicGas data l create homestead eip2028 = inr err → err = ErrTxGasUintOverflow).
Proof.
  unfold IntrinsicGas. set (o := if 0 <? zlen data then _ else _).
  assert (Ho : ∀ g, o = Some g → 0 <= g).
  { intros g. unfold o. destruct (0 <? zlen data).
    - destruct (_ <? _); [done|]. cbv zeta. destruct (_ <? _); [done|]. intros [= <-]. apply u64_range.
    - intros [= <-]. unfold TxGasContractCreation, TxGas. by destruct (_ && _). }
  destruct o as [g|]; (split; [|congruence]); [|done]. intros g' [= <-]. destruct l; [apply u64_range|by apply Ho].
Qed.

(** ** What a transaction costs *)

Section accounting.
Context `{UL : Uint256Laws} {S C : Type} {SDB : StateDB S} {BC : BitmapCache C}.
Context {CL : CacheLaws (C := C)}.
Variable E : env S.
Variable K : evm_calls S C.
Variable c : ChainConfig.
Variable msg : Message.

Abbreviation StateTransition := (StateTransition (S := S) (C := C)).
Implicit Types (e : evm S C) (s : StateTransition).

(** What the gas costs up front. *)
Definition mgval : Z := msg_Gas msg * msg_GasPrice msg.
Definition intrinsic : Z + tx_error :=
  IntrinsicGas (msg_Data msg) (msg_AccessList msg) (bool_decide (To msg = None))
    (IsHomestead c (BlockNumber E)) (IsIstanbul c (BlockNumber E)).

(** The state when a message is refused: untouched, unless the gas was already bought. *)
Definition refused e (pool : Z) (err : tx_error) s : Prop :=
  let db := sdb e in
  let untouched := s = NewStateTransition e pool in
  let paid := gp s = pool - msg_Gas msg ∧ sdb (st_evm s) = SubBalance (From msg) mgval db in
  match err with
  | ErrNonceTooHigh => CheckNonce msg = true ∧ GetNonce db (From msg) < msg_Nonce msg ∧ untouched
  | ErrNonceTooLow => CheckNonce msg = true ∧ msg_Nonce msg < GetNonce db (From msg) ∧ untouched
  | ErrInsufficientFunds => GetBalance db (From msg) < mgval ∧ untouched
  | ErrGasLimitReached => pool < msg_Gas msg ∧ untouched
  | ErrTxGasUintOverflow => intrinsic = inr ErrTxGasUintOverflow ∧ paid
  | ErrIntrinsicGas => (∃ g, intrinsic = inl g ∧ msg_Gas msg < g) ∧ paid
  | ErrInsufficientFundsForTransfer =>
      0 < msg_Value msg ∧ CanTransfer E (SubBalance (From msg) mgval db) (From msg) (msg_Value msg) = false ∧ paid
  end.

(** The gas is bought. *)
Definition bought e (pool : Z) : StateTransition := {|
  gp := pool - msg_Gas msg; st_gas := msg_Gas msg; initialGas := msg_Gas msg;
  st_evm := set_sdb e (SubBalance (From msg) mgval (sdb e)) |}.

(** The checks that let a message through. *)
Record admitted e (pool : Z) : Prop := {
  ad_nonce : CheckNonce msg = true → GetNonce (sdb e) (From msg) = msg_Nonce msg;
  ad_funds : mgval <= GetBalance (sdb e) (From msg);
  ad_pool : msg_Gas msg <= pool;
}.

Lemma preCheck_ok e pool QP : is_u64 (msg_Gas msg) →
  wp (preCheck msg) (λ _ s, admitted e pool ∧ s = bought e pool) (refused e pool) QP (NewStateTransition e pool).
Proof.
  intros Hg. unfold preCheck, state. repeat wp_step; zbool; [done..|].
  unfold buyGas, state. repeat wp_step; zbool; [done|]. apply wp_or_fail.
  - unfold SubGas. simpl. intros g. destruct (Z.ltb_spec pool (msg_Gas msg)); [done|]. intros [= <-].
    unfold in_state. repeat wp_step. split.
    + split; [|unfold mgval in *; simpl in *; lia|lia]. intros Hc. rewrite Hc in *. simpl in *. zbool. lia.
    + unfold bought. simpl. unfold set_st_evm, set_initialGas, set_st_gas, set_gp. simpl. f_equal.
      by apply u64_small.
  - unfold SubGas. simpl. destruct (Z.ltb_spec pool (msg_Gas msg)); [|done]. intros _. done.
Qed.

(** The virtual machine gives back at most the gas it got. *)
Record ran s s' : Prop := {
  ran_gp : gp s' = gp s;
  ran_initial : initialGas s' = initialGas s;
  ran_gas : 0 <= st_gas s' <= st_gas s;
  ran_depth : depth (st_evm s') = depth (st_evm s);
  ran_readOnly : readOnly (st_evm s') = readOnly (st_evm s);
  ran_ok : vm_ok E (st_evm s');
  ran_db : dbsteps E false (sdb (st_evm s)) (sdb (st_evm s'));
}.

Lemma wp_in_evm {A} (m : EM S C A) Q (QE : tx_error → StateTransition → Prop) s :
  wp m (λ a e, Q a (set_st_evm e s)) (λ _ _, False) ok_panic (st_evm s) → wp (in_evm m) Q QE ok_panic s.
Proof. unfold wp, in_evm. by destruct (m (st_evm s)). Qed.

Context {RL : RevertLaws E}.

Lemma execute_ok s QE : CallsOk E (depth (st_evm s)) K → vm_ok E (st_evm s) → readOnly (st_evm s) = false →
  is_u64 (st_gas s) → zlen (msg_Data msg) < 2 ^ 63 →
  wp (execute K msg) (λ _, ran s) QE ok_panic s.
Proof.
  intros HK Hv Hro Hg Hd. assert (Hr : is_ro E (st_evm s) = false) by (unfold is_ro; by rewrite Hro).
  unfold execute. wp_step. wp_step. destruct (To msg) as [to|].
  - unfold state, in_state. wp_step. wp_step. wp_step. wp_step. wp_step. apply wp_in_evm. simpl.
    set (e1 := set_sdb _ _). assert (Hv1 : vm_ok E e1) by by apply vm_ok_set_sdb.
    assert (Hr1 : is_ro E e1 = true → msg_Value msg = 0) by (change (is_ro E e1) with (is_ro E (st_evm s)); by rewrite Hr).
    eapply wp_mono; [by apply (Call_ok E (CallsOk := HK) e1)| |done|done].
    intros [[res leftOver] err] e2 (_ & Hleft & [H1 H2 H3 H4]). wp_step. wp_step. wp_step.
    split; try done. simpl. eapply dbsteps_trans; [|by apply dbsteps_false in H4].
    eapply ds_op; [apply ds_refl|]. by apply db_setNonce.
  - wp_step. apply wp_in_evm. simpl.
    eapply wp_mono; [by apply (Create_ok E (CallsOk := HK))| |done|done].
    intros [[[res a] leftOver] err] e2 (_ & Hleft & [H1 H2 H3 H4]). wp_step. wp_step. wp_step.
    split; try done. simpl. by apply dbsteps_false in H4.
Qed.

(** What [refundGas] gives back. *)
Definition refunded s : Z := Z.min ((initialGas s - st_gas s) / 2) (GetRefund (sdb (st_evm s))).

Lemma refundGas_ok s QE QP : (∀ db : S, 0 <= GetRefund db) → is_u64 (initialGas s) →
  0 <= st_gas s <= initialGas s → 0 <= gp s → gp s + initialGas s < 2 ^ 64 →
  wp (refundGas msg) (λ _ s', s' = {|
    gp := gp s + (st_gas s + refunded s); st_gas := st_gas s + refunded s; initialGas := initialGas s;
    st_evm := set_sdb (st_evm s)
      (AddBalance (From msg) ((st_gas s + refunded s) * msg_GasPrice msg) (sdb (st_evm s))) |}) QE QP s.
Proof.
  intros Hr Hi Hg Hp Hsum. unfold is_u64 in Hi. unfold refundGas, state, in_state.
  wp_step. wp_step. wp_step. wp_step. wp_step. wp_step. wp_step. wp_step. wp_step. wp_step. wp_step. wp_step. wp_step.
  specialize (Hr (sdb (st_evm s))).
  assert (Hused : gasUsed s = initialGas s - st_gas s) by (unfold gasUsed; apply sub64_small; [lia|unfold is_u64; lia]).
  assert (Href : (if GetRefund (sdb (st_evm s)) <? gasUsed s / 2 then GetRefund (sdb (st_evm s)) else gasUsed s / 2) = refunded s).
  { unfold refunded. rewrite Hused. destruct (Z.ltb_spec (GetRefund (sdb (st_evm s))) ((initialGas s - st_gas s) / 2)); lia. }
  assert (Hb : 0 <= refunded s /\ st_gas s + refunded s <= initialGas s).
  { unfold refunded. pose proof (Z.div_pos (initialGas s - st_gas s) 2). pose proof (Z.mul_div_le (initialGas s - st_gas s) 2). lia. }
  cbn [gp st_gas set_st_evm set_st_gas]. rewrite !Href, !add64_small by (unfold is_u64; lia).
  apply wp_or_panic.
  - unfold AddGas, MaxUint64. rewrite (proj2 (Z.ltb_ge _ _)) by lia. intros g [= <-]. wp_step.
    unfold set_gp, set_st_evm, set_st_gas. simpl. rewrite ?Href, ?add64_small by (unfold is_u64; lia). done.
  - unfold AddGas, MaxUint64. by rewrite (proj2 (Z.ltb_ge _ _)) by lia.
Qed.

(** Once the gas is bought, the sender can still transfer the value of the message. *)
Definition can_transfer e : Prop :=
  0 < msg_Value msg → CanTransfer E (SubBalance (From msg) mgval (sdb e)) (From msg) (msg_Value msg) = true.

(** The outcome of a message that is executed: none of the reasons to refuse it held. *)
Definition settled e (pool : Z) (r : ExecutionResult) s : Prop :=
  ∃ g, intrinsic = inl g ∧ g <= msg_Gas msg ∧ admitted e pool ∧ can_transfer e ∧ g <= 2 * UsedGas r ∧ 0 <= UsedGas r <= msg_Gas msg ∧
    gp s = pool - UsedGas r ∧ vm_ok E (st_evm s) ∧ depth (st_evm s) = depth e ∧ readOnly (st_evm s) = readOnly e ∧
    dbsteps E false (SubBalance (From msg) mgval (sdb e)) (sdb (st_evm s)).

Lemma warm_steps l db : dbsteps E false db
  (fold_left (λ d el, fold_left (λ d key, AddSlotToAccessList el.1 key d) el.2 (AddAddressToAccessList el.1 d)) l db).
Proof.
  revert db. induction l as [|[a keys] l IH]; intros db; simpl; [apply ds_refl|].
  eapply dbsteps_trans; [|apply IH]. eapply (dbsteps_trans _ _ _ (AddAddressToAccessList a db)).
  - eapply ds_op; [apply ds_refl|apply db_warm_address].
  - generalize (AddAddressToAccessList a db). induction keys as [|k keys IHk]; intros d; simpl; [apply ds_refl|].
    eapply dbsteps_trans; [|apply IHk]. eapply ds_op; [apply ds_refl|apply db_warm_slot].
Qed.
Lemma PrepareAccessList_steps sender dst pre l db : dbsteps E false db (PrepareAccessList sender dst pre l db).
Proof.
  unfold PrepareAccessList. eapply dbsteps_trans; [|apply warm_steps].
  assert (Ha : ∀ a d, dbsteps E false d (AddAddressToAccessList a d)) by (intros; eapply ds_op; [apply ds_refl|apply db_warm_address]).
  eapply (dbsteps_trans _ _ _ (match dst with Some d => AddAddressToAccessList d (AddAddressToAccessList sender db)
    | None => AddAddressToAccessList sender db end)).
  - destruct dst as [d|]; [|apply Ha]. eapply dbsteps_trans; apply Ha.
  - generalize (match dst with Some d => AddAddressToAccessList d (AddAddressToAccessList sender db)
      | None => AddAddressToAccessList sender db end).
    induction pre as [|a pre IH]; intros d; simpl; [apply ds_refl|]. eapply dbsteps_trans; [apply Ha|apply IH].
Qed.

(** The state the virtual machine starts from, and what is left to do with its result. *)
Definition prepared (db : S) : S :=
  let rules := mkRules c (BlockNumber E) in
  if rIsBerlin rules
  then PrepareAccessList (From msg) (To msg) (ActivePrecompiles rules) (default [] (msg_AccessList msg)) db else db.
Definition paid_out (r : ExecutionResult) (db : S) : S :=
  AddBalance (fee_recipient E c) (UsedGas r * msg_GasPrice msg)
    (AddBalance (From msg) ((msg_Gas msg - UsedGas r) * msg_GasPrice msg) db).

(** [P] is what is known of the execution, of the state before and after it and its error. *)
Lemma TransitionDb_wp (P : S → S → option vmerror → Prop) (e : evm S C) (pool : Z) :
  vm_ok E e → (∀ db : S, 0 <= GetRefund db) → is_u64 (msg_Gas msg) → is_u64 pool →
  (∀ s, vm_ok E (st_evm s) → depth (st_evm s) = depth e → readOnly (st_evm s) = readOnly e → is_u64 (st_gas s) →
     wp (execute K msg) (λ r s', ran s s' ∧ P (sdb (st_evm s)) (sdb (st_evm s')) r.2) (refused e pool) ok_panic s) →
  wp (TransitionDb E K c msg) (λ r s, settled e pool r s ∧
      ∃ db, P (prepared (SubBalance (From msg) mgval (sdb e))) db (Err r) ∧ sdb (st_evm s) = paid_out r db)
    (refused e pool) ok_panic (NewStateTransition e pool).
Proof.
  intros Hv Hrf Hg Hp Hex.
  unfold TransitionDb. wp_step. eapply wp_mono; [by apply (preCheck_ok e pool (λ _, False))| |done|done].
  intros _ s [Had ->]. fold intrinsic. unfold is_u64 in *.
  assert (Hib : ∀ g, intrinsic = inl g → 0 <= g) by (intros g Hi; exact (proj1 (IntrinsicGas_range _ _ _ _ _) g Hi)).
  assert (Hie : ∀ err, intrinsic = inr err → err = ErrTxGasUintOverflow) by (intros err Hi; exact (proj2 (IntrinsicGas_range _ _ _ _ _) err Hi)).
  destruct intrinsic as [g|err] eqn:Hint.
  2:{ wp_step. assert (err = ErrTxGasUintOverflow) as -> by (by apply Hie). by split. }
  wp_step. wp_step. wp_step. { zbool. split; [|done]. by exists g. }
  zbool. specialize (Hib g eq_refl). cbn [st_gas bought] in *. wp_step. wp_step. unfold state. wp_step. wp_step. wp_step.
  { zbool. by split_and!. }
  assert (Hfunds : can_transfer e).
  { intros Hpos. apply andb_false_iff in Hif0 as [?%Z.ltb_ge|?%negb_false_iff]; [lia|done]. }
  clear Hif0. set (s1 := set_st_gas (msg_Gas msg - g) (bought e pool)).
  assert (Hpre : wp (if rIsBerlin (mkRules c (BlockNumber E)) then
      in_state (PrepareAccessList (From msg) (To msg) (ActivePrecompiles (mkRules c (BlockNumber E))) (default [] (msg_AccessList msg)))
    else ret tt) (λ _ s2, s2 = set_st_evm (set_sdb (st_evm s1) (prepared (sdb (st_evm s1)))) s1 ∧
      dbsteps E false (sdb (st_evm s1)) (prepared (sdb (st_evm s1))))
    (refused e pool) ok_panic s1).
  { unfold in_state, prepared. wp_step; repeat wp_step.
    - split; [done|]. apply PrepareAccessList_steps.
    - split; [|apply ds_refl]. unfold set_st_evm, set_sdb. by destruct s1 as [? ? ? []]. }
  wp_step. eapply wp_mono; [exact Hpre| |done|done]. intros _ s2 (-> & Hdb). wp_step.
  eapply wp_mono; [apply Hex; [by apply vm_ok_set_sdb, vm_ok_set_sdb|done|done|simpl; unfold is_u64; lia]| |done|done].
  intros [res vmerr] s3 [[R1 R2 R3 R4 R5 R6 R7] HP]. simpl in R1, R2, R3, R4, R5, R7, HP.
  pose proof (ad_pool _ _ Had). wp_step.
  eapply wp_mono; [apply (refundGas_ok s3 (refused e pool) ok_panic Hrf); [unfold is_u64; lia|lia..]| |done|done].
  intros _ s4 ->. unfold in_state. repeat wp_step. unfold settled, paid_out.
  assert (Hb : 0 <= refunded s3 ∧ 2 * refunded s3 <= initialGas s3 - st_gas s3).
  { unfold refunded. specialize (Hrf (sdb (st_evm s3))). pose proof (Z.div_pos (initialGas s3 - st_gas s3) 2).
    pose proof (Z.mul_div_le (initialGas s3 - st_gas s3) 2). lia. }
  unfold gasUsed. cbn [initialGas st_gas UsedGas gp set_st_evm st_evm]. rewrite R2 in *.
  rewrite sub64_small by (unfold is_u64; lia). split.
  - exists g. do 4 (split; [done || lia|]).
    split_and!; try lia; [by apply vm_ok_set_sdb, vm_ok_set_sdb|done|done|]. simpl.
    eapply ds_op; [eapply ds_op; [eapply dbsteps_trans; [exact Hdb|exact R7]|]|]; by apply db_addBalance.
  - exists (sdb (st_evm s3)). split; [exact HP|]. simpl. do 3 f_equal. lia.
Qed.

End accounting.
