(* ===== verification/TxState.v ===== *)
(** * Transactions on the state database

    [TransitionDb] with the virtual machine on the journaled state: what a transaction
    whose execution fails changes. *)

From S2P Require Import Prelude Uint256 Params VmData VmAnalysis VmState VmGas VmInstr VmJumpTable VmInterpreter VmEvm.
From S2P Require Import VmSpec VmFrame VmExec VmGasOk VmTables VmSafety VmModel TxTransition.
From S2P Require Import Rlp RlpStream StateData StateObjects StateDbOps StateView StateLedger StateRefine StateSim.
From S2P Require Import StateJournal StateModel StateTheorem StateVm.

Section tx.
Context {D T SN : Type} {B : Backend D T SN} {BL : BackendLaws D T SN}.
Variable Keccak : bytes → Hash.

Abbreviation good_db := (@good_db D T SN B Keccak).
Abbreviation view s := (@view D T SN B Keccak (raw Keccak s)).
Abbreviation do_op := (@do_op D T SN B BL Keccak).
Implicit Types s : good_db.

(** ** What the operations do to the accounts *)

Definition balance_of (w : world) (a : Address) : Z := w_read 0 (λ x, acc_Balance (a_data x)) a w.
Definition nonce_of (w : world) (a : Address) : Z := w_read 0 (λ x, acc_Nonce (a_data x)) a w.
Definition slot_of (w : world) (a : Address) (key : Hash) : Hash := w_read 0 (λ x, a_state x key) a w.
Definition code_of (w : world) (a : Address) : bytes := w_read [] a_code a w.

Lemma read_write {A} (d : A) g t a f w b : d = g (fresh_acct Keccak) → (∀ x, a_deleted (f x) = a_deleted x) →
  w_read d g b (w_write Keccak t a f w) =
    if decide (b = a) then g (f (default (fresh_acct Keccak) (live_acct w a))) else w_read d g b w.
Proof.
  intros Hd Hf. unfold w_write, w_read.
  assert (Hlive : ∀ x, live_acct w a = Some x → a_deleted x = false).
  { intros x. unfold live_acct. destruct (w_acct w a) as [y|]; [|done]. simpl. destruct (a_deleted y) eqn:E; [done|].
    by intros [= <-]. }
  destruct (decide (b = a)) as [->|Hne].
  - destruct (live_acct w a) as [x|]; rewrite live_put, Hf; [by rewrite (Hlive x)|done].
  - destruct (live_acct w a); rewrite live_put_ne by done; [done|].
    unfold w_create. rewrite live_put_ne by done. by destruct (w_acct w a), t.
Qed.

(** The view after an operation that only changes the world. *)
Lemma view_op o s w : allowed o = true →
  (∃ x, spec_op Keccak (konst_of (raw Keccak s)) o (abs Keccak (raw Keccak s)) =
     Some (x, l_change (λ _, w) (abs Keccak (raw Keccak s)))) → view (do_op o s) = w.
Proof.
  intros Ha [x Hx]. pose proof (step_spec Keccak o s Ha) as H. unfold StateVm.do_op.
  destruct (step_op Keccak o s) as [[x' s']|]; rewrite Hx in H; [|done].
  apply Some_inj, (f_equal snd), (f_equal l_cur) in H. cbn [snd l_change l_cur] in H.
  change (view s') with (l_cur (abs Keccak (raw Keccak s'))). by rewrite <- H.
Qed.

Abbreviation tracked s := (bool_decide (is_Some (k_snap (konst_of (raw Keccak s))))).

Lemma view_AddBalance a v s : view (AddBalance a v s) = w_AddBalance Keccak (tracked s) a v (view s).
Proof. apply view_op; [done|]. by eexists. Qed.
Lemma view_SubBalance a v s : view (SubBalance a v s) = w_SubBalance Keccak (tracked s) a v (view s).
Proof. apply view_op; [done|]. by eexists. Qed.
Lemma view_SetNonce a n s : view (SetNonce a n s) = w_SetNonce Keccak (tracked s) a n (view s).
Proof. apply view_op; [done|]. by eexists. Qed.

(** Warming the access list changes no account. *)
Lemma view_warm_address a s : w_acct (view (AddAddressToAccessList a s)) = w_acct (view s).
Proof.
  assert (view (AddAddressToAccessList a s) = w_AddAddress a (view s)) as ->; [|done].
  apply view_op; [done|]. by eexists.
Qed.
Lemma view_warm_slot a k s : w_acct (view (AddSlotToAccessList a k s)) = w_acct (view s).
Proof.
  cbn [AddSlotToAccessList state_vm_db]. unfold StateVm.do_op.
  pose proof (step_spec Keccak (OAddSlotToAccessList a k) s eq_refl) as H.
  destruct (step_op Keccak (OAddSlotToAccessList a k) s) as [[x s']|]; [|done].
  cbn [spec_op] in H. destruct (w_AddSlot a k (l_cur (abs Keccak (raw Keccak s)))) as [w|] eqn:E; [|done].
  apply Some_inj, (f_equal snd), (f_equal l_cur) in H. cbn [snd l_change l_cur] in H.
  change (view s') with (l_cur (abs Keccak (raw Keccak s'))). rewrite <- H.
  unfold w_AddSlot in E. destruct (AddSlot _ _ _); [|done]. by injection E as <-.
Qed.
Lemma view_prepare sender dst pre l s : w_acct (view (PrepareAccessList sender dst pre l s)) = w_acct (view s).
Proof.
  unfold PrepareAccessList.
  assert (Hl : ∀ l s, w_acct (view (fold_left (λ d el, fold_left (λ d key, AddSlotToAccessList el.1 key d) el.2
    (AddAddressToAccessList el.1 d)) l s)) = w_acct (view s)).
  { clear. induction l as [|[a keys] l IH]; intros s; cbn [fold_left fst snd]; [done|]. rewrite IH.
    transitivity (w_acct (view (AddAddressToAccessList a s))); [|apply view_warm_address].
    generalize (AddAddressToAccessList a s). clear. induction keys as [|k keys IH]; intros s; cbn [fold_left fst snd]; [done|].
    rewrite IH. apply view_warm_slot. }
  rewrite Hl. assert (Hp : ∀ l s, w_acct (view (fold_left (λ d a, AddAddressToAccessList a d) l s)) = w_acct (view s)).
  { clear. induction l as [|a l IH]; intros s; cbn [fold_left fst snd]; [done|]. rewrite IH. apply view_warm_address. }
  rewrite Hp. destruct dst as [d|]; rewrite !view_warm_address; done.
Qed.

Lemma GetNonce_view s a : GetNonce s a = nonce_of (view s) a.
Proof.
  cbn [GetNonce state_vm_db]. unfold ask. pose proof (step_spec Keccak (OGetNonce a) s eq_refl) as H.
  destruct (step_op Keccak (OGetNonce a) s) as [[x s']|]; [|done].
  apply Some_inj, (f_equal fst) in H. cbn in H. by rewrite <- H.
Qed.

(** Two worlds with the same accounts read the same. *)
Lemma read_acct {A} (d : A) g a w w' : w_acct w' = w_acct w → w_read d g a w' = w_read d g a w.
Proof. intros H. unfold w_read, live_acct. by rewrite H. Qed.

(** What is read of the accounts after a balance or nonce is written. *)
Record reads (w w' : world) (db : Address → Z) (dn : Address → Z → Z) : Prop := {
  rd_balance a : balance_of w' a = balance_of w a + db a;
  rd_nonce a : nonce_of w' a = dn a (nonce_of w a);
  rd_code a : code_of w' a = code_of w a;
  rd_slot a key : slot_of w' a key = slot_of w a key;
}.

Lemma reads_balance t a v w : reads w (w_AddBalance Keccak t a v w) (λ b, if decide (b = a) then v else 0) (λ _ n, n).
Proof.
  unfold w_AddBalance. split; intros b; [..|intros key]; unfold balance_of, nonce_of, code_of, slot_of;
    rewrite read_write by done; unfold w_read; destruct (decide (b = a)) as [->|];
    try (by destruct (live_acct w a)); lia.
Qed.
Lemma reads_sub t a v w : reads w (w_SubBalance Keccak t a v w) (λ b, if decide (b = a) then - v else 0) (λ _ n, n).
Proof.
  unfold w_SubBalance. split; intros b; [..|intros key]; unfold balance_of, nonce_of, code_of, slot_of;
    rewrite read_write by done; unfold w_read; destruct (decide (b = a)) as [->|];
    try (by destruct (live_acct w a)); lia.
Qed.
Lemma reads_nonce t a n w : reads w (w_SetNonce Keccak t a n w) (λ _, 0) (λ b m, if decide (b = a) then n else m).
Proof.
  unfold w_SetNonce. split; intros b; [..|intros key]; unfold balance_of, nonce_of, code_of, slot_of;
    rewrite read_write by done; unfold w_read; destruct (decide (b = a)) as [->|];
    try (by destruct (live_acct w a)); try lia; destruct (live_acct w a); simpl; lia.
Qed.
Lemma reads_same w w' : w_acct w' = w_acct w → reads w w' (λ _, 0) (λ _ n, n).
Proof.
  intros H. split; intros; unfold balance_of, nonce_of, code_of, slot_of; rewrite (read_acct _ _ _ w) by done; try done.
  lia.
Qed.
Lemma reads_trans w1 w2 w3 b1 n1 b2 n2 : reads w1 w2 b1 n1 → reads w2 w3 b2 n2 →
  reads w1 w3 (λ a, b1 a + b2 a) (λ a n, n2 a (n1 a n)).
Proof.
  intros [B1 N1 C1 S1] [B2 N2 C2 S2]. split; intros.
  - rewrite B2, B1. lia.
  - by rewrite N2, N1.
  - by rewrite C2, C1.
  - by rewrite S2, S1.
Qed.

(** ** A failed execution *)

Context `{UL : Uint256Laws} {C : Type} {BC : BitmapCache C} {CL : CacheLaws (C := C)}.
Variable E : env good_db.
Variable f : fork.
Variable abort : Z → mstate good_db C → bool.
Variable n : nat.
Variable c : ChainConfig.
Variable msg : Message.
Hypothesis Htr : Transfer E = core_Transfer.
Hypothesis Hlib : libraries_ok Keccak E.
Hypothesis Hf : f = Berlin → rIsEIP150 (chainRules E) = true.

Abbreviation K := (calls E (instructionSet f) abort n).

(** The state after the nonce was raised and the execution failed. *)
Definition undone (db db' : good_db) (err : option vmerror) : Prop :=
  err ≠ None → view db' = view (SetNonce (From msg) (add64 (GetNonce db (From msg)) 1) db).

Lemma execute_failed (st : StateTransition (S := good_db) (C := C)) QE to : To msg = Some to →
  vm_ok E (st_evm st) → readOnly (st_evm st) = false → 1025 <= Z.of_nat n + depth (st_evm st) →
  is_u64 (st_gas st) → zlen (msg_Data msg) < 2 ^ 63 →
  wp (execute K msg) (λ r st', ran E st st' ∧ undone (sdb (st_evm st)) (sdb (st_evm st')) r.2) QE ok_panic st.
Proof.
  intros Hto Hv Hro Hn Hg Hd. pose proof (state_env_ok Keccak E Hlib) as EOK.
  eapply wp_mono; [apply (wp_conj _ (λ _, ran E st) (λ r st', undone (sdb (st_evm st)) (sdb (st_evm st')) r.2)
    QE (λ _ _, True) ok_panic ok_panic); [apply (execute_ok E K msg st QE); try done|]|..].
  - exact (calls_ok E (RL := state_revert Keccak E Htr) EOK _ (instructionSet_ok E EOK f Hf) abort n _ Hn).
  - unfold execute. rewrite Hto. unfold state, in_state. do 7 wp_step. apply wp_in_evm. simpl st_evm.
    set (e1 := set_sdb _ _). rewrite calls_unfold.
    change (Call _ (AccountRef (From msg)) to (msg_Data msg) (st_gas st) (msg_Value msg)) with
      (evm_Call E (run_at E (instructionSet f) abort n) (AccountRef (From msg)) to (msg_Data msg) (st_gas st) (msg_Value msg)).
    assert (Hr1 : is_ro E e1 = true → msg_Value msg = 0) by (unfold is_ro; simpl; by rewrite Hro).
    eapply wp_mono; [apply (evm_Call_ok E (RL := state_revert Keccak E Htr) EOK (depth e1) _
      (run_at_ok E (RL := state_revert Keccak E Htr) EOK _ (instructionSet_ok E EOK f Hf) abort n _ Hn)
      e1 (AccountRef (From msg)) to (msg_Data msg) (st_gas st) (msg_Value msg) eq_refl); try done; by apply vm_ok_set_sdb| | |done].
    + intros [[res leftOver] err] e2 [_ Herr]. wp_step. wp_step. wp_step. intros Hne. simpl in Hne |- *.
      destruct err; [|done]. exact (proj1 Herr).
    + intros ? ? [].
  - simpl. intros [res err] s' [H1 H2]. split; [done|]. intros Hne. by apply H2.
  - by intros ? ? [? ?].
  - by intros ? [? ?].
Qed.

Lemma refunds_ok (s : good_db) : 0 <= GetRefund s.
Proof.
  cbn [GetRefund state_vm_db]. unfold ask. pose proof (step_spec Keccak OGetRefund s eq_refl) as H.
  destruct (step_op Keccak OGetRefund s) as [[x s']|]; [|done].
  apply Some_inj, (f_equal fst) in H. cbn in H. rewrite <- H.
  exact (proj1 (proj2 (proj2 (proj2_sig s)))).
Qed.

(** C15 A transaction whose call fails costs its sender exactly the gas used, at the
    message's price, and raises its nonce by one; the fee goes to the system account under
    Parlia and to the coinbase otherwise; no other balance or nonce, no code and no storage
    slot of any account is different, whatever the called code did before it failed.  The
    message is otherwise refused or executed; the only panics are the two explicit ones of
    the refund counter and of SSTORE on an account not in the access list. *)
Theorem failed_tx_charges (e : evm good_db C) (pool : Z) (to : Address) : To msg = Some to →
  vm_ok E e → readOnly e = false → 1025 <= Z.of_nat n + depth e →
  is_u64 (msg_Gas msg) → is_u64 pool → zlen (msg_Data msg) < 2 ^ 63 →
  match ApplyMessage E K c msg e pool with
  | Ret r st =>
      let fee := UsedGas r * msg_GasPrice msg in
      let w := view (sdb e) in
      let w' := view (sdb (st_evm st)) in
      Err r ≠ None → ∀ a,
        balance_of w' a = balance_of w a - (if decide (a = From msg) then fee else 0)
                                         + (if decide (a = fee_recipient E c) then fee else 0) ∧
        nonce_of w' a = (if decide (a = From msg) then add64 (nonce_of w a) 1 else nonce_of w a) ∧
        code_of w' a = code_of w a ∧ ∀ key, slot_of w' a key = slot_of w a key
  | Fail err st => refused E c msg e pool err st
  | Panic p => ok_panic p
  | NoFuel => False
  end.
Proof.
  intros Hto Hv Hro Hn Hg Hp Hd.
  assert (Hwp : wp (TransitionDb E K c msg) (λ r st, settled E c msg e pool r st ∧
      ∃ db, undone (prepared E c msg (SubBalance (From msg) (mgval msg) (sdb e))) db (Err r) ∧
        sdb (st_evm st) = paid_out E c msg r db) (refused E c msg e pool) ok_panic (NewStateTransition e pool)).
  { apply TransitionDb_wp; try done; [apply refunds_ok|]. intros st Hv' Hd' Hro' Hg'.
    apply (execute_failed st _ to); try done; [by rewrite Hro'|by rewrite Hd']. }
  unfold wp in Hwp. unfold ApplyMessage.
  destruct (TransitionDb E K c msg (NewStateTransition e pool)) as [r st| | |]; try done.
  destruct Hwp as [_ (db & Hu & Hdb)]. intros Herr a. specialize (Hu Herr).
  set (fee := UsedGas r * msg_GasPrice msg) in *. set (w := view (sdb e)). set (w' := view (sdb (st_evm st))).
  set (db1 := SubBalance (From msg) (mgval msg) (sdb e)) in *.
  assert (Hprep : w_acct (view (prepared E c msg db1)) = w_acct (view db1)).
  { unfold prepared. destruct (rIsBerlin _); [apply view_prepare|done]. }
  assert (R1 : reads w (view db1) (λ b, if decide (b = From msg) then - mgval msg else 0) (λ _ n, n))
    by (unfold db1, w; rewrite view_SubBalance; apply reads_sub).
  pose proof (reads_same _ _ Hprep) as R2.
  pose proof (reads_nonce (tracked (prepared E c msg db1)) (From msg) (add64 (GetNonce (prepared E c msg db1) (From msg)) 1)
    (view (prepared E c msg db1))) as R3. rewrite <- view_SetNonce, <- Hu in R3.
  pose proof (reads_balance (tracked db) (From msg) ((msg_Gas msg - UsedGas r) * msg_GasPrice msg) (view db)) as R4.
  rewrite <- view_AddBalance in R4.
  pose proof (reads_balance (tracked (AddBalance (From msg) ((msg_Gas msg - UsedGas r) * msg_GasPrice msg) db))
    (fee_recipient E c) fee (view (AddBalance (From msg) ((msg_Gas msg - UsedGas r) * msg_GasPrice msg) db))) as R5.
  rewrite <- view_AddBalance in R5. unfold paid_out in Hdb. fold fee in Hdb. rewrite <- Hdb in R5. fold w' in R5.
  destruct (reads_trans _ _ _ _ _ _ _ R1 (reads_trans _ _ _ _ _ _ _ R2 (reads_trans _ _ _ _ _ _ _ R3
    (reads_trans _ _ _ _ _ _ _ R4 R5)))) as [Rb Rn Rc Rs].
  split; [|split; [|by split; [apply Rc|apply Rs]]].
  - rewrite Rb. unfold fee, mgval. destruct (decide (a = From msg)), (decide (a = fee_recipient E c)); lia.
  - rewrite Rn. destruct (decide (a = From msg)) as [->|]; [|done].
    rewrite GetNonce_view, (rd_nonce _ _ _ _ R2), (rd_nonce _ _ _ _ R1). done.
Qed.
End tx.

(** ** A transaction that runs out of gas *)

Definition parlia_config : ChainConfig := {|
  ChainID := Some 56; HomesteadBlock := Some 0; DAOForkBlock := None; DAOForkSupport := false;
  EIP150Block := Some 0; EIP150Hash := 0; EIP155Block := Some 0; EIP158Block := Some 0;
  ByzantiumBlock := Some 0; ConstantinopleBlock := Some 0; PetersburgBlock := Some 0;
  IstanbulBlock := Some 0; MuirGlacierBlock := Some 0; BerlinBlock := None; YoloV3Block := None;
  EWASMBlock := None; CatalystBlock := None; RamanujanBlock := Some 0; NielsBlock := Some 0;
  MirrorSyncBlock := Some 0; BrunoBlock := None; EulerBlock := None; ClassicBlock := None;
  Parlia := Some {| Period := 3; Epoch := 200 |} |}.
Definition looping_tx : Message := {|
  From := 0x0A; To := Some 0xAA; msg_GasPrice := 5; msg_Gas := 21500; msg_Value := 7; msg_Nonce := 0;
  CheckNonce := true; msg_Data := []; msg_AccessList := None |}.
Definition tx_evm : evm (good_db toy_hash) (gmap Hash bytes) := {|
  sdb := AddBalance 0x0A 1000000 looping_db; depth := 0; callGasTemp := 0; readOnly := false; returnData := [];
  jumpdests := ∅; bitmapCache := ∅ |}.
Abbreviation tx_calls := (calls (C := gmap Hash bytes) state_env (instructionSet Istanbul) (λ _ _, false) (Z.to_nat 1025)).

Lemma tx_vm_ok : vm_ok state_env tx_evm.
Proof. split; [by vm_compute|intros h a H; simpl in H; by rewrite lookup_empty in H..]. Qed.

(** All the gas is used, the value stays with the sender. *)
Example looping_tx_fails :
  match ApplyMessage state_env tx_calls parlia_config looping_tx tx_evm 30000 with
  | Ret r st =>
      r = {| UsedGas := 21500; Err := Some ErrOutOfGas; ReturnData := [] |} ∧ gp st = 8500 ∧
      GetBalance (sdb (st_evm st)) 0x0A = 1001000 - 21500 * 5 ∧ GetBalance (sdb (st_evm st)) 0xAA = 0 ∧
      GetBalance (sdb (st_evm st)) SystemAddress = 21500 * 5 ∧ GetNonce (sdb (st_evm st)) 0x0A = 1
  | _ => False
  end.
Proof. vm_compute. done. Qed.

Lemma failed_tx_charges_witness :
  match ApplyMessage state_env tx_calls parlia_config looping_tx tx_evm 30000 with
  | Ret r st =>
      let fee := UsedGas r * msg_GasPrice looping_tx in
      let w := StateView.view toy_hash (raw toy_hash (sdb tx_evm)) in
      let w' := StateView.view toy_hash (raw toy_hash (sdb (st_evm st))) in
      Err r ≠ None → ∀ a,
        balance_of w' a = balance_of w a - (if decide (a = From looping_tx) then fee else 0)
                                         + (if decide (a = fee_recipient state_env parlia_config) then fee else 0) ∧
        nonce_of w' a = (if decide (a = From looping_tx) then add64 (nonce_of w a) 1 else nonce_of w a) ∧
        code_of w' a = code_of w a ∧ ∀ key, slot_of w' a key = slot_of w a key
  | Fail err st => refused state_env parlia_config looping_tx tx_evm 30000 err st
  | Panic p => ok_panic p
  | NoFuel => False
  end.
Proof.
  apply (failed_tx_charges toy_hash state_env Istanbul (λ _ _, false) (Z.to_nat 1025) parlia_config looping_tx) with (to := 0xAA).
  - reflexivity.
  - exact state_libraries.
  - discriminate.
  - reflexivity.
  - exact tx_vm_ok.
  - reflexivity.
  - vm_compute. congruence.
  - unfold is_u64. simpl. lia.
  - unfold is_u64. lia.
  - vm_compute. reflexivity.
Defined.


Lemma IntrinsicGas_exact_witness : zlen [0; 1; 2] < 2 ^ 63 ∧
  IntrinsicGas [0; 1; 2] None false true true = inl (21000 + 2 * 16 + 1 * 4).
Proof.
  split; [vm_compute; reflexivity|].
  rewrite (IntrinsicGas_exact [0; 1; 2] None false true true) by (vm_compute; reflexivity). reflexivity.
Defined.

(** A message with less gas than the intrinsic gas is refused after its gas was taken
    from the pool and from the sender. *)
Definition short_tx : Message := {|
  From := 0x0A; To := Some 0xAA; msg_GasPrice := 5; msg_Gas := 20000; msg_Value := 7; msg_Nonce := 0;
  CheckNonce := true; msg_Data := []; msg_AccessList := None |}.
Fact refused_tx_keeps_gas :
  match ApplyMessage state_env tx_calls parlia_config short_tx tx_evm 30000 with
  | Fail err st => err = ErrIntrinsicGas ∧ gp st = 10000 ∧ GetBalance (sdb (st_evm st)) 0x0A = 1001000 - 20000 * 5
  | _ => False
  end.
Proof. vm_compute. done. Qed.
