(* ===== verification/TxProcess.v ===== *)
(** * Processing the transactions of a block ([core/state_processor.go])

    [applyTransaction] and the loop of [Process]: system transactions are set aside for
    the consensus engine, the others are applied one after the other with one gas pool, and
    each leaves a receipt. *)

From S2P Require Import Prelude Uint256 Params VmData VmAnalysis VmState VmGas VmInstr VmJumpTable VmInterpreter VmEvm.
From S2P Require Import VmSpec VmFrame VmExec VmGasOk VmTables VmSafety VmModel TxTransition StateModel StateVm TxState.

(** What the processor asks of a state database beyond [vm.StateDB]; [IntermediateRoot]
    gives the bytes of the root. *)
Class BlockStateDB (S : Type) := {
  Prepare : Hash → Hash → Z → S → S;
  db_Finalise : bool → S → S;
  db_IntermediateRoot : bool → S → bytes * S;
  GetTxLogs : S → Hash → list Log;
  db_BlockHash : S → Hash;
  db_TxIndex : S → Z;
}.

Definition ReceiptStatusFailed : Z := 0.
Definition ReceiptStatusSuccessful : Z := 1.

(** The consensus fields and what is derived; the bloom filter is computed by a receipt
    processor. *)
Record Receipt := {
  rc_Type : Z;
  rc_PostState : option bytes;
  rc_Status : Z;
  CumulativeGasUsed : Z;
  rc_Logs : list Log;
  rc_TxHash : Hash;
  rc_ContractAddress : Address;
  rc_GasUsed : Z;
  rc_BlockHash : Hash;
  rc_BlockNumber : Z;
  TransactionIndex : Z;
}.

(** A transaction: the message its sender signed, [None] when the signature is invalid,
    and what the engine says of it, [None] being an error. *)
Record Tx := {
  tx_Hash : Hash;
  tx_Type : Z;
  tx_Nonce : Z;
  AsMessage : option Message;
  isSystemTx : option bool;
}.

Inductive process_error :=
| InvalidSender (i : Z)
| SystemTxError (i : Z)
| CouldNotApply (i : Z) (e : tx_error).

Section process.
Context {U : Uint256} {S C : Type} {SDB : StateDB S} {BDB : BlockStateDB S} {BC : BitmapCache C}.
(** The EVM's block context, the entry points of an EVM, the chain configuration, and the
    header's number, hash and gas limit. *)
Variable E : env S.
Variable calls_of : env S → evm_calls S C.
Variable c : ChainConfig.
Variable blockHash : Hash.
(** Whether the engine is a [consensus.PoSA]. *)
Variable isPoSA : bool.

(** [evm.Reset(NewEVMTxContext(msg), statedb)]. *)
Definition Reset (msg : Message) : env S := {|
  chainRules := chainRules E; chainID := chainID E; CanTransfer := CanTransfer E; Transfer := Transfer E;
  GetHash := GetHash E; Coinbase := Coinbase E; GasLimit := GasLimit E; BlockNumber := BlockNumber E;
  Time := Time E; Difficulty := Difficulty E; Origin := From msg; GasPrice := msg_GasPrice msg;
  NoRecursion := NoRecursion E; EnablePreimageRecording := EnablePreimageRecording E;
  Keccak256Hash := Keccak256Hash E; CreateAddress := CreateAddress E; CreateAddress2 := CreateAddress2 E;
  precompile := precompile E |}.

(** The state of the loop. *)
Record Processing := {
  pr_evm : evm S C;
  pr_gp : Z;
  usedGas : Z;
  receipts : list Receipt;
  commonTxs : list Tx;
  systemTxs : list Tx;
}.
Definition PM (A : Type) : Type := M process_error Processing A.

(** The state after the message, and the root before Byzantium. *)
Definition finalise_tx (db : S) : option bytes * S :=
  if IsByzantium c (BlockNumber E) then (None, db_Finalise true db)
  else let '(root, db) := db_IntermediateRoot (IsEIP158 c (BlockNumber E)) db in (Some root, db).

Definition applyTransaction (i : Z) (msg : Message) (tx : Tx) : PM Receipt := λ p,
  let E' := Reset msg in
  match ApplyMessage E' (calls_of E') c msg (pr_evm p) (pr_gp p) with
  | Fail err st =>
      Fail (CouldNotApply i err) {| pr_evm := st_evm st; pr_gp := gp st; usedGas := usedGas p;
        receipts := receipts p; commonTxs := commonTxs p; systemTxs := systemTxs p |}
  | Panic q => Panic q
  | NoFuel => NoFuel
  | Ret r st =>
      let '(root, db) := finalise_tx (sdb (st_evm st)) in
      let used := add64 (usedGas p) (UsedGas r) in
      let receipt := {|
        rc_Type := tx_Type tx; rc_PostState := root;
        rc_Status := match Err r with Some _ => ReceiptStatusFailed | None => ReceiptStatusSuccessful end;
        CumulativeGasUsed := used;
        rc_Logs := GetTxLogs db (tx_Hash tx);
        rc_TxHash := tx_Hash tx;
        rc_ContractAddress := match To msg with
                              | None => CreateAddress E' (Origin E') (tx_Nonce tx) | Some _ => 0 end;
        rc_GasUsed := UsedGas r;
        rc_BlockHash := db_BlockHash db; rc_BlockNumber := BlockNumber E; TransactionIndex := db_TxIndex db |} in
      Ret receipt {| pr_evm := set_sdb (st_evm st) db; pr_gp := gp st; usedGas := used;
        receipts := receipts p; commonTxs := commonTxs p; systemTxs := systemTxs p |}
  end.

Definition add_system (tx : Tx) (p : Processing) : Processing := {|
  pr_evm := pr_evm p; pr_gp := pr_gp p; usedGas := usedGas p; receipts := receipts p;
  commonTxs := commonTxs p; systemTxs := systemTxs p ++ [tx] |}.
Definition add_common (tx : Tx) (r : Receipt) (p : Processing) : Processing := {|
  pr_evm := pr_evm p; pr_gp := pr_gp p; usedGas := usedGas p; receipts := receipts p ++ [r];
  commonTxs := commonTxs p ++ [tx]; systemTxs := systemTxs p |}.
Definition prepare_tx (h : Hash) (i : Z) (p : Processing) : Processing := {|
  pr_evm := set_sdb (pr_evm p) (Prepare h blockHash i (sdb (pr_evm p))); pr_gp := pr_gp p; usedGas := usedGas p;
  receipts := receipts p; commonTxs := commonTxs p; systemTxs := systemTxs p |}.

(** One turn of the loop of [Process]. *)
Definition process_tx (i : Z) (tx : Tx) : PM unit :=
  let! sys := (if isPoSA then or_fail (SystemTxError i) (isSystemTx tx) else ret false) in
  if sys : bool then modify (add_system tx)
  else
    let! msg := or_fail (InvalidSender i) (AsMessage tx) in
    do! modify (prepare_tx (tx_Hash tx) i) in
    let! r := applyTransaction i msg tx in
    modify (add_common tx r).

Fixpoint process_txs (i : Z) (txs : list Tx) : PM unit :=
  match txs with
  | [] => ret tt
  | tx :: txs => do! process_tx i tx in process_txs (i + 1) txs
  end.

(** [Process] until the engine finalizes the block; the pool starts with the block's gas. *)
Definition process_block (e : evm S C) (txs : list Tx) : outcome process_error Processing unit :=
  process_txs 0 txs {| pr_evm := e; pr_gp := GasLimit E; usedGas := 0; receipts := [];
                       commonTxs := []; systemTxs := [] |}.
End process.

(** ** The gas of a block *)

Section block_gas.
Context `{UL : Uint256Laws} {S C : Type} {SDB : StateDB S} {BDB : BlockStateDB S} {BC : BitmapCache C}.
Context {CL : CacheLaws (C := C)}.
Variable E : env S.
Variable calls_of : env S → evm_calls S C.
Variable c : ChainConfig.
Variable blockHash : Hash.
Variable isPoSA : bool.

(** The sum of the gas used by the transactions of these receipts. *)
Definition gas_of (rs : list Receipt) : Z := foldr (λ r n, rc_GasUsed r + n) 0 rs.
Lemma gas_of_app rs1 rs2 : gas_of (rs1 ++ rs2) = gas_of rs1 + gas_of rs2.
Proof. unfold gas_of. induction rs1 as [|r rs1 IH]; simpl; lia. Qed.

Definition is_system (tx : Tx) : bool := isPoSA && bool_decide (isSystemTx tx = Some true).
(** Messages carry machine integers and Go slices. *)
Definition tx_typed (tx : Tx) : Prop :=
  ∀ msg, AsMessage tx = Some msg → is_u64 (msg_Gas msg) ∧ zlen (msg_Data msg) < 2 ^ 63.

(** The invariant of the loop after the transactions [done]. *)
Record loop_ok (done : list Tx) (p : Processing (S := S) (C := C)) : Prop := {
  lp_vm : vm_ok E (pr_evm p);
  lp_depth : depth (pr_evm p) = 0;
  lp_readOnly : readOnly (pr_evm p) = false;
  lp_pool : 0 <= pr_gp p;
  lp_gas : usedGas p + pr_gp p = GasLimit E;
  lp_sum : usedGas p = gas_of (receipts p);
  lp_used : Forall (λ r, 0 <= rc_GasUsed r) (receipts p);
  lp_cumulative k r : receipts p !! k = Some r → CumulativeGasUsed r = gas_of (take (Datatypes.S k) (receipts p));
  lp_common : commonTxs p = filter (λ tx, is_system tx = false) done;
  lp_system : systemTxs p = filter (λ tx, is_system tx = true) done;
  lp_hashes : map rc_TxHash (receipts p) = map tx_Hash (commonTxs p);
}.

Hypothesis HK : ∀ msg, CallsOk (Reset E msg) 0 (calls_of (Reset E msg)).
Hypothesis Hrefund : ∀ db : S, 0 <= GetRefund db.
Hypothesis Hlimit : is_u64 (GasLimit E).

Lemma gas_nonneg rs : Forall (λ r, 0 <= rc_GasUsed r) rs → 0 <= gas_of rs.
Proof. induction 1; simpl; [done|]. unfold gas_of in *. simpl. lia. Qed.

(** One transaction: its gas goes from the pool to the counter. *)
Record applied (tx : Tx) (p : Processing (S := S) (C := C)) (r : Receipt) (p' : Processing (S := S) (C := C)) : Prop := {
  ap_vm : vm_ok E (pr_evm p');
  ap_depth : depth (pr_evm p') = 0;
  ap_readOnly : readOnly (pr_evm p') = false;
  ap_used : 0 <= rc_GasUsed r <= pr_gp p;
  ap_pool : pr_gp p' = pr_gp p - rc_GasUsed r;
  ap_gas : usedGas p' = usedGas p + rc_GasUsed r;
  ap_cumulative : CumulativeGasUsed r = usedGas p';
  ap_hash : rc_TxHash r = tx_Hash tx;
  ap_rest : receipts p' = receipts p ∧ commonTxs p' = commonTxs p ∧ systemTxs p' = systemTxs p;
}.

Lemma applyTransaction_ok i msg tx p : vm_ok E (pr_evm p) → depth (pr_evm p) = 0 → readOnly (pr_evm p) = false →
  0 <= pr_gp p → 0 <= usedGas p → usedGas p + pr_gp p = GasLimit E → is_u64 (msg_Gas msg) → zlen (msg_Data msg) < 2 ^ 63 →
  wp (applyTransaction E calls_of c i msg tx) (applied tx p) (λ _ _, True) ok_panic p.
Proof.
  intros [V1 V2 V3] Hdep Hro Hgp Hus Hsum Hg Hd. unfold is_u64 in Hlimit.
  assert (Hv1 : vm_ok (Reset E msg) (pr_evm p)) by by split.
  assert (HT : wp (TransitionDb (Reset E msg) (calls_of (Reset E msg)) c msg)
    (λ r s, settled (Reset E msg) c msg (pr_evm p) (pr_gp p) r s ∧ ∃ db, True ∧ sdb (st_evm s) = paid_out (Reset E msg) c msg r db)
    (refused (Reset E msg) c msg (pr_evm p) (pr_gp p)) ok_panic (NewStateTransition (pr_evm p) (pr_gp p))).
  { apply (TransitionDb_wp _ _ _ _ (λ _ _ _, True)); try done; [unfold is_u64; lia|]. intros s Hv' Hd' Hro' Hg'.
    eapply wp_mono; [apply execute_ok; [rewrite Hd', Hdep; apply HK|done|by rewrite Hro'|done|done]|by intros|done|done]. }
  unfold wp, applyTransaction, ApplyMessage in *.
  destruct (TransitionDb (Reset E msg) (calls_of (Reset E msg)) c msg _) as [r st| | |]; try done.
  destruct HT as [(g & _ & _ & Had & _ & _ & Hu & Hgp' & [W1 W2 W3] & Hdep' & Hro' & _) _]. pose proof (ad_pool _ _ _ Had).
  destruct (finalise_tx E c (sdb (st_evm st))) as [root db]. rewrite add64_small by (unfold is_u64; lia).
  split; simpl; try done; try congruence; lia.
Qed.

Lemma loop_system done p tx : loop_ok done p → is_system tx = true → loop_ok (done ++ [tx]) (add_system tx p).
Proof.
  intros [H1 H2 H3 H4 H5 H6 H7 H8 H9 H10 H11] Hs.
  split; simpl; try done; rewrite filter_app, filter_cons, filter_nil, Hs; simpl; by rewrite ?app_nil_r, <- ?H9, <- ?H10.
Qed.

Lemma loop_common done p p' tx r h i : loop_ok done p → is_system tx = false →
  applied tx (prepare_tx blockHash h i p) r p' → loop_ok (done ++ [tx]) (add_common tx r p').
Proof.
  intros [H1 H2 H3 H4 H5 H6 H7 H8 H9 H10 H11] Hs [A1 A2 A3 A4 A5 A6 A7 A8 (A9 & A10 & A11)]. simpl in *.
  split; simpl; rewrite ?A9, ?A10, ?A11; try done; try lia.
  - rewrite gas_of_app. unfold gas_of at 2. simpl. lia.
  - apply Forall_app. split; [done|]. constructor; [lia|constructor].
  - intros k r'. rewrite lookup_app_Some. intros [Hk|[Hk Hk']].
    + rewrite take_app_le by (apply lookup_lt_Some in Hk; lia). by apply H8.
    + apply list_lookup_singleton_Some in Hk' as [Hk0 ->]. rewrite take_ge by (rewrite length_app; simpl; lia).
      rewrite A7, A6, gas_of_app, H6. unfold gas_of at 3. simpl. lia.
  - rewrite filter_app, filter_cons, filter_nil, Hs. simpl. by rewrite <- H9.
  - rewrite filter_app, filter_cons, filter_nil, Hs. simpl. by rewrite app_nil_r, <- H10.
  - rewrite !map_app, H11. simpl. by rewrite A8.
Qed.

Lemma process_tx_ok i tx done p : loop_ok done p → tx_typed tx →
  wp (process_tx E calls_of c blockHash isPoSA i tx) (λ _, loop_ok (done ++ [tx])) (λ _ _, True) ok_panic p.
Proof.
  intros Hl Ht. unfold process_tx. wp_step.
  assert (Hsys : wp (if isPoSA then or_fail (SystemTxError i) (isSystemTx tx) else ret false)
    (λ b p', p' = p ∧ b = is_system tx) (λ _ _, True) ok_panic p).
  { unfold is_system. destruct isPoSA; [|by wp_step]. apply wp_or_fail; [|done]. intros b ->. split; [done|].
    by destruct b. }
  eapply wp_mono; [exact Hsys| |done|done]. intros b _ [-> ->]. destruct (is_system tx) eqn:Hs.
  - wp_step. by apply loop_system.
  - wp_step. apply wp_or_fail; [|done]. intros msg Hm. destruct (Ht msg Hm) as [Hg Hd]. wp_step. wp_step. wp_step.
    pose proof Hl as [H1 H2 H3 H4 H5 H6 H7 H8 H9 H10 H11]. pose proof (gas_nonneg _ H7).
    eapply wp_mono; [apply applyTransaction_ok; try done; [by apply vm_ok_set_sdb|simpl; lia]| |done|done].
    intros r p' Ha. wp_step. by eapply loop_common.
Qed.

Lemma process_txs_ok txs : ∀ i done p, loop_ok done p → Forall tx_typed txs →
  wp (process_txs E calls_of c blockHash isPoSA i txs) (λ _, loop_ok (done ++ txs)) (λ _ _, True) ok_panic p.
Proof.
  induction txs as [|tx txs IH]; intros i done p Hl Ht; simpl.
  - wp_step. by rewrite app_nil_r.
  - apply Forall_cons in Ht as [Ht Hts]. wp_step. eapply wp_mono; [by apply process_tx_ok| |done|done].
    intros [] p' Hl'. rewrite cons_middle, app_assoc. by apply IH.
Qed.

(** C16 A block that processes without error: the gas left in the pool and the gas
    used add up to the block's gas limit, so the block never uses more; the gas used is the
    sum over the receipts and every cumulative figure is the sum up to its receipt; there
    is one receipt per ordinary transaction, in order, and the system transactions are set
    aside in order.  Processing always ends: the only panics left are the explicit ones of
    the virtual machine. *)
Theorem process_block_gas (e : evm S C) (txs : list Tx) :
  vm_ok E e → depth e = 0 → readOnly e = false → Forall tx_typed txs →
  match process_block E calls_of c blockHash isPoSA e txs with
  | Ret _ p =>
      usedGas p + pr_gp p = GasLimit E ∧ 0 <= usedGas p <= GasLimit E ∧ usedGas p = gas_of (receipts p) ∧
      (∀ k r, receipts p !! k = Some r → CumulativeGasUsed r = gas_of (take (Datatypes.S k) (receipts p))) ∧
      map rc_TxHash (receipts p) = map tx_Hash (filter (λ tx, is_system tx = false) txs) ∧
      systemTxs p = filter (λ tx, is_system tx = true) txs
  | Fail _ _ => True
  | Panic q => ok_panic q
  | NoFuel => False
  end.
Proof.
  intros Hv Hd Hro Ht. unfold is_u64 in Hlimit.
  assert (H0 : loop_ok [] {| pr_evm := e; pr_gp := GasLimit E; usedGas := 0; receipts := []; commonTxs := []; systemTxs := [] |}).
  { split; simpl; try done; lia. }
  pose proof (process_txs_ok txs 0 [] _ H0 Ht) as H. unfold wp in H. unfold process_block.
  destruct (process_txs _ _ _ _ _ _ _ _) as [u p| | |]; try done.
  destruct H as [H1 H2 H3 H4 H5 H6 H7 H8 H9 H10 H11]. simpl in *. pose proof (gas_nonneg _ H7).
  rewrite <- H9. split_and!; try done; lia.
Qed.
End block_gas.

(** ** A block with a failing transaction, a good one and a system transaction *)

(** A chain past Byzantium on which the end of a transaction changes nothing. *)
Definition toy_block_db : BlockStateDB (good_db (D := mstore) (T := gmap bytes bytes) (SN := layer) toy_hash) := {|
  Prepare _ _ _ s := s; db_Finalise _ s := s; db_IntermediateRoot _ s := ([], s);
  GetTxLogs _ _ := []; db_BlockHash _ := 1; db_TxIndex _ := 0 |}.

Definition pay_tx : Message := {|
  From := 0x0A; To := Some 0xBB; msg_GasPrice := 5; msg_Gas := 30000; msg_Value := 7; msg_Nonce := 1;
  CheckNonce := true; msg_Data := []; msg_AccessList := None |}.
Definition block_txs : list Tx :=
  [{| tx_Hash := 11; tx_Type := 0; tx_Nonce := 0; AsMessage := Some looping_tx; isSystemTx := Some false |};
   {| tx_Hash := 12; tx_Type := 0; tx_Nonce := 0; AsMessage := None; isSystemTx := Some true |};
   {| tx_Hash := 13; tx_Type := 0; tx_Nonce := 1; AsMessage := Some pay_tx; isSystemTx := Some false |}].
Abbreviation calls_for := (λ E', calls (C := gmap Hash bytes) E' (instructionSet Istanbul) (λ _ _, false) (Z.to_nat 1025)).

Example block_result :
  match process_block (BDB := toy_block_db) state_env calls_for parlia_config 1 true tx_evm block_txs with
  | Ret _ p =>
      map (λ r, (rc_TxHash r, rc_Status r, rc_GasUsed r, CumulativeGasUsed r)) (receipts p) =
        [(11, 0, 21500, 21500); (13, 1, 21000, 42500)] ∧ pr_gp p = 30000000 - 42500 ∧ zlen (systemTxs p) = 1
  | _ => False
  end.
Proof. vm_compute. done. Qed.

Lemma process_block_gas_witness :
  match process_block (BDB := toy_block_db) state_env calls_for parlia_config 1 true tx_evm block_txs with
  | Ret _ p =>
      usedGas p + pr_gp p = GasLimit state_env ∧ 0 <= usedGas p <= GasLimit state_env ∧ usedGas p = gas_of (receipts p) ∧
      (∀ k r, receipts p !! k = Some r → CumulativeGasUsed r = gas_of (take (Datatypes.S k) (receipts p))) ∧
      map rc_TxHash (receipts p) = map tx_Hash (filter (λ tx, is_system true tx = false) block_txs) ∧
      systemTxs p = filter (λ tx, is_system true tx = true) block_txs
  | Fail _ _ => True
  | Panic q => ok_panic q
  | NoFuel => False
  end.
Proof.
  apply (process_block_gas (BDB := toy_block_db) state_env calls_for parlia_config 1 true) with (e := tx_evm).
  - intros msg. assert (EOK : env_ok (Reset state_env msg)) by (apply state_env_ok; destruct state_libraries; by split).
    exact (calls_ok (Reset state_env msg) (RL := state_revert toy_hash (Reset state_env msg) eq_refl) EOK _
      (instructionSet_ok _ EOK Istanbul ltac:(discriminate)) (λ _ _, false) (Z.to_nat 1025) 0 ltac:(vm_compute; congruence)).
  - apply refunds_ok.
  - unfold is_u64. simpl. lia.
  - exact tx_vm_ok.
  - reflexivity.
  - reflexivity.
  - apply Forall_cons. split; [intros msg [= <-]; split; unfold is_u64; simpl; [lia|vm_compute; reflexivity]|].
    apply Forall_cons. split; [intros msg; discriminate|]. apply Forall_cons. split; [|by apply Forall_nil].
    intros msg [= <-]; split; unfold is_u64; simpl; [lia|vm_compute; reflexivity].
Defined.
