(* ===== verification/ForkId.v ===== *)
(** * Fork identifiers ([core/forkid/forkid.go])

    The checksums of passed forks that nodes exchange to recognise their chain
    (EIP-2124), and that validators put into block headers ([NextForkHash]). *)

From Stdlib Require Import Sorted.
From S2P Require Import Prelude Params.

(** ** Checksums *)

(** [hash/crc32] with the IEEE polynomial: one bit, one byte, a slice. *)
Definition crc_bit (c : Z) : Z :=
  if Z.odd c then Z.lxor (Z.shiftr c 1) 0xEDB88320 else Z.shiftr c 1.
Definition crc_byte (c b : Z) : Z := Nat.iter 8 crc_bit (Z.lxor c b).
Definition crc32_Update (crc : Z) (p : bytes) : Z :=
  Z.lxor (fold_left crc_byte p (Z.lxor crc 0xFFFFFFFF)) 0xFFFFFFFF.
Definition ChecksumIEEE (p : bytes) : Z := crc32_Update 0 p.

Definition checksumUpdate (hash fork : Z) : Z := crc32_Update hash (be_encode 8 fork).
(** A [[4]byte], by the integer it spells. *)
Definition checksumToBytes (hash : Z) : bytes := be_encode 4 hash.

(** ** Gathering the forks *)

(** The [*big.Int] fields whose names end in "Block", in the order of the struct. *)
Definition block_fields (c : ChainConfig) : list (option Z) :=
  [HomesteadBlock c; DAOForkBlock c; EIP150Block c; EIP155Block c; EIP158Block c;
   ByzantiumBlock c; ConstantinopleBlock c; PetersburgBlock c; IstanbulBlock c;
   MuirGlacierBlock c; BerlinBlock c; YoloV3Block c; EWASMBlock c; CatalystBlock c;
   RamanujanBlock c; NielsBlock c; MirrorSyncBlock c; BrunoBlock c; EulerBlock c;
   ClassicBlock c].

(** The inner loop of the sort: [x] at position [i] changes places with every smaller
    element of the rest. *)
Fixpoint exchange (x : Z) (l : list Z) : Z * list Z :=
  match l with
  | [] => (x, [])
  | y :: l =>
      if y <? x then let '(m, l) := exchange y l in (m, x :: l)
      else let '(m, l) := exchange x l in (m, y :: l)
  end.
Fixpoint exchange_sort (fuel : nat) (l : list Z) : list Z :=
  match fuel, l with
  | S fuel, x :: l => let '(m, l) := exchange x l in m :: exchange_sort fuel l
  | _, _ => l
  end.

(** The loop that drops an element equal to the one before it. *)
Fixpoint dedup (prev : Z) (l : list Z) : list Z :=
  match l with
  | [] => []
  | x :: l => if x =? prev then dedup prev l else x :: dedup x l
  end.

(** The list sorted, without repetitions and a leading zero. *)
Definition sort_forks (forks : list Z) : list Z :=
  let forks := exchange_sort (length forks) forks in
  let forks := match forks with [] => [] | x :: l => x :: dedup x l end in
  match forks with
  | x :: l => if x =? 0 then l else forks
  | [] => []
  end.

Definition gatherForks (c : ChainConfig) : list Z :=
  sort_forks (map (λ n, u64 (Z.abs n)) (omap id (block_fields c))).

(** Twenty optional fields: nothing is gained by looking into them. *)
#[local] Opaque block_fields.

(** ** Identifiers *)

Record ID := { id_Hash : bytes; id_Next : Z }.

(** The loop shared by [NewID] and [NextForkHash]: the checksum of the passed forks and
    the next one, [0] when there is none. *)
Fixpoint passed (hash : Z) (head : Z) (forks : list Z) {struct forks} : Z * Z :=
  match forks with
  | [] => (hash, 0)
  | fork :: l => if fork <=? head then passed (checksumUpdate hash fork) head l else (hash, fork)
  end.

(** The genesis hash as bytes. *)
Definition genesis_sum (genesis : Hash) : Z := ChecksumIEEE (be_encode 32 genesis).

Definition NewID (c : ChainConfig) (genesis : Hash) (head : Z) : ID :=
  let '(hash, next) := passed (genesis_sum genesis) head (gatherForks c) in
  {| id_Hash := checksumToBytes hash; id_Next := next |}.

Definition NextForkHash (c : ChainConfig) (genesis : Hash) (head : Z) : bytes :=
  let '(hash, next) := passed (genesis_sum genesis) head (gatherForks c) in
  if next =? 0 then checksumToBytes hash else checksumToBytes (checksumUpdate hash next).

(** ** The filter *)

Inductive forkid_error := ErrRemoteStale | ErrLocalIncompatibleOrStale.

(** [sums]: the checksum after each prefix of the forks. *)
Fixpoint checksums (hash : Z) (forks : list Z) {struct forks} : list bytes :=
  checksumToBytes hash ::
  match forks with [] => [] | fork :: l => checksums (checksumUpdate hash fork) l end.

(** Rule 2: the remote is at an earlier fork; [None] is no match. *)
Fixpoint subset_rule (i : nat) (sums : list bytes) (forks : list Z) (id : ID) :
    option (option forkid_error) :=
  match i, sums, forks with
  | S i, s :: sums, f :: forks =>
      if bool_decide (s = id_Hash id) then
        Some (if f =? id_Next id then None else Some ErrRemoteStale)
      else subset_rule i sums forks id
  | _, _, _ => None
  end.

(** The loop over the forks, from index [i]; [None] accepts. *)
Fixpoint filter_loop (i : nat) (rest : list Z) (sums : list bytes) (forks : list Z)
    (head : Z) (id : ID) : option forkid_error :=
  match rest with
  | [] => None
  | fork :: rest =>
      if fork <? head then filter_loop (S i) rest sums forks head id
      else if bool_decide (sums !! i = Some (id_Hash id)) then
        if (0 <? id_Next id) && (id_Next id <=? head) then Some ErrLocalIncompatibleOrStale
        else None
      else
        match subset_rule i sums forks id with
        | Some r => r
        | None =>
            if bool_decide (id_Hash id ∈ drop (S i) sums) then None
            else Some ErrLocalIncompatibleOrStale
        end
  end.

Definition newFilter (c : ChainConfig) (genesis : Hash) (head : Z) (id : ID) : option forkid_error :=
  let forks := gatherForks c in
  let sums := checksums (genesis_sum genesis) forks in
  let forks := forks ++ [MaxUint64] in
  filter_loop 0 forks sums forks head id.

(** ** The gathered forks are sorted *)

Lemma exchange_spec x l m l' : exchange x l = (m, l') →
  m :: l' ≡ₚ x :: l ∧ Forall (λ y, m <= y) l'.
Proof.
  revert x m l'. induction l as [|y l IH]; intros x m l'; simpl; [by intros [= <- <-]|].
  destruct (Z.ltb_spec y x).
  - destruct (exchange y l) as [m0 l0] eqn:E. intros [= <- <-]. apply IH in E as [Hp Hf].
    split; [|].
    + rewrite Permutation_swap, Hp. by rewrite Permutation_swap.
    + constructor; [|done]. assert (m0 ∈ m0 :: l0) as Hm by constructor.
      rewrite Hp in Hm. assert (∀ z, z ∈ y :: l → m0 <= z) as Hall; [|specialize (Hall y ltac:(constructor)); lia].
      intros z Hz. rewrite <- Hp in Hz. apply elem_of_cons in Hz as [->|Hz]; [lia|].
      rewrite Forall_forall in Hf. by apply Hf.
  - destruct (exchange x l) as [m0 l0] eqn:E. intros [= <- <-]. apply IH in E as [Hp Hf].
    split.
    + rewrite Permutation_swap, Hp. by rewrite Permutation_swap.
    + constructor; [|done]. assert (∀ z, z ∈ x :: l → m0 <= z) as Hall; [|specialize (Hall x ltac:(constructor)); lia].
      intros z Hz. rewrite <- Hp in Hz. apply elem_of_cons in Hz as [->|Hz]; [lia|].
      rewrite Forall_forall in Hf. by apply Hf.
Qed.

(** Strictly increasing above a bound. *)
Fixpoint increasing (lo : Z) (l : list Z) : Prop :=
  match l with [] => True | x :: l => lo < x ∧ increasing x l end.
Fixpoint nondecreasing (lo : Z) (l : list Z) : Prop :=
  match l with [] => True | x :: l => lo <= x ∧ nondecreasing x l end.

Lemma exchange_sort_spec n l : (length l <= n)%nat →
  exchange_sort n l ≡ₚ l ∧ ∀ lo, Forall (λ y, lo <= y) l → nondecreasing lo (exchange_sort n l).
Proof.
  revert l. induction n as [|n IH]; intros [|x l] Hl; simpl in *; try done; [lia|].
  destruct (exchange x l) as [m l'] eqn:E. pose proof (exchange_spec _ _ _ _ E) as [Hp Hf].
  assert (Hlen : length l' = length l).
  { apply Permutation_length in Hp. simpl in Hp. lia. }
  destruct (IH l') as [Hp' Hs]; [lia|]. split.
  - by rewrite Hp', Hp.
  - intros lo Hlo. rewrite <- Hp in Hlo. inversion_clear Hlo. split; [done|]. by apply Hs.
Qed.

Lemma dedup_spec prev l : nondecreasing prev l →
  increasing prev (dedup prev l) ∧ ∀ x, x ∈ dedup prev l ↔ x ∈ l ∧ x ≠ prev.
Proof.
  revert prev. induction l as [|y l IH]; intros prev; simpl.
  { intros _. split; [done|]. intros x. rewrite elem_of_nil. naive_solver. }
  intros [Hy Hl]. destruct (Z.eqb_spec y prev) as [->|Hne].
  - destruct (IH prev Hl) as [Hi He]. split; [done|]. intros x. rewrite He, elem_of_cons. naive_solver.
  - destruct (IH y Hl) as [Hi He]. split; [split; [lia|done]|]. intros x.
    rewrite !elem_of_cons, He. split; [|destruct (Z.eq_dec x y); naive_solver].
    intros [->|[Hx Hxy]]; [naive_solver|]. split; [by right|].
    assert (∀ z, z ∈ l → y <= z) as Hall; [|specialize (Hall x Hx); lia].
    clear -Hl. revert y Hl. induction l as [|w l IH]; intros y Hl z Hz; [by apply not_elem_of_nil in Hz|].
    destruct Hl as [Hw Hl]. apply elem_of_cons in Hz as [->|Hz]; [done|]. specialize (IH w Hl z Hz). lia.
Qed.

Lemma increasing_weaken lo lo' l : lo <= lo' → increasing lo' l → increasing lo l.
Proof. destruct l; simpl; [done|]. intros ? [? ?]. split; [lia|done]. Qed.

Lemma increasing_lt lo l x : increasing lo l → x ∈ l → lo < x.
Proof.
  revert lo. induction l as [|y l IH]; intros lo Hl Hx; [by apply not_elem_of_nil in Hx|].
  destruct Hl as [Hy Hl]. apply elem_of_cons in Hx as [->|Hx]; [done|].
  specialize (IH y Hl Hx). lia.
Qed.

Lemma sort_forks_spec l : Forall (λ y, 0 <= y) l →
  increasing 0 (sort_forks l) ∧ ∀ x, x ∈ sort_forks l ↔ x ≠ 0 ∧ x ∈ l.
Proof.
  intros Hpos. unfold sort_forks. destruct (exchange_sort_spec (length l) l) as [Hp Hs]; [done|]. specialize (Hs 0 Hpos).
  assert (Hin : ∀ x, x ∈ l ↔ x ∈ exchange_sort (length l) l) by (intros x; by rewrite Hp).
  cbv zeta. setoid_rewrite Hin. clear Hin Hp Hpos.
  destruct (exchange_sort (length l) l) as [|x k]; cbv zeta beta iota.
  { split; [done|]. intros y. split; [by intros ?%not_elem_of_nil|by intros [_ ?%not_elem_of_nil]]. }
  destruct Hs as [Hx Hk]. destruct (dedup_spec x k Hk) as [Hi He].
  destruct (Z.eqb_spec x 0) as [->|Hne].
  - split; [done|]. intros y. rewrite He, elem_of_cons. split; [intros [? ?]; auto|].
    intros [? [?|?]]; [done|auto].
  - split; [split; [lia|done]|]. intros y. rewrite !elem_of_cons, He. split.
    + intros [->|[Hy Hyx]]; [auto|]. split; [|by right].
      assert (x < y); [|lia]. apply (increasing_lt x (dedup x k)); [done|]. by apply He.
    + intros [Hy0 [->|Hy]]; [by left|]. destruct (Z.eq_dec y x) as [->|?]; [by left|by right].
Qed.

Lemma gatherForks_spec c :
  increasing 0 (gatherForks c) ∧
  ∀ x, x ∈ gatherForks c ↔ x ≠ 0 ∧ ∃ n, Some n ∈ block_fields c ∧ x = u64 (Z.abs n).
Proof.
  assert (Hl : ∀ x, x ∈ map (λ n, u64 (Z.abs n)) (omap id (block_fields c)) ↔
                    ∃ n, Some n ∈ block_fields c ∧ x = u64 (Z.abs n)).
  { intros x. change (map ?f ?k) with (f <$> k). rewrite list_elem_of_fmap. generalize (block_fields c). intros bs. split.
    - intros (n & -> & (o & Ho & Hn)%list_elem_of_omap). exists n. split; [|done]. by simpl in Hn; subst.
    - intros (n & Hn & ->). exists n. split; [done|]. apply list_elem_of_omap. by exists (Some n). }
  setoid_rewrite <- Hl. apply sort_forks_spec. apply Forall_forall.
  intros x (n & _ & ->)%Hl. apply u64_range.
Qed.

(** ** Identifiers and filters of one chain *)

(** The number of leading forks a height has passed, and how [passed] and [filter_loop]
    cut the list of forks there. *)
Definition passed_count (head : Z) (forks : list Z) : nat := length (base.filter (λ f, f <= head) forks).

Lemma increasing_filter lo l head : increasing lo l →
  base.filter (λ f, f <= head) l = take (passed_count head l) l ∧
  Forall (λ f, head < f) (drop (passed_count head l) l).
Proof.
  unfold passed_count. revert lo. induction l as [|x l IH]; intros lo; [done|]. intros [Hx Hl].
  destruct (decide (x <= head)) as [Hle|Hgt].
  - rewrite filter_cons_True by done. simpl. destruct (IH x Hl) as [He Hd].
    split; [congruence|done].
  - rewrite filter_cons_False by done.
    assert (Hall : Forall (λ f, head < f) (x :: l)).
    { constructor; [lia|]. apply Forall_forall. intros y Hy.
      pose proof (increasing_lt x l y Hl Hy). lia. }
    assert (He : base.filter (λ f, f <= head) l = []).
    { apply Forall_cons in Hall as [_ Hall]. clear -Hall.
      induction Hall; [done|]. rewrite filter_cons_False by lia. done. }
    by rewrite He.
Qed.

Lemma length_checksums hash l : length (checksums hash l) = S (length l).
Proof. revert hash. induction l; intros hash; simpl; [done|]. by rewrite IHl. Qed.

Lemma passed_at lo hash head l : increasing lo l →
  checksums hash l !! passed_count head l = Some (checksumToBytes (passed hash head l).1) ∧
  (passed hash head l).2 = default 0 (l !! passed_count head l).
Proof.
  unfold passed_count. revert lo hash. induction l as [|x l IH]; intros lo hash; [done|].
  intros [Hx Hl]. cbn [passed]. destruct (Z.leb_spec x head) as [Hle|Hgt].
  - rewrite filter_cons_True by done. cbn [length checksums].
    destruct (IH x (checksumUpdate hash x) Hl) as [Hc Hn]. split; [exact Hc|exact Hn].
  - assert (He : base.filter (λ f, f <= head) (x :: l) = []).
    { rewrite filter_cons_False by lia.
      assert (Hall : ∀ y, y ∈ l → head < y).
      { intros y Hy. pose proof (increasing_lt x l y Hl Hy). lia. }
      clear -Hall. induction l as [|y l IH]; [done|].
      pose proof (Hall y ltac:(constructor)). rewrite filter_cons_False by lia.
      apply IH. intros z Hz. apply Hall. by constructor. }
    rewrite He. split; reflexivity.
Qed.

Lemma filter_loop_skip i pre x rest sums forks head id :
  Forall (λ f, f < head) pre → head <= x →
  filter_loop i (pre ++ x :: rest) sums forks head id =
  filter_loop (i + length pre) (x :: rest) sums forks head id.
Proof.
  intros Hpre Hx. revert i. induction Hpre as [|f pre Hf _ IH]; intros i; simpl.
  - by rewrite Nat.add_0_r.
  - rewrite (proj2 (Z.ltb_lt f head)) by done. rewrite IH. simpl. by rewrite Nat.add_succ_r.
Qed.

(** Rule 2 looks at the checksums before index [i]; with distinct checksums it compares the
    fork that follows the one that matches. *)
Lemma subset_rule_at i k sums forks id :
  NoDup sums → (k < i)%nat → (i <= length forks)%nat → sums !! k = Some (id_Hash id) →
  subset_rule i sums forks id =
  Some (if decide (forks !! k = Some (id_Next id)) then None else Some ErrRemoteStale).
Proof.
  revert k sums forks. induction i as [|i IH]; intros k [|s sums] [|f forks] Hnd Hk Hl Hs;
    simpl in *; try lia; [done|].
  apply NoDup_cons in Hnd as [Hn Hnd]. destruct k as [|k]; simpl in *.
  - injection Hs as ->. rewrite bool_decide_true by done. f_equal.
    destruct (Z.eqb_spec f (id_Next id)) as [->|Hne]; [by rewrite decide_True|].
    rewrite decide_False; congruence.
  - rewrite bool_decide_false. { apply IH; [done|lia..|done]. }
    intros ->. apply Hn. by eapply list_elem_of_lookup_2.
Qed.

Lemma subset_rule_none i sums forks id :
  (∀ k, (k < i)%nat → sums !! k ≠ Some (id_Hash id)) → subset_rule i sums forks id = None.
Proof.
  revert sums forks. induction i as [|i IH]; intros [|s sums] [|f forks] H; try done; simpl.
  rewrite bool_decide_false.
  - apply IH. intros k Hk. apply (H (S k)). lia.
  - intros ->. apply (H 0%nat); [lia|done].
Qed.

(** The four rules of EIP-2124 for a node that has passed [n] of its forks and a remote
    checksum that stands at [k] among the local ones: (1) the same state, unless the remote
    announces a fork the local head has passed; (2) the remote is behind and announces the
    fork that follows; (3) the remote is ahead; (4) reject in all other cases. *)
Definition verdict (head : Z) (forks : list Z) (n : nat) (id : ID) (k : option nat) : option forkid_error :=
  match k with
  | None => Some ErrLocalIncompatibleOrStale
  | Some k =>
      if decide (k = n) then
        if (0 <? id_Next id) && (id_Next id <=? head) then Some ErrLocalIncompatibleOrStale else None
      else if decide (k < n)%nat then
        if decide (forks !! k = Some (id_Next id)) then None else Some ErrRemoteStale
      else None
  end.

(** The forks strictly below a head: where the loop of the filter stops. *)
Definition below_count (head : Z) (forks : list Z) : nat := passed_count (head - 1) forks.

Lemma filter_stops c genesis head id : head <= MaxUint64 →
  let forks := gatherForks c in
  let n := below_count head forks in
  let sums := checksums (genesis_sum genesis) forks in
  newFilter c genesis head id =
  (if bool_decide (sums !! n = Some (id_Hash id)) then
     if (0 <? id_Next id) && (id_Next id <=? head) then Some ErrLocalIncompatibleOrStale else None
   else match subset_rule n sums (forks ++ [MaxUint64]) id with
        | Some r => r
        | None => if bool_decide (id_Hash id ∈ drop (S n) sums) then None
                  else Some ErrLocalIncompatibleOrStale
        end).
Proof.
  intros Hhead forks n sums. unfold newFilter. fold forks sums.
  destruct (gatherForks_spec c) as [Hinc _]. fold forks in Hinc.
  destruct (increasing_filter 0 forks (head - 1) Hinc) as [Ht Hd].
  assert (Hlow : Forall (λ f, f < head) (take n forks)).
  { unfold n, below_count. rewrite <- Ht. apply Forall_forall. intros x [Hx _]%list_elem_of_filter. lia. }
  assert (Hn : length (take n forks) = n).
  { unfold n, below_count. rewrite <- Ht. done. }
  fold (below_count head forks) in Hd. fold n in Hd.
  assert (Hsplit : ∃ x rest, drop n forks ++ [MaxUint64] = x :: rest ∧ head <= x).
  { destruct (drop n forks) as [|x l]; simpl; [by eexists _, _|].
    inversion_clear Hd. eexists _, _. split; [done|lia]. }
  destruct Hsplit as (x & rest & He & Hx).
  rewrite <- (take_drop n forks) at 1. rewrite <- app_assoc, He.
  rewrite filter_loop_skip by done. rewrite Hn. simpl.
  rewrite (proj2 (Z.ltb_ge x head)) by done. done.
Qed.

(** ** Properties *)

(** The forks of a configuration come out strictly increasing, so without repetition,
    and are exactly the non-zero [uint64] values of its fork fields. *)
Theorem gatherForks_sorted (c : ChainConfig) :
  StronglySorted Z.lt (gatherForks c) ∧
  ∀ x, x ∈ gatherForks c ↔ x ≠ 0 ∧ ∃ n, Some n ∈ block_fields c ∧ x = u64 (Z.abs n).
Proof.
  destruct (gatherForks_spec c) as [Hinc Hin]. split; [|exact Hin]. clear Hin.
  revert Hinc. generalize 0. induction (gatherForks c) as [|x l IH]; intros lo; [constructor|].
  intros [_ Hl]. constructor; [exact (IH _ Hl)|]. apply Forall_forall. intros y Hy.
  exact (increasing_lt x l y Hl Hy).
Qed.

(** The filter keeps to the rules for a node that has passed the forks strictly below its
    head. *)
Lemma filter_verdict (c : ChainConfig) (genesis : Hash) (head : Z) (id : ID) :
  head <= MaxUint64 →
  let sums := checksums (genesis_sum genesis) (gatherForks c) in
  NoDup sums →
  newFilter c genesis head id =
  verdict head (gatherForks c) (below_count head (gatherForks c)) id
    (fst <$> list_find (λ s, s = id_Hash id) sums).
Proof.
  intros Hhead sums Hnd. rewrite filter_stops by done. fold sums.
  set (forks := gatherForks c) in *. set (n := below_count head forks).
  assert (Hn : (n <= length forks)%nat).
  { unfold n, below_count, passed_count. apply length_filter. }
  destruct (list_find _ sums) as [[k s]|] eqn:Hf; cbn [fmap option_fmap option_map fst verdict].
  - apply list_find_Some in Hf as (Hk & -> & _).
    assert (Hat : ∀ j, sums !! j = Some (id_Hash id) → j = k).
    { intros j Hj. exact (NoDup_lookup sums j k (id_Hash id) Hnd Hj Hk). }
    assert (Hkl : (k <= length forks)%nat).
    { apply lookup_lt_Some in Hk. unfold sums in Hk. rewrite length_checksums in Hk. lia. }
    destruct (decide (k = n)) as [->|Hne]; [by rewrite bool_decide_true|].
    rewrite bool_decide_false by (intros E; by apply Hne; symmetry; apply Hat).
    destruct (decide (k < n)%nat) as [Hlt|Hge].
    + rewrite (subset_rule_at n k) by (done || (rewrite ?length_app; simpl; lia)).
      rewrite lookup_app_l by lia. done.
    + rewrite subset_rule_none by (intros j Hj E; specialize (Hat j E); lia).
      rewrite bool_decide_true; [done|]. apply list_elem_of_lookup. exists (k - S n)%nat.
      rewrite lookup_drop. replace (S n + (k - S n))%nat with k by lia. done.
  - assert (Hno : ∀ j, sums !! j ≠ Some (id_Hash id)).
    { apply list_find_None in Hf. intros j Hj. rewrite Forall_lookup in Hf. by eapply Hf. }
    rewrite bool_decide_false by done. rewrite subset_rule_none by done.
    rewrite bool_decide_false; [done|]. intros (j & Hj)%list_elem_of_lookup.
    rewrite lookup_drop in Hj. by apply (Hno (S n + j)%nat).
Qed.

(** A fork at the head is passed, but not below it. *)
Lemma passed_below lo head l : increasing lo l →
  passed_count head l = if decide (head ∈ l) then S (below_count head l) else below_count head l.
Proof.
  unfold below_count, passed_count. revert lo. induction l as [|x l IH]; intros lo; [done|]. intros [Hx Hl].
  specialize (IH x Hl). destruct (Z.lt_trichotomy x head) as [Hlt|[->|Hgt]].
  - rewrite !filter_cons_True by lia. cbn [length]. rewrite IH.
    destruct (decide (head ∈ l)) as [Hin|Hin]; [rewrite decide_True by (by right); done|].
    rewrite decide_False; [done|]. intros [->|?]%elem_of_cons; [lia|done].
  - rewrite decide_True by left. rewrite filter_cons_True, filter_cons_False by lia. cbn [length]. f_equal.
    rewrite IH, decide_False; [done|]. intros Hin. pose proof (increasing_lt _ _ _ Hl Hin). lia.
  - rewrite !filter_cons_False by lia. rewrite IH.
    assert (¬ head ∈ l) by (intros Hin; pose proof (increasing_lt _ _ _ Hl Hin); lia).
    rewrite !decide_False; [done| |done]. intros [->|?]%elem_of_cons; [lia|done].
Qed.

(** C35 Provided the checksums of the configuration are distinct, the filter decides by the
    four rules of EIP-2124 for a node that has passed the forks up to its head - the state
    [NewID] announces for it - unless the head is itself the block of a fork: then it decides
    as if that last fork had not been passed. *)
Theorem newFilter_verdict (c : ChainConfig) (genesis : Hash) (head : Z) (id : ID) :
  head <= MaxUint64 →
  let forks := gatherForks c in
  let sums := checksums (genesis_sum genesis) forks in
  NoDup sums →
  let n := passed_count head forks in
  let place := fst <$> list_find (λ s, s = id_Hash id) sums in
  sums !! n = Some (id_Hash (NewID c genesis head)) ∧
  (head ∉ forks → newFilter c genesis head id = verdict head forks n id place) ∧
  (head ∈ forks → newFilter c genesis head id = verdict head forks (n - 1) id place).
Proof.
  intros Hhead forks sums Hnd n place. destruct (gatherForks_spec c) as [Hinc _].
  pose proof (filter_verdict c genesis head id Hhead Hnd) as Hf. cbv zeta in Hf. fold forks sums place in Hf.
  pose proof (passed_below 0 head forks Hinc) as Hn. fold n in Hn. rewrite Hf. split; [|split].
  - destruct (passed_at 0 (genesis_sum genesis) head forks Hinc) as [Hs _]. unfold NewID. fold forks.
    by destruct (passed (genesis_sum genesis) head forks).
  - intros Hin. by rewrite Hn, decide_False.
  - intros Hin. rewrite Hn, decide_True by done. f_equal. lia.
Qed.

(** C39 Nodes of one chain, whose configuration has distinct checksums, accept each other
    whatever their heads, as long as the local head is not itself the block of a fork. *)
Theorem same_chain_peers_connect (c : ChainConfig) (genesis : Hash) (head remote : Z) :
  head <= MaxUint64 → head ∉ gatherForks c →
  NoDup (checksums (genesis_sum genesis) (gatherForks c)) →
  newFilter c genesis head (NewID c genesis remote) = None.
Proof.
  intros Hhead Hnot Hnd. rewrite filter_verdict by done.
  destruct (gatherForks_spec c) as [Hinc _].
  set (forks := gatherForks c) in *. set (sums := checksums (genesis_sum genesis) forks) in *.
  destruct (passed_at 0 (genesis_sum genesis) remote forks Hinc) as [Hs Hnext].
  destruct (increasing_filter 0 forks (head - 1) Hinc) as [_ Hd].
  destruct (increasing_filter 0 forks remote Hinc) as [_ Hr].
  unfold NewID. fold forks. destruct (passed (genesis_sum genesis) remote forks) as [hash next].
  cbn [id_Hash id_Next fst snd] in *. fold sums in Hs.
  set (k := passed_count remote forks) in *. fold (below_count head forks) in Hd.
  set (n := below_count head forks) in *.
  assert (Hf : list_find (λ s, s = checksumToBytes hash) sums = Some (k, checksumToBytes hash)).
  { apply list_find_Some. split; [done|]. split; [done|]. intros j y Hj Hlt ->.
    pose proof (NoDup_lookup sums j k (checksumToBytes hash) Hnd Hj Hs). lia. }
  rewrite Hf. cbn [fmap option_fmap option_map fst verdict].
  assert (Hdrop : ∀ m, m ∈ drop n forks → head < m).
  { intros m Hm. assert (head - 1 < m) by (rewrite Forall_forall in Hd; by apply Hd).
    assert (m ≠ head); [|lia]. intros ->. apply Hnot. eapply subseteq_drop, Hm. }
  destruct (decide (k = n)) as [Heq|Hne].
  - destruct (forks !! k) as [f|] eqn:Hk; simpl in Hnext; subst next; [|done].
    assert (head < f); [|cbn [id_Next]; by rewrite (proj2 (Z.leb_gt f head)), andb_false_r by done].
    apply Hdrop. apply list_elem_of_lookup. exists 0%nat. rewrite lookup_drop, Nat.add_0_r.
    by rewrite <- Heq.
  - destruct (decide (k < n)%nat) as [Hlt|]; [|done].
    assert (Hkn : (k < length forks)%nat).
    { assert (n <= length forks)%nat; [|lia]. unfold n, below_count, passed_count. apply length_filter. }
    destruct (lookup_lt_is_Some_2 forks k Hkn) as [f Hk]. rewrite Hk in Hnext. simpl in Hnext.
    subst next. by rewrite decide_True.
Qed.

(** A local head that is exactly the block of a fork, as the comparison [head > fork] of the
    filter treats it: [NewID] counts the fork as passed, the filter does not, and a peer of
    the same chain that has not reached it is turned away. *)
Theorem fork_block_head_rejects_peer :
  let c := toy_config (Some 100) in
  gatherForks c = [5; 100] ∧
  newFilter c 7 100 (NewID c 7 99) = Some ErrLocalIncompatibleOrStale ∧
  newFilter c 7 101 (NewID c 7 99) = None ∧ newFilter c 7 99 (NewID c 7 99) = None.
Proof. vm_compute. auto. Qed.

(** ** Instances *)

Lemma toy_checksums :
  NoDup (checksums (genesis_sum 7) (gatherForks (toy_config (Some 100)))).
Proof. apply (bool_decide_unpack _). vm_compute. exact I. Qed.

Lemma newFilter_verdict_witness :
  newFilter (toy_config (Some 100)) 7 50 {| id_Hash := [1; 2; 3; 4]; id_Next := 0 |} =
    Some ErrLocalIncompatibleOrStale ∧
  newFilter (toy_config (Some 100)) 7 100 (NewID (toy_config (Some 100)) 7 99) = Some ErrLocalIncompatibleOrStale.
Proof.
  assert (H50 : 50 ∉ gatherForks (toy_config (Some 100))) by (apply (bool_decide_unpack _); vm_compute; exact I).
  assert (H100 : 100 ∈ gatherForks (toy_config (Some 100))) by (apply (bool_decide_unpack _); vm_compute; exact I).
  split.
  - destruct (newFilter_verdict (toy_config (Some 100)) 7 50 {| id_Hash := [1; 2; 3; 4]; id_Next := 0 |}
      ltac:(unfold MaxUint64; lia) toy_checksums) as (_ & H & _). rewrite H by exact H50. vm_compute. reflexivity.
  - destruct (newFilter_verdict (toy_config (Some 100)) 7 100 (NewID (toy_config (Some 100)) 7 99)
      ltac:(unfold MaxUint64; lia) toy_checksums) as (_ & _ & H). rewrite H by exact H100. vm_compute. reflexivity.
Defined.

Lemma same_chain_peers_connect_witness :
  newFilter (toy_config (Some 100)) 7 50 (NewID (toy_config (Some 100)) 7 120) = None.
Proof.
  apply (same_chain_peers_connect (toy_config (Some 100)) 7 50 120).
  - unfold MaxUint64. lia.
  - apply (bool_decide_unpack _). vm_compute. exact I.
  - exact toy_checksums.
Defined.

(** The check value of CRC-32, and the checksum the tests of the package give for the
    genesis block of Ethereum's main network ([0xfc64ec04]). *)
Example ChecksumIEEE_check : ChecksumIEEE [49; 50; 51; 52; 53; 54; 55; 56; 57] = 0xCBF43926.
Proof. vm_compute. reflexivity. Qed.

Example genesis_sum_mainnet :
  genesis_sum 0xd4e56740f876aef8c010b86a40d5f56745a118d0906a34e69aec8c0db1cb8fa3 = 0xfc64ec04.
Proof. vm_compute. reflexivity. Qed.
