(* ===== verification/ParliaSnapshot.v ===== *)
(** * Authorization snapshots ([consensus/parlia/snapshot.go])

    The validator set and the recent signers at a block, and how a header moves them
    on.  The signature cache, the key-value store and the chain of headers are
    parameters; the engine's mutable state is threaded through the monad [PM]. *)

From stdpp Require Import sorting.
From S2P Require Import Prelude Rlp Header Hexutil Params.

(** ** Errors *)

Inductive parlia_error :=
| errUnknownBlock | errMissingVanity | errMissingSignature | errExtraValidators
| errInvalidSpanValidators | errInvalidMixDigest | errInvalidUncleHash
| errMismatchingEpochValidators | errInvalidDifficulty | errWrongDifficulty
| errOutOfRangeChain | errBlockHashInconsistent | errUnauthorizedValidator
| errCoinBaseMisMatch | errRecentlySigned
| ErrUnknownAncestor | ErrFutureBlock      (* package consensus *)
| errForkHash                              (* misc.VerifyForkHashes *)
| errInvalidValidatorsBytes                (* ParseValidators *)
| errGasLimitCapacity | errGasUsed | errGasLimitBounds
| errEcrecover                             (* crypto.Ecrecover *)
| errSign                                  (* SignerFn *)
| errDatabase | errContractCall | errUncles.

#[export] Instance parlia_error_eq_dec : EqDecision parlia_error.
Proof. solve_decision. Defined.

(** ** Data *)

Record Snapshot := {
  sconfig : ParliaConfig;
  snap_Number : Z;
  snap_Hash : Hash;
  Validators : gset Address;
  Recents : gmap Z Address;
  RecentForkHashes : gmap Z bytes;
}.

(** [hashicorp/golang-lru]: a cache keyed by hash.  [Get] may reorder the cache. *)
Class Cache (V C : Type) := {
  cache_get : Hash → C → option V * C;
  cache_add : Hash → V → C → C;
}.

(** [ethdb.Database], as far as the engine uses it; [None] is an error. *)
Class KeyValue (D : Type) := {
  kv_Get : bytes → D → option bytes;
  kv_Put : bytes → bytes → D → option D;
}.

(** [consensus.ChainHeaderReader]; [None] is a nil header. *)
Record ChainHeaderReader := {
  chain_Config : ChainConfig;
  CurrentHeader : option Header;
  GetHeader : Hash → Z → option Header;
  GetHeaderByNumber : Z → option Header;
  GetHeaderByHash : Hash → option Header;
  GetHighestVerifiedHeader : option Header;
}.

(** The mutable part of the engine. *)
Record pstate (SC RC D : Type) := {
  signatures : SC;
  recentSnaps : RC;
  db : D;
}.
Arguments signatures {SC RC D}. Arguments recentSnaps {SC RC D}. Arguments db {SC RC D}.
Arguments Build_pstate {SC RC D}.

(** ** The validator set *)

Definition newSnapshot (config : ParliaConfig) (number : Z) (hash : Hash)
    (validators : list Address) : Snapshot := {|
  sconfig := config; snap_Number := number; snap_Hash := hash;
  Validators := list_to_set validators; Recents := ∅; RecentForkHashes := ∅ |}.

Definition zsize {A} `{Countable A} (s : gset A) : Z := Z.of_nat (size s).

(** [validators]: the set in ascending order; [sort.Sort] on distinct addresses has one
    result, whatever order the map is ranged over in. *)
Definition validators (s : Snapshot) : list Address := merge_sort Z.le (elements (Validators s)).

(** [None] is the division by zero on an empty set. *)
Definition inturn (s : Snapshot) (validator : Address) : option bool :=
  let vs := validators s in
  if zlen vs =? 0 then None
  else
    let offset := add64 (snap_Number s) 1 mod zlen vs in
    v ← index vs offset; Some (v =? validator).

Definition supposeValidator (s : Snapshot) : option Address :=
  let vs := validators s in
  if zlen vs =? 0 then None
  else index vs (add64 (snap_Number s) 1 mod zlen vs).

Fixpoint indexOf_loop (validator : Address) (idx : Z) (l : list Address) : Z :=
  match l with
  | [] => -1
  | val :: l => if val =? validator then idx else indexOf_loop validator (idx + 1) l
  end.
Definition indexOfVal (s : Snapshot) (validator : Address) : Z :=
  indexOf_loop validator 0 (validators s).

(** Go's [%] on [int64] truncates towards zero. *)
Definition enoughDistance (s : Snapshot) (validator : Address) (header : Header) : bool :=
  let idx := indexOfVal s validator in
  if idx <? 0 then true
  else
    let validatorNum := zlen (validators s) in
    if validatorNum =? 1 then true
    else if validator =? Coinbase header then false
    else
      let offset := Z.rem (s64 (s64 (snap_Number s) + 1)) validatorNum in
      if offset <=? idx then validatorNum - 2 <=? idx - offset
      else validatorNum - 2 <=? validatorNum + idx - offset.

Definition isMajorityFork (s : Snapshot) (forkHash : bytes) : bool :=
  let ally := zlen (filter (λ p, p.2 = forkHash) (map_to_list (RecentForkHashes s))) in
  zlen (map_to_list (RecentForkHashes s)) / 2 <? ally.

(** [common.BytesToAddress] keeps the last twenty bytes. *)
Definition BytesToAddress (b : bytes) : Address :=
  let b := if AddressLength <? zlen b then drop (Z.to_nat (zlen b - AddressLength)) b else b in
  be_decode b.

(** The loop of [ParseValidators] over the remaining [n] entries. *)
Fixpoint parse_loop (n : nat) (b : bytes) : list Address :=
  match n with
  | O => []
  | S n => BytesToAddress (take 20 b) :: parse_loop n (drop 20 b)
  end.
Definition ParseValidators (validatorsBytes : bytes) : option (list Address) :=
  if negb (zlen validatorsBytes mod validatorBytesLength =? 0) then None
  else Some (parse_loop (Z.to_nat (zlen validatorsBytes / validatorBytesLength)) validatorsBytes).

(** ** Lookups *)

(** [sort.Search] on [[i, j)]; [None] is a panic of [f]. *)
Fixpoint Search_loop (fuel : nat) (f : Z → option bool) (i j : Z) : option Z :=
  match fuel with
  | O => None
  | S fuel =>
      if i <? j then
        let h := (i + j) / 2 in
        b ← f h;
        if b : bool then Search_loop fuel f i h else Search_loop fuel f (h + 1) j
      else Some i
  end.
(** The interval shrinks in every turn. *)
Definition sort_Search (n : Z) (f : Z → option bool) : option Z :=
  Search_loop (S (Z.to_nat n)) f 0 n.

(** [m] has the value [v]: the [range] loops that only look for it. *)
Definition has_value (m : gmap Z Address) (v : Address) : bool :=
  existsb (λ p, p.2 =? v) (map_to_list m).

(** [delete(m, number - newLimit - i)] for [i] below [n]. *)
Fixpoint delete_range {A} (n : nat) (from : Z) (m : gmap Z A) : gmap Z A :=
  match n with
  | O => m
  | S n => delete_range n (sub64 from 1) (delete from m)
  end.

Definition set_recents (s : Snapshot) (r : gmap Z Address) : Snapshot := {|
  sconfig := sconfig s; snap_Number := snap_Number s; snap_Hash := snap_Hash s;
  Validators := Validators s; Recents := r; RecentForkHashes := RecentForkHashes s |}.
Definition set_forks (s : Snapshot) (f : gmap Z bytes) : Snapshot := {|
  sconfig := sconfig s; snap_Number := snap_Number s; snap_Hash := snap_Hash s;
  Validators := Validators s; Recents := Recents s; RecentForkHashes := f |}.

(** The oldest signer and fork hash leave the window before [number] is looked at. *)
Definition shift_out (number : Z) (s : Snapshot) : Snapshot :=
  let limit := zsize (Validators s) / 2 + 1 in
  let s := if limit <=? number then set_recents s (delete (sub64 number limit) (Recents s)) else s in
  let limit := zsize (Validators s) in
  if limit <=? number then set_forks s (delete (sub64 number limit) (RecentForkHashes s)) else s.

(** The new set, with the windows of recent signers and fork hashes cut down to it. *)
Definition switch_validators (number : Z) (newVals : gset Address) (s : Snapshot) : Snapshot :=
  let oldLimit := zsize (Validators s) / 2 + 1 in
  let newLimit := zsize newVals / 2 + 1 in
  {| sconfig := sconfig s; snap_Number := snap_Number s; snap_Hash := snap_Hash s;
     Validators := newVals;
     Recents := delete_range (Z.to_nat (oldLimit - newLimit)) (sub64 number newLimit) (Recents s);
     RecentForkHashes :=
       delete_range (Z.to_nat (zsize (Validators s) - zsize newVals))
         (sub64 number (zsize newVals)) (RecentForkHashes s) |}.

Section snapshot.
Context {SC RC D : Type} `{Cache Address SC}.
(** [sha3.NewLegacyKeccak256] and [crypto.Ecrecover] (the public key, or an error). *)
Variable Keccak256 : bytes → Hash.
Variable crypto_Ecrecover : bytes → bytes → option bytes.

Definition PM (A : Type) : Type := M parlia_error (pstate SC RC D) A.

Definition sig_get (h : Hash) : PM (option Address) := λ st,
  let '(o, c) := cache_get h (signatures st) in
  Ret o (Build_pstate c (recentSnaps st) (db st)).
Definition sig_add (h : Hash) (a : Address) : PM unit :=
  modify (λ st, Build_pstate (cache_add h a (signatures st)) (recentSnaps st) (db st)).

Definition header_number (h : Header) : PM Z := or_panic PNil (Number_Uint64 h).

(** The address of a public key: the last twenty bytes of its hash. *)
Definition signer_of (pubkey : bytes) : option Address :=
  k ← slice pubkey 1 (zlen pubkey); Some (Keccak256 k mod 2 ^ 160).

Definition ecrecover (header : Header) (chainId : option Z) : PM Address :=
  let hash := Header_Hash Keccak256 header in
  let! known := sig_get hash in
  match known with
  | Some address => ret address
  | None =>
      when! zlen (Extra header) <? extraSeal raise errMissingSignature in
      let! signature := or_panic PSlice
        (slice (Extra header) (zlen (Extra header) - extraSeal) (zlen (Extra header))) in
      let! sealHash := or_panic PExplicit (SealHash Keccak256 header chainId) in
      let! pubkey := or_fail errEcrecover (crypto_Ecrecover (be_encode 32 sealHash) signature) in
      let! signer := or_panic PSlice (signer_of pubkey) in
      do! sig_add hash signer in
      ret signer
  end.

(** One turn of [FindAncientHeader]: the parent among the candidates. *)
Definition candidate (parents : list Header) (hash : Hash) (height : Z) : option (option Header) :=
  if zlen parents =? 0 then Some None
  else
    i ← sort_Search (zlen parents) (λ i,
          p ← index parents i; n ← Number_Uint64 p; Some (height <=? n));
    if i <? zlen parents then
      p ← index parents i; n ← Number_Uint64 p;
      Some (if (n =? height) && (Header_Hash Keccak256 p =? hash) then Some p else None)
    else Some None.

Fixpoint FindAncientHeader_loop (ite : nat) (ancient : Header) (chain : ChainHeaderReader)
    (parents : list Header) : PM (option Header) :=
  match ite with
  | O => ret (Some ancient)
  | S ite =>
      let! number := header_number ancient in
      let parentHeight := sub64 number 1 in
      let! found := or_panic PNil (candidate parents (ParentHash ancient) parentHeight) in
      match found with
      | Some p => FindAncientHeader_loop ite p chain parents
      | None =>
          match GetHeader chain (ParentHash ancient) parentHeight with
          | Some p => FindAncientHeader_loop ite p chain parents
          | None => ret None
          end
      end
  end.
Definition FindAncientHeader (header : Header) (ite : Z) := FindAncientHeader_loop (Z.to_nat ite) header.

(** The bytes between the vanity and the seal. *)
Definition validatorBytes (h : Header) : option bytes :=
  slice (Extra h) extraVanity (zlen (Extra h) - extraSeal).

(** The switch to the validators announced [len/2] blocks before. *)
Definition change_validators (chain : ChainHeaderReader) (parents : list Header)
    (header : Header) (number : Z) (s : Snapshot) : PM Snapshot :=
  let! checkpoint := FindAncientHeader header (zsize (Validators s) / 2) chain parents in
  let! checkpoint := or_fail ErrUnknownAncestor checkpoint in
  let! b := or_panic PSlice (validatorBytes checkpoint) in
  let! newValArr := or_fail errInvalidValidatorsBytes (ParseValidators b) in
  ret (switch_validators number (list_to_set newValArr) s).

(** The body of the loop of [apply]. *)
Definition apply_header (chain : ChainHeaderReader) (parents : list Header)
    (chainId : option Z) (s : Snapshot) (header : Header) : PM Snapshot :=
  let! number := header_number header in
  let s := shift_out number s in
  let! validator := ecrecover header chainId in
  when! negb (bool_decide (validator ∈ Validators s)) raise errUnauthorizedValidator in
  when! has_value (Recents s) validator raise errRecentlySigned in
  let s := set_recents s (<[number := validator]> (Recents s)) in
  let! s :=
    if 0 <? number then
      if Epoch (sconfig s) =? 0 then throw PDivZero
      else if number mod Epoch (sconfig s) =? zsize (Validators s) / 2
      then change_validators chain parents header number s else ret s
    else ret s in
  let! forkHash := or_panic PSlice
    (slice (Extra header) (extraVanity - nextForkHashSize) extraVanity) in
  ret (set_forks s (<[number := hex_EncodeToString forkHash]> (RecentForkHashes s))).

Fixpoint apply_headers (chain : ChainHeaderReader) (parents : list Header)
    (chainId : option Z) (s : Snapshot) (headers : list Header) : PM Snapshot :=
  match headers with
  | [] => ret s
  | h :: hs =>
      let! s := apply_header chain parents chainId s h in
      apply_headers chain parents chainId s hs
  end.

(** [headers[i+1]] follows [headers[i]]: the two tests of the first loop. *)
Fixpoint check_links (headers : list Header) : PM unit :=
  match headers with
  | h1 :: ((h2 :: _) as hs) =>
      let! n2 := header_number h2 in
      let! n1 := header_number h1 in
      when! negb (n2 =? add64 n1 1) raise errOutOfRangeChain in
      when! negb (ParentHash h2 =? Header_Hash Keccak256 h1) raise errBlockHashInconsistent in
      check_links hs
  | _ => ret tt
  end.

Definition apply (chain : ChainHeaderReader) (parents : list Header) (chainId : option Z)
    (s : Snapshot) (headers : list Header) : PM Snapshot :=
  match headers with
  | [] => ret s
  | h0 :: _ =>
      do! check_links headers in
      let! n0 := header_number h0 in
      when! negb (n0 =? add64 (snap_Number s) 1) raise errOutOfRangeChain in
      when! negb (ParentHash h0 =? snap_Hash s) raise errBlockHashInconsistent in
      let! snap := apply_headers chain parents chainId s headers in
      ret {| sconfig := sconfig snap;
             snap_Number := add64 (snap_Number snap) (zlen headers);
             snap_Hash := Header_Hash Keccak256 (List.last headers h0);
             Validators := Validators snap; Recents := Recents snap;
             RecentForkHashes := RecentForkHashes snap |}
  end.
End snapshot.
