(* ===== verification/ParliaStore.v ===== *)
(** * Snapshots in the database ([consensus/parlia/snapshot.go])

    [store] and [loadSnapshot] with the way [encoding/json] walks the struct: the
    document a snapshot is marshalled to, and what unmarshalling makes of any document.
    The text of a document is a parameter. *)

From stdpp Require Import sorting.
From S2P Require Import Prelude Rlp Header Hexutil Params ParliaSnapshot.

(** ** Documents *)

(** Numbers are kept as the literals they are spelled with; strings as their bytes. *)
Inductive json :=
| JNull | JBool (b : bool) | JNum (literal : bytes) | JStr (s : bytes)
| JArr (l : list json) | JObj (l : list (bytes * json)).

(** [encoding/json] on texts: [Unmarshal] rejects what is not a document. *)
Class JsonText := { json_text : json → bytes; json_value : bytes → option json }.

(** The order of the keys of a map: [sort.Slice] on strings. *)
Fixpoint bytes_leb (a b : bytes) : bool :=
  match a, b with
  | [], _ => true
  | _ :: _, [] => false
  | x :: a, y :: b => (x <? y) || ((x =? y) && bytes_leb a b)
  end.
Definition key_le (p q : bytes * json) : Prop := bytes_leb p.1 q.1 = true.
#[export] Instance key_le_dec p q : Decision (key_le p q).
Proof. unfold key_le. solve_decision. Defined.

(** Strings of the source, by their codes. *)
Definition codes (s : string) : bytes :=
  map (λ c, Z.of_nat (Ascii.nat_of_ascii c)) (String.list_ascii_of_string s).

(** ** Marshal *)

Definition Address_MarshalText (a : Address) : bytes := Bytes_MarshalText (be_encode 20 a).
Definition Hash_MarshalText (h : Hash) : bytes := Bytes_MarshalText (be_encode 32 h).

Definition sorted_object (l : list (bytes * json)) : json := JObj (merge_sort key_le l).

(** The exported fields in the order of the struct, under the names of their tags. *)
Definition snapshot_json (s : Snapshot) : json := JObj [
  (codes "number", JNum (FormatUint (snap_Number s)));
  (codes "hash", JStr (Hash_MarshalText (snap_Hash s)));
  (codes "validators",
     sorted_object (map (λ a, (Address_MarshalText a, JObj [])) (elements (Validators s))));
  (codes "recents",
     sorted_object (map (λ p, (FormatUint p.1, JStr (Address_MarshalText p.2))) (map_to_list (Recents s))));
  (codes "recent_fork_hashes",
     sorted_object (map (λ p, (FormatUint p.1, JStr p.2)) (map_to_list (RecentForkHashes s))))].

(** ** Unmarshal *)

Definition fixed_text (n : Z) (s : bytes) : option Z :=
  match UnmarshalFixedText n s with inl b => Some (be_decode b) | inr _ => None end.

(** A [common.Hash] or [common.Address]: [UnmarshalJSON] takes strings only. *)
Definition fixed_json (n : Z) (v : json) : option Z :=
  match v with JStr s => fixed_text n s | _ => None end.

(** The value of a map entry: an empty struct, an address, a string.  [null] leaves the
    zero value. *)
Definition unit_json (v : json) : option unit :=
  match v with JObj _ | JNull => Some tt | _ => None end.
Definition string_json (v : json) : option bytes :=
  match v with JStr s => Some s | JNull => Some [] | _ => None end.

(** An object read into a map that may have entries already; later keys win, and [null]
    empties the map. *)
Definition map_json {A} (key : bytes → option Z) (elem : json → option A) (v : json)
    (m : gmap Z A) : option (gmap Z A) :=
  match v with
  | JNull => Some ∅
  | JObj l =>
      ps ← mapM (λ p, k ← key p.1; x ← elem p.2; Some (k, x)) l;
      Some (list_to_map (reverse ps) ∪ m)
  | _ => None
  end.

(** Field names match exactly or up to the case of their letters. *)
Definition lower (c : Z) : Z := if (65 <=? c) && (c <=? 90) then c + 32 else c.
Definition names (field : string) (key : bytes) : bool :=
  bool_decide (map lower key = codes field).

Definition set_field (s : Snapshot) (p : bytes * json) : option Snapshot :=
  let '(key, v) := p in
  let with_ n h vs r f := {| sconfig := sconfig s; snap_Number := n; snap_Hash := h;
                             Validators := vs; Recents := r; RecentForkHashes := f |} in
  let '(n, h, vs, r, f) := (snap_Number s, snap_Hash s, Validators s, Recents s, RecentForkHashes s) in
  if names "number" key then
    match v with
    | JNum l => n ← ParseUint l; Some (with_ n h vs r f)
    | JNull => Some s
    | _ => None
    end
  else if names "hash" key then h ← fixed_json 32 v; Some (with_ n h vs r f)
  else if names "validators" key then
    m ← map_json (fixed_text 20) unit_json v (gset_to_gmap tt vs); Some (with_ n h (dom m) r f)
  else if names "recents" key then
    r ← map_json ParseUint (fixed_json 20) v r; Some (with_ n h vs r f)
  else if names "recent_fork_hashes" key then
    f ← map_json ParseUint string_json v f; Some (with_ n h vs r f)
  else Some s.

Fixpoint set_fields (s : Snapshot) (l : list (bytes * json)) : option Snapshot :=
  match l with
  | [] => Some s
  | p :: l => s ← set_field s p; set_fields s l
  end.

(** [new(Snapshot)], with the configuration that [loadSnapshot] sets afterwards. *)
Definition new_Snapshot (config : ParliaConfig) : Snapshot := {|
  sconfig := config; snap_Number := 0; snap_Hash := 0; Validators := ∅; Recents := ∅;
  RecentForkHashes := ∅ |}.

Definition json_snapshot (config : ParliaConfig) (v : json) : option Snapshot :=
  match v with
  | JObj l => set_fields (new_Snapshot config) l
  | JNull => Some (new_Snapshot config)
  | _ => None
  end.

(** ** The database *)

Section store.
Context {D : Type} `{KeyValue D, JsonText}.

Definition snapshot_key (hash : Hash) : bytes := codes "parlia-" ++ be_encode 32 hash.

(** [None] is any error. *)
Definition loadSnapshot (config : ParliaConfig) (d : D) (hash : Hash) : option Snapshot :=
  blob ← kv_Get (snapshot_key hash) d;
  v ← json_value blob;
  json_snapshot config v.

Definition store (s : Snapshot) (d : D) : option D :=
  kv_Put (snapshot_key (snap_Hash s)) (json_text (snapshot_json s)) d.
End store.

(** ** What is stored is read back *)

(** The values the fields of a snapshot hold. *)
Record snapshot_ok (s : Snapshot) : Prop := {
  ok_number : is_u64 (snap_Number s);
  ok_hash : 0 <= snap_Hash s < 256 ^ 32;
  ok_validators a : a ∈ Validators s → 0 <= a < 256 ^ 20;
  ok_recents k a : Recents s !! k = Some a → is_u64 k ∧ 0 <= a < 256 ^ 20;
  ok_forks k f : RecentForkHashes s !! k = Some f → is_u64 k;
}.

Lemma fixed_text_Marshal n a : 0 <= a < 256 ^ Z.of_nat n →
  fixed_text (Z.of_nat n) (Bytes_MarshalText (be_encode n a)) = Some a.
Proof.
  intros Ha. unfold fixed_text. rewrite UnmarshalFixedText_Marshal.
  - by rewrite be_decode_encode, Z.mod_small.
  - apply be_encode_bytes.
  - unfold zlen. by rewrite length_be_encode.
Qed.

(** A sorted object reads back as the map its entries come from. *)
Lemma map_json_sorted {A} (key : bytes → option Z) (elem : json → option A)
    (tk : Z → bytes) (te : A → json) (m : gmap Z A) l0 :
  l0 ≡ₚ map (λ p, (tk p.1, te p.2)) (map_to_list m) →
  (∀ k x, m !! k = Some x → key (tk k) = Some k ∧ elem (te x) = Some x) →
  map_json key elem (sorted_object l0) ∅ = Some m.
Proof.
  intros Hl0 Hm. unfold map_json, sorted_object.
  set (e := λ p : Z * A, (tk p.1, te p.2)) in *.
  assert (Hp : merge_sort key_le l0 ≡ₚ map e (map_to_list m)) by (by rewrite merge_sort_Permutation).
  apply Permutation_map_inv in Hp as (l & Hl & Hp).
  rewrite Hl. change (map e l) with (e <$> l).
  assert (Hall : mapM (λ p, k ← key p.1; x ← elem p.2; Some (k, x)) (e <$> l) = Some l).
  { apply mapM_Some. apply Forall2_fmap_l. apply Forall_Forall2_diag, Forall_forall.
    intros [k x] Hin. rewrite <- Hp in Hin. apply elem_of_map_to_list, Hm in Hin as [Hk Hx].
    simpl. by rewrite Hk; simpl; rewrite Hx. }
  rewrite Hall. cbn [mbind option_bind]. f_equal. rewrite (right_id_L ∅ (∪)).
  rewrite <- (list_to_map_to_list m). symmetry. apply list_to_map_proper.
  - apply NoDup_fst_map_to_list.
  - by rewrite Hp, reverse_Permutation.
Qed.

(** The elements of a set are the keys of the map the decoder fills. *)
Lemma gset_as_map (s : gset Address) :
  map (λ a, (Address_MarshalText a, JObj [])) (elements s) ≡ₚ
  map (λ p : Z * unit, (Address_MarshalText p.1, (λ _ : unit, JObj []) p.2)) (map_to_list (gset_to_gmap tt s)).
Proof.
  rewrite <- (map_map fst (λ a, (Address_MarshalText a, JObj []))).
  apply Permutation_map. symmetry.
  apply NoDup_Permutation; [apply (NoDup_fst_map_to_list (gset_to_gmap tt s))|apply NoDup_elements|].
  intros x. change (map fst ?l) with (l.*1). rewrite list_elem_of_fmap, elem_of_elements. split.
  - intros ([k []] & -> & Hk%elem_of_map_to_list). by apply lookup_gset_to_gmap_Some in Hk as [? _].
  - intros Hx. exists (x, tt). split; [done|]. by apply elem_of_map_to_list, lookup_gset_to_gmap_Some.
Qed.

Lemma json_snapshot_json s : snapshot_ok s → json_snapshot (sconfig s) (snapshot_json s) = Some s.
Proof.
  intros [Hn Hh Hv Hr Hf]. unfold snapshot_json. cbn [json_snapshot].
  assert (Hnum : ∀ k, is_u64 k → ParseUint (FormatUint k) = Some k) by apply ParseUint_FormatUint.
  assert (Haddr : ∀ a, 0 <= a < 256 ^ 20 → fixed_text 20 (Address_MarshalText a) = Some a)
    by (intros; by apply (fixed_text_Marshal 20)).
  set (vs := sorted_object (map (λ a, (Address_MarshalText a, JObj [])) (elements (Validators s)))).
  set (rs := sorted_object (map (λ p, (FormatUint p.1, JStr (Address_MarshalText p.2))) (map_to_list (Recents s)))).
  set (fs := sorted_object (map (λ p, (FormatUint p.1, JStr p.2)) (map_to_list (RecentForkHashes s)))).
  assert (Hvs : map_json (fixed_text 20) unit_json vs (gset_to_gmap tt ∅) = Some (gset_to_gmap tt (Validators s))).
  { rewrite gset_to_gmap_empty.
    apply (map_json_sorted _ _ Address_MarshalText (λ _ : unit, JObj []) _ _ (gset_as_map _)).
    intros k [] [Hk _]%lookup_gset_to_gmap_Some. split; [|done]. by apply Haddr, Hv. }
  assert (Hrs : map_json ParseUint (fixed_json 20) rs ∅ = Some (Recents s)).
  { apply (map_json_sorted _ _ FormatUint (λ a, JStr (Address_MarshalText a)) _ _ (reflexivity _)).
    intros k x Hk. apply Hr in Hk as [? ?]. split; [by apply Hnum|by apply Haddr]. }
  assert (Hfs : map_json ParseUint string_json fs ∅ = Some (RecentForkHashes s)).
  { apply (map_json_sorted _ _ FormatUint JStr _ _ (reflexivity _)). intros k x Hk. split; [|done].
    by eapply Hnum, Hf. }
  assert (Hhash : fixed_text 32 (Hash_MarshalText (snap_Hash s)) = Some (snap_Hash s))
    by (by apply (fixed_text_Marshal 32)).
  clearbody vs rs fs. specialize (Hnum _ Hn).
  cbn [set_fields]. unfold set_field.
  repeat match goal with |- context [names ?f ?k] =>
    let b := eval vm_compute in (names f k) in change (names f k) with b end.
  let next H := (rewrite H; cbn [mbind option_bind fixed_json new_Snapshot snap_Number snap_Hash
                              Validators Recents RecentForkHashes sconfig]) in
  cbv beta iota; next Hnum; next Hhash; next Hvs; next Hrs; next Hfs.
  rewrite dom_gset_to_gmap. by destruct s.
Qed.

(** ** Properties *)

(** What [ethdb.Database] and [encoding/json] document. *)
Class KeyValueLaws (D : Type) `{KeyValue D} : Prop := {
  get_put k v (d d' : D) : kv_Put k v d = Some d' → kv_Get k d' = Some v;
  get_put_other k k' v (d d' : D) : k ≠ k' → kv_Put k v d = Some d' → kv_Get k' d' = kv_Get k' d;
}.
Class JsonTextLaws `{JsonText} : Prop :=
  value_text s : json_value (json_text (snapshot_json s)) = Some (snapshot_json s).

Lemma snapshot_key_inj h h' : 0 <= h < 256 ^ 32 → 0 <= h' < 256 ^ 32 →
  snapshot_key h = snapshot_key h' → h = h'.
Proof.
  intros Hh Hh' He. unfold snapshot_key in He. apply (inj (app _)) in He.
  by apply (be_encode_inj 32).
Qed.

(** A stored snapshot is loaded back as it was, and storing it changes what is loaded
    for no other block. *)
Theorem loadSnapshot_store {D} `{KeyValueLaws D, JsonTextLaws} (s : Snapshot) (d d' : D) :
  snapshot_ok s → store s d = Some d' →
  loadSnapshot (sconfig s) d' (snap_Hash s) = Some s ∧
  ∀ c h, 0 <= h < 256 ^ 32 → h ≠ snap_Hash s → loadSnapshot c d' h = loadSnapshot c d h.
Proof.
  intros Hs Hst. unfold store in Hst. split.
  - unfold loadSnapshot. rewrite (get_put _ _ _ _ Hst). cbn [mbind option_bind].
    rewrite value_text. cbn [mbind option_bind]. by apply json_snapshot_json.
  - intros c h Hh Hne. unfold loadSnapshot. rewrite (get_put_other _ (snapshot_key h) _ _ _) with (2 := Hst); [done|].
    intros He. apply Hne. symmetry. apply snapshot_key_inj; [apply (ok_hash _ Hs)|done|done].
Qed.

(** ** An instance *)

#[export] Instance map_store : KeyValue (gmap bytes bytes) := {|
  kv_Get k d := d !! k;
  kv_Put k v d := Some (<[k := v]> d);
|}.
#[export] Instance map_store_laws : KeyValueLaws (gmap bytes bytes).
Proof.
  split; simpl.
  - intros k v d d' [= <-]. apply lookup_insert_eq.
  - intros k k' v d d' Hne [= <-]. by apply lookup_insert_ne.
Qed.

(** Documents as trees of labels, and those as numbers. *)
Fixpoint to_tree (v : json) : gen_tree (bool + bytes) :=
  match v with
  | JNull => GenNode 0 []
  | JBool b => GenLeaf (inl b)
  | JNum l => GenNode 1 [GenLeaf (inr l)]
  | JStr s => GenNode 2 [GenLeaf (inr s)]
  | JArr l => GenNode 3 (map to_tree l)
  | JObj l => GenNode 4 (map (λ p, GenNode 5 [GenLeaf (inr p.1); to_tree p.2]) l)
  end.
Fixpoint of_tree (t : gen_tree (bool + bytes)) : json :=
  match t with
  | GenLeaf (inl b) => JBool b
  | GenNode 1 [GenLeaf (inr l)] => JNum l
  | GenNode 2 [GenLeaf (inr s)] => JStr s
  | GenNode 3 l => JArr (map of_tree l)
  | GenNode 4 l =>
      JObj (map (λ t, match t with GenNode _ [GenLeaf (inr k); v] => (k, of_tree v)
                      | _ => ([], JNull) end) l)
  | _ => JNull
  end.

Lemma of_to_tree v : of_tree (to_tree v) = v.
Proof.
  revert v. fix IH 1. intros [| b | l | s | l | l]; simpl; try done; f_equal.
  - induction l as [|v l IHl]; simpl; [done|]. by rewrite IH, IHl.
  - induction l as [|[k v] l IHl]; simpl; [done|]. by rewrite IH, IHl.
Qed.

#[export] Instance toy_json : JsonText := {|
  json_text v := be_min (Zpos (encode (to_tree v)));
  json_value b := match be_decode b with Zpos p => of_tree <$> decode p | _ => None end;
|}.
#[export] Instance toy_json_laws : JsonTextLaws.
Proof.
  intros s. cbn [json_text json_value toy_json]. rewrite be_decode_be_min by lia.
  rewrite decode_encode. cbn [fmap option_fmap option_map]. by rewrite of_to_tree.
Qed.

Definition toy_stored : Snapshot := {|
  sconfig := {| Period := 3; Epoch := 200 |}; snap_Number := 1024; snap_Hash := 77;
  Validators := {[5; 9; 30]}; Recents := {[1023 := 9; 1024 := 5]};
  RecentForkHashes := {[1024 := codes "01020304"]} |}.

Lemma toy_stored_ok : snapshot_ok toy_stored.
Proof.
  split; simpl.
  - unfold is_u64. lia.
  - lia.
  - intros a. rewrite !elem_of_union, !elem_of_singleton. lia.
  - intros k a [[<- <-]|[_ [<- <-]%lookup_singleton_Some]]%lookup_insert_Some; unfold is_u64; lia.
  - intros k f [<- _]%lookup_singleton_Some. unfold is_u64. lia.
Qed.

Definition toy_database : gmap bytes bytes :=
  <[snapshot_key 77 := json_text (snapshot_json toy_stored)]> ∅.

Lemma loadSnapshot_store_witness :
  loadSnapshot (sconfig toy_stored) toy_database 77 = Some toy_stored.
Proof.
  apply (loadSnapshot_store toy_stored ∅ toy_database).
  - exact toy_stored_ok.
  - reflexivity.
Defined.
