(* ===== verification/ParliaTurns.v ===== *)
(** * Whose turn it is, and the validator lists of epoch headers

    Facts about [validators], [inturn], [supposeValidator], [indexOfVal],
    [enoughDistance] and [ParseValidators] of [consensus/parlia/snapshot.go]. *)

From stdpp Require Import sorting.
From S2P Require Import Prelude Rlp Header Hexutil Params ParliaSnapshot.

(** ** The sorted list of validators *)

Lemma elem_of_validators s v : v ∈ validators s ↔ v ∈ Validators s.
Proof. unfold validators. by rewrite merge_sort_Permutation, elem_of_elements. Qed.

Lemma NoDup_validators s : NoDup (validators s).
Proof. unfold validators. rewrite merge_sort_Permutation. apply NoDup_elements. Qed.

Lemma length_validators s : length (validators s) = size (Validators s).
Proof. unfold validators. by rewrite merge_sort_Permutation. Qed.

Lemma zlen_validators s : zlen (validators s) = zsize (Validators s).
Proof. unfold zlen, zsize. by rewrite length_validators. Qed.

Lemma Sorted_validators s : Sorted Z.le (validators s).
Proof. apply Sorted_merge_sort. intros x y. lia. Qed.

Lemma validators_nonempty s v : v ∈ Validators s → 0 < zlen (validators s).
Proof.
  rewrite <- elem_of_validators. unfold zlen. intros H.
  destruct (validators s); [by apply not_elem_of_nil in H|simpl; lia].
Qed.

(** The validators depend on the set only. *)
Lemma validators_set s s' : Validators s = Validators s' → validators s = validators s'.
Proof. unfold validators. by intros ->. Qed.

(** ** Positions *)

Lemma indexOf_loop_spec v idx l : NoDup l →
  (v ∉ l ∧ indexOf_loop v idx l = -1) ∨
  (∃ i : nat, l !! i = Some v ∧ indexOf_loop v idx l = idx + Z.of_nat i).
Proof.
  revert idx. induction l as [|x l IH]; intros idx Hd; simpl.
  { left. split; [apply not_elem_of_nil|done]. }
  apply NoDup_cons in Hd as [Hx Hd]. case_if; zbool.
  - subst. right. exists 0%nat. split; [done|lia].
  - destruct (IH (idx + 1) Hd) as [[Hn ->]|(i & Hi & ->)].
    + left. split; [|done]. apply not_elem_of_cons. split; congruence.
    + right. exists (S i). split; [done|lia].
Qed.

Lemma indexOfVal_in s v : v ∈ Validators s →
  0 <= indexOfVal s v < zlen (validators s) ∧ index (validators s) (indexOfVal s v) = Some v.
Proof.
  intros Hv. unfold indexOfVal.
  destruct (indexOf_loop_spec v 0 (validators s) (NoDup_validators s)) as [[Hn _]|(i & Hi & ->)].
  - by rewrite elem_of_validators in Hn.
  - pose proof (lookup_lt_Some _ _ _ Hi). unfold zlen, index.
    rewrite (proj2 (Z.leb_le _ _)) by lia. split; [lia|].
    by replace (Z.to_nat (0 + Z.of_nat i)) with i by lia.
Qed.

Lemma indexOfVal_out s v : v ∉ Validators s → indexOfVal s v = -1.
Proof.
  intros Hv. unfold indexOfVal.
  destruct (indexOf_loop_spec v 0 (validators s) (NoDup_validators s)) as [[_ H]|(i & Hi & _)]; [done|].
  apply list_elem_of_lookup_2 in Hi. by rewrite elem_of_validators in Hi.
Qed.

(** ** Turns *)

Lemma inturn_suppose s v w :
  supposeValidator s = Some w → inturn s v = Some (w =? v).
Proof. unfold supposeValidator, inturn. destruct (_ =? 0); [done|]. by intros ->. Qed.

Lemma supposeValidator_in s :
  Validators s ≠ ∅ → ∃ w, supposeValidator s = Some w ∧ w ∈ Validators s.
Proof.
  intros Hne. unfold supposeValidator.
  assert (0 < zlen (validators s)).
  { apply set_choose_L in Hne as [v Hv]. by apply (validators_nonempty s v). }
  rewrite (proj2 (Z.eqb_neq _ 0)) by lia.
  destruct (index_ok (validators s) (add64 (snap_Number s) 1 mod zlen (validators s))) as [w Hw].
  { apply Z.mod_pos_bound. lia. }
  exists w. split; [done|]. rewrite <- elem_of_validators. unfold index in Hw.
  destruct (0 <=? _); [|done]. by apply list_elem_of_lookup_2 in Hw.
Qed.

Lemma supposeValidator_index s v :
  v ∈ Validators s →
  (supposeValidator s = Some v ↔
   add64 (snap_Number s) 1 mod zsize (Validators s) = indexOfVal s v).
Proof.
  intros Hv. destruct (indexOfVal_in s v Hv) as [Hr Hi]. unfold supposeValidator.
  pose proof (validators_nonempty s v Hv). rewrite (proj2 (Z.eqb_neq _ 0)) by lia.
  rewrite <- zlen_validators. pose proof (Z.mod_pos_bound (add64 (snap_Number s) 1)
    (zlen (validators s)) ltac:(lia)) as Hm.
  split; [|by intros ->]. unfold index in *. rewrite !(proj2 (Z.leb_le _ _)) in * by lia.
  intros H1. pose proof (NoDup_lookup _ _ _ _ (NoDup_validators s) H1 Hi). lia.
Qed.

(** The place of an address in a set: how many are below it. *)
Definition rank (vals : gset Address) (v : Address) : Z := zsize (base.filter (λ w, w < v) vals).

Lemma sorted_rank l i v : StronglySorted Z.le l → NoDup l → l !! i = Some v →
  length (base.filter (λ w, w < v) l) = i.
Proof.
  intros Hs. revert i. induction Hs as [|x l Hs IH Hx]; intros i Hd Hi; [done|].
  apply NoDup_cons in Hd as [Hnx Hd]. rewrite Forall_forall in Hx. destruct i as [|i]; cbn [lookup list_lookup] in Hi.
  - injection Hi as ->. rewrite filter_cons_False by lia.
    assert (base.filter (λ w, w < v) l = []) as ->; [|done].
    clear -Hx. induction l as [|y l IH]; [done|]. rewrite filter_cons_False by (specialize (Hx y ltac:(left)); lia).
    apply IH. intros w Hw. apply Hx. by right.
  - pose proof (list_elem_of_lookup_2 _ _ _ Hi) as Hv. specialize (Hx v Hv).
    rewrite filter_cons_True; [cbn [length]; by rewrite (IH i)|]. assert (x ≠ v) by congruence. lia.
Qed.

Lemma index_rank s v : v ∈ Validators s → indexOfVal s v = rank (Validators s) v.
Proof.
  intros Hv. destruct (indexOfVal_in s v Hv) as [[H0 _] Hi]. unfold index in Hi.
  rewrite (proj2 (Z.leb_le _ _)) in Hi by done.
  assert (Hs : StronglySorted Z.le (validators s)).
  { apply Sorted_StronglySorted; [intros x y z; lia|apply Sorted_validators]. }
  pose proof (sorted_rank _ _ _ Hs (NoDup_validators s) Hi) as Hl. unfold rank, zsize.
  assert (size (base.filter (λ w, w < v) (Validators s)) = length (base.filter (λ w, w < v) (validators s))) as ->; [|lia].
  apply Permutation_length, NoDup_Permutation.
  - apply NoDup_elements.
  - apply NoDup_filter, NoDup_validators.
  - intros w. by rewrite elem_of_elements, elem_of_filter, list_elem_of_filter, elem_of_validators.
Qed.

(** The validators take turns in the order of their addresses. *)
Definition in_turn (s : Snapshot) (n : Z) (v : Address) : Prop :=
  v ∈ Validators s ∧ n mod zsize (Validators s) = rank (Validators s) v.
#[export] Instance in_turn_dec s n v : Decision (in_turn s n v).
Proof. apply _. Defined.

Lemma inturn_spec s n v : Validators s ≠ ∅ → n = snap_Number s + 1 → 0 <= snap_Number s < 2 ^ 63 →
  inturn s v = Some (bool_decide (in_turn s n v)).
Proof.
  intros Hne -> Hs. destruct (supposeValidator_in s Hne) as (w & Hw & Hin). rewrite (inturn_suppose s v w Hw). f_equal.
  assert (Ht : ∀ u, u ∈ Validators s → supposeValidator s = Some u ↔ (snap_Number s + 1) mod zsize (Validators s) = rank (Validators s) u).
  { intros u Hu. rewrite supposeValidator_index, index_rank, add64_small by (done || unfold is_u64; lia). done. }
  apply eq_true_iff_eq. rewrite Z.eqb_eq, bool_decide_eq_true. unfold in_turn. split.
  - intros <-. split; [done|]. by apply Ht.
  - intros [Hv Hr]. apply Ht in Hr; [congruence|done].
Qed.

(** The snapshot at another number. *)
Definition at_number (s : Snapshot) (n : Z) : Snapshot := {|
  sconfig := sconfig s; snap_Number := n; snap_Hash := snap_Hash s;
  Validators := Validators s; Recents := Recents s; RecentForkHashes := RecentForkHashes s |}.

Lemma indexOfVal_at s n v : indexOfVal (at_number s n) v = indexOfVal s v.
Proof. done. Qed.

(** ** Lists of validators as bytes *)

Lemma be_decode_20 b : Forall is_byte b → length b = 20%nat → be_encode 20 (BytesToAddress b) = b.
Proof.
  intros Hb Hl. assert (BytesToAddress b = be_decode b) as ->.
  { unfold BytesToAddress, zlen. by rewrite Hl. }
  rewrite <- Hl. by apply be_encode_decode.
Qed.

Lemma BytesToAddress_encode a : 0 <= a < 256 ^ 20 → BytesToAddress (be_encode 20 a) = a.
Proof.
  intros Ha. assert (BytesToAddress (be_encode 20 a) = be_decode (be_encode 20 a)) as ->.
  { unfold BytesToAddress, zlen. by rewrite length_be_encode. }
  rewrite be_decode_encode. by apply Z.mod_small.
Qed.

Definition encode_validators (l : list Address) : bytes := concat (map (be_encode 20) l).

Lemma length_encode_validators l : length (encode_validators l) = (20 * length l)%nat.
Proof.
  induction l as [|a l IH]; [done|]. unfold encode_validators in *.
  cbn [map concat length]. rewrite length_app, length_be_encode, IH. lia.
Qed.

Lemma parse_loop_encode l :
  Forall (λ a, 0 <= a < 256 ^ 20) l → parse_loop (length l) (encode_validators l) = l.
Proof.
  induction 1 as [|a l Ha Hl IH]; [done|]. unfold encode_validators in *.
  cbn [length parse_loop map concat].
  rewrite take_app_length', drop_app_length' by (symmetry; apply length_be_encode).
  by rewrite IH, BytesToAddress_encode.
Qed.

Lemma encode_parse_loop n b :
  Forall is_byte b → length b = (20 * n)%nat → encode_validators (parse_loop n b) = b.
Proof.
  revert b. induction n as [|n IH]; intros b Hb Hl.
  - by destruct b.
  - unfold encode_validators in *. cbn [parse_loop map concat].
    rewrite be_decode_20, IH, take_drop; try done.
    + by apply Forall_drop.
    + rewrite length_drop. lia.
    + by apply Forall_take.
    + rewrite length_take. lia.
Qed.

Lemma ParseValidators_encode l :
  Forall (λ a, 0 <= a < 256 ^ 20) l → ParseValidators (encode_validators l) = Some l.
Proof.
  intros Hl. unfold ParseValidators, zlen, validatorBytesLength, AddressLength.
  rewrite length_encode_validators.
  replace (Z.of_nat (20 * length l)) with (Z.of_nat (length l) * 20) by lia.
  rewrite Z.mod_mul, Z.div_mul, Nat2Z.id by lia. simpl. f_equal. by apply parse_loop_encode.
Qed.

Lemma parse_loop_range n b : Forall is_byte b → Forall (λ a, 0 <= a < 256 ^ 20) (parse_loop n b).
Proof.
  revert b. induction n as [|n IH]; intros b Hb; simpl; constructor; [|by apply IH, Forall_drop].
  assert (Ht : Forall is_byte (take 20 b)) by (by apply Forall_take).
  unfold BytesToAddress, AddressLength.
  assert (zlen (take 20 b) <= 20) by (unfold zlen; rewrite length_take; lia).
  rewrite (proj2 (Z.ltb_ge 20 _)) by done. pose proof (be_decode_range _ Ht) as Hr.
  pose proof (zlen_nonneg (take 20 b)).
  assert (256 ^ zlen (take 20 b) <= 256 ^ 20) by (apply Z.pow_le_mono_r; lia). lia.
Qed.

Lemma slice_bytes (l : bytes) a b k : Forall is_byte l → slice l a b = Some k → Forall is_byte k.
Proof. intros Hl. unfold slice. case_if; [|done]. intros [= <-]. by apply Forall_take, Forall_drop. Qed.

(** ** Properties *)

(** Exactly one validator is in turn after a snapshot, the one [supposeValidator]
    names; with no validators both are a division by zero. *)
Theorem one_validator_in_turn (s : Snapshot) :
  (Validators s = ∅ ∧ supposeValidator s = None ∧ ∀ v, inturn s v = None) ∨
  ∃ w, w ∈ Validators s ∧ supposeValidator s = Some w ∧
       ∀ v, inturn s v = Some (bool_decide (v = w)).
Proof.
  destruct (decide (Validators s = ∅)) as [He|Hne].
  - left. unfold supposeValidator, inturn. rewrite zlen_validators. unfold zsize.
    rewrite He, size_empty. done.
  - right. destruct (supposeValidator_in s Hne) as (w & Hw & Hin). exists w. split_and!; try done.
    intros v. rewrite (inturn_suppose s v w Hw). f_equal. apply eq_true_iff_eq.
    rewrite Z.eqb_eq, bool_decide_eq_true. split; congruence.
Qed.

(** The turn goes round: among as many consecutive blocks as there are validators,
    each validator is in turn for exactly one. *)
Theorem turns_rotate (s : Snapshot) (v : Address) (n : Z) :
  v ∈ Validators s → 0 <= n → n + zsize (Validators s) < 2 ^ 64 - 1 →
  exists! i, 0 <= i < zsize (Validators s) ∧ inturn (at_number s (n + i)) v = Some true.
Proof.
  intros Hv Hn Hb. pose proof (validators_nonempty s v Hv) as Hp. rewrite zlen_validators in Hp.
  destruct (indexOfVal_in s v Hv) as [Hi _]. rewrite zlen_validators in Hi.
  set (k := zsize (Validators s)) in *.
  assert (Ht : ∀ i, 0 <= i < k →
    (inturn (at_number s (n + i)) v = Some true ↔ (n + i + 1) mod k = indexOfVal s v)).
  { intros i Hik. pose proof (supposeValidator_index (at_number s (n + i)) v Hv) as Hs.
    change (Validators (at_number s (n + i))) with (Validators s) in Hs. cbn [snap_Number at_number] in Hs.
    rewrite add64_small, indexOfVal_at in Hs by (unfold is_u64; lia). fold k in Hs. rewrite <- Hs.
    destruct (supposeValidator_in (at_number s (n + i))) as (w & Hw & _); [set_solver|].
    rewrite (inturn_suppose _ v w Hw), Hw. split; [intros [= H%Z.eqb_eq]|intros [= ->]].
    - by rewrite H. - by rewrite Z.eqb_refl. }
  exists ((indexOfVal s v - n - 1) mod k).
  pose proof (Z.mod_pos_bound (indexOfVal s v - n - 1) k ltac:(lia)) as Hm.
  split.
  - split; [done|]. apply Ht; [done|].
    replace (n + _ + 1) with ((indexOfVal s v - n - 1) mod k + (n + 1)) by lia.
    rewrite Zplus_mod_idemp_l. replace (_ - n - 1 + (n + 1)) with (indexOfVal s v) by lia.
    by apply Z.mod_small.
  - intros j [Hj Hjt]. apply Ht in Hjt; [|done]. rewrite <- Hjt.
    replace ((n + j + 1) mod k - n - 1) with ((n + j + 1) mod k + (- n - 1)) by lia.
    rewrite Zplus_mod_idemp_l. replace (n + j + 1 + (- n - 1)) with j by lia.
    by apply Z.mod_small.
Qed.

(** [enoughDistance] for one of several validators, not the one that made the block:
    it is among the last two of the round that starts with the validator in turn. *)
Theorem enoughDistance_cyclic (s : Snapshot) (v : Address) (h : Header) :
  v ∈ Validators s → 1 < zsize (Validators s) → 0 <= snap_Number s < 2 ^ 63 - 1 → v ≠ Coinbase h →
  let k := zsize (Validators s) in
  enoughDistance s v h = (k - 2 <=? (indexOfVal s v - (snap_Number s + 1)) mod k).
Proof.
  intros Hv Hk Hn Hc k. destruct (indexOfVal_in s v Hv) as [Hi _].
  unfold enoughDistance. rewrite zlen_validators in *. fold k in Hi |- *.
  rewrite (proj2 (Z.ltb_ge _ 0)), (proj2 (Z.eqb_neq k 1)), (proj2 (Z.eqb_neq v _)) by lia || done.
  rewrite (s64_small (snap_Number s)), s64_small by lia.
  rewrite Z.rem_mod_nonneg by (unfold k in *; lia).
  pose proof (Z.mod_pos_bound (snap_Number s + 1) k ltac:(unfold k; lia)) as Ho.
  rewrite <- Zminus_mod_idemp_r. set (o := (snap_Number s + 1) mod k) in *.
  destruct (Z.leb_spec o (indexOfVal s v)).
  - by rewrite Z.mod_small by lia.
  - replace ((indexOfVal s v - o) mod k) with (k + indexOfVal s v - o); [done|].
    apply Z.mod_unique with (q := -1); lia.
Qed.

(** [ParseValidators] reads back the list of addresses an epoch header carries, and
    accepts nothing but such lists. *)
Theorem ParseValidators_round_trip (b : bytes) (l : list Address) :
  Forall is_byte b → Forall (λ a, 0 <= a < 256 ^ 20) l →
  ParseValidators (encode_validators l) = Some l ∧
  (ParseValidators b = Some l ↔ b = encode_validators l) ∧
  (ParseValidators b = None ↔ zlen b mod 20 ≠ 0).
Proof.
  intros Hb Hl. split; [by apply ParseValidators_encode|]. split; [split|].
  - unfold ParseValidators, validatorBytesLength, AddressLength. case_if; [done|].
    intros [= <-]. zbool. symmetry. apply encode_parse_loop; [done|].
    pose proof (Z.div_mod (zlen b) 20 ltac:(lia)). unfold zlen in *. lia.
  - intros ->. by apply ParseValidators_encode.
  - unfold ParseValidators, validatorBytesLength, AddressLength. case_if; zbool; naive_solver.
Qed.

(** Three validators after block 10. *)
Definition toy_snapshot (n : Z) (r : gmap Z Address) : Snapshot := {|
  sconfig := {| Period := 3; Epoch := 200 |}; snap_Number := n; snap_Hash := 0;
  Validators := {[ 5; 9; 30 ]}; Recents := r; RecentForkHashes := ∅ |}.

Lemma turns_rotate_witness :
  exists! i, 0 <= i < 3 ∧ inturn (at_number (toy_snapshot 10 ∅) (10 + i)) 9 = Some true.
Proof. apply (turns_rotate (toy_snapshot 10 ∅) 9 10); [set_solver|lia|vm_compute; reflexivity]. Defined.

Lemma enoughDistance_cyclic_witness :
  enoughDistance (toy_snapshot 10 ∅) 9 (toy_header 11 0 5 []) = true.
Proof.
  rewrite (enoughDistance_cyclic (toy_snapshot 10 ∅) 9 (toy_header 11 0 5 []));
    [vm_compute; reflexivity|set_solver|vm_compute; reflexivity|simpl; lia|done].
Defined.

Lemma ParseValidators_round_trip_witness :
  ParseValidators (encode_validators [5; 9]) = Some [5; 9].
Proof.
  apply (ParseValidators_round_trip [] [5; 9]); [constructor|].
  repeat constructor; lia.
Defined.
