(* ===== verification/ParliaChain.v ===== *)
(** * What [apply] does to a snapshot, header by header

    [next] is one header of [apply] of [consensus/parlia/snapshot.go] with no caches, no
    lookups and no state, and [run] a sequence of them; [apply] is proved to do what [run]
    does.  They keep the code's own bookkeeping of its windows ([shift_out],
    [switch_validators]): the rule of the authority set, which does not, is in
    [ParliaRule], where the two are proved to agree. *)

From S2P Require Import Prelude Rlp Header Hexutil Params ParliaSnapshot ParliaTurns.

(** ** The cache of signatures *)

Definition cached {V C} `{Cache V C} (c : C) (h : Hash) (v : V) : Prop :=
  (cache_get h c).1 = Some v.

(** A cache returns nothing that was not added; it may forget. *)
Class CacheLaws (V C : Type) `{Cache V C} : Prop := {
  cached_get k h c v : cached (cache_get h c).2 k v → cached c k v;
  cached_add k h v c w : cached (cache_add h v c) k w → (k = h ∧ w = v) ∨ cached c k w;
}.

Section chain.
Context {SC RC D : Type} {CS : Cache Address SC} {CL : CacheLaws Address SC}.
Variable Keccak256 : bytes → Hash.
Variable crypto_Ecrecover : bytes → bytes → option bytes.
Variable chainId : option Z.
(** The headers in play, told apart by their hashes. *)
Variable known : Header → Prop.
Hypothesis collision_free : ∀ h h', known h → known h' →
  Header_Hash Keccak256 h = Header_Hash Keccak256 h' → h = h'.

(** The client only keeps headers that are complete and long enough. *)
Hypothesis known_ok : ∀ h, known h → header_ok h ∧ extraVanity + extraSeal <= zlen (Extra h).
Hypothesis chainId_ok : ∃ c, chainId = Some c ∧ 0 <= c < 2 ^ 256.
Hypothesis Ecrecover_pubkey : ∀ m sig k, crypto_Ecrecover m sig = Some k → 1 <= zlen k.

Abbreviation hash := (Header_Hash Keccak256).
Abbreviation PM := (@PM SC RC D).

(** ** One header *)

(** The validator that signed a header. *)
Definition recover (h : Header) : option Address :=
  if zlen (Extra h) <? extraSeal then None
  else
    signature ← slice (Extra h) (zlen (Extra h) - extraSeal) (zlen (Extra h));
    sealHash ← SealHash Keccak256 h chainId;
    pubkey ← crypto_Ecrecover (be_encode 32 sealHash) signature;
    signer_of Keccak256 pubkey.

Inductive ancestor : nat → Header → Header → Prop :=
| ancestor_self h : ancestor 0 h h
| ancestor_parent n h p a k :
    Number_Uint64 h = Some k → known p → hash p = ParentHash h →
    Number_Uint64 p = Some (sub64 k 1) → ancestor n p a → ancestor (S n) h a.

(** The validators announced by a header. *)
Definition announced (a : Header) : option (gset Address) :=
  b ← validatorBytes a; l ← ParseValidators b; Some (list_to_set l).

(** [n] is the block that changes the set. *)
Definition switches (s : Snapshot) (n : Z) : Prop :=
  0 < n ∧ n mod Epoch (sconfig s) = zsize (Validators s) / 2.

(** The header [h], numbered [n] and signed by [v], on the snapshot [s]. *)
Definition signed (s : Snapshot) (n : Z) (v : Address) : Snapshot :=
  let s1 := shift_out n s in set_recents s1 (<[n := v]> (Recents s1)).

Record may_sign (s : Snapshot) (n : Z) (v : Address) : Prop := {
  is_validator : v ∈ Validators s;
  not_recent k : Recents (shift_out n s) !! k ≠ Some v;
}.

Definition with_fork_hash (s : Snapshot) (h : Header) (n : Z) (s' : Snapshot) : Prop :=
  ∃ f, slice (Extra h) (extraVanity - nextForkHashSize) extraVanity = Some f ∧
       s' = set_forks s (<[n := hex_EncodeToString f]> (RecentForkHashes s)).

(** The snapshot with the set the header switches to, if it does. *)
Definition switched (s : Snapshot) (h : Header) (n : Z) (v : Address) (s' : Snapshot) : Prop :=
  (switches s n ∧ ∃ a vals,
     ancestor (Z.to_nat (zsize (Validators s) / 2)) h a ∧ announced a = Some vals ∧
     s' = switch_validators n vals (signed s n v)) ∨
  (¬ switches s n ∧ s' = signed s n v).

(** One header, with the bookkeeping of [apply_header]. *)
Definition follows (s : Snapshot) (h : Header) (s' : Snapshot) : Prop :=
  ∃ n v s1, Number_Uint64 h = Some n ∧ recover h = Some v ∧ may_sign s n v ∧
    (0 < n → Epoch (sconfig s) ≠ 0) ∧ switched s h n v s1 ∧ with_fork_hash s1 h n s'.

Definition renumber (s : Snapshot) (n : Z) (x : Hash) : Snapshot := {|
  sconfig := sconfig s; snap_Number := n; snap_Hash := x; Validators := Validators s;
  Recents := Recents s; RecentForkHashes := RecentForkHashes s |}.
Definition at_header (s : Snapshot) (n : Z) (h : Header) : Snapshot := renumber s n (hash h).

(** The snapshot after the child [h] of the block the snapshot [s] is of. *)
Record next (s : Snapshot) (h : Header) (s' : Snapshot) : Prop := {
  next_parent : ParentHash h = snap_Hash s;
  next_number : Number_Uint64 h = Some (add64 (snap_Number s) 1);
  next_follows : ∃ s1, follows s h s1 ∧ s' = at_header s1 (add64 (snap_Number s) 1) h;
}.

(** A run of headers, with the snapshot after each. *)
Inductive run : Snapshot → list Header → list Snapshot → Prop :=
| run_nil s : run s [] []
| run_cons s h s' hs ss : next s h s' → run s' hs ss → run s (h :: hs) (s' :: ss).

Definition reaches (s : Snapshot) (hs : list Header) (s' : Snapshot) : Prop :=
  ∃ ss, run s hs ss ∧ List.last ss s = s'.

(** ** The code takes these steps *)

(** The cache of signatures only holds signers of known headers. *)
Definition sigs_ok (c : SC) : Prop := ∀ h v, known h → cached c (hash h) v → recover h = Some v.

(** What the operations of this file do to the engine's state. *)
Definition sigs_only (st st' : pstate SC RC D) : Prop :=
  recentSnaps st' = recentSnaps st ∧ db st' = db st ∧ (sigs_ok (signatures st) → sigs_ok (signatures st')).

Lemma sigs_only_refl st : sigs_only st st.
Proof. done. Qed.
Lemma sigs_only_trans st1 st2 st3 : sigs_only st1 st2 → sigs_only st2 st3 → sigs_only st1 st3.
Proof. intros (E1 & E2 & H1) (E3 & E4 & H2). split_and!; [congruence..|auto]. Qed.

Lemma wp_sig_get h st :
  wp (sig_get h : PM _) (λ o st', sigs_only st st' ∧ ∀ v, o = Some v → cached (signatures st) h v)
    (λ _ _, False) (λ _, False) st.
Proof.
  unfold wp, sig_get. destruct (cache_get h (signatures st)) as [o c] eqn:Hg.
  split; [split_and!; try done|].
  - intros Hs h' v Hk Hc. apply (Hs h' v Hk). apply (cached_get _ h). by rewrite Hg.
  - intros v ->. unfold cached. by rewrite Hg.
Qed.

Lemma header_Number h : known h → ∃ n, Number_Uint64 h = Some n ∧ is_u64 n.
Proof.
  intros Hk. destruct (known_ok h Hk) as [(_ & _ & _ & _ & _ & _ & (n & Hn & _) & _) _].
  exists (u64 (Z.abs n)). unfold Number_Uint64. rewrite Hn. split; [done|apply u64_range].
Qed.

Lemma wp_header_number h (Q : Z → pstate SC RC D → Prop) QE QP st :
  known h → (∀ n, Number_Uint64 h = Some n → is_u64 n → Q n st) → wp (header_number h) Q QE QP st.
Proof.
  intros Hk HQ. destruct (header_Number h Hk) as (n & Hn & Hr).
  unfold header_number. rewrite Hn. apply wp_ret. auto.
Qed.

Lemma SealHash_ok h : known h → ∃ x, SealHash Keccak256 h chainId = Some x.
Proof.
  intros Hk. destruct (known_ok h Hk) as [Hh Hx]. destruct chainId_ok as (c & -> & Hc).
  pose proof Hh as (_ & _ & _ & _ & _ & _ & (n & Hn & _) & (d & Hd & _) & _).
  unfold SealHash. unfold extraVanity, extraSeal in Hx.
  rewrite (sig_header_item h c d n) by (assumption || lia). by eexists.
Qed.

Lemma wp_ecrecover h st :
  known h → sigs_ok (signatures st) →
  wp (ecrecover Keccak256 crypto_Ecrecover h chainId : PM _)
    (λ v st', recover h = Some v ∧ sigs_only st st')
    (λ e st', recover h = None ∧ sigs_only st st' ∧ e ≠ ErrUnknownAncestor) (λ _, False) st.
Proof.
  intros Hk Hs. unfold ecrecover. wp_step.
  eapply wp_mono; [apply wp_sig_get|..]; cbn beta; try done.
  intros o st1 [H1 Ho]. destruct o as [v|].
  { apply wp_ret. split; [|done]. apply Hs; [done|]. by apply Ho. }
  pose proof (known_ok h Hk) as [_ Hx]. unfold extraVanity, extraSeal in Hx.
  destruct (SealHash_ok h Hk) as (x & Hseal).
  destruct (slice_ok (Extra h) (zlen (Extra h) - 65) (zlen (Extra h))) as (sg & Hsg & _); [lia..|].
  assert (Hrec : recover h = k ← crypto_Ecrecover (be_encode 32 x) sg; signer_of Keccak256 k).
  { unfold recover, extraSeal. by rewrite (proj2 (Z.ltb_ge _ 65)), Hsg, Hseal by lia. }
  unfold extraSeal. rewrite (proj2 (Z.ltb_ge _ 65)), Hsg, Hseal by lia.
  do 2 (wp_step; apply wp_ret). wp_step.
  destruct (crypto_Ecrecover (be_encode 32 x) sg) as [k|] eqn:Hek; [|by apply wp_fail].
  apply wp_ret. wp_step. cbn [mbind option_bind] in Hrec.
  assert (∃ a, signer_of Keccak256 k = Some a) as (a & Ha).
  { apply Ecrecover_pubkey in Hek. unfold signer_of.
    destruct (slice_ok k 1 (zlen k)) as (k' & -> & _); [lia..|]. by eexists. }
  rewrite Ha in *. apply wp_ret. wp_step. apply wp_modify. apply wp_ret. split; [done|].
  eapply sigs_only_trans; [exact H1|]. split_and!; try done. intros Hs1 h' v Hk' Hc.
  simpl in Hc. apply cached_add in Hc as [[Hhh ->]|Hc]; [|by apply Hs1].
  by apply collision_free in Hhh as ->.
Qed.

(** ** Ancestors *)

(** What the lookups of the engine return. *)
Record lookups_ok (chain : ChainHeaderReader) (parents : list Header) : Prop := {
  parents_known : Forall known parents;
  GetHeader_ok h n p : GetHeader chain h n = Some p →
    known p ∧ hash p = h ∧ Number_Uint64 p = Some n;
}.

(** The local chain has every block below [h]; [h] itself need not be there. *)
Definition holds_ancestors (chain : ChainHeaderReader) (h : Header) : Prop :=
  ∀ m a n, ancestor (S m) h a → Number_Uint64 a = Some n → GetHeader chain (hash a) n = Some a.

(** The local chain has the block of hash [x] and every block below it. *)
Definition holds_block (chain : ChainHeaderReader) (x : Hash) : Prop :=
  ∀ b, known b → hash b = x →
    (∀ n, Number_Uint64 b = Some n → GetHeader chain x n = Some b) ∧ holds_ancestors chain b.

(** What an error says: unless an ancestor may be missing, the rule is broken. *)
Definition rejected (full : Prop) (P : Prop) (e : parlia_error) : Prop :=
  e ≠ ErrUnknownAncestor ∨ full → ¬ P.

Lemma ancestor_app n m a b c : ancestor n a b → ancestor m b c → ancestor (n + m) a c.
Proof. induction 1; [done|]. intros Hc. cbn [Nat.add]. econstructor; eauto. Qed.

Lemma holds_up chain m h a : holds_ancestors chain h → ancestor m h a → holds_ancestors chain a.
Proof. intros Hh Ha k b n Hb. apply (Hh (m + k)%nat). rewrite <- Nat.add_succ_r. by eapply ancestor_app. Qed.

Lemma holds_parent chain h p n : holds_ancestors chain h → known p → hash p = ParentHash h →
  Number_Uint64 h = Some n → Number_Uint64 p = Some (sub64 n 1) → GetHeader chain (ParentHash h) (sub64 n 1) = Some p.
Proof.
  intros Hh Hk Hp Hn Hnp. rewrite <- Hp. apply (Hh 0%nat); [|done]. by econstructor; [..|constructor].
Qed.

(** The block below a header is there when its ancestors are. *)
Lemma holds_above chain h p n : holds_ancestors chain h → known p → hash p = ParentHash h →
  Number_Uint64 h = Some n → Number_Uint64 p = Some (sub64 n 1) → holds_block chain (ParentHash h).
Proof.
  intros Hh Hk Hp Hn Hnp b Hb Hbh.
  assert (b = p) as -> by (apply collision_free; congruence). split.
  - intros k Hnk. assert (k = sub64 n 1) as -> by congruence. by eapply holds_parent.
  - eapply (holds_up chain 1); [done|]. by econstructor; [..|constructor].
Qed.

Lemma ancestor_fun n h a b : ancestor n h a → ancestor n h b → a = b.
Proof.
  intros Ha. revert b. induction Ha as [h|n h p a k Hn Hp Hh Hpn Ha IH]; intros b Hb.
  - by inversion Hb.
  - inversion Hb as [|? ? p' ? k' Hn' Hp' Hh' Hpn' Hb']; subst. apply IH.
    by assert (p = p') as <- by (apply collision_free; congruence).
Qed.

Lemma ancestor_known n h a : ancestor n h a → known h → known a.
Proof. induction 1; auto. Qed.

Lemma Search_loop_total f fuel i j :
  (∀ x, i <= x < j → ∃ b, f x = Some b) → (Z.to_nat (j - i) < fuel)%nat → i <= j →
  ∃ r, Search_loop fuel f i j = Some r ∧ i <= r <= j.
Proof.
  revert i j. induction fuel as [|fuel IH]; intros i j Hf Hl Hij; [lia|]. simpl.
  destruct (Z.ltb_spec i j); [|exists i; split; [done|lia]].
  assert (i <= (i + j) / 2 < j).
  { split; [apply Z.div_le_lower_bound; lia|apply Z.div_lt_upper_bound; lia]. }
  destruct (Hf ((i + j) / 2)) as [b ->]; [lia|]. simpl. destruct b.
  - destruct (IH i ((i + j) / 2)) as (r & -> & Hr); [intros; apply Hf; lia|lia..|].
    exists r. split; [done|lia].
  - destruct (IH ((i + j) / 2 + 1) j) as (r & -> & Hr); [intros; apply Hf; lia|lia..|].
    exists r. split; [done|lia].
Qed.

Lemma index_known parents i : Forall known parents → 0 <= i < zlen parents →
  ∃ p, index parents i = Some p ∧ known p.
Proof.
  intros Hp Hi. destruct (index_ok parents i Hi) as [p H]. exists p. split; [done|].
  unfold index in H. destruct (0 <=? i); [|done]. by eapply Forall_lookup_1 in H.
Qed.

Lemma candidate_ok parents x height :
  Forall known parents →
  ∃ o, candidate Keccak256 parents x height = Some o ∧
    ∀ p, o = Some p → known p ∧ hash p = x ∧ Number_Uint64 p = Some height.
Proof.
  intros Hp. unfold candidate. case_if; zbool; [by exists None|].
  pose proof (zlen_nonneg parents). unfold sort_Search.
  destruct (Search_loop_total (λ i, p ← index parents i; n ← Number_Uint64 p; Some (height <=? n))
    (S (Z.to_nat (zlen parents))) 0 (zlen parents)) as (i & -> & Hi); [|lia..|].
  { intros i Hi. destruct (index_known parents i Hp Hi) as (p & -> & Hk).
    destruct (header_Number p Hk) as (n & Hn & _). simpl. rewrite Hn. by eexists. }
  simpl. destruct (Z.ltb_spec i (zlen parents)); [|by exists None].
  destruct (index_known parents i Hp) as (p & -> & Hk); [lia|].
  destruct (header_Number p Hk) as (n & Hn & _). simpl. rewrite Hn. simpl.
  eexists. split; [done|]. intros q Hq. destruct (_ && _) eqn:E; [|done]. simplify_eq. zbool. subst. auto.
Qed.

Lemma wp_ancient_loop n h chain parents st :
  lookups_ok chain parents → known h →
  wp (FindAncientHeader_loop Keccak256 n h chain parents : PM _)
    (λ o st', st' = st ∧ match o with Some a => ancestor n h a
                         | None => holds_ancestors chain h → ∀ a, ¬ ancestor n h a end)
    (λ _ _, False) (λ _, False) st.
Proof.
  intros Hl. revert h. induction n as [|n IH]; intros h Hk; simpl.
  { apply wp_ret. split; [done|]. constructor. }
  wp_step. apply wp_header_number; [done|]. intros k Hn Hr. wp_step.
  destruct (candidate_ok parents (ParentHash h) (sub64 k 1) (parents_known _ _ Hl)) as (o & -> & Ho).
  apply wp_ret.
  assert (Hgo : ∀ p, known p → hash p = ParentHash h → Number_Uint64 p = Some (sub64 k 1) →
    wp (FindAncientHeader_loop Keccak256 n p chain parents : PM _)
      (λ o st', st' = st ∧ match o with Some a => ancestor (S n) h a
                           | None => holds_ancestors chain h → ∀ a, ¬ ancestor (S n) h a end)
      (λ _ _, False) (λ _, False) st).
  { intros p Hp Hh Hpn. eapply wp_mono; [by apply IH|..]; cbn beta; try done.
    intros [a|] st' [-> Hr']; (split; [done|]); [by econstructor|].
    intros Hc a Ha. inversion Ha as [|? ? p' ? k' Hn' Hp' Hh' Hpn' Ha']; subst.
    assert (p' = p) as -> by (apply collision_free; congruence).
    apply (Hr' ltac:(eapply (holds_up chain 1); [done|]; by econstructor; [..|constructor]) a Ha'). }
  destruct o as [p|]; [by destruct (Ho p) as (? & ? & ?); auto|].
  destruct (GetHeader chain (ParentHash h) (sub64 k 1)) as [p|] eqn:Hg.
  - apply (GetHeader_ok _ _ Hl) in Hg as (? & ? & ?). auto.
  - apply wp_ret. split; [done|]. intros Hc a Ha. inversion Ha as [|? ? p ? k' Hn' Hp' Hh' Hpn' _]; subst.
    assert (k' = k) as -> by congruence. pose proof (holds_parent _ _ _ _ Hc Hp' Hh' Hn' Hpn'). congruence.
Qed.

(** ** One header *)

Lemma Validators_shift_out n s : Validators (shift_out n s) = Validators s.
Proof. unfold shift_out. by repeat case_if. Qed.
Lemma sconfig_shift_out n s : sconfig (shift_out n s) = sconfig s.
Proof. unfold shift_out. by repeat case_if. Qed.
Lemma Validators_signed s n v : Validators (signed s n v) = Validators s.
Proof. apply Validators_shift_out. Qed.

Lemma has_value_spec m v : has_value m v = true ↔ ∃ k, m !! k = Some v.
Proof.
  unfold has_value. rewrite existsb_exists. split.
  - intros ([k w] & Hin & Hw). zbool. simpl in Hw. subst. exists k.
    by apply elem_of_map_to_list, list_elem_of_In.
  - intros [k Hk]. exists (k, v). rewrite Z.eqb_refl. split; [|done].
    by apply list_elem_of_In, elem_of_map_to_list.
Qed.

Lemma validatorBytes_ok h : known h → ∃ b, validatorBytes h = Some b.
Proof.
  intros Hk. destruct (known_ok h Hk) as [_ Hx]. unfold validatorBytes.
  unfold extraVanity, extraSeal in *.
  destruct (slice_ok (Extra h) 32 (zlen (Extra h) - 65)) as (b & -> & _); [lia..|]. by exists b.
Qed.


Lemma wp_change_validators chain parents s h n v st :
  lookups_ok chain parents → known h → switches s n →
  wp (change_validators Keccak256 chain parents h n (signed s n v) : PM _)
    (λ s' st', switched s h n v s' ∧ st' = st)
    (λ e st', st' = st ∧ rejected (holds_ancestors chain h) (∃ s', switched s h n v s') e) (λ _, False) st.
Proof.
  intros Hl Hk Hsw. unfold change_validators. rewrite Validators_signed. wp_step.
  eapply wp_mono; [by apply wp_ancient_loop|..]; cbn beta; try done. intros o st' [-> Ho].
  wp_step. destruct o as [a|].
  2:{ apply wp_fail. split; [done|]. intros [?|Hc]; [done|].
      intros (s' & [(_ & a' & vals & Ha & _)|[? _]]); [|done]. by apply (Ho Hc a'). }
  apply wp_ret. wp_step.
  destruct (validatorBytes_ok a) as (b & Hb); [by eapply ancestor_known|].
  rewrite Hb. apply wp_ret. wp_step. destruct (ParseValidators b) as [l|] eqn:Hpv; simpl.
  - apply wp_ret. split; [|done]. left. split; [done|]. exists a, (list_to_set l).
    split_and!; try done. unfold announced. rewrite Hb. simpl. by rewrite Hpv.
  - apply wp_fail. split; [done|]. intros _ (s' & [(_ & a' & vals & Ha & Hann & _)|[? _]]); [|done].
    rewrite <- (ancestor_fun _ _ _ _ Ho Ha) in Hann. unfold announced in Hann.
    rewrite Hb in Hann. simpl in Hann. by rewrite Hpv in Hann.
Qed.

Lemma fork_hash_ok h : known h → ∃ f, slice (Extra h) (extraVanity - nextForkHashSize) extraVanity = Some f.
Proof.
  intros Hk. destruct (known_ok h Hk) as [_ Hx]. unfold extraVanity, extraSeal, nextForkHashSize in *.
  destruct (slice_ok (Extra h) (32 - 4) 32) as (f & -> & _); [lia..|]. by exists f.
Qed.

Lemma wp_set_change chain parents s h n v st :
  lookups_ok chain parents → known h → Epoch (sconfig s) ≠ 0 → is_u64 n →
  wp (if 0 <? n then
        if Epoch (sconfig (signed s n v)) =? 0 then throw PDivZero
        else if n mod Epoch (sconfig (signed s n v)) =? zsize (Validators (signed s n v)) / 2
        then change_validators Keccak256 chain parents h n (signed s n v) else ret (signed s n v)
      else ret (signed s n v) : PM _)
    (λ s' st', switched s h n v s' ∧ st' = st)
    (λ e st', st' = st ∧ rejected (holds_ancestors chain h) (∃ s', switched s h n v s') e) (λ _, False) st.
Proof.
  intros Hl Hk He Hn. unfold is_u64 in Hn. rewrite Validators_signed.
  change (sconfig (signed s n v)) with (sconfig (shift_out n s)). rewrite sconfig_shift_out.
  rewrite (proj2 (Z.eqb_neq _ 0)) by done.
  destruct (Z.ltb_spec 0 n); [|apply wp_ret; split; [|done]; right; split; [unfold switches; lia|done]].
  destruct (Z.eqb_spec (n mod Epoch (sconfig s)) (zsize (Validators s) / 2)) as [Hsw|Hsw].
  - by apply wp_change_validators.
  - apply wp_ret. split; [|done]. right. split; [|done]. by intros [_ ?].
Qed.

Lemma wp_apply_header chain parents s h st :
  lookups_ok chain parents → known h → sigs_ok (signatures st) → Epoch (sconfig s) ≠ 0 →
  wp (apply_header Keccak256 crypto_Ecrecover chain parents chainId s h : PM _)
    (λ s' st', follows s h s' ∧ sigs_only st st')
    (λ e st', sigs_only st st' ∧ rejected (holds_ancestors chain h) (∃ s', follows s h s') e) (λ _, False) st.
Proof.
  intros Hl Hk Hs He. unfold apply_header. wp_step. apply wp_header_number; [done|]. intros n Hn Hnr.
  wp_step. eapply wp_mono; [by apply wp_ecrecover|..]; cbn beta; [| |done].
  2:{ intros e st' (Hnone & H1 & _). split; [done|]. intros _ (s' & n' & v' & s1 & _ & Hv & _). congruence. }
  intros v st1 [Hv H1]. rewrite Validators_shift_out.
  assert (Hrej : ¬ may_sign s n v → ∀ e, rejected (holds_ancestors chain h) (∃ s', follows s h s') e).
  { intros Hno e _ (s' & n' & v' & s1 & Hn' & Hv' & Hmay & _). simplify_eq. }
  destruct (bool_decide (v ∈ Validators s)) eqn:Hin; simpl.
  2:{ apply wp_fail. split; [done|]. apply Hrej. intros [? _]. by apply bool_decide_eq_false in Hin. }
  apply bool_decide_eq_true in Hin. destruct (has_value (Recents (shift_out n s)) v) eqn:Hrec.
  { apply wp_fail. split; [done|]. apply has_value_spec in Hrec as [k Hk'].
    apply Hrej. intros [_ Hno]. by apply (Hno k). }
  assert (Hmay : may_sign s n v).
  { split; [done|]. intros k Hk'. enough (has_value (Recents (shift_out n s)) v = true) by congruence.
    apply has_value_spec. by exists k. }
  change (set_recents (shift_out n s) _) with (signed s n v). wp_step.
  eapply wp_mono; [by apply wp_set_change|..]; cbn beta; [| |done].
  2:{ intros e st' [-> Hr]. split; [done|]. intros Hne (s' & n' & v' & s1 & Hn' & Hv' & _ & _ & Hsw & _).
      simplify_eq. apply (Hr Hne). by exists s1. }
  intros s1 st2 [Hsw ->]. wp_step. destruct (fork_hash_ok h Hk) as (f & Hf). rewrite Hf.
  apply wp_ret. apply wp_ret. split; [|done]. exists n, v, s1. split_and!; try done. by exists f.
Qed.

(** ** Chains of headers *)

Lemma sconfig_follows s h s' : follows s h s' → sconfig s' = sconfig s.
Proof.
  intros (n & v & s1 & _ & _ & _ & _ & Hsw & f & _ & ->).
  assert (sconfig (signed s n v) = sconfig s) by apply sconfig_shift_out.
  destruct Hsw as [(_ & a & vals & _ & _ & ->)|[_ ->]]; done.
Qed.

(** [follows] does not look at the number and hash of the snapshot, and keeps them. *)
Lemma shift_out_renumber n s k x : shift_out n (renumber s k x) = renumber (shift_out n s) k x.
Proof. unfold shift_out. simpl. do 2 (case_if; simpl); done. Qed.

Lemma follows_renumber s h s' k x : follows s h s' → follows (renumber s k x) h (renumber s' k x).
Proof.
  intros (n & v & s1 & Hn & Hv & [Hin Hno] & He & Hsw & f & Hf & ->).
  exists n, v, (renumber s1 k x). split_and!; try done.
  - split; [done|]. intros k'. rewrite shift_out_renumber. apply Hno.
  - unfold switched, signed. rewrite shift_out_renumber.
    destruct Hsw as [(Hs & a & vals & ? & ? & ->)|[? ->]]; [left|by right].
    split; [done|]. exists a, vals. by split_and!.
  - by exists f.
Qed.

Lemma follows_keeps s h s' : follows s h s' → snap_Number s' = snap_Number s ∧ snap_Hash s' = snap_Hash s.
Proof.
  intros (n & v & s1 & _ & _ & _ & _ & Hsw & f & _ & ->).
  assert (snap_Number (signed s n v) = snap_Number s ∧ snap_Hash (signed s n v) = snap_Hash s).
  { unfold signed, shift_out. by repeat case_if. }
  destruct Hsw as [(_ & a & vals & _ & _ & ->)|[_ ->]]; done.
Qed.

Fixpoint follows_all (s : Snapshot) (hs : list Header) (s' : Snapshot) : Prop :=
  match hs with
  | [] => s' = s
  | h :: hs => ∃ s1, follows s h s1 ∧ follows_all s1 hs s'
  end.

(** The headers continue the block of number [n] and hash [x]. *)
Fixpoint linked (n : Z) (x : Hash) (hs : list Header) : Prop :=
  match hs with
  | [] => True
  | h :: hs => Number_Uint64 h = Some (add64 n 1) ∧ ParentHash h = x ∧ linked (add64 n 1) (hash h) hs
  end.

Lemma renumber_renumber s k x k' x' : renumber (renumber s k x) k' x' = renumber s k' x'.
Proof. done. Qed.
Lemma renumber_id s : renumber s (snap_Number s) (snap_Hash s) = s.
Proof. by destruct s. Qed.

Lemma follows_all_renumber s hs s' k x :
  follows_all s hs s' → follows_all (renumber s k x) hs (renumber s' k x).
Proof.
  revert s. induction hs as [|h hs IH]; intros s; simpl; [by intros ->|].
  intros (s1 & H1 & H2). exists (renumber s1 k x). auto using follows_renumber.
Qed.

(** The number and hash after [hs]. *)
Definition end_number (n : Z) (hs : list Header) : Z := add64 n (zlen hs).
Definition end_hash (x : Hash) (hs : list Header) : Hash := List.last (map hash hs) x.

Lemma add64_add64 a b c : add64 (add64 a b) c = add64 a (b + c).
Proof. unfold add64, u64. rewrite Zplus_mod_idemp_l. f_equal. lia. Qed.

Lemma end_number_nil n : 0 <= n < 2 ^ 64 → end_number n [] = n.
Proof.
  intros. unfold end_number. change (zlen []) with 0. rewrite add64_small, Z.add_0_r; [done|].
  unfold is_u64. lia.
Qed.

Lemma end_number_cons n h hs : end_number n (h :: hs) = end_number (add64 n 1) hs.
Proof. unfold end_number. rewrite add64_add64, zlen_cons. f_equal. lia. Qed.
Lemma last_cons {A} (x y : A) l : List.last (x :: l) y = List.last l x.
Proof.
  revert x y. induction l as [|z l IH]; intros x y; [done|].
  change (List.last (z :: l) y = List.last (z :: l) x). by rewrite !IH.
Qed.

Lemma end_hash_cons x h hs : end_hash x (h :: hs) = end_hash (hash h) hs.
Proof. apply last_cons. Qed.

Lemma reaches_cons s h hs s' :
  reaches s (h :: hs) s' ↔ ∃ s1, next s h s1 ∧ reaches s1 hs s'.
Proof.
  split.
  - intros (ss & Hr & Hl). inversion Hr as [|? ? s1 ? ss' Hn Hr']; subst. exists s1.
    split; [done|]. exists ss'. by rewrite last_cons.
  - intros (s1 & Hn & ss & Hr & Hl). exists (s1 :: ss). rewrite last_cons. split; [by constructor|done].
Qed.

Lemma reaches_linked s hs s' : 0 <= snap_Number s < 2 ^ 64 →
  reaches s hs s' ↔
  linked (snap_Number s) (snap_Hash s) hs ∧ ∃ s1, follows_all s hs s1 ∧
    s' = renumber s1 (end_number (snap_Number s) hs) (end_hash (snap_Hash s) hs).
Proof.
  revert s. induction hs as [|h hs IH]; intros s Hs; simpl.
  - split.
    + intros (ss & Hr & <-). inversion Hr; subst. split; [done|]. exists s. split; [done|].
      by rewrite end_number_nil, renumber_id.
    + intros (_ & s1 & -> & ->). exists []. split; [constructor|].
      by rewrite end_number_nil, renumber_id.
  - rewrite reaches_cons, end_number_cons, end_hash_cons. split.
    + intros (s1 & [Hp Hn (s2 & Hf & ->)] & Hr). apply IH in Hr as (Hl & s3 & Hf3 & ->); [|apply u64_range].
      split; [done|]. exists (renumber s3 (snap_Number s2) (snap_Hash s2)). split; [|done]. exists s2. split; [done|].
      rewrite <- (renumber_id s2) at 1. by apply (follows_all_renumber _ _ _ (snap_Number s2) (snap_Hash s2)) in Hf3.
    + intros ((Hn & Hp & Hl) & s1 & (s2 & Hf & Hf1) & ->).
      exists (at_header s2 (add64 (snap_Number s) 1) h). split; [split; eauto|].
      apply IH; [apply u64_range|]. split; [done|].
      exists (renumber s1 (add64 (snap_Number s) 1) (hash h)). split; [|done].
      by apply follows_all_renumber.
Qed.

Lemma follows_fun s h s1 s2 : follows s h s1 → follows s h s2 → s1 = s2.
Proof.
  intros (n & v & t1 & Hn & Hv & _ & _ & Hsw & f & Hf & ->) (n' & v' & t2 & Hn' & Hv' & _ & _ & Hsw' & f' & Hf' & ->).
  assert (n' = n ∧ v' = v ∧ f' = f) as (-> & -> & ->) by (split_and!; congruence).
  enough (t1 = t2) as -> by done.
  destruct Hsw as [(Hs & a & vs & Ha & Hvs & ->)|[Hs ->]],
    Hsw' as [(Hs' & a' & vs' & Ha' & Hvs' & ->)|[Hs' ->]]; try done.
  rewrite (ancestor_fun _ _ _ _ Ha Ha') in Hvs. congruence.
Qed.

Lemma wp_apply_headers chain parents s hs st :
  lookups_ok chain parents → Forall known hs → sigs_ok (signatures st) → Epoch (sconfig s) ≠ 0 →
  wp (apply_headers Keccak256 crypto_Ecrecover chain parents chainId s hs : PM _)
    (λ s' st', follows_all s hs s' ∧ sigs_only st st')
    (λ e st', sigs_only st st' ∧ rejected (Forall (holds_ancestors chain) hs) (∃ s', follows_all s hs s') e) (λ _, False) st.
Proof.
  intros Hl Hhs. revert s st. induction Hhs as [|h hs Hk Hhs IH]; intros s st Hs He; simpl.
  { by apply wp_ret. }
  wp_step. eapply wp_mono; [by apply wp_apply_header|..]; cbn beta; [| |done].
  - intros s1 st1 [Hf H1]. eapply wp_mono; [apply IH|..]; cbn beta; [|..|done].
    + by apply H1.
    + by rewrite (sconfig_follows _ _ _ Hf).
    + intros s2 st2 [Hf2 H2]. split; [by exists s1|by eapply sigs_only_trans].
    + intros e st2 [H2 Hr]. split; [by eapply sigs_only_trans|].
      intros Hne (s2 & s1' & Hf' & Hf2). rewrite (follows_fun _ _ _ _ Hf' Hf) in Hf2.
      apply Hr; [|by exists s2]. destruct Hne as [?|Hall]; [by left|right; by inversion Hall].
  - intros e st1 [H1 Hr]. split; [done|]. intros Hne (s2 & s1 & Hf & _). apply Hr; [|by exists s1].
    destruct Hne as [?|Hall]; [by left|right; by inversion Hall].
Qed.

(** Each header continues the one before it. *)
Definition links (hs : list Header) : Prop :=
  match hs with
  | [] => True
  | h :: tl => ∀ n, Number_Uint64 h = Some n → linked n (hash h) tl
  end.

Lemma wp_check_links hs st :
  Forall known hs →
  wp (check_links Keccak256 hs : PM _) (λ _ st', st' = st ∧ links hs)
    (λ e st', st' = st ∧ ¬ links hs ∧ e ≠ ErrUnknownAncestor) (λ _, False) st.
Proof.
  induction 1 as [|h1 hs Hk Hhs IH]; simpl; [by apply wp_ret|].
  destruct hs as [|h2 hs]; [by apply wp_ret|]. inversion_clear Hhs as [|? ? Hk2 _].
  wp_step. apply wp_header_number; [done|]. intros n2 Hn2 _.
  wp_step. apply wp_header_number; [done|]. intros n1 Hn1 _.
  destruct (Z.eqb_spec n2 (add64 n1 1)) as [->|Hne]; simpl.
  2:{ apply wp_fail. split_and!; try done. intros Hls. destruct (Hls n1 Hn1) as (? & _). congruence. }
  destruct (Z.eqb_spec (ParentHash h2) (hash h1)) as [Hp|Hne]; simpl.
  2:{ apply wp_fail. split_and!; try done. by intros Hls; destruct (Hls n1 Hn1) as (_ & ? & _). }
  eapply wp_mono; [apply IH|..]; cbn beta; try done.
  - intros _ st' [-> Hls]. split; [done|]. intros n Hn. simplify_eq. split_and!; try done. by apply Hls.
  - intros e st' (-> & Hno & He). split_and!; try done. intros Hls. apply Hno. intros n Hn. simplify_eq.
    by destruct (Hls n1 Hn1) as (_ & _ & ?).
Qed.

Lemma linked_cons n x h hs : Number_Uint64 h = Some (add64 n 1) → ParentHash h = x →
  linked n x (h :: hs) ↔ links (h :: hs).
Proof.
  intros Hn Hp. simpl. split.
  - intros (_ & _ & Hl) k Hk. congruence.
  - intros Hl. split_and!; auto.
Qed.

Lemma follows_all_keeps s hs s' : follows_all s hs s' → snap_Number s' = snap_Number s.
Proof.
  revert s. induction hs as [|h hs IH]; intros s; simpl; [by intros ->|].
  intros (s1 & H1 & H2). rewrite (IH _ H2). by apply (follows_keeps _ _ _ H1).
Qed.

Lemma last_map h hs x : List.last (map hash (h :: hs)) x = hash (List.last (h :: hs) h).
Proof.
  cbn [map]. rewrite !last_cons. revert h. induction hs as [|k hs IH]; intros h; [done|].
  cbn [map]. by rewrite !last_cons.
Qed.

Lemma wp_apply chain parents s hs st :
  lookups_ok chain parents → Forall known hs → sigs_ok (signatures st) → Epoch (sconfig s) ≠ 0 →
  0 <= snap_Number s < 2 ^ 64 →
  wp (apply Keccak256 crypto_Ecrecover chain parents chainId s hs : PM _)
    (λ s' st', reaches s hs s' ∧ sigs_only st st')
    (λ e st', sigs_only st st' ∧ rejected (Forall (holds_ancestors chain) hs) (∃ s', reaches s hs s') e) (λ _, False) st.
Proof.
  intros Hl Hhs Hs He Hn. unfold apply. destruct hs as [|h hs].
  { apply wp_ret. split; [|done]. exists []. split; [constructor|done]. }
  assert (Hrej : ¬ linked (snap_Number s) (snap_Hash s) (h :: hs) →
    ∀ e, rejected (Forall (holds_ancestors chain) (h :: hs)) (∃ s', reaches s (h :: hs) s') e).
  { intros Hno e _ (s' & Hr). by apply reaches_linked in Hr as [? _]. }
  inversion Hhs as [|? ? Hk _]; subst.
  wp_step. eapply wp_mono; [by apply wp_check_links|..]; cbn beta; [| |done].
  2:{ intros e st' (-> & Hno & _). split; [done|]. apply Hrej. intros Hlk. apply Hno.
      by destruct Hlk as (E1 & E2 & Hlk); apply (linked_cons (snap_Number s) (snap_Hash s)). }
  intros _ st' [-> Hls]. wp_step. apply wp_header_number; [done|]. intros n0 Hn0 _.
  destruct (Z.eqb_spec n0 (add64 (snap_Number s) 1)) as [->|Hne]; simpl negb; cbn iota.
  2:{ apply wp_fail. split; [done|]. apply Hrej. intros (E & _). congruence. }
  destruct (Z.eqb_spec (ParentHash h) (snap_Hash s)) as [Hp|Hne]; simpl negb; cbn iota.
  2:{ apply wp_fail. split; [done|]. apply Hrej. by intros (_ & E & _). }
  wp_step. eapply wp_mono; [by apply wp_apply_headers|..]; cbn beta; [| |done].
  - intros s1 st1 [Hf H1]. apply wp_ret. split; [|done]. apply reaches_linked; [done|].
    split; [by apply linked_cons|]. exists s1. split; [done|].
    unfold renumber, end_number, end_hash.
    rewrite (follows_all_keeps _ _ _ Hf), (last_map h hs (snap_Hash s)). done.
  - intros e st1 [H1 Hr]. split; [done|]. intros Hne (s' & Hr'). apply (Hr Hne).
    apply reaches_linked in Hr' as (_ & s1 & Hf & _); [|done]. by exists s1.
Qed.

(** ** The window of recent signers *)

Definition limit (s : Snapshot) : Z := zsize (Validators s) / 2 + 1.

(** The recent signers are among the last [limit] blocks, and all different. *)
Record recents_ok (s : Snapshot) : Prop := {
  set_small : zsize (Validators s) < 2 ^ 62;
  recents_window k v : Recents s !! k = Some v → 0 <= k /\ snap_Number s - limit s < k <= snap_Number s;
  recents_inj k k' v : Recents s !! k = Some v → Recents s !! k' = Some v → k = k';
}.

Lemma limit_pos s : 1 <= limit s.
Proof. unfold limit, zsize. pose proof (Z.div_pos (Z.of_nat (size (Validators s))) 2). lia. Qed.

Lemma lookup_delete_range {A} n from (m : gmap Z A) k x : is_u64 from →
  delete_range n from m !! k = Some x ↔
  m !! k = Some x ∧ ∀ i, 0 <= i < Z.of_nat n → k ≠ u64 (from - i).
Proof.
  revert from m. induction n as [|n IH]; intros from m Hf; simpl.
  { split; [intros ?; split; [done|lia]|by intros [? _]]. }
  rewrite IH, lookup_delete_Some by apply u64_range. unfold sub64. split.
  - intros ((Hne & Hm) & Hi). split; [done|]. intros i Hin.
    destruct (Z.eq_dec i 0) as [->|]; [rewrite Z.sub_0_r, u64_small by done; congruence|].
    specialize (Hi (i - 1) ltac:(lia)). unfold u64 in *. rewrite Zminus_mod_idemp_l in Hi.
    by replace (from - 1 - (i - 1)) with (from - i) in Hi by lia.
  - intros (Hm & Hi). split_and!; [|done|].
    + specialize (Hi 0 ltac:(lia)). rewrite Z.sub_0_r, u64_small in Hi by done. congruence.
    + intros i Hin. specialize (Hi (i + 1) ltac:(lia)). unfold u64 in *. rewrite Zminus_mod_idemp_l.
      by replace (from - 1 - i) with (from - (i + 1)) by lia.
Qed.

Lemma Recents_shift_out s n k v : 0 <= n < 2 ^ 64 →
  Recents (shift_out n s) !! k = Some v ↔ Recents s !! k = Some v ∧ (limit s <= n → k ≠ n - limit s).
Proof using Type.
  clear known_ok collision_free chainId_ok. intros Hn. pose proof (limit_pos s). unfold shift_out.
  assert (Hrec : Recents (if limit s <=? n then set_recents s (delete (sub64 n (limit s)) (Recents s)) else s)
    !! k = Some v ↔ Recents s !! k = Some v ∧ (limit s <= n → k ≠ n - limit s)).
  { destruct (Z.leb_spec (limit s) n); simpl.
    - rewrite lookup_delete_Some, sub64_small by (unfold is_u64; lia). naive_solver.
    - split; [|by intros [? _]]. intros ?. split; [done|lia]. }
  assert (Hf : ∀ (b : bool) s1 f, Recents (if b then set_forks s1 f else s1) = Recents s1) by by intros [].
  by rewrite Hf.
Qed.

Lemma limit_small s : zsize (Validators s) < 2 ^ 62 → limit s < 2 ^ 62.
Proof. intros. unfold limit, zsize in *. pose proof (Z.div_le_upper_bound (Z.of_nat (size (Validators s))) 2 (2 ^ 61)). lia. Qed.

Lemma u64_neg x : - 2 ^ 64 <= x < 0 → u64 x = x + 2 ^ 64.
Proof. intros. unfold u64. symmetry. apply Z.mod_unique with (q := -1); lia. Qed.

Lemma Recents_switch s n vals k v :
  0 <= n < 2 ^ 63 → zsize vals < 2 ^ 62 → zsize (Validators s) < 2 ^ 62 →
  0 <= k <= n → n - limit s < k →
  Recents (switch_validators n vals s) !! k = Some v ↔
  Recents s !! k = Some v ∧ n - limit (switch_validators n vals s) < k.
Proof.
  intros Hn Hv Hs Hk Hkl. pose proof (limit_small s Hs).
  pose proof (limit_small (switch_validators n vals s) Hv).
  pose proof (limit_pos (switch_validators n vals s)). unfold switch_validators at 1. simpl.
  fold (limit s). change (zsize vals / 2 + 1) with (limit (switch_validators n vals s)).
  set (L' := limit (switch_validators n vals s)) in *.
  rewrite lookup_delete_range by apply u64_range.
  assert (Hu : ∀ i, u64 (sub64 n L' - i) = u64 (n - L' - i)).
  { intros i. unfold sub64, u64. by rewrite Zminus_mod_idemp_l. }
  split; intros [Hm Hd]; (split; [done|]).
  - destruct (Z.lt_ge_cases (n - L') k); [done|]. exfalso.
    apply (Hd (n - L' - k)); [lia|]. rewrite Hu, u64_small by (unfold is_u64; lia). lia.
  - intros i Hi ->. rewrite Hu in *. destruct (Z.lt_ge_cases (n - L' - i) 0).
    + rewrite u64_neg in * by lia. lia.
    + rewrite u64_small in * by (unfold is_u64; lia). lia.
Qed.

Lemma zsize_announced a vals : known a → announced a = Some vals → zsize vals < 2 ^ 62.
Proof.
  intros Hk Ha. destruct (known_ok a Hk) as [(_ & _ & _ & _ & _ & Hl & _) _].
  unfold announced in Ha. destruct (validatorBytes a) as [b|] eqn:Hb; [|done]. simpl in Ha.
  destruct (ParseValidators b) as [l|] eqn:Hp; [|done]. simpl in Ha. injection Ha as <-.
  assert (Hbl : zlen b <= zlen (Extra a)).
  { unfold validatorBytes, slice in Hb. case_match; [|done]. injection Hb as <-.
    unfold zlen. rewrite length_take, length_drop. lia. }
  assert (Hll : (length l <= Z.to_nat (zlen b / 20))%nat).
  { unfold ParseValidators, validatorBytesLength, AddressLength in Hp. case_match; [done|].
    injection Hp as <-. clear. generalize (Z.to_nat (zlen b / 20)) as n. intros n.
    revert b. induction n as [|n IH]; intros b; simpl; [done|]. apply le_n_S, IH. }
  pose proof (Z.div_le_upper_bound (zlen b) 20 (2 ^ 60)). unfold zsize.
  pose proof (zlen_nonneg b). pose proof (Z.div_pos (zlen b) 20).
  assert ((size (list_to_set l : gset Address) <= length l)%nat); [|lia].
  clear. induction l as [|x l IH]; [rewrite list_to_set_nil, size_empty; done|].
  rewrite list_to_set_cons. pose proof (size_union_alt ({[x]} : gset Address) (list_to_set l)) as Hu.
  rewrite size_singleton in Hu. rewrite Hu. cbn [length].
  pose proof (subseteq_size (list_to_set l ∖ {[x]} : gset Address) (list_to_set l)
    (subseteq_difference_l _ _ _ (reflexivity _))). lia.
Qed.

(** The window after a header: the new signer, and the old ones still in reach of both
    the old and the new limit. *)
Lemma Recents_next s h s' v k w :
  recents_ok s → known h → next s h s' → recover h = Some v →
  0 <= snap_Number s < 2 ^ 63 - 1 →
  (Recents s' !! k = Some w ↔
   (k = snap_Number s + 1 ∧ w = v) ∨
   (Recents s !! k = Some w ∧ snap_Number s + 1 - limit s < k ∧ snap_Number s + 1 - limit s' < k)).
Proof.
  intros Hok Hkn [_ Hnum (s0 & (n & v' & s1 & Hn & Hv & _ & _ & Hsw & f & _ & ->) & ->)] Hv' Hs.
  rewrite Hnum in Hn. injection Hn as <-. rewrite Hv' in Hv. injection Hv as <-.
  rewrite add64_small in * by (unfold is_u64; lia). set (n := snap_Number s + 1) in *. pose proof (limit_pos s).
  assert (Hsg : ∀ k w, Recents (signed s n v) !! k = Some w ↔
    (k = n ∧ w = v) ∨ (Recents s !! k = Some w ∧ n - limit s < k)).
  { intros k' w'. unfold signed. simpl. rewrite lookup_insert_Some, Recents_shift_out by lia. split.
    - intros [[-> ->]|(Hne & Hr & Hno)]; [by left|]. right. split; [done|].
      apply (recents_window _ Hok) in Hr. destruct (Z.le_gt_cases (limit s) n); [specialize (Hno ltac:(done))|]; lia.
    - intros [[-> ->]|(Hr & Hno)]; [by left|]. right. pose proof (recents_window _ Hok _ _ Hr).
      split; [lia|]. split; [done|lia]. }
  assert (Hlim : limit (signed s n v) = limit s) by (unfold limit; by rewrite Validators_signed).
  destruct Hsw as [(_ & a & vals & Ha & Hann & ->)|[_ ->]]; cbn [Recents at_header renumber set_forks].
  - pose proof (zsize_announced a vals (ancestor_known _ _ _ Ha Hkn) Hann) as Hsz.
    change (limit (at_header _ n h)) with (limit (switch_validators n vals (signed s n v))).
    pose proof (limit_pos (switch_validators n vals (signed s n v))).
    assert (Hsm : zsize (Validators (signed s n v)) < 2 ^ 62) by (rewrite Validators_signed; apply Hok).
    split.
    + intros Hr. assert (Hold : Recents (signed s n v) !! k = Some w).
      { simpl in Hr. by apply lookup_delete_range in Hr as [? _]; [|apply u64_range]. }
      pose proof Hold as Hin. apply Hsg in Hin.
      assert (0 <= k <= n ∧ n - limit s < k).
      { destruct Hin as [[-> _]|[Hr' ?]]; [lia|]. pose proof (recents_window _ Hok _ _ Hr'). lia. }
      apply Recents_switch in Hr as [_ Hlt]; [|lia..|lia]. naive_solver.
    + intros Hin. assert (Recents (signed s n v) !! k = Some w) as Hold by (apply Hsg; naive_solver).
      assert (0 <= k <= n ∧ n - limit s < k ∧ n - limit (switch_validators n vals (signed s n v)) < k).
      { destruct Hin as [[-> _]|(Hr' & ? & ?)]; [lia|]. pose proof (recents_window _ Hok _ _ Hr'). lia. }
      apply Recents_switch; [lia..|]. naive_solver.
  - rewrite Hsg. change (limit (at_header _ n h)) with (limit (signed s n v)). rewrite Hlim. naive_solver.
Qed.

Lemma next_not_recent s h s' v k :
  recents_ok s → next s h s' → recover h = Some v → 0 <= snap_Number s < 2 ^ 63 - 1 →
  Recents s !! k = Some v → k <= snap_Number s + 1 - limit s.
Proof.
  intros Hok [_ Hnum (s0 & (n & v' & s1 & Hn & Hv & [_ Hno] & _) & _)] Hv' Hs Hk.
  rewrite Hnum in Hn. injection Hn as <-. rewrite Hv' in Hv. injection Hv as <-.
  rewrite add64_small in Hno by (unfold is_u64; lia).
  destruct (Z.le_gt_cases k (snap_Number s + 1 - limit s)); [done|]. exfalso.
  apply (Hno k), Recents_shift_out; [lia|]. split; [done|lia].
Qed.

Lemma Number_next s h s' : next s h s' → 0 <= snap_Number s < 2 ^ 63 - 1 → snap_Number s' = snap_Number s + 1.
Proof. intros [_ _ (s0 & _ & ->)] Hs. simpl. apply add64_small. unfold is_u64. lia. Qed.

Lemma next_signer s h s' : next s h s' → ∃ v, recover h = Some v ∧ v ∈ Validators s.
Proof. intros [_ _ (s0 & (n & v & s1 & _ & Hv & [Hin _] & _) & _)]. by exists v. Qed.

Lemma set_small_next s h s' : known h → next s h s' → zsize (Validators s) < 2 ^ 62 → zsize (Validators s') < 2 ^ 62.
Proof.
  intros Hk [_ _ (s0 & (n & v & s1 & _ & _ & _ & _ & Hsw & f & _ & ->) & ->)] Hs.
  destruct Hsw as [(_ & a & vals & Ha & Hann & ->)|[_ ->]]; simpl.
  - apply (zsize_announced a vals); [|done]. by eapply ancestor_known.
  - by rewrite Validators_shift_out.
Qed.

Lemma recents_next s h s' :
  recents_ok s → known h → next s h s' → 0 <= snap_Number s < 2 ^ 63 - 1 → recents_ok s'.
Proof.
  intros Hok Hk Hn Hs. destruct (next_signer _ _ _ Hn) as (v & Hv & _).
  pose proof (λ k w, Recents_next s h s' v k w Hok Hk Hn Hv Hs) as Hr.
  pose proof (Number_next _ _ _ Hn Hs) as Hnum. pose proof (limit_pos s').
  split.
  - by eapply set_small_next; [..|apply Hok].
  - intros k w Hkw. apply Hr in Hkw as [[-> _]|(Hkw & ? & ?)]; [lia|].
    pose proof (recents_window _ Hok _ _ Hkw). lia.
  - intros k k' w Hkw Hkw'. pose proof (λ k, next_not_recent s h s' v k Hok Hn Hv Hs) as Hno.
    apply Hr in Hkw as [[-> ->]|(Hkw & ? & ?)], Hkw' as [[-> ?]|(Hkw' & ? & ?)]; subst; try done.
    + specialize (Hno _ Hkw'). lia.
    + specialize (Hno _ Hkw). lia.
    + by apply (recents_inj _ Hok _ _ w).
Qed.

(** ** Runs *)

Lemma run_lookup s hs ss j hj :
  run s hs ss → hs !! j = Some hj →
  ∃ sj sj', (s :: ss) !! j = Some sj ∧ ss !! j = Some sj' ∧ next sj hj sj'.
Proof.
  intros Hr. revert j. induction Hr as [s|s h s' hs ss Hn Hr IH]; intros [|j] Hj; simplify_eq/=.
  - by exists s, s'.
  - destruct (IH j Hj) as (sj & sj' & H1 & H2 & H3). by exists sj, sj'.
Qed.

Lemma run_state s hs ss j sj :
  run s hs ss → Forall known hs → recents_ok s → 0 <= snap_Number s → snap_Number s + zlen hs < 2 ^ 63 →
  (s :: ss) !! j = Some sj →
  recents_ok sj ∧ snap_Number sj = snap_Number s + Z.of_nat j.
Proof.
  intros Hr. revert j. induction Hr as [s|s h s' hs ss Hn Hr IH]; intros j Hk Hok H0 Hb Hj.
  - destruct j; [|done]. simplify_eq/=. split; [done|lia].
  - destruct j; [simplify_eq/=; split; [done|lia]|]. inversion_clear Hk as [|? ? Hkh Hkt].
    rewrite zlen_cons in Hb. pose proof (zlen_nonneg hs).
    pose proof (Number_next _ _ _ Hn ltac:(lia)) as Hnum.
    destruct (IH j) as [Ho Hnj]; [done| |lia|lia|done|].
    + eapply recents_next; eauto. lia.
    + split; [done|lia].
Qed.

(** A signer stays among the recent ones while the limit has not passed. *)
Lemma run_recent s hs ss i j hi v sj :
  run s hs ss → Forall known hs → recents_ok s → 0 <= snap_Number s → snap_Number s + zlen hs < 2 ^ 63 →
  hs !! i = Some hi → recover hi = Some v → (i < j)%nat → (s :: ss) !! j = Some sj →
  (∀ k sk, (i <= k < j)%nat → ss !! k = Some sk → Z.of_nat (j - i) <= limit sk) →
  Recents sj !! (snap_Number s + Z.of_nat i + 1) = Some v.
Proof.
  intros Hr Hk Hok H0 Hb Hi Hv Hij. revert sj. induction Hij as [|j Hij IH]; intros sj Hj Hlim.
  - destruct (run_lookup _ _ _ _ _ Hr Hi) as (si & si' & Hsi & Hsi' & Hn).
    change (ss !! i = Some sj) in Hj. assert (si' = sj) as -> by congruence. destruct (run_state _ _ _ _ _ Hr Hk Hok H0 Hb Hsi) as [Hoki Hni].
    apply lookup_lt_Some in Hi as Hlt. assert (known hi) by by eapply Forall_lookup_1.
    rewrite (Recents_next si hi sj v) by (done || unfold zlen in *; lia). left. split; [lia|done].
  - assert (∃ hj, hs !! j = Some hj) as [hj Hhj].
    { apply lookup_lt_is_Some. cbn in Hj. apply lookup_lt_Some in Hj.
      assert (length ss = length hs) as <-; [|lia]. clear -Hr. induction Hr; simpl; congruence. }
    destruct (run_lookup _ _ _ _ _ Hr Hhj) as (s0 & s1 & Hs0 & Hs1 & Hn). 
    change (ss !! j = Some sj) in Hj. assert (s1 = sj) as -> by congruence. destruct (run_state _ _ _ _ _ Hr Hk Hok H0 Hb Hs0) as [Hok0 Hn0].
    destruct (next_signer _ _ _ Hn) as (w & Hw & _).
    apply lookup_lt_Some in Hhj as Hlt. assert (known hj) by by eapply Forall_lookup_1.
    rewrite (Recents_next s0 hj sj w) by (done || unfold zlen in *; lia). right.
    assert (Hl0 : Z.of_nat (S j - i) <= limit s0).
    { destruct j as [|j]; [lia|]. apply (Hlim j); [lia|done]. }
    assert (Hl1 : Z.of_nat (S j - i) <= limit sj) by (apply (Hlim j); [lia|done]).
    split_and!; [|lia..]. apply IH; [done|]. intros k sk Hkk Hsk. specialize (Hlim k sk ltac:(lia) Hsk). lia.
Qed.
End chain.
