(* ===== verification/ParliaRule.v ===== *)
(** * The rule of the authority set

    Who may sign the next block and what is recorded of it, in plain arithmetic and as
    maps of recent blocks: nothing here is taken from [consensus/parlia/snapshot.go],
    whose bookkeeping - one entry deleted for every header, a range of them when the set
    shrinks - is proved to keep these windows. *)

From S2P Require Import Prelude Rlp Header Hexutil Params ParliaSnapshot ParliaTurns ParliaChain.

(** The entries of a map of blocks that are above block [n]. *)
Definition above {A} (n : Z) (m : gmap Z A) : gmap Z A := base.filter (λ e : Z * A, n < e.1) m.

Lemma lookup_above {A} n (m : gmap Z A) k x : above n m !! k = Some x ↔ n < k ∧ m !! k = Some x.
Proof. unfold above. rewrite map_lookup_filter_Some. naive_solver. Qed.

(** A validator has rested when its last block is [limit] blocks back: of any [limit]
    blocks in a row it signs one at most. *)
Definition rested (s : Snapshot) (v : Address) (n : Z) : Prop :=
  ∀ k, Recents s !! k = Some v → k <= n - limit s.

(** The list of validators in the extra data of an epoch header, between 32 bytes of
    vanity and 65 of signature, 20 bytes for each. *)
Definition announces (a : Header) (vals : gset Address) : Prop :=
  ∃ vanity l seal, Extra a = vanity ++ encode_validators l ++ seal ∧
    zlen vanity = 32 ∧ zlen seal = 65 ∧ Forall (λ v, 0 <= v < 2 ^ 160) l ∧ vals = list_to_set l.

(** The last four bytes of the vanity. *)
Definition fork_hash_of (h : Header) : bytes := hex_EncodeToString (take 4 (drop 28 (Extra h))).

Section rule.
Variable Keccak256 : bytes → Hash.
Variable crypto_Ecrecover : bytes → bytes → option bytes.
Variable chainId : option Z.
Variable known : Header → Prop.

Abbreviation hash := (Header_Hash Keccak256).
Abbreviation recover := (recover Keccak256 crypto_Ecrecover chainId).
Abbreviation ancestor := (ancestor Keccak256 known).

(** The validators after block [n]: half a set after the start of an epoch, those that the
    first block of the epoch announces. *)
Definition in_force (s : Snapshot) (h : Header) (n : Z) (vals : gset Address) : Prop :=
  if decide (n mod Epoch (sconfig s) = zsize (Validators s) / 2)
  then ∃ a, ancestor (Z.to_nat (zsize (Validators s) / 2)) h a ∧ announces a vals
  else vals = Validators s.

(** The snapshot after block [n], signed by [v]: the signers of the last [limit] blocks and
    the fork hashes of as many as there are validators, by the smaller of the old and the
    new set. *)
Definition after (s : Snapshot) (h : Header) (n : Z) (v : Address) (vals : gset Address) : Snapshot := {|
  sconfig := sconfig s; snap_Number := n; snap_Hash := hash h; Validators := vals;
  Recents := <[n := v]> (above (n - Z.min (limit s) (zsize vals / 2 + 1)) (Recents s));
  RecentForkHashes := <[n := fork_hash_of h]>
    (above (n - Z.min (zsize (Validators s)) (zsize vals)) (RecentForkHashes s)) |}.

(** [h] may follow the block [s] is of, and makes it [s']. *)
Record extends (s : Snapshot) (h : Header) (s' : Snapshot) : Prop := {
  ex_parent : ParentHash h = snap_Hash s;
  ex_number : Number_Uint64 h = Some (snap_Number s + 1);
  ex_signer : ∃ v vals, recover h = Some v ∧ v ∈ Validators s ∧ rested s v (snap_Number s + 1) ∧
    in_force s h (snap_Number s + 1) vals ∧ s' = after s h (snap_Number s + 1) v vals;
}.

Inductive extends_all : Snapshot → list Header → Snapshot → Prop :=
| extends_nil s : extends_all s [] s
| extends_cons s h s1 hs s' : extends s h s1 → extends_all s1 hs s' → extends_all s (h :: hs) s'.

(** What the rule keeps in the windows of a snapshot. *)
Record windows_ok (s : Snapshot) : Prop := {
  win_recents : recents_ok s;
  win_forks k f : RecentForkHashes s !! k = Some f →
    0 <= k ∧ snap_Number s - zsize (Validators s) < k <= snap_Number s ∨ Validators s = ∅;
}.

(** ** The code keeps to the rule *)

Hypothesis collision_free : ∀ h h', known h → known h' → hash h = hash h' → h = h'.
Hypothesis known_ok : ∀ h, known h → header_ok h ∧ extraVanity + extraSeal <= zlen (Extra h).
Hypothesis chainId_ok : ∃ c, chainId = Some c ∧ 0 <= c < 2 ^ 256.

Abbreviation next := (next Keccak256 crypto_Ecrecover chainId known).
Abbreviation reaches := (reaches Keccak256 crypto_Ecrecover chainId known).

Lemma extra_bytes h : known h → Forall is_byte (Extra h) ∧ 97 <= zlen (Extra h).
Proof. intros Hk. destruct (known_ok h Hk) as [(_ & _ & _ & _ & He & _) Hx]. by split. Qed.

Lemma announced_announces a vals : known a → announced a = Some vals ↔ announces a vals.
Proof.
  intros Hk. destruct (extra_bytes a Hk) as [Hb Hx]. unfold announced. split.
  - unfold validatorBytes, extraVanity, extraSeal.
    destruct (slice (Extra a) 32 (zlen (Extra a) - 65)) as [b|] eqn:Hs; [|done]. cbn [mbind option_bind].
    destruct (ParseValidators b) as [l|] eqn:Hl; [|done]. cbn [mbind option_bind]. intros [= <-].
    pose proof (slice_bytes _ _ _ _ Hb Hs) as Hbb.
    assert (Hr : Forall (λ v, 0 <= v < 256 ^ 20) l).
    { unfold ParseValidators in Hl. case_match; [done|]. injection Hl as <-. by apply parse_loop_range. }
    apply (ParseValidators_round_trip b l Hbb Hr) in Hl as ->.
    unfold slice in Hs. rewrite !(proj2 (Z.leb_le _ _)) in Hs by lia. cbn [andb] in Hs. injection Hs as Hs.
    set (x := Extra a) in *. exists (take 32 x), l, (drop (Z.to_nat (zlen x - 65)) x). unfold zlen in *.
    split_and!; [|rewrite length_take; lia|rewrite length_drop; lia|done|done].
    rewrite <- Hs. change (Z.to_nat 32) with 32%nat.
    replace (Z.to_nat (Z.of_nat (length x) - 65)) with (32 + Z.to_nat (Z.of_nat (length x) - 65 - 32))%nat by lia.
    by rewrite <- (drop_drop _ _ 32), !take_drop.
  - intros (vanity & l & seal & He & Hv & Hse & Hr & ->).
    assert (Hb' : validatorBytes a = Some (encode_validators l)).
    { unfold validatorBytes, extraVanity, extraSeal. rewrite He, !zlen_app, Hse, <- Hv.
      replace (zlen vanity + (zlen (encode_validators l) + 65) - 65) with (zlen vanity + zlen (encode_validators l)) by lia.
      apply slice_middle. }
    rewrite Hb'. cbn [mbind option_bind]. by rewrite ParseValidators_encode.
Qed.

Lemma fork_hash_slice h : known h →
  slice (Extra h) (extraVanity - nextForkHashSize) extraVanity = Some (take 4 (drop 28 (Extra h))).
Proof.
  intros Hk. destruct (extra_bytes h Hk) as [_ Hx]. unfold slice, extraVanity, nextForkHashSize.
  by rewrite !(proj2 (Z.leb_le _ _)) by lia.
Qed.

(** A window of [w] blocks that loses its oldest entry and, when it shrinks to [w'], the
    entries in between. *)
Lemma lookup_window {A} (m : gmap Z A) n w w' k x :
  (∀ k x, m !! k = Some x → 0 <= k ∧ n - 1 - w < k <= n - 1) →
  0 <= n < 2 ^ 63 → 0 <= w < 2 ^ 62 → 0 <= w' < 2 ^ 62 →
  delete_range (Z.to_nat (w - w')) (sub64 n w') (if w <=? n then delete (sub64 n w) m else m) !! k = Some x ↔
  m !! k = Some x ∧ n - Z.min w w' < k.
Proof.
  intros Hm Hn Hw Hw'. rewrite lookup_delete_range by apply u64_range.
  assert (Hd : (if w <=? n then delete (sub64 n w) m else m) !! k = Some x ↔ m !! k = Some x ∧ n - w < k).
  { destruct (Z.leb_spec w n).
    - rewrite lookup_delete_Some, sub64_small by (unfold is_u64; lia). split.
      + intros [Hne Hk]. pose proof (Hm k x Hk). split; [done|lia].
      + intros [Hk Hlt]. split; [lia|done].
    - split; [|by intros [? _]]. intros Hk. pose proof (Hm k x Hk). split; [done|lia]. }
  assert (Hu : ∀ i, u64 (sub64 n w' - i) = u64 (n - w' - i)).
  { intros i. unfold sub64, u64. by rewrite Zminus_mod_idemp_l. }
  rewrite Hd. split.
  - intros [[Hk Hlt] Hi]. split; [done|]. destruct (Z.lt_ge_cases (n - w') k); [lia|]. exfalso.
    pose proof (Hm k x Hk). apply (Hi (n - w' - k)); [lia|]. rewrite Hu, u64_small by (unfold is_u64; lia). lia.
  - intros [Hk Hlt]. pose proof (Hm k x Hk). split; [split; [done|lia]|]. intros i Hi ->. rewrite Hu in *.
    destruct (Z.lt_ge_cases (n - w' - i) 0); [rewrite u64_neg in * by lia; lia|].
    rewrite u64_small in * by (unfold is_u64; lia). lia.
Qed.

Lemma forks_shift_out n s : RecentForkHashes (shift_out n s) =
  if zsize (Validators s) <=? n then delete (sub64 n (zsize (Validators s))) (RecentForkHashes s)
  else RecentForkHashes s.
Proof.
  unfold shift_out. cbv zeta. destruct (zsize (Validators s) / 2 + 1 <=? n); cbn [Validators set_recents];
    by destruct (zsize (Validators s) <=? n).
Qed.

Lemma forks_switched s h n v s1 : switched Keccak256 known s h n v s1 →
  RecentForkHashes s1 = delete_range (Z.to_nat (zsize (Validators s) - zsize (Validators s1)))
    (sub64 n (zsize (Validators s1))) (RecentForkHashes (shift_out n s)).
Proof.
  intros [(_ & a & vals & _ & _ & ->)|[_ ->]].
  - unfold switch_validators. cbn [RecentForkHashes Validators signed set_recents]. by rewrite Validators_shift_out.
  - rewrite Validators_signed, Z.sub_diag. done.
Qed.

Lemma switched_set s h n v s1 : known h → 0 < n → switched Keccak256 known s h n v s1 →
  in_force s h n (Validators s1).
Proof.
  intros Hk Hn. unfold in_force. intros [([_ Hsw] & a & vals & Ha & Hann & ->)|[Hsw ->]].
  - rewrite decide_True by done. exists a. split; [done|]. apply announced_announces; [|done]. by eapply ancestor_known.
  - rewrite decide_False, Validators_signed; [done|]. intros ?. by apply Hsw.
Qed.

Lemma in_force_fun s h n vals vals' : known h → in_force s h n vals → in_force s h n vals' → vals = vals'.
Proof.
  unfold in_force. intros Hk. case_decide; [|congruence]. intros (a & Ha & Hv) (a' & Ha' & Hv').
  rewrite <- (ancestor_fun _ _ collision_free _ _ _ _ Ha Ha') in Hv'.
  pose proof (ancestor_known _ _ _ _ _ Ha Hk). apply announced_announces in Hv, Hv'; [congruence|done..].
Qed.

Lemma extends_fun s h s1 s2 : known h → extends s h s1 → extends s h s2 → s1 = s2.
Proof.
  intros Hk [_ _ (v & vals & Hv & _ & _ & Hf & ->)] [_ _ (v' & vals' & Hv' & _ & _ & Hf' & ->)].
  assert (v = v') as -> by congruence. by rewrite (in_force_fun _ _ _ _ _ Hk Hf Hf').
Qed.

(** What the windows of the snapshot keep, in the terms of the code and of the rule. *)
Lemma recents_after s h s' v vals : recents_ok s → known h → next s h s' → recover h = Some v →
  0 <= snap_Number s < 2 ^ 63 - 1 → vals = Validators s' →
  Recents s' = Recents (after s h (snap_Number s + 1) v vals).
Proof.
  intros Hr Hk Hn Hv Hs ->. apply map_eq. intros k. apply option_eq. intros w.
  rewrite (Recents_next _ _ _ _ known_ok chainId_ok s h s' v k w Hr Hk Hn Hv Hs).
  cbn [after Recents]. rewrite lookup_insert_Some, lookup_above. unfold limit.
  split.
  - intros [[-> ->]|(Hw & H1 & H2)]; [by left|]. right. pose proof (recents_window _ Hr _ _ Hw).
    split; [lia|]. split; [lia|done].
  - intros [[-> ->]|(Hne & Hlt & Hw)]; [by left|]. right. split; [done|lia].
Qed.

Lemma forks_after s h n v s1 : windows_ok s → zsize (Validators s1) < 2 ^ 62 → Validators s ≠ ∅ →
  n = snap_Number s + 1 → 0 <= snap_Number s < 2 ^ 63 - 1 → switched Keccak256 known s h n v s1 →
  <[n := fork_hash_of h]> (RecentForkHashes s1) = RecentForkHashes (after s h n v (Validators s1)).
Proof.
  intros [Hr Hf] Hs1 Hne -> Hs Hsw. cbn [after RecentForkHashes]. f_equal. apply map_eq. intros k. apply option_eq. intros f.
  rewrite (forks_switched _ _ _ _ _ Hsw), forks_shift_out, lookup_above. pose proof (set_small _ Hr).
  rewrite lookup_window; [naive_solver| |unfold zsize in *; lia..].
  intros k' f' Hk'. destruct (Hf _ _ Hk') as [?|?]; [lia|done].
Qed.

Lemma next_set_small s h s' : recents_ok s → known h → next s h s' → zsize (Validators s') < 2 ^ 62.
Proof. intros Hr Hk Hn. eapply (set_small_next _ _ _ _ known_ok); [done|done|apply Hr]. Qed.

Lemma next_extends s h s' : windows_ok s → known h → 0 <= snap_Number s < 2 ^ 63 - 1 →
  next s h s' → extends s h s'.
Proof.
  intros Hw Hk Hs Hn. pose proof (win_recents _ Hw) as Hr.
  destruct (next_signer _ _ _ _ _ _ _ Hn) as (v & Hv & Hin).
  pose proof (next_set_small _ _ _ Hr Hk Hn) as Hsm.
  pose proof (recents_after s h s' v _ Hr Hk Hn Hv Hs eq_refl) as Hrec.
  assert (Hrest : rested s v (snap_Number s + 1)) by (intros k Hk'; by eapply next_not_recent).
  destruct Hn as [Hp Hnum (s0 & Hfo & Es')]. pose proof (sconfig_follows _ _ _ _ _ _ _ Hfo) as Hc.
  destruct Hfo as (n & v' & s1 & Hn & Hv' & _ & _ & Hsw & f & Hf & Es0).
  rewrite add64_small in * by (unfold is_u64; lia).
  assert (n = snap_Number s + 1) as -> by congruence. assert (v' = v) as -> by congruence.
  rewrite fork_hash_slice in Hf by done. injection Hf as Hf. split; [done|done|].
  assert (Hvals : Validators s' = Validators s1) by (by rewrite Es', Es0).
  exists v, (Validators s'). split_and!; [done|done|done|rewrite Hvals; by eapply switched_set; [|lia|]|].
  assert (Hfk : RecentForkHashes s' = RecentForkHashes (after s h (snap_Number s + 1) v (Validators s'))).
  { rewrite Hvals, <- (forks_after s h _ v s1); try done; [|by rewrite <- Hvals|set_solver].
    rewrite Es', Es0. unfold fork_hash_of. by rewrite Hf. }
  rewrite Es' in *. cbn in Hrec, Hfk |- *. unfold at_header, renumber, after. cbn in Hrec, Hfk.
  rewrite Hc. f_equal; [exact Hrec|exact Hfk].
Qed.

Lemma extends_next s h s' : windows_ok s → known h → 0 <= snap_Number s < 2 ^ 63 - 1 →
  Epoch (sconfig s) ≠ 0 → extends s h s' → next s h s'.
Proof.
  intros Hw Hk Hs He Hx. pose proof (win_recents _ Hw) as Hr.
  assert (∃ s2, next s h s2) as [s2 Hn].
  { destruct Hx as [Hp Hnum (v & vals & Hv & Hin & Hrest & Hf & _)].
    assert (Hadd : add64 (snap_Number s) 1 = snap_Number s + 1) by (apply add64_small; unfold is_u64; lia).
    assert (∃ s1, switched Keccak256 known s h (snap_Number s + 1) v s1) as [s1 Hs1].
    { unfold in_force in Hf. case_decide as Hd.
      - destruct Hf as (a & Ha & Hann). eexists. left. split; [split; [lia|done]|]. exists a, vals. split_and!; try done.
        apply announced_announces; [|done]. by eapply ancestor_known.
      - eexists. right. split; [|done]. by intros [_ ?]. }
    eexists. split; [done|by rewrite Hadd|]. eexists. split; [|done].
    exists (snap_Number s + 1), v, s1. split_and!; try done.
    - split; [done|]. intros k [Hk' Hne]%Recents_shift_out; [|lia]. pose proof (Hrest k Hk').
      pose proof (recents_window _ Hr _ _ Hk'). lia.
    - exists (take 4 (drop 28 (Extra h))). split; [by apply fork_hash_slice|done]. }
  by rewrite (extends_fun s h s' s2 Hk Hx (next_extends _ _ _ Hw Hk Hs Hn)).
Qed.

Lemma extends_windows s h s' : windows_ok s → known h → 0 <= snap_Number s < 2 ^ 63 - 1 →
  Epoch (sconfig s) ≠ 0 → extends s h s' → windows_ok s'.
Proof.
  intros Hw Hk Hs He Hx. pose proof (extends_next _ _ _ Hw Hk Hs He Hx) as Hn.
  split; [by eapply (recents_next _ _ _ _ known_ok chainId_ok); [apply Hw|..]|].
  destruct Hx as [_ _ (v & vals & _ & Hin & _ & _ & ->)]. intros k f. cbn [after RecentForkHashes snap_Number Validators].
  rewrite lookup_insert_Some, lookup_above. destruct (decide (vals = ∅)) as [->|Hne]; [by right|].
  assert (0 < zsize vals).
  { unfold zsize. destruct (size vals) eqn:E; [|lia]. apply size_empty_inv in E. set_solver. }
  intros [[<- _]|(_ & Hlt & Hf)]; left; [lia|]. destruct (win_forks _ Hw _ _ Hf) as [?|?]; [lia|set_solver].
Qed.

Lemma extends_keeps s h s' : extends s h s' → sconfig s' = sconfig s ∧ snap_Number s' = snap_Number s + 1 ∧ snap_Hash s' = hash h.
Proof. by intros [_ _ (v & vals & _ & _ & _ & _ & ->)]. Qed.

(** Runs of the code and of the rule. *)
Lemma reaches_extends s hs s' : windows_ok s → Forall known hs → Epoch (sconfig s) ≠ 0 →
  0 <= snap_Number s → snap_Number s + zlen hs < 2 ^ 63 →
  reaches s hs s' ↔ extends_all s hs s'.
Proof.
  intros Hw Hk. revert s Hw. induction Hk as [|h hs Hh _ IH]; intros s Hw He H0 Hb.
  - split; [intros (ss & Hr & <-); inversion Hr; subst; constructor|intros Hx; inversion Hx; subst; exists []; split; [constructor|done]].
  - rewrite zlen_cons in Hb. pose proof (zlen_nonneg hs).
    assert (Hstep : ∀ s1, extends s h s1 → reaches s1 hs s' ↔ extends_all s1 hs s').
    { intros s1 Hx. destruct (extends_keeps _ _ _ Hx) as (Hc & Hn & _).
      apply IH; [eapply extends_windows; [exact Hw|done|lia|done|done]|by rewrite Hc|lia|lia]. }
    rewrite reaches_cons. split.
    + intros (s1 & Hn & Hr). apply next_extends in Hn; [|done|done|lia]. econstructor; [done|]. by apply Hstep.
    + intros Hx. inversion Hx as [|? ? s1 ? ? Hx1 Hx2]; subst. exists s1.
      split; [by apply extends_next; [..|lia| |]|]. by apply Hstep.
Qed.

Lemma extends_all_windows s hs s' : windows_ok s → Forall known hs → Epoch (sconfig s) ≠ 0 →
  0 <= snap_Number s → snap_Number s + zlen hs < 2 ^ 63 → extends_all s hs s' → windows_ok s'.
Proof.
  intros Hw Hk He H0 Hb Hx. revert Hw Hk He H0 Hb.
  induction Hx as [s|s h s1 hs s' Hx _ IH]; intros Hw Hk He H0 Hb; [done|].
  rewrite zlen_cons in Hb. pose proof (zlen_nonneg hs). inversion_clear Hk as [|? ? Hh Hks].
  destruct (extends_keeps _ _ _ Hx) as (Hc & Hn & _).
  apply IH; [eapply extends_windows; [exact Hw|done|lia|done|done]|done|by rewrite Hc|lia|lia].
Qed.
End rule.
