(* ===== verification/ParliaModel.v ===== *)
(** * A concrete instance of what the consensus engine takes from outside

    Maps as caches and store, a small hash, signatures that name their signer, and a
    chain of five headers.  The witnesses of the consensus theorems run here. *)

From S2P Require Import Prelude Rlp Header Hexutil Params ForkId ParliaSnapshot ParliaStore ParliaTurns ParliaChain.

(** A cache that never evicts. *)
#[export] Instance map_cache (V : Type) : Cache V (gmap Z V) := {|
  cache_get h c := (c !! h, c);
  cache_add h v c := <[h := v]> c;
|}.

#[export] Instance map_cache_laws (V : Type) : CacheLaws V (gmap Z V).
Proof.
  split; unfold cached; simpl; [done|]. intros k h v c w.
  rewrite lookup_insert_Some. naive_solver.
Qed.

Definition toy_state : Type := pstate (gmap Z Address) (gmap Z Snapshot) (gmap bytes bytes).
Definition toy_start : toy_state := Build_pstate ∅ ∅ ∅.

(** A polynomial hash of 64 bits. *)
Definition toy_Keccak256 (b : bytes) : Hash :=
  fold_left (λ acc x, Z.land (acc * 257 + x) (Z.ones 64)) b 0.

(** The first byte of a signature stands for the key. *)
Definition toy_Ecrecover (m sig : bytes) : option bytes :=
  match sig with x :: _ => Some [4; x] | [] => None end.

(** A block signed by [signer], with its own signature in the seal. *)
Definition toy_block (n parent signer : Z) : Header :=
  toy_header n parent signer (zeros 32 ++ signer :: zeros 64).

(** The genesis block announces the authorities. *)
Definition toy_genesis : Header :=
  toy_header 0 0 0 (zeros 32 ++ encode_validators [5; 9; 30] ++ zeros 65).
Definition toy_hash0 : Hash := Eval vm_compute in Header_Hash toy_Keccak256 toy_genesis.
Definition toy_block1 : Header := toy_block 1 toy_hash0 9.
Definition toy_hash1 : Hash := Eval vm_compute in Header_Hash toy_Keccak256 toy_block1.
Definition toy_block2 : Header := toy_block 2 toy_hash1 30.
Definition toy_hash2 : Hash := Eval vm_compute in Header_Hash toy_Keccak256 toy_block2.
Definition toy_block3 : Header := toy_block 3 toy_hash2 5.
Definition toy_hash3 : Hash := Eval vm_compute in Header_Hash toy_Keccak256 toy_block3.
(** The fourth block is as the engine prepares it: the fork hash ends its vanity. *)
Definition toy_fork_hash : bytes := Eval vm_compute in NextForkHash (toy_config None) toy_hash0 4.
Definition toy_block4 : Header :=
  toy_header 4 toy_hash3 9 (zeros 28 ++ toy_fork_hash ++ 9 :: zeros 64).
Definition toy_headers : list Header := [toy_genesis; toy_block1; toy_block2; toy_block3; toy_block4].
Definition toy_known (h : Header) : Prop := h ∈ toy_headers.

Definition toy_hashes : list Hash := Eval vm_compute in map (Header_Hash toy_Keccak256) toy_headers.

Lemma map_inj_NoDup {A B} (f : A → B) l x y :
  NoDup (map f l) → x ∈ l → y ∈ l → f x = f y → x = y.
Proof.
  induction l as [|z l IH]; [by intros _ ?%not_elem_of_nil|]. cbn [map].
  rewrite NoDup_cons, !elem_of_cons. intros [Hz Hd] [->|Hx] [->|Hy] He; auto.
  - destruct Hz. rewrite He. by apply (list_elem_of_fmap_2 f).
  - destruct Hz. rewrite <- He. by apply (list_elem_of_fmap_2 f).
Qed.

Lemma toy_hashes_eq : map (Header_Hash toy_Keccak256) toy_headers = toy_hashes.
Proof. vm_compute. reflexivity. Qed.

Lemma toy_hashes_NoDup : NoDup toy_hashes.
Proof. apply (bool_decide_unpack _). vm_compute. exact I. Qed.

Lemma toy_collision_free h h' : toy_known h → toy_known h' →
  Header_Hash toy_Keccak256 h = Header_Hash toy_Keccak256 h' → h = h'.
Proof. apply map_inj_NoDup. rewrite toy_hashes_eq. apply toy_hashes_NoDup. Qed.

Lemma toy_block_ok n p x :
  0 <= n < 2 ^ 32 → 0 <= p < 256 ^ 32 → is_byte x →
  header_ok (toy_block n p x) ∧ extraVanity + extraSeal <= zlen (Extra (toy_block n p x)).
Proof.
  intros Hn Hp Hx. split; [|done]. apply toy_header_ok; try lia.
  - unfold is_byte in Hx. lia.
  - apply Forall_app. split; [apply zeros_bytes|]. constructor; [done|apply zeros_bytes].
  - done.
Qed.

Lemma check_bytes l : forallb (λ x, (0 <=? x) && (x <? 256)) l = true → Forall is_byte l.
Proof.
  intros H. rewrite forallb_forall in H. apply Forall_forall. intros x Hx.
  apply list_elem_of_In, H in Hx. zbool. unfold is_byte. lia.
Qed.

Lemma toy_known_ok h : toy_known h → header_ok h ∧ extraVanity + extraSeal <= zlen (Extra h).
Proof.
  unfold toy_known, toy_headers. rewrite !elem_of_cons, elem_of_nil.
  intros [->|[->|[->|[->|[->|[]]]]]];
    [|apply toy_block_ok; unfold is_byte; try lia; vm_compute; (split; [discriminate|reflexivity])..|];
    (split; [|vm_compute; discriminate]); apply toy_header_ok; try lia; try reflexivity.
  - apply check_bytes. vm_compute. reflexivity.
  - unfold toy_hash3. lia.
  - apply check_bytes. vm_compute. reflexivity.
Qed.

Lemma toy_Ecrecover_pubkey m sig k : toy_Ecrecover m sig = Some k → 1 <= zlen k.
Proof. destruct sig as [|x sig]; [done|]. by intros [= <-]. Qed.

Lemma toy_chainId : ∃ c, Some 56 = Some c ∧ 0 <= c < 2 ^ 256.
Proof. exists 56. split; [done|lia]. Qed.

(** The local chain holds the five headers. *)
Definition toy_find (h : Hash) : option Header :=
  list_find (λ p, Header_Hash toy_Keccak256 p = h) toy_headers ≫= λ r, Some r.2.
Definition toy_GetHeader (h : Hash) (n : Z) : option Header :=
  p ← toy_find h; if bool_decide (Number_Uint64 p = Some n) then Some p else None.
Definition toy_chain : ChainHeaderReader := {|
  chain_Config := toy_config None; CurrentHeader := Some toy_block3;
  GetHeader := toy_GetHeader;
  GetHeaderByNumber n := toy_headers !! Z.to_nat n;
  GetHeaderByHash := toy_find; GetHighestVerifiedHeader := None |}.

Lemma toy_find_ok h p : toy_find h = Some p → toy_known p ∧ Header_Hash toy_Keccak256 p = h.
Proof.
  unfold toy_find. destruct (list_find _ _) as [[i q]|] eqn:Hf; simpl; [|done]. intros [= ->].
  apply list_find_Some in Hf as (Hi & Hh & _). split; [|done]. by eapply list_elem_of_lookup_2.
Qed.

Lemma toy_lookups : lookups_ok toy_Keccak256 toy_known toy_chain [].
Proof.
  split; [constructor|]. intros h n p. change (GetHeader toy_chain h n) with (toy_GetHeader h n).
  unfold toy_GetHeader. destruct (toy_find h) as [q|] eqn:Hf; cbn [mbind option_bind]; [|done].
  case_bool_decide; [|done]. intros [= ->]. by apply toy_find_ok in Hf as [? ?].
Qed.

(** The authorities at the genesis block. *)
Definition toy_genesis_snapshot : Snapshot :=
  newSnapshot {| Period := 3; Epoch := 200 |} 0 toy_hash0 [5; 9; 30].

Lemma toy_sigs_ok (st : toy_state) :
  signatures st = ∅ → sigs_ok toy_Keccak256 toy_Ecrecover (Some 56) toy_known (signatures st).
Proof. intros -> h v _ Hc. unfold cached in Hc. by simpl in Hc. Qed.
