(* ===== verification/ParliaChainProps.v ===== *)
(** * Theorems on snapshots

    [apply] implements the rule of the authority set and never panics, it can be cut at any
    header, the window of recent signers is kept, and no validator signs twice within
    it. *)

From S2P Require Import Prelude Rlp Header Hexutil Params ParliaSnapshot ParliaTurns ParliaChain ParliaRule ParliaModel.

(** What the engine takes from outside: headers told apart by their hashes, well-formed
    and long enough; public keys that are not empty. *)
Record world_ok (Keccak256 : bytes → Hash) (crypto_Ecrecover : bytes → bytes → option bytes)
    (chainId : option Z) (known : Header → Prop) : Prop := {
  w_collision_free h h' : known h → known h' →
    Header_Hash Keccak256 h = Header_Hash Keccak256 h' → h = h';
  w_known_ok h : known h → header_ok h ∧ extraVanity + extraSeal <= zlen (Extra h);
  w_chainId : ∃ c, chainId = Some c ∧ 0 <= c < 2 ^ 256;
  w_pubkey m sig k : crypto_Ecrecover m sig = Some k → 1 <= zlen k;
}.

Section theorems.
Context {SC RC D : Type} {CS : Cache Address SC} {CL : CacheLaws Address SC}.
Variable Keccak256 : bytes → Hash.
Variable crypto_Ecrecover : bytes → bytes → option bytes.
Variable chainId : option Z.
Variable known : Header → Prop.
Hypothesis W : world_ok Keccak256 crypto_Ecrecover chainId known.

Abbreviation recover := (recover Keccak256 crypto_Ecrecover chainId).
Abbreviation reaches := (reaches Keccak256 crypto_Ecrecover chainId known).
Abbreviation extends_all := (extends_all Keccak256 crypto_Ecrecover chainId known).
Abbreviation holds_ancestors := (holds_ancestors Keccak256 known).
Abbreviation run := (run Keccak256 crypto_Ecrecover chainId known).
Abbreviation apply := (@apply SC RC D CS Keccak256 crypto_Ecrecover).
Abbreviation sigs_ok := (sigs_ok Keccak256 crypto_Ecrecover chainId known).

Lemma apply_wp chain parents s hs (st : pstate SC RC D) :
  lookups_ok Keccak256 known chain parents → Forall known hs → sigs_ok (signatures st) →
  Epoch (sconfig s) ≠ 0 → 0 <= snap_Number s < 2 ^ 64 →
  wp (apply chain parents chainId s hs)
    (λ s' st', reaches s hs s' ∧ sigs_only Keccak256 crypto_Ecrecover chainId known st st')
    (λ e st', sigs_only Keccak256 crypto_Ecrecover chainId known st st' ∧
              rejected (Forall (holds_ancestors chain) hs) (∃ s', reaches s hs s') e) (λ _, False) st.
Proof.
  destruct W. intros. by apply wp_apply.
Qed.

Lemma reaches_app s h1 h2 s' :
  reaches s (h1 ++ h2) s' ↔ ∃ s1, reaches s h1 s1 ∧ reaches s1 h2 s'.
Proof.
  revert s. induction h1 as [|h h1 IH]; intros s; cbn [app].
  - split.
    + intros H. exists s. split; [|done]. exists []. split; [constructor|done].
    + intros (s1 & (ss & Hr & <-) & H). by inversion Hr; subst.
  - rewrite reaches_cons. split.
    + intros (s0 & Hn & H). apply IH in H as (s1 & H1 & H2). exists s1. split; [|done].
      apply reaches_cons. by exists s0.
    + intros (s1 & H1 & H2). apply reaches_cons in H1 as (s0 & Hn & H1). exists s0. split; [done|].
      apply IH. by exists s1.
Qed.

Lemma next_fun s h s1 s2 :
  next Keccak256 crypto_Ecrecover chainId known s h s1 →
  next Keccak256 crypto_Ecrecover chainId known s h s2 → s1 = s2.
Proof.
  destruct W. intros [_ _ (t1 & H1 & ->)] [_ _ (t2 & H2 & ->)].
  by rewrite (follows_fun _ _ _ _ w_collision_free0 _ _ _ _ H1 H2).
Qed.

Lemma reaches_fun s hs s1 s2 : reaches s hs s1 → reaches s hs s2 → s1 = s2.
Proof.
  revert s. induction hs as [|h hs IH]; intros s.
  - intros (ss1 & Hr1 & <-) (ss2 & Hr2 & <-). by inversion Hr1; inversion Hr2; subst.
  - rewrite !reaches_cons. intros (t1 & Hn1 & H1) (t2 & Hn2 & H2).
    rewrite (next_fun _ _ _ _ Hn2 Hn1) in H2. by apply (IH t1).
Qed.

Lemma lookup_last_cons {A} (x : A) l : (x :: l) !! length l = Some (List.last l x).
Proof.
  revert x. induction l as [|y l IH]; intros x; [done|]. rewrite last_cons. apply (IH y).
Qed.

(** C8 [apply] implements the rule of the authority set, which is stated without the code's
    bookkeeping: what it returns is the snapshot of the rule - the headers are children of
    one another, each is signed by a validator that signed none of the last [limit - 1]
    blocks, the set changes half a set into an epoch to the one announced, the recent
    signers and fork hashes are those of the last blocks - with its windows kept; it never
    panics or runs out of fuel; and when it fails the rule has no answer, unless it failed
    for want of an ancestor that is not in the local chain. *)
Theorem apply_implements chain parents s hs (st : pstate SC RC D) :
  lookups_ok Keccak256 known chain parents → Forall known hs → sigs_ok (signatures st) →
  Epoch (sconfig s) ≠ 0 → windows_ok s → 0 <= snap_Number s → snap_Number s + zlen hs < 2 ^ 63 →
  match apply chain parents chainId s hs st with
  | Ret s' st' => extends_all s hs s' ∧ windows_ok s' ∧ sigs_ok (signatures st')
  | Fail e st' => sigs_ok (signatures st') ∧
      (e ≠ ErrUnknownAncestor ∨ Forall (holds_ancestors chain) hs → ¬ ∃ s', extends_all s hs s')
  | Panic _ | NoFuel => False
  end.
Proof.
  intros Hl Hk Hs He Hw Hn Hb. pose proof (zlen_nonneg hs) as Hz. destruct W as [Wc Wk Wi Wp].
  pose proof (λ s', reaches_extends _ crypto_Ecrecover _ _ Wc Wk Wi s hs s' Hw Hk He Hn Hb) as Hrule.
  pose proof (apply_wp chain parents s hs st Hl Hk Hs He ltac:(lia)) as H.
  unfold wp in H. destruct (apply chain parents chainId s hs st) as [s' st'|e st'|p|]; try done.
  - destruct H as [Hr (_ & _ & H)]. apply Hrule in Hr. split_and!; [done| |auto].
    by apply (extends_all_windows Keccak256 crypto_Ecrecover chainId known Wc Wk Wi s hs).
  - destruct H as [(_ & _ & H) Hr]. split; [auto|]. intros Hf (s' & Hx). apply (Hr Hf). exists s'. by apply Hrule.
Qed.

(** Headers can be applied in one go or in two: the snapshot is the same. *)
Theorem apply_composes chain parents s h1 h2 s1 s2 (st st1 st2 : pstate SC RC D) :
  lookups_ok Keccak256 known chain parents → Forall (holds_ancestors chain) (h1 ++ h2) →
  Forall known (h1 ++ h2) → sigs_ok (signatures st) →
  Epoch (sconfig s) ≠ 0 → Epoch (sconfig s1) ≠ 0 → 0 <= snap_Number s < 2 ^ 64 → 0 <= snap_Number s1 < 2 ^ 64 →
  apply chain parents chainId s h1 st = Ret s1 st1 →
  apply chain parents chainId s1 h2 st1 = Ret s2 st2 →
  ∃ st', apply chain parents chainId s (h1 ++ h2) st = Ret s2 st'.
Proof.
  intros Hl Hc Hk Hs He He1 Hn Hn1 H1 H2. pose proof Hk as Hk'. apply Forall_app in Hk' as [Hk1 Hk2].
  destruct (wp_Ret _ _ _ _ _ _ _ (apply_wp chain parents s h1 st Hl Hk1 Hs He Hn) H1) as [R1 S1].
  destruct (wp_Ret _ _ _ _ _ _ _ (apply_wp chain parents s1 h2 st1 Hl Hk2 ltac:(by apply S1) He1 Hn1) H2) as [R2 _].
  assert (R : reaches s (h1 ++ h2) s2) by (apply reaches_app; by exists s1).
  pose proof (apply_wp chain parents s (h1 ++ h2) st Hl Hk Hs He Hn) as H.
  unfold wp in H. destruct (apply chain parents chainId s (h1 ++ h2) st) as [s' st'|e st'|p|]; [|exfalso..].
  - destruct H as [R' _]. rewrite (reaches_fun _ _ _ _ R' R). by exists st'.
  - destruct H as [_ Hr]. apply Hr; [by right|]. by exists s2.
  - done.
  - done.
Qed.

(** The recent signers of every snapshot on the way are different validators, and
    their blocks the last ones, fewer than the limit of half the validators plus one
    back. *)
Theorem apply_keeps_recents chain parents s hs s' (st st' : pstate SC RC D) :
  lookups_ok Keccak256 known chain parents → Forall known hs → sigs_ok (signatures st) →
  Epoch (sconfig s) ≠ 0 → recents_ok s → 0 <= snap_Number s → snap_Number s + zlen hs < 2 ^ 63 →
  apply chain parents chainId s hs st = Ret s' st' →
  recents_ok s' ∧ snap_Number s' = snap_Number s + zlen hs.
Proof.
  intros Hl Hk Hs He Hok Hn Hb Ha. pose proof (zlen_nonneg hs).
  destruct (wp_Ret _ _ _ _ _ _ _ (apply_wp chain parents s hs st Hl Hk Hs He ltac:(lia)) Ha) as [(ss & Hr & <-) _].
  assert (Hlen : length ss = length hs) by (clear -Hr; induction Hr; simpl; congruence).
  destruct W. unfold zlen. rewrite <- Hlen.
  eapply run_state; try eassumption. by rewrite lookup_last_cons.
Qed.

(** C9 No validator signs twice in a window: two blocks of an accepted run signed by the
    same validator are at least as far apart as the limit of some validator set in force
    between them. *)
Theorem no_validator_signs_twice chain parents s hs s' (st st' : pstate SC RC D) :
  lookups_ok Keccak256 known chain parents → Forall known hs → sigs_ok (signatures st) →
  Epoch (sconfig s) ≠ 0 → recents_ok s → 0 <= snap_Number s → snap_Number s + zlen hs < 2 ^ 63 →
  apply chain parents chainId s hs st = Ret s' st' →
  ∃ ss, run s hs ss ∧ List.last ss s = s' ∧
    ∀ i j hi hj, (i < j)%nat → hs !! i = Some hi → hs !! j = Some hj →
      (∀ k sk, (i <= k < j)%nat → ss !! k = Some sk →
         Z.of_nat (j - i) < zsize (Validators sk) / 2 + 1) →
      recover hi ≠ recover hj.
Proof.
  intros Hl Hk Hs He Hok Hn Hb Ha. pose proof (zlen_nonneg hs).
  destruct (wp_Ret _ _ _ _ _ _ _ (apply_wp chain parents s hs st Hl Hk Hs He ltac:(lia)) Ha) as [(ss & Hr & Hlast) _].
  exists ss. split; [done|]. split; [done|]. intros i j hi hj Hij Hi Hj Hlim Heq. destruct W.
  destruct (run_lookup _ _ _ _ _ _ _ _ _ Hr Hj) as (sj & sj' & Hsj & _ & Hnext).
  destruct (next_signer _ _ _ _ _ _ _ Hnext) as (v & Hv & _).
  assert (recents_ok sj ∧ snap_Number sj = snap_Number s + Z.of_nat j) as [Hokj Hnj]
    by (eapply run_state; eassumption).
  assert (Hrec : Recents sj !! (snap_Number s + Z.of_nat i + 1) = Some v).
  { eapply run_recent; try eassumption; [congruence|].
    intros k sk Hkk Hsk. specialize (Hlim k sk Hkk Hsk). unfold limit. lia. }
  apply lookup_lt_Some in Hj as Hlt.
  assert (snap_Number s + Z.of_nat i + 1 <= snap_Number sj + 1 - limit sj).
  { eapply next_not_recent; try eassumption. unfold zlen in *. lia. }
  destruct j as [|j]; [lia|]. specialize (Hlim j sj ltac:(lia) Hsj). unfold limit in *. lia.
Qed.
End theorems.

Lemma toy_world : world_ok toy_Keccak256 toy_Ecrecover (Some 56) toy_known.
Proof.
  split; [apply toy_collision_free|apply toy_known_ok|apply toy_chainId|apply toy_Ecrecover_pubkey].
Qed.

Lemma toy_recents : recents_ok toy_genesis_snapshot.
Proof. split; [vm_compute; reflexivity|done..]. Qed.

Lemma toy_Forall_known : Forall toy_known [toy_block1; toy_block2; toy_block3].
Proof. unfold toy_known, toy_headers. repeat (constructor; [set_solver|]). constructor. Qed.

Abbreviation toy_apply := (@apply _ _ _ _ toy_Keccak256 toy_Ecrecover toy_chain [] (Some 56))
  (only parsing).

Definition toy_snapshot1 : Snapshot := Eval vm_compute in
  match toy_apply toy_genesis_snapshot [toy_block1] toy_start with Ret s _ => s | _ => toy_genesis_snapshot end.
Definition toy_state1 : toy_state := Eval vm_compute in
  match toy_apply toy_genesis_snapshot [toy_block1] toy_start with Ret _ st => st | _ => toy_start end.
Definition toy_snapshot3 : Snapshot := Eval vm_compute in
  match toy_apply toy_snapshot1 [toy_block2; toy_block3] toy_state1 with Ret s _ => s | _ => toy_genesis_snapshot end.
Definition toy_state3 : toy_state := Eval vm_compute in
  match toy_apply toy_snapshot1 [toy_block2; toy_block3] toy_state1 with Ret _ st => st | _ => toy_start end.

Lemma toy_step1 : toy_apply toy_genesis_snapshot [toy_block1] toy_start = Ret toy_snapshot1 toy_state1.
Proof. vm_compute. reflexivity. Qed.
Lemma toy_step3 : toy_apply toy_snapshot1 [toy_block2; toy_block3] toy_state1 = Ret toy_snapshot3 toy_state3.
Proof. vm_compute. reflexivity. Qed.

(** The local chain holds every header in play. *)
Lemma toy_GetHeader_known p n : toy_known p → Number_Uint64 p = Some n →
  GetHeader toy_chain (Header_Hash toy_Keccak256 p) n = Some p.
Proof.
  intros Hp Hn. unfold toy_known, toy_headers in Hp. rewrite !elem_of_cons, elem_of_nil in Hp.
  destruct Hp as [->|[->|[->|[->|[->|[]]]]]]; injection Hn as <-; vm_compute; reflexivity.
Qed.
Lemma toy_ancestors h : toy_known h → holds_ancestors toy_Keccak256 toy_known toy_chain h.
Proof. intros Hk m a n Ha Hn. apply toy_GetHeader_known; [|done]. by eapply ancestor_known. Qed.
Lemma toy_block_held x : holds_block toy_Keccak256 toy_known toy_chain x.
Proof. intros b Hb <-. split; [by intros n; apply toy_GetHeader_known|by apply toy_ancestors]. Qed.

Lemma toy_windows : windows_ok toy_genesis_snapshot.
Proof. split; [exact toy_recents|]. intros k f Hf. cbn in Hf. by rewrite lookup_empty in Hf. Qed.

Lemma apply_implements_witness :
  (match toy_apply toy_genesis_snapshot [toy_block1; toy_block2] toy_start with
   | Ret s' _ => bool_decide (Recents s' !! 2 = Some 30) | _ => false end = true) ∧
  match toy_apply toy_genesis_snapshot [toy_block1; toy_block2] toy_start with
  | Ret s' _ => extends_all toy_Keccak256 toy_Ecrecover (Some 56) toy_known toy_genesis_snapshot
        [toy_block1; toy_block2] s'
  | _ => True
  end.
Proof.
  split; [vm_compute; reflexivity|].
  pose proof (apply_implements toy_Keccak256 toy_Ecrecover (Some 56) toy_known toy_world toy_chain []
    toy_genesis_snapshot [toy_block1; toy_block2] toy_start toy_lookups
    (proj1 (proj1 (Forall_app toy_known [toy_block1; toy_block2] [toy_block3]) toy_Forall_known))
    (toy_sigs_ok toy_start eq_refl) ltac:(discriminate) toy_windows ltac:(discriminate) ltac:(reflexivity)) as H.
  destruct (apply _ _ _ _ _ _ _ _) as [s' st'|e st'|q|]; try exact I. exact (proj1 H).
Defined.

Lemma apply_composes_witness :
  ∃ st', toy_apply toy_genesis_snapshot [toy_block1; toy_block2; toy_block3] toy_start = Ret toy_snapshot3 st'.
Proof.
  apply (apply_composes toy_Keccak256 toy_Ecrecover (Some 56) toy_known toy_world toy_chain []
    toy_genesis_snapshot [toy_block1] [toy_block2; toy_block3] toy_snapshot1 toy_snapshot3
    toy_start toy_state1 toy_state3).
  - exact toy_lookups.
  - eapply Forall_impl; [exact toy_Forall_known|exact toy_ancestors].
  - exact toy_Forall_known.
  - exact (toy_sigs_ok toy_start eq_refl).
  - done.
  - done.
  - split; [done|reflexivity].
  - split; [done|reflexivity].
  - exact toy_step1.
  - exact toy_step3.
Defined.

Lemma apply_keeps_recents_witness : recents_ok toy_snapshot1 ∧ snap_Number toy_snapshot1 = 1.
Proof.
  apply (apply_keeps_recents toy_Keccak256 toy_Ecrecover (Some 56) toy_known toy_world toy_chain []
    toy_genesis_snapshot [toy_block1] toy_snapshot1 toy_start toy_state1).
  - exact toy_lookups.
  - constructor; [exact (proj1 (Forall_cons_1 _ _ _ toy_Forall_known))|constructor].
  - exact (toy_sigs_ok toy_start eq_refl).
  - done.
  - exact toy_recents.
  - done.
  - reflexivity.
  - exact toy_step1.
Defined.

Definition toy_state123 : toy_state := Eval vm_compute in
  match toy_apply toy_genesis_snapshot [toy_block1; toy_block2; toy_block3] toy_start with
  | Ret _ st => st | _ => toy_start end.

Lemma no_validator_signs_twice_witness :
  ∃ ss, run toy_Keccak256 toy_Ecrecover (Some 56) toy_known toy_genesis_snapshot
      [toy_block1; toy_block2; toy_block3] ss ∧
    List.last ss toy_genesis_snapshot = toy_snapshot3.
Proof.
  destruct (no_validator_signs_twice toy_Keccak256 toy_Ecrecover (Some 56) toy_known toy_world toy_chain []
    toy_genesis_snapshot [toy_block1; toy_block2; toy_block3] toy_snapshot3 toy_start toy_state123)
    as (ss & Hr & Hl & _).
  - exact toy_lookups.
  - exact toy_Forall_known.
  - exact (toy_sigs_ok toy_start eq_refl).
  - done.
  - exact toy_recents.
  - done.
  - reflexivity.
  - vm_compute. reflexivity.
  - exists ss. split; assumption.
Defined.
