(* ===== verification/ParliaEngine.v ===== *)
(** * The consensus engine ([consensus/parlia/parlia.go], [ramanujanfork.go], [api.go],
      [consensus/misc/forks.go])

    The retrieval of snapshots, the verification of headers and seals, the preparation
    and sealing of blocks, and the queries on them.  The caches and the database are the
    state of the monad [PM]; the clock, the pseudo-random source, the signing function
    and the call to the validator contract are parameters. *)

From stdpp Require Import sorting.
From S2P Require Import Prelude Rlp Header Hexutil Params ForkId ParliaSnapshot ParliaStore.

Definition checkpointInterval : Z := 1024.
Definition defaultEpochLength : Z := 100.
Definition wiggleTime : Z := 1.
Definition initialBackOffTime : Z := 1.
Definition diffInTurn : Z := 2.
Definition diffNoTurn : Z := 1.
(** [time.Duration] counts nanoseconds. *)
Definition Second : Z := 10 ^ 9.
Definition wiggleTimeBeforeFork : Z := 500 * 10 ^ 6.
Definition fixedBackOffTimeBeforeFork : Z := 200 * 10 ^ 6.

(** The fields of [Parlia] that do not change while it verifies. *)
Record engine := {
  p_chainConfig : ChainConfig;
  p_config : ParliaConfig;
  p_genesisHash : Hash;
  p_val : Address;
  p_fakeDiff : bool;
}.

(** [None] is an engine with a nil [config], which the client does not make: it chooses
    this engine when [chainConfig.Parlia] is set.  The two configurations share one
    [ParliaConfig], so a missing length of the epochs is filled in for both. *)
Definition New (chainConfig : ChainConfig) (genesisHash : Hash) : option engine :=
  c ← Parlia chainConfig;
  let parliaConfig := if Epoch c =? 0 then {| Period := Period c; Epoch := defaultEpochLength |} else c in
  Some {| p_chainConfig := set_Parlia parliaConfig chainConfig;
          p_config := parliaConfig;
          p_genesisHash := genesisHash; p_val := 0; p_fakeDiff := false |}.

Definition Authorize (p : engine) (val : Address) : engine := {|
  p_chainConfig := p_chainConfig p; p_config := p_config p; p_genesisHash := p_genesisHash p;
  p_val := val; p_fakeDiff := p_fakeDiff p |}.

(** [misc.VerifyForkHashes]. *)
Definition VerifyForkHashes (Keccak256 : bytes → Hash) (config : ChainConfig) (header : Header)
    (uncle : bool) : option parlia_error :=
  if uncle then None
  else
    match EIP150Block config with
    | Some b =>
        if bool_decide (Number header = Some b) && negb (EIP150Hash config =? 0)
           && negb (EIP150Hash config =? Header_Hash Keccak256 header)
        then Some errForkHash else None
    | None => None
    end.

Definition IsRamanujan_at (c : ChainConfig) (header : Header) : bool :=
  isForked (RamanujanBlock c) (Number header).

Section engine.
Context {SC RC D : Type} {CS : Cache Address SC} {CR : Cache Snapshot RC}.
Context {KV : KeyValue D} {JT : JsonText}.
Variable Keccak256 : bytes → Hash.
Variable crypto_Ecrecover : bytes → bytes → option bytes.
(** The draw of [rand.New(rand.NewSource(seed))] that [Shuffle] makes for the index [i] of
    [n] elements. *)
Variable rand_draw : Z → Z → Z → Z.
(** [rand.Int63n]. *)
Variable rand_Int63n : Z → Z.
(** [getValidators] of the validator contract at a block, through the Ethereum API. *)
Variable getValidators_call : Hash → option (list Address).

Abbreviation PM := (@PM SC RC D).
Abbreviation hash := (Header_Hash Keccak256).

(** ** Caches and database *)

Definition snap_get (h : Hash) : PM (option Snapshot) := λ st,
  let '(o, c) := cache_get h (recentSnaps st) in
  Ret o (Build_pstate (signatures st) c (db st)).
Definition snap_add (h : Hash) (s : Snapshot) : PM unit :=
  modify (λ st, Build_pstate (signatures st) (cache_add h s (recentSnaps st)) (db st)).
(** A failed load is no snapshot. *)
Definition snap_load (config : ParliaConfig) (h : Hash) : PM (option Snapshot) :=
  gets (λ st, loadSnapshot config (db st) h).
Definition snap_store (s : Snapshot) : PM unit := λ st,
  match store s (db st) with
  | Some d => Ret tt (Build_pstate (signatures st) (recentSnaps st) d)
  | None => Fail errDatabase st
  end.

(** ** Snapshots *)

(** The snapshot at the genesis block, from the validators of the canonical one. *)
Definition genesis_snapshot (config : ParliaConfig) (chain : ChainHeaderReader) :
    PM (option Snapshot) :=
  match GetHeaderByNumber chain 0 with
  | None => ret None
  | Some checkpoint =>
      let! b := or_panic PSlice (validatorBytes checkpoint) in
      let! validators := or_fail errInvalidValidatorsBytes (ParseValidators b) in
      let snap := newSnapshot config 0 (hash checkpoint) validators in
      do! snap_store snap in
      ret (Some snap)
  end.

(** The header of the block to go back from, and the parents that are left. *)
Definition gather_header (chain : ChainHeaderReader) (number : Z) (h : Hash)
    (parents : list Header) : PM (Header * list Header) :=
  if 0 <? zlen parents then
    let! header := or_panic PSlice (last parents) in
    when! negb (hash header =? h) raise ErrUnknownAncestor in
    let! n := header_number header in
    when! negb (n =? number) raise ErrUnknownAncestor in
    ret (header, take (length parents - 1) parents)
  else
    match GetHeader chain h number with
    | Some header => ret (header, parents)
    | None => fail ErrUnknownAncestor
    end.

(** Where a snapshot may be found without going back: in memory, on disk, at genesis. *)
Definition find_snapshot (config : ParliaConfig) (chain : ChainHeaderReader) (number : Z)
    (h : Hash) : PM (option Snapshot) :=
  let! s := snap_get h in
  match s with
  | Some _ => ret s
  | None =>
      let! s := (if number mod checkpointInterval =? 0 then snap_load config h else ret None) in
      match s with
      | Some _ => ret s
      | None => if number =? 0 then genesis_snapshot config chain else ret None
      end
  end.

(** The loop: the snapshot, the headers passed on the way, newest first, and the parents
    that are left. *)
Fixpoint search_loop (fuel : nat) (config : ParliaConfig) (chain : ChainHeaderReader)
    (number : Z) (h : Hash) (parents headers : list Header) {struct fuel} :
    PM (Snapshot * list Header * list Header) :=
  match fuel with
  | O => λ _, NoFuel
  | S fuel =>
      let! s := find_snapshot config chain number h in
      match s with
      | Some s => ret (s, headers, parents)
      | None =>
          let! (header, parents) := gather_header chain number h parents in
          search_loop fuel config chain (sub64 number 1) (ParentHash header) parents
            (headers ++ [header])
      end
  end.

(** The loop goes back one block in a turn and stops at genesis. *)
Definition search_fuel (number : Z) : nat := S (Z.to_nat number).

Definition snapshot (p : engine) (chain : ChainHeaderReader) (number : Z) (h : Hash)
    (parents : list Header) : PM Snapshot :=
  let config := p_config p in
  let! (snap, headers, parents) :=
    search_loop (search_fuel number) config chain number h parents [] in
  let headers := reverse headers in
  let! snap := apply Keccak256 crypto_Ecrecover chain parents (ChainID (p_chainConfig p)) snap headers in
  do! snap_add (snap_Hash snap) snap in
  do! (if (snap_Number snap mod checkpointInterval =? 0) && (0 <? zlen headers)
       then snap_store snap else ret tt) in
  ret snap.

(** ** Turns in time *)

(** [rand.Shuffle] of [backOffSteps]: for [i] from [n-1] down to [1] a swap with a drawn
    index. *)
Fixpoint Shuffle_loop (seed n : Z) (i : nat) (l : list Z) : list Z :=
  match i with
  | O => l
  | S i' =>
      let j := Z.to_nat (rand_draw seed n (Z.of_nat i)) in
      let a := default 0 (l !! i) in
      let b := default 0 (l !! j) in
      Shuffle_loop seed n i' (<[j := a]> (<[i := b]> l))
  end.
Definition Shuffle (seed n : Z) (l : list Z) : list Z := Shuffle_loop seed n (Z.to_nat n - 1) l.

(** [None] is a panic of [inturn]. *)
Definition backOffTime (snap : Snapshot) (val : Address) : option Z :=
  turn ← inturn snap val;
  if turn : bool then Some 0
  else
    let idx := indexOfVal snap val in
    if idx <? 0 then Some 0
    else
      let n := zsize (Validators snap) in
      let backOffSteps := Shuffle (s64 (snap_Number snap)) n (seqZ 0 n) in
      step ← index backOffSteps idx;
      Some (initialBackOffTime + step * wiggleTime).

Definition blockTimeForRamanujanFork (p : engine) (snap : Snapshot) (header parent : Header) : PM Z :=
  let config := p_config p in
  let blockTime := add64 (Time parent) (Period config) in
  if IsRamanujan_at (p_chainConfig p) header then
    let! b := or_panic PDivZero (backOffTime snap (p_val p)) in
    ret (add64 blockTime b)
  else ret blockTime.

Definition blockTimeVerifyForRamanujanFork (p : engine) (snap : Snapshot) (header parent : Header) :
    PM unit :=
  if IsRamanujan_at (p_chainConfig p) header then
    let config := p_config p in
    let! b := or_panic PDivZero (backOffTime snap (Coinbase header)) in
    when! Time header <? add64 (add64 (Time parent) (Period config)) b raise ErrFutureBlock in
    ret tt
  else ret tt.

(** [time.Until(time.Unix(int64(header.Time), 0))], [now] in nanoseconds; the difference
    saturates. *)
Definition time_until (now time : Z) : Z :=
  Z.max (- 2 ^ 63) (Z.min (2 ^ 63 - 1) (s64 time * Second - now)).

Definition delayForRamanujanFork (p : engine) (now : Z) (snap : Snapshot) (header : Header) : PM Z :=
  let delay := time_until now (Time header) in
  if IsRamanujan_at (p_chainConfig p) header then ret delay
  else
    let! d := or_panic PNil (Difficulty header) in
    if d =? diffNoTurn then
      let wiggle := s64 ((zsize (Validators snap) / 2 + 1) * wiggleTimeBeforeFork) in
      ret (s64 (delay + s64 (fixedBackOffTimeBeforeFork + rand_Int63n wiggle)))
    else ret delay.

(** ** Verification *)

(** The signer of a block at most [limit - 1] blocks before [number]. *)
Definition recently_signed (early : bool) (snap : Snapshot) (signer : Address) (number : Z) : bool :=
  let limit := zsize (Validators snap) / 2 + 1 in
  existsb (λ r, (r.2 =? signer) && ((early && (number <? limit)) || (sub64 number limit <? r.1)))
    (map_to_list (Recents snap)).

Definition verifySeal (p : engine) (chain : ChainHeaderReader) (header : Header)
    (parents : list Header) : PM unit :=
  let! number := header_number header in
  when! number =? 0 raise errUnknownBlock in
  let! snap := snapshot p chain (sub64 number 1) (ParentHash header) parents in
  let! signer := ecrecover Keccak256 crypto_Ecrecover header (ChainID (p_chainConfig p)) in
  when! negb (signer =? Coinbase header) raise errCoinBaseMisMatch in
  when! negb (bool_decide (signer ∈ Validators snap)) raise errUnauthorizedValidator in
  when! recently_signed false snap signer number raise errRecentlySigned in
  if p_fakeDiff p then ret tt
  else
    let! turn := or_panic PDivZero (inturn snap signer) in
    let! d := or_panic PNil (Difficulty header) in
    when! (turn && negb (d =? diffInTurn)) || (negb turn && negb (d =? diffNoTurn))
      raise errWrongDifficulty in
    ret tt.

(** The bounds on the gas limit of a block under [parent]. *)
Definition verify_gas (header parent : Header) : PM unit :=
  when! 0x7fffffffffffffff <? GasLimit header raise errGasLimitCapacity in
  when! GasLimit header <? GasUsed header raise errGasUsed in
  let diff := s64 (s64 (GasLimit parent) - s64 (GasLimit header)) in
  let diff := if diff <? 0 then s64 (diff * -1) else diff in
  let limit := GasLimit parent / GasLimitBoundDivisor in
  when! (limit <=? u64 diff) || (GasLimit header <? MinGasLimit) raise errGasLimitBounds in
  ret tt.

Definition verifyCascadingFields (p : engine) (chain : ChainHeaderReader) (header : Header)
    (parents : list Header) : PM unit :=
  let! number := header_number header in
  if number =? 0 then ret tt
  else
    let parent := if 0 <? zlen parents then last parents
                  else GetHeader chain (ParentHash header) (sub64 number 1) in
    let! parent := or_fail ErrUnknownAncestor parent in
    let! n := header_number parent in
    when! negb (n =? sub64 number 1) || negb (hash parent =? ParentHash header)
      raise ErrUnknownAncestor in
    let! snap := snapshot p chain (sub64 number 1) (ParentHash header) parents in
    do! blockTimeVerifyForRamanujanFork p snap header parent in
    do! verify_gas header parent in
    verifySeal p chain header parents.

(** The checks on the header alone, before its number is looked at as a child. *)
Definition verify_extra (config : ParliaConfig) (header : Header) (number : Z) : PM unit :=
  when! zlen (Extra header) <? extraVanity raise errMissingVanity in
  when! zlen (Extra header) <? extraVanity + extraSeal raise errMissingSignature in
  if Epoch config =? 0 then throw PDivZero
  else
    let isEpoch := number mod Epoch config =? 0 in
    let signersBytes := zlen (Extra header) - extraVanity - extraSeal in
    when! negb isEpoch && negb (signersBytes =? 0) raise errExtraValidators in
    when! isEpoch && negb (signersBytes mod validatorBytesLength =? 0) raise errInvalidSpanValidators in
    ret tt.

(** [now] is the clock in seconds. *)
Definition verifyHeader (p : engine) (now : Z) (chain : ChainHeaderReader) (header : Header)
    (parents : list Header) : PM unit :=
  match Number header with
  | None => fail errUnknownBlock
  | Some _ =>
      let! number := header_number header in
      when! u64 now <? Time header raise ErrFutureBlock in
      let config := p_config p in
      do! verify_extra config header number in
      when! negb (MixDigest header =? 0) raise errInvalidMixDigest in
      when! negb (UncleHash header =? uncleHash Keccak256) raise errInvalidUncleHash in
      when! (0 <? number) && bool_decide (Difficulty header = None) raise errInvalidDifficulty in
      match VerifyForkHashes Keccak256 (chain_Config chain) header false with
      | Some e => fail e
      | None => verifyCascadingFields p chain header parents
      end
  end.

Definition VerifyHeader (p : engine) (now : Z) (chain : ChainHeaderReader) (header : Header)
    (seal : bool) : PM unit :=
  verifyHeader p now chain header [].

(** The goroutine of [VerifyHeaders], up to the abort of the caller: one result per
    header, each verified with the headers before it as parents. *)
Fixpoint VerifyHeaders_loop (p : engine) (clock : nat → Z) (chain : ChainHeaderReader)
    (before headers : list Header) (n : nat) : PM (list (unit + parlia_error)) :=
  match headers, n with
  | header :: headers, S n =>
      let! r := try (verifyHeader p (clock (length before)) chain header before) in
      let! rs := VerifyHeaders_loop p clock chain (before ++ [header]) headers n in
      ret (r :: rs)
  | _, _ => ret []
  end.
(** [n] results are read before the abort. *)
Definition VerifyHeaders (p : engine) (clock : nat → Z) (chain : ChainHeaderReader)
    (headers : list Header) (n : nat) : PM (list (unit + parlia_error)) :=
  VerifyHeaders_loop p clock chain [] headers n.

Definition VerifySeal (p : engine) (chain : ChainHeaderReader) (header : Header) : PM unit :=
  verifySeal p chain header [].

Definition VerifyUncles (uncles : list Header) : PM unit :=
  when! 0 <? zlen uncles raise errUncles in ret tt.

(** ** Preparation *)

(** [CalcDifficulty] on a snapshot. *)
Definition turn_difficulty (snap : Snapshot) (signer : Address) : option Z :=
  turn ← inturn snap signer; Some (if turn : bool then diffInTurn else diffNoTurn).

Definition getCurrentValidators (blockHash : Hash) : PM (list Address) :=
  or_fail errContractCall (getValidators_call blockHash).

(** [bytes.Repeat] and the cut at the fork hash. *)
Definition vanity (extra : bytes) : bytes :=
  let n := extraVanity - nextForkHashSize in
  let extra := if zlen extra <? n then extra ++ zeros (n - zlen extra) else extra in
  take (Z.to_nat n) extra.

Definition with_fields (h : Header) (coinbase : Address) (nonce : bytes) (difficulty : option Z)
    (extra : bytes) (mix : Hash) (time : Z) : Header := {|
  ParentHash := ParentHash h; UncleHash := UncleHash h; Coinbase := coinbase; Root := Root h;
  TxHash := TxHash h; ReceiptHash := ReceiptHash h; Bloom := Bloom h; Difficulty := difficulty;
  Number := Number h; GasLimit := GasLimit h; GasUsed := GasUsed h; Time := time;
  Extra := extra; MixDigest := mix; Nonce := nonce |}.

(** The prepared header; a failure leaves a header the miner discards. *)
Definition Prepare (p : engine) (now : Z) (chain : ChainHeaderReader) (header : Header) : PM Header :=
  let! number := header_number header in
  let! snap := snapshot p chain (sub64 number 1) (ParentHash header) [] in
  let! difficulty := or_panic PDivZero (turn_difficulty snap (p_val p)) in
  let extra := vanity (Extra header) in
  let extra := extra ++ NextForkHash (p_chainConfig p) (p_genesisHash p) number in
  let config := p_config p in
  let! extra :=
    (if Epoch config =? 0 then throw PDivZero
     else if number mod Epoch config =? 0 then
       let! newValidators := getCurrentValidators (ParentHash header) in
       ret (extra ++ concat (map (be_encode 20) (merge_sort Z.le newValidators)))
     else ret extra) in
  let extra := extra ++ zeros extraSeal in
  let! parent := or_fail ErrUnknownAncestor (GetHeader chain (ParentHash header) (sub64 number 1)) in
  let! time := blockTimeForRamanujanFork p snap
    (with_fields header (p_val p) (zeros 8) (Some difficulty) extra 0 (Time header)) parent in
  let time := if time <? u64 now then u64 now else time in
  ret (with_fields header (p_val p) (zeros 8) (Some difficulty) extra 0 time).

(** ** Sealing *)

(** [SignerFn] applied to the local account; [None] is an error. *)
Definition signer_fn := bytes → option bytes.

Definition with_seal (h : Header) (sig : bytes) : Header :=
  let n := Z.to_nat (zlen (Extra h) - extraSeal) in
  with_fields h (Coinbase h) (Nonce h) (Difficulty h)
    (take n (Extra h) ++ go_copy (drop n (Extra h)) sig) (MixDigest h) (Time h).

(** What [Seal] decides before it starts the goroutine. *)
Inductive sealing :=
| SealPaused                             (* waiting for transactions *)
| SealWait                               (* signed recently, must wait for others *)
| SealAfter (header : Header) (delay : Z) (snap : Snapshot).

Definition Seal (p : engine) (now : Z) (signFn : signer_fn) (chain : ChainHeaderReader)
    (header : Header) (transactions : Z) : PM sealing :=
  let! number := header_number header in
  when! number =? 0 raise errUnknownBlock in
  let config := p_config p in
  if (Period config =? 0) && (transactions =? 0) then ret SealPaused
  else
    let! snap := snapshot p chain (sub64 number 1) (ParentHash header) [] in
    when! negb (bool_decide (p_val p ∈ Validators snap)) raise errUnauthorizedValidator in
    if recently_signed true snap (p_val p) number then ret SealWait
    else
      let! delay := delayForRamanujanFork p now snap header in
      let! message := or_panic PExplicit (ParliaRLP header (ChainID (p_chainConfig p))) in
      let! sig := or_fail errSign (signFn message) in
      ret (SealAfter (with_seal header sig) delay snap).

Definition shouldWaitForCurrentBlockProcess (chain : ChainHeaderReader) (header : Header) : option bool :=
  d ← Difficulty header;
  if d =? diffInTurn then Some false
  else
    match GetHighestVerifiedHeader chain with
    | None => Some false
    | Some h => Some (ParentHash header =? ParentHash h)
    end.

(** The goroutine: [stop] fires before the first or during the second wait, and the miner
    may not be reading.  The header that is delivered, if any. *)
Definition seal_deliver (chain : ChainHeaderReader) (header : Header)
    (stop_first stop_second reading : bool) : option (option Header) :=
  if stop_first then Some None
  else
    wait ← shouldWaitForCurrentBlockProcess chain header;
    if wait && stop_second then Some None
    else Some (if reading : bool then Some header else None).

(** ** Queries *)

Definition Delay (p : engine) (now : Z) (chain : ChainHeaderReader) (header : Header) : PM (option Z) :=
  let! number := header_number header in
  let! r := try (snapshot p chain (sub64 number 1) (ParentHash header) []) in
  match r with
  | inr _ => ret None
  | inl snap =>
      let! delay := delayForRamanujanFork p now snap header in
      let config := p_config p in
      let half := Z.quot (s64 (s64 (Period config) * Second)) 2 in
      ret (Some (if half <? delay then half else delay))
  end.

Definition EnoughDistance (p : engine) (chain : ChainHeaderReader) (header : Header) : PM bool :=
  let! number := header_number header in
  let! r := try (snapshot p chain (sub64 number 1) (ParentHash header) []) in
  match r with
  | inr _ => ret true
  | inl snap => ret (enoughDistance snap (p_val p) header)
  end.

Definition AllowLightProcess (p : engine) (chain : ChainHeaderReader) (currentHeader : Header) : PM bool :=
  let! number := header_number currentHeader in
  let! r := try (snapshot p chain (sub64 number 1) (ParentHash currentHeader) []) in
  match r with
  | inr _ => ret true
  | inl snap => ret (indexOfVal snap (p_val p) <? 0)
  end.

Definition IsLocalBlock (p : engine) (header : Header) : bool := p_val p =? Coinbase header.

(** The answer and, when there is one, the error. *)
Definition SignRecently (p : engine) (chain : ChainHeaderReader) (parent : Header) :
    PM (bool * option parlia_error) :=
  let! number := header_number parent in
  let! r := try (snapshot p chain number (ParentHash parent) []) in
  match r with
  | inr e => ret (true, Some e)
  | inl snap =>
      if negb (bool_decide (p_val p ∈ Validators snap)) then ret (true, Some errUnauthorizedValidator)
      else ret (recently_signed true snap (p_val p) (add64 number 1), None)
  end.

Definition CalcDifficulty (p : engine) (chain : ChainHeaderReader) (parent : Header) : PM (option Z) :=
  let! number := header_number parent in
  let! r := try (snapshot p chain number (hash parent) []) in
  match r with
  | inr _ => ret None
  | inl snap => let! d := or_panic PDivZero (turn_difficulty snap (p_val p)) in ret (Some d)
  end.

Definition Author (header : Header) : Address := Coinbase header.
Definition Parlia_SealHash (p : engine) (header : Header) : option Hash :=
  SealHash Keccak256 header (ChainID (p_chainConfig p)).

(** [api.go]: [rpc.LatestBlockNumber] is [-1]. *)
Definition LatestBlockNumber : Z := -1.
Definition api_header (chain : ChainHeaderReader) (number : option Z) : option Header :=
  match number with
  | None => CurrentHeader chain
  | Some n => if n =? LatestBlockNumber then CurrentHeader chain else GetHeaderByNumber chain (u64 n)
  end.
Definition api_snapshot (p : engine) (chain : ChainHeaderReader) (header : option Header) : PM Snapshot :=
  let! header := or_fail errUnknownBlock header in
  let! number := header_number header in
  snapshot p chain number (hash header) [].
Definition GetSnapshot (p : engine) (chain : ChainHeaderReader) (number : option Z) : PM Snapshot :=
  api_snapshot p chain (api_header chain number).
Definition GetSnapshotAtHash (p : engine) (chain : ChainHeaderReader) (h : Hash) : PM Snapshot :=
  api_snapshot p chain (GetHeaderByHash chain h).
Definition GetValidators (p : engine) (chain : ChainHeaderReader) (number : option Z) : PM (list Address) :=
  let! snap := GetSnapshot p chain number in ret (validators snap).
Definition GetValidatorsAtHash (p : engine) (chain : ChainHeaderReader) (h : Hash) : PM (list Address) :=
  let! snap := GetSnapshotAtHash p chain h in ret (validators snap).
End engine.
