(* ===== verification/ParliaAuthority.v ===== *)
(** * Snapshots of a chain

    The snapshots the rule gives for the blocks above a genesis block: one per block,
    with the properties every one of them has.  The engine's caches hold nothing else. *)

From S2P Require Import Prelude Rlp Header Hexutil Params ParliaSnapshot ParliaStore ParliaTurns ParliaChain ParliaRule ParliaChainProps ParliaEngine.

(** The genesis block and what the client assumes of block numbers and hashes. *)
Record genesis_ok (Keccak256 : bytes → Hash) (known : Header → Prop) (cfg : ParliaConfig)
    (g : Header) : Prop := {
  g_known : known g;
  g_number : Number_Uint64 g = Some 0;
  g_only h : known h → Number_Uint64 h = Some 0 → h = g;
  g_announces : announced g ≠ None;
  g_epoch : Epoch cfg ≠ 0;
  hash_range b : 0 <= Keccak256 b < 256 ^ 32;
  number_range h n : known h → Number_Uint64 h = Some n → n < 2 ^ 63;
}.

Section authority.
Variable Keccak256 : bytes → Hash.
Variable crypto_Ecrecover : bytes → bytes → option bytes.
Variable chainId : option Z.
Variable known : Header → Prop.
Hypothesis W : world_ok Keccak256 crypto_Ecrecover chainId known.
Variable cfg : ParliaConfig.
Variable g : Header.
Hypothesis G : genesis_ok Keccak256 known cfg g.

Abbreviation hash := (Header_Hash Keccak256).
Abbreviation recover := (recover Keccak256 crypto_Ecrecover chainId).
Abbreviation next := (next Keccak256 crypto_Ecrecover chainId known).
Abbreviation extends := (extends Keccak256 crypto_Ecrecover chainId known).
Abbreviation reaches := (reaches Keccak256 crypto_Ecrecover chainId known).

(** The snapshot at the genesis block. *)
Definition genesis_at (s : Snapshot) : Prop :=
  ∃ b l, validatorBytes g = Some b ∧ ParseValidators b = Some l ∧ s = newSnapshot cfg 0 (hash g) l.

Inductive authority : Snapshot → Prop :=
| authority_genesis s : genesis_at s → authority s
| authority_next s h s' : authority s → known h → extends s h s' → authority s'.

Lemma genesis_at_fun s s' : genesis_at s → genesis_at s' → s = s'.
Proof. intros (b & l & Hb & Hl & ->) (b' & l' & Hb' & Hl' & ->). by simplify_eq. Qed.

Lemma genesis_at_exists : ∃ b l, validatorBytes g = Some b ∧ ParseValidators b = Some l.
Proof.
  pose proof (g_announces _ _ _ _ G) as Ha. unfold announced in Ha.
  destruct (validatorBytes g) as [b|]; [|done]. simpl in Ha.
  destruct (ParseValidators b) as [l|] eqn:Hl; [|done]. by exists b, l.
Qed.

Lemma hash_ok h : 0 <= hash h < 256 ^ 32.
Proof. unfold Header_Hash, rlpHash. apply (hash_range _ _ _ _ G). Qed.

Lemma parent_range h : known h → 0 <= ParentHash h < 256 ^ 32.
Proof. intros Hk. destruct (w_known_ok _ _ _ _ W h Hk) as [(Hh & _) _]. exact (Forall_inv Hh). Qed.

(** ** Values in range *)

Lemma announced_range a b l : known a → validatorBytes a = Some b → ParseValidators b = Some l →
  ∀ v, v ∈ l → 0 <= v < 256 ^ 20.
Proof.
  intros Hk Hb Hl. destruct (w_known_ok _ _ _ _ W a Hk) as [(_ & _ & _ & _ & He & _) _].
  pose proof (slice_bytes _ _ _ _ He Hb) as Hbb. unfold ParseValidators in Hl.
  case_match; [done|]. injection Hl as <-. apply Forall_forall. by apply parse_loop_range.
Qed.

Lemma recover_range h v : recover h = Some v → 0 <= v < 256 ^ 20.
Proof.
  unfold ParliaChain.recover. case_if; [done|].
  destruct (slice _ _ _); [|done]. cbn [mbind option_bind].
  destruct (SealHash _ _ _); [|done]. cbn [mbind option_bind].
  destruct (crypto_Ecrecover _ _) as [k|]; [|done]. cbn [mbind option_bind].
  unfold signer_of. destruct (slice k 1 _); [|done]. cbn [mbind option_bind]. intros [= <-].
  change (256 ^ 20) with (2 ^ 160). apply Z.mod_pos_bound. lia.
Qed.

(** What a header's step leaves in the three maps comes from the old maps, the header and
    the announced set. *)
Lemma RecentForkHashes_next s h s' k f : next s h s' → RecentForkHashes s' !! k = Some f →
  is_u64 k ∨ RecentForkHashes s !! k = Some f.
Proof.
  intros [_ _ (s0 & (n & v & s1 & Hn & _ & _ & _ & Hsw & fh & _ & ->) & ->)] Hk.
  simpl in Hk. apply lookup_insert_Some in Hk as [[<- _]|[_ Hk]].
  { left. unfold Number_Uint64 in Hn. destruct (Number h); [|done]. injection Hn as <-. apply u64_range. }
  right. assert (Hsh : ∀ k f, RecentForkHashes (shift_out n s) !! k = Some f → RecentForkHashes s !! k = Some f).
  { intros k' f'. unfold shift_out. destruct (_ <=? n); simpl; destruct (_ <=? n); simpl; try done;
      by intros [_ ?]%lookup_delete_Some. }
  destruct Hsw as [(_ & a & vals & _ & _ & ->)|[_ ->]]; simpl in Hk; [|by apply Hsh].
  apply lookup_delete_range in Hk as [Hk _]; [by apply Hsh|apply u64_range].
Qed.

Lemma Validators_next s h s' a : known h → next s h s' → a ∈ Validators s' →
  0 <= a < 256 ^ 20 ∨ a ∈ Validators s.
Proof.
  intros Hkn [_ _ (s0 & (n & v & s1 & _ & _ & _ & _ & Hsw & f & _ & ->) & ->)] Ha.
  destruct Hsw as [(_ & c & vals & Hc & Hann & ->)|[_ ->]]; simpl in Ha.
  - left. unfold announced in Hann. destruct (validatorBytes c) as [b|] eqn:Hb; [|done]. simpl in Hann.
    destruct (ParseValidators b) as [l|] eqn:Hl; [|done]. simpl in Hann. injection Hann as <-.
    apply elem_of_list_to_set in Ha. eapply announced_range; [|exact Hb|exact Hl|exact Ha].
    by eapply ancestor_known.
  - right. by rewrite Validators_shift_out in Ha.
Qed.

(** ** What every snapshot of the chain satisfies *)

Record good (s : Snapshot) : Prop := {
  good_config : sconfig s = cfg;
  good_number : 0 <= snap_Number s < 2 ^ 63;
  good_windows : windows_ok s;
  good_ok : snapshot_ok s;
  good_header : ∃ h, known h ∧ hash h = snap_Hash s ∧ Number_Uint64 h = Some (snap_Number s);
}.

Lemma next_range s h s' : 0 <= snap_Number s < 2 ^ 63 → known h → next s h s' →
  snap_Number s < 2 ^ 63 - 1.
Proof.
  intros Hs Hk [_ Hn _]. pose proof (number_range _ _ _ _ G h _ Hk Hn) as Hr.
  rewrite add64_small in Hr by (unfold is_u64; lia). lia.
Qed.

Lemma genesis_good s : genesis_at s → good s.
Proof.
  intros (b & l & Hb & Hl & ->). pose proof (g_known _ _ _ _ G) as Hk. split; simpl.
  - done.
  - lia.
  - split; simpl; [|by intros ? ? ?%lookup_empty_Some]. split; simpl; [|by intros ? ? ?%lookup_empty_Some|by intros ? ? ? ?%lookup_empty_Some].
    eapply (zsize_announced known); [exact (w_known_ok _ _ _ _ W)|exact Hk|].
    unfold announced. rewrite Hb. simpl. by rewrite Hl.
  - split; simpl.
    + unfold is_u64. lia.
    + apply hash_ok.
    + intros a Ha%elem_of_list_to_set. by eapply announced_range.
    + by intros ? ? ?%lookup_empty_Some.
    + by intros ? ? ?%lookup_empty_Some.
  - exists g. split_and!; [done|done|]. apply (g_number _ _ _ _ G).
Qed.

(** The steps of the code and of the rule are the same on such a snapshot. *)
Lemma extends_range s h s' : known h → extends s h s' → 0 <= snap_Number s → snap_Number s < 2 ^ 63 - 1.
Proof. intros Hk [_ Hn _] H0. pose proof (number_range _ _ _ _ G h _ Hk Hn). lia. Qed.

Lemma good_steps s h s' : good s → known h → extends s h s' ↔ next s h s'.
Proof.
  intros [Hc Hn Hw _ _] Hk. destruct W as [Wc Wk Wi Wp]. split.
  - intros Hx. pose proof (extends_range _ _ _ Hk Hx ltac:(lia)).
    apply (extends_next Keccak256 crypto_Ecrecover chainId known Wc Wk Wi); try done; [lia|]. rewrite Hc. apply (g_epoch _ _ _ _ G).
  - intros Hx. pose proof (next_range _ _ _ Hn Hk Hx). by apply (next_extends Keccak256 crypto_Ecrecover chainId known Wc Wk Wi); [..|lia|].
Qed.

Lemma next_good s h s' : good s → known h → extends s h s' → good s'.
Proof.
  intros Hgood Hk Hx. pose proof Hx as Hnx. apply good_steps in Hnx; [|done..].
  destruct Hgood as [Hc Hn Hw Ho _]. pose proof (extends_range _ _ _ Hk Hx ltac:(lia)) as Hn'.
  destruct (extends_keeps _ _ _ _ _ _ _ Hx) as (Hc' & Hnum' & Hh').
  destruct W as [Wc Wk Wi Wp]. destruct (next_signer _ _ _ _ _ _ _ Hnx) as (v & Hv & _).
  split.
  - by rewrite Hc'.
  - rewrite Hnum'. lia.
  - apply (extends_windows Keccak256 crypto_Ecrecover chainId known Wc Wk Wi s h s'); try done; [lia|].
    rewrite Hc. apply (g_epoch _ _ _ _ G).
  - split.
    + rewrite Hnum'. unfold is_u64. lia.
    + rewrite Hh'. apply hash_ok.
    + intros a Ha. destruct (Validators_next _ _ _ _ Hk Hnx Ha); [done|by apply (ok_validators _ Ho)].
    + intros k a Hka. rewrite (Recents_next _ _ _ _ Wk Wi s h _ v k a (win_recents _ Hw) Hk Hnx Hv ltac:(lia)) in Hka.
      destruct Hka as [[-> ->]|(Hka & _)]; [|by eapply (ok_recents _ Ho)].
      split; [unfold is_u64; lia|by apply (recover_range h)].
    + intros k f Hkf. destruct (RecentForkHashes_next _ _ _ _ _ Hnx Hkf); [done|by eapply (ok_forks _ Ho)].
  - destruct Hx as [_ Hnum _]. exists h. split_and!; [done|done|]. by rewrite Hnum, Hnum'.
Qed.

Lemma authority_good s : authority s → good s.
Proof. induction 1; [by apply genesis_good|by eapply next_good]. Qed.

Lemma authority_steps s h s' : authority s → known h → next s h s' → authority s'.
Proof. intros Ha Hk Hn. eapply authority_next; [exact Ha|exact Hk|]. by apply good_steps; [apply authority_good|..]. Qed.

(** ** One snapshot per block *)

Lemma next_hash s h s' : next s h s' → snap_Hash s' = hash h ∧ snap_Number s' = add64 (snap_Number s) 1.
Proof. by intros [_ _ (s0 & _ & ->)]. Qed.

Lemma authority_zero s : authority s → snap_Number s = 0 → genesis_at s.
Proof.
  intros [s0 Hg|s0 h s' Ha Hk Hn] H0; [done|]. exfalso. apply good_steps in Hn; [|by apply authority_good|done].
  pose proof (good_number _ (authority_good _ Ha)) as Hr.
  pose proof (next_range _ _ _ Hr Hk Hn). destruct (next_hash _ _ _ Hn) as [_ Hn'].
  rewrite add64_small in Hn' by (unfold is_u64; lia). lia.
Qed.

(** The last step of a snapshot above genesis, by the header of its block. *)
Lemma authority_step s h : authority s → known h → snap_Hash s = hash h → snap_Number s ≠ 0 →
  ∃ s0, authority s0 ∧ next s0 h s ∧ snap_Hash s0 = ParentHash h ∧
        snap_Number s0 = snap_Number s - 1 ∧ Number_Uint64 h = Some (snap_Number s).
Proof.
  intros Ha Hk Hh Hne. destruct Ha as [s0 Hg|s0 h' s' Ha Hk' Hn].
  { by destruct Hg as (b & l & _ & _ & ->). }
  apply good_steps in Hn; [|by apply authority_good|done].
  destruct (next_hash _ _ _ Hn) as [Hh' Hn'].
  assert (h' = h) as -> by (apply (w_collision_free _ _ _ _ W); congruence).
  exists s0. pose proof Hn as [Hp Hnum _].
  pose proof (good_number _ (authority_good _ Ha)) as Hr.
  pose proof (next_range _ _ _ Hr Hk Hn). rewrite add64_small in * by (unfold is_u64; lia).
  split_and!; try done; [lia|congruence].
Qed.

Lemma authority_fun s1 s2 : authority s1 → authority s2 → snap_Hash s1 = snap_Hash s2 →
  snap_Number s1 = snap_Number s2 → s1 = s2.
Proof.
  intros H1. revert s2. induction H1 as [s1 Hg|s1 h s1' H1 IH Hk Hn]; intros s2 H2 Hh Hnum.
  - apply (genesis_at_fun _ _ Hg), authority_zero; [done|].
    destruct Hg as (b & l & _ & _ & ->). done.
  - apply good_steps in Hn; [|by apply authority_good|done]. destruct (next_hash _ _ _ Hn) as [Hh1 Hn1].
    pose proof (good_number _ (authority_good _ H1)) as Hr. pose proof (next_range _ _ _ Hr Hk Hn).
    rewrite add64_small in Hn1 by (unfold is_u64; lia).
    destruct (authority_step s2 h H2 Hk) as (s0 & H0 & Hn0 & Hp & Hn2 & _); [congruence|lia|].
    pose proof Hn as [Hp1 _ _].
    rewrite <- (IH s0 H0) in Hn0 by (congruence || lia). by apply (next_fun _ _ _ _ W _ _ _ _ Hn Hn0).
Qed.

Lemma authority_reaches s hs s' : authority s → Forall known hs → reaches s hs s' → authority s'.
Proof.
  intros Ha Hk. revert s Ha. induction Hk as [|h hs Hh _ IH]; intros s Ha.
  - intros (ss & Hr & <-). by inversion Hr.
  - rewrite reaches_cons. intros (s1 & Hn & Hr). apply (IH s1); [|done]. by eapply authority_steps.
Qed.

(** ** Going back *)

(** The headers of the blocks from number [n] and hash [x] down to the child of the block
    of number [m] and hash [y], newest first. *)
Fixpoint trail (n : Z) (x : Hash) (hs : list Header) (m : Z) (y : Hash) : Prop :=
  match hs with
  | [] => n = m ∧ x = y
  | h :: hs => known h ∧ hash h = x ∧ Number_Uint64 h = Some n ∧ 0 < n ∧
               trail (n - 1) (ParentHash h) hs m y
  end.

Lemma trail_known n x hs m y : trail n x hs m y → Forall known hs.
Proof. revert n x. induction hs as [|h hs IH]; intros n x; [done|]. intros (? & _ & _ & _ & ?). constructor; eauto. Qed.

Lemma trail_app n x hs m y h : trail n x hs m y → known h → hash h = y → Number_Uint64 h = Some m → 0 < m →
  trail n x (hs ++ [h]) (m - 1) (ParentHash h).
Proof.
  revert n x. induction hs as [|k hs IH]; intros n x; simpl.
  - intros [-> ->] ? ? ? ?. by split_and!.
  - intros (? & ? & ? & ? & ?) ? ? ? ?. split_and!; try done. by apply IH.
Qed.

(** A snapshot at the upper end comes from one at the lower end. *)
Lemma authority_trail s n x hs m y : authority s → snap_Hash s = x → snap_Number s = n →
  trail n x hs m y → ∃ s0, authority s0 ∧ snap_Hash s0 = y ∧ snap_Number s0 = m ∧ reaches s0 (reverse hs) s.
Proof.
  revert s n x. induction hs as [|h hs IH]; intros s n x Ha Hx Hn; simpl.
  - intros [<- <-]. exists s. split_and!; try done. exists []. split; [constructor|done].
  - intros (Hk & Hh & _ & Hpos & Ht).
    destruct (authority_step s h Ha Hk) as (s1 & H1 & Hnx & Hp & Hn1 & _); [congruence|lia|].
    destruct (IH s1 (n - 1) (ParentHash h) H1 Hp ltac:(lia) Ht) as (s0 & H0 & Hy & Hm & Hr).
    exists s0. split_and!; try done. rewrite reverse_cons. apply (reaches_app _ _ _ _). exists s1.
    split; [done|]. apply reaches_cons. exists s. split; [done|]. exists []. split; [constructor|done].
Qed.

(** What is reached along a trail is the snapshot at its upper end. *)
Lemma reaches_trail s n x hs m y s' : authority s → hs ≠ [] → trail n x hs m y →
  reaches s (reverse hs) s' → snap_Hash s' = x ∧ snap_Number s' = n.
Proof.
  destruct hs as [|h hs]; [done|]. intros Ha _ (Hk & Hh & Hnum & Hpos & Ht).
  rewrite reverse_cons, reaches_app. intros (s1 & Hr & H1). apply reaches_cons in H1 as (s2 & Hn & H2).
  destruct H2 as (ss & Hr2 & <-). inversion Hr2; subst. simpl.
  destruct (next_hash _ _ _ Hn) as [Hx Hn']. pose proof Hn as [_ Hn2 _]. split; congruence.
Qed.

(** ** What the local chain holds along the way *)

(** The block of number [n] and hash [x] is held with every block below it. *)
Definition held (chain : ChainHeaderReader) (n : Z) (x : Hash) : Prop :=
  ∀ b, known b → hash b = x → Number_Uint64 b = Some n →
    GetHeader chain x n = Some b ∧ holds_ancestors Keccak256 known chain b.

Lemma holds_held chain n x : holds_block Keccak256 known chain x → held chain n x.
Proof. intros H b Hb Hx Hn. destruct (H b Hb Hx) as [H1 H2]. auto. Qed.

Lemma held_parent chain n x h : held chain n x → known h → hash h = x → Number_Uint64 h = Some n → 0 < n < 2 ^ 64 →
  held chain (n - 1) (ParentHash h).
Proof.
  intros H Hk Hh Hn Hr p Hp Hpx Hpn. destruct (H h Hk Hh Hn) as [_ Ha].
  rewrite <- (sub64_small n 1) in Hpn |- * by (unfold is_u64; lia).
  split; [by eapply (holds_parent Keccak256 known)|].
  apply (holds_up Keccak256 known chain 1 h); [done|]. by econstructor; [..|constructor].
Qed.

Lemma trail_held chain n x hs m y : trail n x hs m y → held chain n x → n < 2 ^ 64 →
  Forall (holds_ancestors Keccak256 known chain) hs ∧ held chain m y.
Proof.
  revert n x. induction hs as [|h hs IH]; intros n x; simpl; [by intros [-> ->]|].
  intros (Hk & Hh & Hn & Hpos & Ht) Hc Hr.
  destruct (IH _ _ Ht) as [Hf Hy]; [by apply (held_parent chain n x h); [..|lia]|lia|].
  split; [|done]. constructor; [|done]. by apply (Hc h Hk Hh Hn).
Qed.
End authority.
