(* ===== verification/ParliaRetrieve.v ===== *)
(** * The engine finds the snapshot of the rule

    [snapshot] of [consensus/parlia/parlia.go], whatever its caches and database have
    kept: the invariant of the engine's state, and what each step of the search returns. *)

From S2P Require Import Prelude Rlp Header Hexutil Params ParliaSnapshot ParliaStore ParliaTurns ParliaChain ParliaRule ParliaChainProps ParliaEngine ParliaAuthority.

Section retrieve.
Context {SC RC D : Type} {CS : Cache Address SC} {CR : Cache Snapshot RC} {KV : KeyValue D} {JT : JsonText}.
Context {CSL : CacheLaws Address SC} {CRL : CacheLaws Snapshot RC} {KVL : KeyValueLaws D} {JTL : JsonTextLaws}.
Variable Keccak256 : bytes → Hash.
Variable crypto_Ecrecover : bytes → bytes → option bytes.
Variable known : Header → Prop.
Variable p : engine.
Variable g : Header.

Abbreviation chainId := (ChainID (p_chainConfig p)).
Abbreviation cfg := (p_config p).
Hypothesis W : world_ok Keccak256 crypto_Ecrecover chainId known.
Hypothesis G : genesis_ok Keccak256 known cfg g.

Abbreviation PM := (@PM SC RC D).
Abbreviation hash := (Header_Hash Keccak256).
Abbreviation reaches := (reaches Keccak256 crypto_Ecrecover chainId known).
Abbreviation authority := (authority Keccak256 crypto_Ecrecover chainId known cfg g).
Abbreviation genesis_at := (genesis_at Keccak256 cfg g).
Abbreviation trail := (trail Keccak256 known).

(** ** The invariant of the state *)

(** The caches and the database hold signers and snapshots of the chain. *)
Record st_ok (st : pstate SC RC D) : Prop := {
  st_sigs : sigs_ok Keccak256 crypto_Ecrecover chainId known (signatures st);
  st_snaps h s : cached (recentSnaps st) h s → authority s ∧ snap_Hash s = h;
  st_db h s : 0 <= h < 256 ^ 32 → loadSnapshot cfg (db st) h = Some s → authority s ∧ snap_Hash s = h;
}.

Lemma st_ok_sigs st st' : st_ok st → sigs_only Keccak256 crypto_Ecrecover chainId known st st' → st_ok st'.
Proof. intros [H1 H2 H3] (E1 & E2 & H). split; [auto|by rewrite E1|by rewrite E2]. Qed.

Lemma wp_snap_get h st : st_ok st →
  wp (snap_get h : PM _) (λ o st', st_ok st' ∧ ∀ s, o = Some s → authority s ∧ snap_Hash s = h)
    (λ _ _, False) (λ _, False) st.
Proof.
  intros [H1 H2 H3]. unfold wp, snap_get. destruct (cache_get h (recentSnaps st)) as [o c] eqn:Hg. split.
  - split; simpl; try done. intros k s Hc. apply H2. apply (cached_get _ h). by rewrite Hg.
  - intros s ->. apply H2. unfold cached. by rewrite Hg.
Qed.

Lemma st_ok_add st s : st_ok st → authority s →
  st_ok (Build_pstate (signatures st) (cache_add (snap_Hash s) s (recentSnaps st)) (db st)).
Proof.
  intros [H1 H2 H3] Ha. split; simpl; try done.
  intros h s' Hc. apply cached_add in Hc as [[-> ->]|Hc]; [done|by apply H2].
Qed.

Lemma wp_snap_store s st : st_ok st → authority s →
  wp (snap_store s : PM _) (λ _ st', st_ok st') (λ e st', st_ok st' ∧ e = errDatabase) (λ _, False) st.
Proof.
  intros Hst Ha. unfold wp, snap_store. destruct (store s (db st)) as [d|] eqn:Hs; [|done].
  pose proof (authority_good _ _ _ _ W _ _ G _ Ha) as Hgood.
  assert (Hok : snapshot_ok s) by apply Hgood. assert (Hc : sconfig s = cfg) by apply Hgood.
  unfold store in Hs.
  assert (Hload : ∀ c h, 0 <= h < 256 ^ 32 →
    loadSnapshot c d h = if decide (h = snap_Hash s) then json_snapshot c (snapshot_json s)
                         else loadSnapshot c (db st) h).
  { intros c h Hh. unfold loadSnapshot. case_decide as Hd.
    - subst. rewrite (get_put _ _ _ _ Hs). cbn [mbind option_bind]. rewrite value_text. done.
    - rewrite (get_put_other _ (snapshot_key h) _ _ _) with (2 := Hs); [done|].
      intros He. apply Hd. symmetry. apply snapshot_key_inj; [apply (ok_hash _ Hok)|done|done]. }
  destruct Hst as [H1 H2 H3]. split; simpl; try done.
  intros h s' Hh. rewrite Hload by done. case_decide as Hd; [|by apply H3].
  rewrite <- Hc, json_snapshot_json by done. intros <-%(inj Some). split; [by rewrite Hc|done].
Qed.

(** ** One place to look *)

(** The chain has the genesis block. *)
Definition has_genesis (chain : ChainHeaderReader) : Prop := GetHeaderByNumber chain 0 = Some g.

Lemma wp_genesis chain st : st_ok st → has_genesis chain →
  wp (genesis_snapshot Keccak256 cfg chain : PM _)
    (λ o st', st_ok st' ∧ ∃ s, o = Some s ∧ genesis_at s)
    (λ e st', st_ok st' ∧ e = errDatabase) (λ _, False) st.
Proof.
  intros Hst Hgen. unfold genesis_snapshot. rewrite Hgen.
  destruct (genesis_at_exists Keccak256 known cfg g G) as (b & l & Hb & Hl).
  rewrite Hb. wp_step. apply wp_ret. rewrite Hl. wp_step. apply wp_ret. wp_step.
  assert (Hat : genesis_at (newSnapshot cfg 0 (hash g) l)) by (by exists b, l).
  eapply wp_mono; [apply wp_snap_store; [done|by apply authority_genesis]|..]; cbn beta; try done.
  intros _ st' Hst'. apply wp_ret. split; [done|]. by eexists.
Qed.

(** The snapshot of a block, or at number zero the one of genesis. *)
Definition found (number : Z) (h : Hash) (s : Snapshot) : Prop :=
  authority s ∧ (snap_Hash s = h ∨ (number = 0 ∧ genesis_at s)).

Lemma wp_find chain number h st : st_ok st → has_genesis chain → 0 <= h < 256 ^ 32 →
  wp (find_snapshot Keccak256 cfg chain number h : PM _)
    (λ o st', st_ok st' ∧ match o with Some s => found number h s | None => number ≠ 0 end)
    (λ e st', st_ok st' ∧ e = errDatabase) (λ _, False) st.
Proof.
  intros Hst Hgen Hh. unfold find_snapshot. wp_step.
  eapply wp_mono; [by apply wp_snap_get|..]; cbn beta; try done.
  intros [s|] st1 [H1 Ho]; [apply wp_ret; split; [done|]; destruct (Ho s eq_refl); split; [done|by left]|].
  assert (Hrest : ∀ st', st_ok st' →
    wp (if number =? 0 then genesis_snapshot Keccak256 cfg chain else ret None : PM _)
      (λ o st', st_ok st' ∧ match o with Some s => found number h s | None => number ≠ 0 end)
      (λ e st', st_ok st' ∧ e = errDatabase) (λ _, False) st').
  { intros st' H'. destruct (Z.eqb_spec number 0) as [->|Hne]; [|by apply wp_ret].
    eapply wp_mono; [by apply wp_genesis|..]; cbn beta; try done.
    intros o st2 (H2 & s & -> & Hs). split; [done|]. split; [by apply authority_genesis|by right]. }
  wp_step. destruct (number mod checkpointInterval =? 0); [|apply wp_ret; by apply Hrest].
  unfold snap_load. wp_step. destruct (loadSnapshot cfg (db st1) h) as [s|] eqn:Hl; [|by apply Hrest].
  apply wp_ret. split; [done|]. destruct (st_db _ H1 h s Hh Hl). split; [done|by left].
Qed.

Lemma last_known parents h : Forall known parents → last parents = Some h → known h.
Proof. intros Hp Hl. apply last_Some_elem_of in Hl. by eapply Forall_forall in Hp. Qed.

(** The header of the block to go back from. *)
Lemma wp_gather chain number h parents st :
  lookups_ok Keccak256 known chain parents →
  wp (gather_header Keccak256 chain number h parents : PM _)
    (λ r st', st' = st ∧ known r.1 ∧ hash r.1 = h ∧ Number_Uint64 r.1 = Some number ∧
              lookups_ok Keccak256 known chain r.2 ∧ (parents = [] → r.2 = []))
    (λ e st', st' = st ∧ e = ErrUnknownAncestor ∧
       (parents = [] → GetHeader chain h number = None))
    (λ _, False) st.
Proof.
  intros [Hp Hg]. unfold gather_header. destruct (Z.ltb_spec 0 (zlen parents)) as [Hne|Hne].
  - assert (Hnil : parents ≠ []) by (by intros E; rewrite E in Hne).
    assert (∃ hd, last parents = Some hd) as [hd Hl].
    { destruct parents as [|x l] using rev_ind; [done|]. exists x. apply last_snoc. }
    pose proof (last_known _ _ Hp Hl) as Hk. rewrite Hl. wp_step. apply wp_ret.
    assert (Hno : ∀ e, e = ErrUnknownAncestor → st = st ∧ e = ErrUnknownAncestor ∧
       (parents = [] → GetHeader chain h number = None)) by (intros e ->; split_and!; [done|done|by intros ?]).
    destruct (Z.eqb_spec (hash hd) h) as [Hh|?]; cbn [negb]; [|by apply wp_fail, Hno].
    wp_step. eapply wp_header_number; [apply (w_known_ok _ _ _ _ W)|done|].
    intros n Hn _. destruct (Z.eqb_spec n number) as [->|?]; cbn [negb]; [|by apply wp_fail, Hno].
    apply wp_ret. split_and!; try done.
    split; [by apply Forall_take|done].
  - destruct (GetHeader chain h number) as [hd|] eqn:Hgh.
    + apply wp_ret. destruct (Hg _ _ _ Hgh) as (? & ? & ?). by split_and!.
    + by apply wp_fail.
Qed.

(** ** The search *)

(** The snapshot of the block of number [n] and hash [x]. *)
Definition at_block (n : Z) (x : Hash) (s : Snapshot) : Prop :=
  authority s ∧ snap_Hash s = x ∧ snap_Number s = n.

Lemma wp_search chain n0 x0 fuel number h parents hs st :
  st_ok st → has_genesis chain → lookups_ok Keccak256 known chain parents →
  0 <= h < 256 ^ 32 → 0 <= number < 2 ^ 63 → (Z.to_nat number < fuel)%nat →
  trail n0 x0 hs number h → n0 < 2 ^ 64 →
  wp (search_loop Keccak256 fuel cfg chain number h parents hs : PM _)
    (λ r st', st_ok st' ∧ lookups_ok Keccak256 known chain r.2 ∧
       ∃ m y, trail n0 x0 r.1.2 m y ∧ found m y r.1.1)
    (λ e st', st_ok st' ∧ (held Keccak256 known chain n0 x0 → parents = [] → e ≠ errDatabase →
                           ¬ ∃ s, at_block n0 x0 s))
    (λ _, False) st.
Proof.
  intros Hst Hgen Hl Hh Hnum Hf Ht Hn0. revert number h parents hs st Hst Hl Hh Hnum Hf Ht.
  induction fuel as [|fuel IH]; intros number h parents hs st Hst Hl Hh Hnum Hf Ht; [lia|].
  cbn [search_loop]. wp_step. eapply wp_mono; [by apply wp_find|..]; cbn beta; [| |done].
  2:{ intros e st1 [H1 ->]. by split. }
  intros [s|] st1 [H1 Ho]; [apply wp_ret; split_and!; [done|done|by exists number, h]|].
  wp_step. eapply wp_mono; [by apply wp_gather|..]; cbn beta; [| |done].
  2:{ intros e st2 (-> & -> & Hno). split; [done|]. intros Hc Hp _ (s & Ha & Hx & Hn).
      destruct (authority_trail _ _ _ _ W _ _ G s n0 x0 hs number h Ha Hx Hn Ht) as (s0 & H0 & Hy & Hm & _).
      destruct (good_header _ _ _ _ (authority_good _ _ _ _ W _ _ G _ H0)) as (hd & Hk & Hhd & Hnd).
      destruct (trail_held _ _ chain _ _ _ _ _ Ht Hc Hn0) as [_ Hheld].
      destruct (Hheld hd Hk) as [Hget _]; [congruence..|]. rewrite (Hno Hp) in Hget. done. }
  intros [hd rest] st2 (-> & Hk & Hhd & Hn & Hl' & Hrest). cbn [fst snd] in *.
  rewrite sub64_small by (unfold is_u64; lia).
  eapply wp_mono; [apply (IH (number - 1) (ParentHash hd) rest (hs ++ [hd])); try done|..]; cbn beta; try done.
  - by eapply parent_range.
  - lia.
  - lia.
  - eapply trail_app; try done. lia.
  - intros e st3 [H3 Hr]. split; [done|]. auto.
Qed.

(** ** The snapshot *)

(** What callers ask for: a block that is not below the genesis block of the chain. *)
Record asked (number : Z) (h : Hash) : Prop := {
  asked_range : 0 <= h < 256 ^ 32;
  asked_number : 0 <= number < 2 ^ 63;
  asked_genesis : number = 0 → h = hash g;
  asked_block hd : known hd → hash hd = h → Number_Uint64 hd = Some number;
}.

Lemma found_reached number h m y hs s s' : asked number h → trail number h hs m y → found m y s →
  reaches s (reverse hs) s' → at_block number h s'.
Proof.
  intros [Hr Hn Hg Hb] Ht [Ha Hf] Hre.
  assert (Hk : Forall known (reverse hs)) by (apply Forall_reverse; by eapply trail_known).
  pose proof (authority_reaches _ _ _ _ W _ _ G _ _ _ Ha Hk Hre) as Ha'.
  destruct (decide (hs = [])) as [->|Hne].
  - destruct Ht as [<- <-]. destruct Hre as (ss & Hrun & <-). inversion Hrun; subst. simpl in *.
    assert (Hx : snap_Hash s = h).
    { destruct Hf as [?|[-> (b & l & _ & _ & ->)]]; [done|]. simpl. by rewrite Hg. }
    split_and!; try done.
    destruct (good_header _ _ _ _ (authority_good _ _ _ _ W _ _ G _ Ha)) as (hd & Hkd & Hhd & Hnd).
    rewrite (Hb hd Hkd) in Hnd by congruence. congruence.
  - destruct (reaches_trail _ _ _ _ _ _ _ _ _ _ _ _ _ Ha Hne Ht Hre). by split_and!.
Qed.

Lemma wp_snapshot chain number h parents st :
  st_ok st → has_genesis chain → lookups_ok Keccak256 known chain parents → asked number h →
  wp (snapshot Keccak256 crypto_Ecrecover p chain number h parents : PM _)
    (λ s st', st_ok st' ∧ at_block number h s)
    (λ e st', st_ok st' ∧ (holds_block Keccak256 known chain h → parents = [] → e ≠ errDatabase →
                           ¬ ∃ s, at_block number h s))
    (λ _, False) st.
Proof.
  intros Hst Hgen Hl Hask. unfold snapshot. wp_step.
  pose proof (asked_number _ _ Hask) as Hnum.
  eapply wp_mono; [apply (wp_search chain number h); try done; [apply Hask|unfold search_fuel; lia|lia]|..];
    cbn beta; [| |done].
  2:{ intros e st1 [H1 Hr]. split; [done|]. intros Hc. apply Hr. by apply holds_held. }
  intros [[s hs] rest] st1 (H1 & Hl' & m & y & Ht & Hf). cbn [fst snd] in *.
  destruct Hf as [Ha Hf]. pose proof (authority_good _ _ _ _ W _ _ G _ Ha) as Hg.
  assert (Hk : Forall known (reverse hs)) by (apply Forall_reverse; by eapply trail_known).
  wp_step. eapply wp_mono; [apply (apply_wp _ _ _ _ W); try done|..]; cbn beta; try done.
  - apply H1.
  - rewrite (good_config _ _ _ _ Hg). apply (g_epoch _ _ _ _ G).
  - pose proof (good_number _ _ _ _ Hg). lia.
  - intros s' st2 [Hre H2]. pose proof (st_ok_sigs _ _ H1 H2) as Hst2.
    pose proof (found_reached _ _ _ _ _ _ _ Hask Ht (conj Ha Hf) Hre) as Hat.
    destruct Hat as (Ha' & Hx & Hn'). wp_step. unfold snap_add. apply wp_modify.
    pose proof (st_ok_add _ _ Hst2 Ha') as Hst3. wp_step. destruct (_ && _).
    + eapply wp_mono; [by apply wp_snap_store|..]; cbn beta; try done.
      intros e st4 [H4 ->]. by split.
    + apply wp_ret. apply wp_ret. done.
  - intros e st2 [H2 Hrej]. split; [by eapply st_ok_sigs|]. intros Hc _ _ (s' & Ha' & Hx & Hn').
    destruct (authority_trail _ _ _ _ W _ _ G s' number h hs m y Ha' Hx Hn' Ht) as (s0 & H0 & Hy & Hm & Hre).
    destruct (trail_held _ _ chain _ _ _ _ _ Ht (holds_held _ _ _ _ _ Hc) ltac:(lia)) as [Hall _].
    apply (Hrej (or_intror (proj2 (Forall_reverse _ _) Hall))). exists s'. assert (s0 = s); [|by subst s0].
    destruct Hf as [Hf|[-> Hf]].
    + apply (authority_fun _ _ _ _ W _ _ G); try done; [congruence|].
      destruct (good_header _ _ _ _ (authority_good _ _ _ _ W _ _ G _ H0)) as (k0 & Hk0 & Hh0 & Hn0).
      destruct (good_header _ _ _ _ Hg) as (k1 & Hk1 & Hh1 & Hn1).
      assert (k0 = k1) as -> by (apply (w_collision_free _ _ _ _ W); congruence). congruence.
    + apply (genesis_at_fun Keccak256 cfg g); [|done]. by eapply (authority_zero _ _ _ _ W _ _ G).
Qed.
End retrieve.
