(* ===== verification/ParliaEngineModel.v ===== *)
(** * A concrete engine

    Nodes over the chain of [ParliaModel], with empty caches and databases.  The witnesses
    of the engine's theorems run here. *)

From S2P Require Import Prelude Rlp Header Hexutil Params ForkId ParliaSnapshot ParliaStore ParliaTurns ParliaChain ParliaModel ParliaChainProps ParliaEngine.
From S2P Require Import ParliaAuthority ParliaRetrieve.

Definition toy_engine : engine := {|
  p_chainConfig := toy_config None; p_config := {| Period := 3; Epoch := 200 |};
  p_genesisHash := toy_hash0; p_val := 0; p_fakeDiff := false |}.

Lemma toy_hash_range b : 0 <= toy_Keccak256 b < 256 ^ 32.
Proof.
  unfold toy_Keccak256. destruct b as [|x b] using rev_ind; [by vm_compute|]. clear IHb.
  rewrite fold_left_app. cbn [fold_left]. rewrite Z.land_ones by lia.
  pose proof (Z.mod_pos_bound (fold_left (λ acc x, Z.land (acc * 257 + x) (Z.ones 64)) b 0 * 257 + x) (2 ^ 64)). lia.
Qed.

Lemma toy_known_cases (P : Header → Prop) :
  P toy_genesis → P toy_block1 → P toy_block2 → P toy_block3 → P toy_block4 → ∀ h, toy_known h → P h.
Proof.
  intros ????? h. unfold toy_known, toy_headers. rewrite !elem_of_cons, elem_of_nil.
  by intros [->|[->|[->|[->|[->|[]]]]]].
Qed.

Lemma toy_gas h : toy_known h → GasLimit h < 2 ^ 63.
Proof. revert h. by apply toy_known_cases. Qed.

Lemma toy_genesis_ok : genesis_ok toy_Keccak256 toy_known (p_config toy_engine) toy_genesis.
Proof.
  split.
  - unfold toy_known, toy_headers. constructor.
  - reflexivity.
  - apply (toy_known_cases (λ h, Number_Uint64 h = Some 0 → h = toy_genesis)); [done|..];
      intros E; exfalso; vm_compute in E; discriminate.
  - vm_compute. discriminate.
  - discriminate.
  - apply toy_hash_range.
  - intros h n. revert h. apply (toy_known_cases (λ h, Number_Uint64 h = Some n → n < 2 ^ 63));
      intros E; vm_compute in E; injection E as <-; reflexivity.
Qed.

(** A node that has just started. *)
Lemma toy_start_ok p : p_config p = p_config toy_engine → p_chainConfig p = p_chainConfig toy_engine →
  st_ok toy_Keccak256 toy_Ecrecover toy_known p toy_genesis toy_start.
Proof.
  intros Hc Hcc. split.
  - intros h v _ Hv. unfold cached in Hv. by simpl in Hv.
  - intros h s Hv. unfold cached in Hv. by simpl in Hv.
  - intros h s _ Hl. unfold loadSnapshot in Hl. by simpl in Hl.
Qed.

Lemma toy_has_genesis : has_genesis toy_genesis toy_chain.
Proof. reflexivity. Qed.

(** The block above which a header of the chain is. *)
Lemma toy_asked n h : toy_known h → Number_Uint64 h = Some n →
  asked toy_Keccak256 toy_known toy_genesis n (Header_Hash toy_Keccak256 h).
Proof.
  intros Hk Hn. pose proof (number_range _ _ _ _ toy_genesis_ok h n Hk Hn). split.
  - apply toy_hash_range.
  - split; [|done]. unfold Number_Uint64 in Hn. destruct (Number h); [|done]. injection Hn as <-. apply u64_range.
  - intros ->. by rewrite (g_only _ _ _ _ toy_genesis_ok h Hk Hn).
  - intros hd Hkd Hh. by rewrite (toy_collision_free hd h Hkd Hk Hh).
Qed.

(** Decides an outcome without looking at its state. *)
Definition returns {E S A} (o : outcome E S A) (f : A → bool) : bool :=
  match o with Ret a _ => f a | _ => false end.
