(* ===== verification/ParliaBackoff.v ===== *)
(** * Back-off times ([backOffTime] of [consensus/parlia/parlia.go])

    Validators that are not in turn wait for different times, drawn by shuffling the
    slots with a generator that every node seeds with the block number. *)

From S2P Require Import Prelude Rlp Header Hexutil Params ParliaSnapshot ParliaStore ParliaTurns ParliaEngine.

Section backoff.
Variable rand_draw : Z → Z → Z → Z.

(** A draw for the index [i] is one of [0] to [i]. *)
Definition draws_ok : Prop := ∀ seed n i, 0 <= i → 0 <= rand_draw seed n i <= i.

Lemma length_Shuffle_loop seed n i l : length (Shuffle_loop rand_draw seed n i l) = length l.
Proof.
  revert l. induction i as [|i IH]; intros l; [done|]. cbn [Shuffle_loop]. by rewrite IH, !length_insert.
Qed.

Lemma Shuffle_loop_Permutation seed n i l : draws_ok → (i < length l ∨ i = 0)%nat →
  Shuffle_loop rand_draw seed n i l ≡ₚ l.
Proof.
  intros Hd. revert l. induction i as [|i IH]; intros l Hi; [done|]. destruct Hi as [Hi|]; [|done].
  cbn [Shuffle_loop]. pose proof (Hd seed n (Z.of_nat (S i)) ltac:(lia)) as Hj.
  destruct (lookup_lt_is_Some_2 l (S i) Hi) as [a Ha].
  destruct (lookup_lt_is_Some_2 l (Z.to_nat (rand_draw seed n (Z.of_nat (S i))))) as [b Hb]; [lia|].
  rewrite Ha, Hb. cbn [default from_option id]. rewrite IH by (rewrite !length_insert; lia).
  by apply Permutation_insert_swap.
Qed.

Lemma length_Shuffle seed n l : length (Shuffle rand_draw seed n l) = length l.
Proof. apply length_Shuffle_loop. Qed.

Lemma Shuffle_Permutation seed l : draws_ok → Shuffle rand_draw seed (zlen l) l ≡ₚ l.
Proof.
  intros Hd. apply Shuffle_loop_Permutation; [done|]. unfold zlen. rewrite Nat2Z.id.
  destruct l; simpl; lia.
Qed.

Lemma zlen_seqZ n : 0 <= n → zlen (seqZ 0 n) = n.
Proof. intros. unfold zlen. rewrite length_seqZ. lia. Qed.

Lemma zsize_nonneg (s : gset Address) : 0 <= zsize s.
Proof. unfold zsize. lia. Qed.

Lemma backOffTime_some s v : Validators s ≠ ∅ → ∃ b, backOffTime rand_draw s v = Some b.
Proof.
  intros Hne. destruct (supposeValidator_in s Hne) as (w & Hw & _). unfold backOffTime.
  rewrite (inturn_suppose s v w Hw). cbn [mbind option_bind]. destruct (w =? v); [by eexists|].
  destruct (Z.ltb_spec (indexOfVal s v) 0); [by eexists|].
  assert (Hv : v ∈ Validators s).
  { destruct (decide (v ∈ Validators s)); [done|]. rewrite indexOfVal_out in * by done. lia. }
  destruct (indexOfVal_in s v Hv) as [Hi _].
  destruct (index_ok (Shuffle rand_draw (s64 (snap_Number s)) (zsize (Validators s))
    (seqZ 0 (zsize (Validators s)))) (indexOfVal s v)) as [b Hb].
  { unfold zlen. rewrite length_Shuffle. fold (zlen (seqZ 0 (zsize (Validators s)))).
    rewrite zlen_seqZ by apply zsize_nonneg. by rewrite <- zlen_validators. }
  rewrite Hb. by eexists.
Qed.

(** With no validators left the turn is a division by zero. *)
Lemma backOffTime_empty s v : Validators s = ∅ → backOffTime rand_draw s v = None.
Proof.
  intros He. unfold backOffTime, inturn. rewrite zlen_validators, He. unfold zsize. by rewrite size_empty.
Qed.

(** The slot of a validator that is not in turn. *)
Lemma backOffTime_slot s v : v ∈ Validators s → supposeValidator s ≠ Some v →
  ∃ b, index (Shuffle rand_draw (s64 (snap_Number s)) (zsize (Validators s))
               (seqZ 0 (zsize (Validators s)))) (indexOfVal s v) = Some b ∧
       backOffTime rand_draw s v = Some (1 + b).
Proof.
  intros Hv Hturn. destruct (backOffTime_some s v) as [b Hb]; [by intros E; rewrite E in Hv; set_solver|].
  destruct (supposeValidator_in s) as (w & Hw & _); [by intros E; rewrite E in Hv; set_solver|].
  unfold backOffTime in *. rewrite (inturn_suppose s v w Hw) in *. cbn [mbind option_bind] in *.
  rewrite (proj2 (Z.eqb_neq w v)) in * by congruence. destruct (indexOfVal_in s v Hv) as [Hi _].
  rewrite (proj2 (Z.ltb_ge _ 0)) in * by lia.
  destruct (index _ _) as [c|]; [|done]. cbn [mbind option_bind] in *. exists c. split; [done|].
  unfold initialBackOffTime, wiggleTime. f_equal. lia.
Qed.

(** The wait of a validator before block [n]: its slot in the shuffled round, when it is not
    in turn. *)
Definition delay (s : Snapshot) (n : Z) (v : Address) (d : Z) : Prop :=
  let count := zsize (Validators s) in
  if decide (v ∈ Validators s ∧ ¬ in_turn s n v)
  then ∃ slot, Shuffle rand_draw (n - 1) count (seqZ 0 count) !! Z.to_nat (rank (Validators s) v) = Some slot ∧ d = 1 + slot
  else d = 0.

Lemma backOffTime_delay s n v d : Validators s ≠ ∅ → n = snap_Number s + 1 → 0 <= snap_Number s < 2 ^ 63 →
  backOffTime rand_draw s v = Some d ↔ delay s n v d.
Proof.
  intros Hne Hn Hs. unfold backOffTime, delay. rewrite (inturn_spec s n v Hne Hn Hs). cbn [mbind option_bind].
  case_bool_decide as Ht.
  { rewrite decide_False by (by intros [_ ?]). split; [by intros [= <-]|by intros ->]. }
  destruct (decide (v ∈ Validators s)) as [Hv|Hv].
  - rewrite decide_True by done. destruct (indexOfVal_in s v Hv) as [Hi _]. rewrite (proj2 (Z.ltb_ge _ 0)) by lia.
    unfold index. rewrite (proj2 (Z.leb_le 0 _)) by lia. rewrite index_rank, s64_small by (done || lia).
    replace (n - 1) with (snap_Number s) by lia. unfold initialBackOffTime, wiggleTime. split.
    + intros (slot & Hslot & [= <-])%bind_Some. exists slot. split; [done|lia].
    + intros (slot & -> & ->). cbn. f_equal. lia.
  - rewrite decide_False by (by intros [? _]). rewrite indexOfVal_out by done. cbn. split; [by intros [= <-]|by intros ->].
Qed.
End backoff.

(** C40 The validator in turn does not wait, every other one waits between one second and
    as many as there are validators, and no two of those wait equally long. *)
Theorem backOffTime_spread (rand_draw : Z → Z → Z → Z) (s : Snapshot) (v w : Address) :
  draws_ok rand_draw → v ∈ Validators s → w ∈ Validators s → v ≠ w →
  (supposeValidator s = Some v → backOffTime rand_draw s v = Some 0) ∧
  (supposeValidator s ≠ Some v →
     ∃ a, backOffTime rand_draw s v = Some a ∧ 1 <= a <= zsize (Validators s) ∧
       (supposeValidator s ≠ Some w → backOffTime rand_draw s w ≠ Some a)).
Proof.
  intros Hd Hv Hw Hne. split.
  { intros Ht. unfold backOffTime. by rewrite (inturn_suppose s v v Ht), Z.eqb_refl. }
  intros Hturn. set (n := zsize (Validators s)). set (l := Shuffle rand_draw (s64 (snap_Number s)) n (seqZ 0 n)).
  assert (Hp : l ≡ₚ seqZ 0 n).
  { unfold l. rewrite <- (zlen_seqZ n) at 1 by apply zsize_nonneg. by apply Shuffle_Permutation. }
  destruct (backOffTime_slot rand_draw s v Hv Hturn) as (a & Ha & ->). fold n l in Ha.
  unfold index in Ha. destruct (indexOfVal_in s v Hv) as [Hiv Hvi]. rewrite (proj2 (Z.leb_le _ _)) in Ha by lia.
  exists (1 + a). split; [done|]. split.
  { apply list_elem_of_lookup_2 in Ha. rewrite Hp in Ha. apply elem_of_seqZ in Ha. lia. }
  intros Hturn' Heq. destruct (backOffTime_slot rand_draw s w Hw Hturn') as (b & Hb & Hbt).
  fold n l in Hb. unfold index in Hb. destruct (indexOfVal_in s w Hw) as [Hiw Hwi].
  rewrite (proj2 (Z.leb_le _ _)) in Hb by lia. rewrite Hbt in Heq. injection Heq as Heq.
  assert (b = a) as -> by lia.
  assert (Hnd : NoDup l) by (rewrite Hp; apply NoDup_seqZ).
  pose proof (NoDup_lookup _ _ _ _ Hnd Ha Hb) as Hii.
  assert (indexOfVal s v = indexOfVal s w) as Hix by lia. rewrite Hix, Hwi in Hvi. congruence.
Qed.

(** A draw that is always the lowest index: the slots rotate. *)
Definition toy_draw (seed n i : Z) : Z := 0.

Lemma backOffTime_spread_witness :
  ∃ a, backOffTime toy_draw (toy_snapshot 7 ∅) 9 = Some a ∧ 1 <= a <= 3 ∧
    (supposeValidator (toy_snapshot 7 ∅) ≠ Some 5 → backOffTime toy_draw (toy_snapshot 7 ∅) 5 ≠ Some a).
Proof.
  apply (backOffTime_spread toy_draw (toy_snapshot 7 ∅) 9 5).
  - intros seed n i Hi. unfold toy_draw. lia.
  - set_solver.
  - set_solver.
  - lia.
  - vm_compute. discriminate.
Defined.
