(* ===== verification/ParliaVerify.v ===== *)
(** * What a verified header satisfies

    The rules of the chain for one block, in plain arithmetic and over the snapshot of
    the rule ([at_block]), and [verifyHeader] against them.  None of the engine's checks
    is used to state them. *)

From S2P Require Import Prelude Rlp Header Hexutil Params ParliaSnapshot ParliaStore ParliaTurns ParliaChain ParliaRule ParliaChainProps ParliaEngine.
From S2P Require Import ParliaAuthority ParliaRetrieve ParliaBackoff.

(** ** Recent signers, as the code looks for them *)

Lemma recently_signed_spec early s v n :
  recently_signed early s v n = true ↔
  ∃ k, Recents s !! k = Some v ∧ ((early = true ∧ n < limit s) ∨ sub64 n (limit s) < k).
Proof.
  unfold recently_signed. fold (limit s). rewrite existsb_exists. split.
  - intros ([k w] & Hin%list_elem_of_In%elem_of_map_to_list & Hb). cbn [fst snd] in *.
    apply andb_true_iff in Hb as [Hw Hb]. zbool. subst w. exists k. split; [done|].
    apply orb_true_iff in Hb as [Hb|Hb]; zbool; auto.
  - intros (k & Hk & Hb). exists (k, v). split; [by apply list_elem_of_In, elem_of_map_to_list|].
    cbn [fst snd]. rewrite Z.eqb_refl. cbn [andb]. apply orb_true_iff.
    destruct Hb as [[-> Hb]|Hb]; [left; cbn; by apply Z.ltb_lt|right; by apply Z.ltb_lt].
Qed.

(** What the code tolerates and the rule does not: in the first [limit - 1] blocks
    [verifySeal] lets any validator sign again. *)
Definition early (s : Snapshot) (v : Address) (n : Z) : Prop := n < limit s ∧ ∃ k, Recents s !! k = Some v.

Lemma recently_signed_iff s v n : recents_ok s → 0 <= snap_Number s < 2 ^ 63 → n = snap_Number s + 1 →
  recently_signed false s v n = false ↔ rested s v n ∨ early s v n.
Proof.
  intros Hok Hs ->. set (n := snap_Number s + 1). pose proof (limit_pos s). pose proof (limit_small s (set_small _ Hok)).
  assert (Hcut : ∀ k, Recents s !! k = Some v → sub64 n (limit s) < k ↔ limit s <= n ∧ n - limit s < k).
  { intros k Hk. pose proof (recents_window _ Hok _ _ Hk). destruct (Z.lt_ge_cases n (limit s)).
    - unfold sub64. rewrite u64_neg by lia. lia.
    - rewrite sub64_small by (unfold is_u64; lia). lia. }
  rewrite <- not_true_iff_false, recently_signed_spec. split.
  - intros Hno. assert (Hall : ∀ k, Recents s !! k = Some v → ¬ (limit s <= n ∧ n - limit s < k)).
    { intros k Hk Hb. apply Hno. exists k. split; [done|]. right. by apply Hcut. }
    destruct (Z.lt_ge_cases n (limit s)) as [Hlt|Hge]; [|left; intros k Hk; specialize (Hall k Hk); lia].
    destruct (has_value (Recents s) v) eqn:Hv.
    + right. split; [done|]. by apply has_value_spec.
    + left. intros k Hk. apply not_true_iff_false in Hv. exfalso. apply Hv, has_value_spec. by exists k.
  - intros Hor (k & Hk & [[? _]|Hb]); [done|]. apply Hcut in Hb; [|done]. destruct Hor as [Hr|[Hlt _]]; [|lia].
    specialize (Hr k Hk). fold n in Hr. lia.
Qed.

Section verify.
Context {SC RC D : Type} {CS : Cache Address SC} {CR : Cache Snapshot RC} {KV : KeyValue D} {JT : JsonText}.
Context {CSL : CacheLaws Address SC} {CRL : CacheLaws Snapshot RC} {KVL : KeyValueLaws D} {JTL : JsonTextLaws}.
Variable Keccak256 : bytes → Hash.
Variable crypto_Ecrecover : bytes → bytes → option bytes.
Variable rand_draw : Z → Z → Z → Z.
Variable known : Header → Prop.
Variable p : engine.
Variable g : Header.

Abbreviation chainId := (ChainID (p_chainConfig p)).
Abbreviation cfg := (p_config p).
Hypothesis W : world_ok Keccak256 crypto_Ecrecover chainId known.
Hypothesis G : genesis_ok Keccak256 known cfg g.

Abbreviation PM := (@PM SC RC D).
Abbreviation hash := (Header_Hash Keccak256).
Abbreviation recover := (recover Keccak256 crypto_Ecrecover chainId).
Abbreviation at_block := (at_block Keccak256 crypto_Ecrecover known p g).
Abbreviation st_ok := (@st_ok SC RC D CS CR KV JT Keccak256 crypto_Ecrecover known p g).
Abbreviation lookups_ok := (lookups_ok Keccak256 known).
Abbreviation holds_ancestors := (holds_ancestors Keccak256 known).
Abbreviation has_genesis := (has_genesis g).

(** ** The rules *)

(** The extra data: vanity, validators on epoch blocks only, seal. *)
Definition extra_ok (h : Header) (n : Z) : Prop :=
  if decide (n mod Epoch cfg = 0)
  then extraVanity + extraSeal <= zlen (Extra h) ∧
       (zlen (Extra h) - extraVanity - extraSeal) mod validatorBytesLength = 0
  else zlen (Extra h) = extraVanity + extraSeal.

Definition gas_ok (h parent : Header) : Prop :=
  GasUsed h <= GasLimit h ∧ MinGasLimit <= GasLimit h < 2 ^ 63 ∧
  Z.abs (GasLimit parent - GasLimit h) < GasLimit parent / GasLimitBoundDivisor.

(** From the Ramanujan fork on, the earliest time of block [n] is the period after its
    parent, and for a validator that is not in turn its wait later. *)
Definition time_ok (s : Snapshot) (h parent : Header) (n : Z) : Prop :=
  ∀ r k, RamanujanBlock (p_chainConfig p) = Some r → Number h = Some k → r <= k →
  ∃ d, delay rand_draw s n (Coinbase h) d ∧ u64 (Time parent + Period cfg + d) <= Time h.

(** The block of the EIP-150 fork has the hash the configuration names, if it does. *)
Definition fork_ok (config : ChainConfig) (h : Header) : Prop :=
  ∀ b, EIP150Block config = Some b → Number h = Some b → EIP150Hash config = 0 ∨ EIP150Hash config = hash h.

(** A header of number [n] on its own. *)
Record header_fields_ok (now : Z) (config : ChainConfig) (h : Header) (n : Z) : Prop := {
  f_time : Time h <= u64 now;
  f_extra : extra_ok h n;
  f_mix : MixDigest h = 0;
  f_uncles : UncleHash h = uncleHash Keccak256;
  f_difficulty : 0 < n → Difficulty h ≠ None;
  f_fork : fork_ok config h;
}.

Section with_recents.
(** What is asked of the signer's last blocks. *)
Variable R : Snapshot → Address → Z → Prop.

(** The signature: by the coinbase, a validator, with the difficulty of its turn. *)
Record seal_ok (s : Snapshot) (h : Header) (n : Z) : Prop := {
  seal_signer : recover h = Some (Coinbase h);
  seal_validator : Coinbase h ∈ Validators s;
  seal_recent : R s (Coinbase h) n;
  seal_turn : p_fakeDiff p = true ∨ Difficulty h = Some (if decide (in_turn s n (Coinbase h)) then 2 else 1);
}.

(** The header as a child: its parent, the snapshot there, and the rules above. *)
Definition child_ok (h : Header) (n : Z) : Prop :=
  ∃ parent s, known parent ∧ hash parent = ParentHash h ∧ Number_Uint64 parent = Some (n - 1) ∧
    at_block (n - 1) (ParentHash h) s ∧ time_ok s h parent n ∧ gas_ok h parent ∧ seal_ok s h n.

Definition valid_with (now : Z) (config : ChainConfig) (h : Header) : Prop :=
  ∃ n, Number_Uint64 h = Some n ∧ header_fields_ok now config h n ∧ (n ≠ 0 → child_ok h n).
End with_recents.

(** A header that keeps to every rule. *)
Definition valid : Z → ChainConfig → Header → Prop := valid_with rested.
(** One that keeps to every rule but that its signer has rested, among the first blocks. *)
Definition valid_but_early : Z → ChainConfig → Header → Prop := valid_with early.

(** What the engine accepts. *)
Definition tolerated (s : Snapshot) (v : Address) (n : Z) : Prop := rested s v n ∨ early s v n.

Lemma valid_tolerated now config h :
  valid_with tolerated now config h ↔ valid now config h ∨ valid_but_early now config h.
Proof.
  assert (Hmono : ∀ R R' : Snapshot → Address → Z → Prop, (∀ s v n, R s v n → R' s v n) →
    valid_with R now config h → valid_with R' now config h).
  { intros R R' HR (n & Hn & Hf & Hc). exists n. split_and!; try done. intros Hne.
    destruct (Hc Hne) as (q & s & ? & ? & ? & ? & ? & ? & [? ? ? ?]). exists q, s. split_and!; try done. split; auto. }
  split.
  - intros (n & Hn & Hf & Hc). destruct (decide (n = 0)) as [->|Hne].
    { left. exists 0. by split_and!. }
    destruct (Hc Hne) as (q & s & ? & ? & ? & ? & ? & ? & [? ? Hr ?]).
    destruct Hr as [Hr|Hr]; [left|right]; exists n; (split_and!; [done|done|]); intros _; exists q, s; by split_and!.
  - intros [H|H]; (eapply Hmono; [|exact H]); intros s v n; [by left|by right].
Qed.

(** The one panic: a set of validators that is empty. *)
Definition empty_set (h : Header) (n : Z) (q : panic) : Prop :=
  q = PDivZero ∧ ∃ s, at_block (n - 1) (ParentHash h) s ∧ Validators s = ∅.

(** ** The checks *)

Lemma at_block_fun n x s s' : at_block n x s → at_block n x s' → s = s'.
Proof.
  intros (Ha & Hx & Hn) (Ha' & Hx' & Hn'). apply (authority_fun _ _ _ _ W _ _ G); congruence.
Qed.

Lemma at_block_recents n x s : at_block (n - 1) x s → recents_ok s ∧ 0 <= snap_Number s < 2 ^ 63 ∧ n = snap_Number s + 1.
Proof.
  intros (Ha & _ & Hn). pose proof (authority_good _ _ _ _ W _ _ G _ Ha) as Hg.
  split; [apply Hg|]. split; [apply Hg|lia].
Qed.

Lemma VerifyForkHashes_ok config h : VerifyForkHashes Keccak256 config h false = None ↔ fork_ok config h.
Proof.
  unfold VerifyForkHashes, fork_ok. destruct (EIP150Block config) as [b|]; [|done]. split.
  - intros Hv b' [= <-] Hn. rewrite bool_decide_true in Hv by done. cbn [andb] in Hv.
    destruct (Z.eqb_spec (EIP150Hash config) 0); [by left|].
    destruct (Z.eqb_spec (EIP150Hash config) (hash h)); [by right|done].
  - intros Hf. case_bool_decide as Hn; [|done]. cbn [andb].
    destruct (Hf b eq_refl Hn) as [-> | ->]; [done|]. by rewrite Z.eqb_refl, andb_false_r.
Qed.

Lemma wp_verify_extra h n (st : pstate SC RC D) :
  wp (verify_extra cfg h n : PM _) (λ _ st', st' = st ∧ extra_ok h n)
    (λ _ st', st' = st ∧ ¬ extra_ok h n) (λ _, False) st.
Proof.
  unfold verify_extra, extra_ok, extraVanity, extraSeal.
  assert (validatorBytesLength = 20) as -> by done. pose proof (g_epoch _ _ _ _ G).
  destruct (Z.ltb_spec (zlen (Extra h)) 32); [apply wp_fail; split; [done|]; case_decide; lia|].
  destruct (Z.ltb_spec (zlen (Extra h)) (32 + 65)); [apply wp_fail; split; [done|]; case_decide; lia|].
  rewrite (proj2 (Z.eqb_neq _ _)) by done.
  destruct (Z.eqb_spec (n mod Epoch cfg) 0) as [He|He]; cbn [negb andb].
  - rewrite decide_True by done. destruct (Z.eqb_spec ((zlen (Extra h) - 32 - 65) mod 20) 0); cbn [negb].
    + apply wp_ret. split; [done|]. lia.
    + apply wp_fail. split; [done|]. lia.
  - rewrite decide_False by done. destruct (Z.eqb_spec (zlen (Extra h) - 32 - 65) 0); cbn [negb].
    + apply wp_ret. split; [done|]. lia.
    + apply wp_fail. split; [done|]. lia.
Qed.

Lemma wp_verify_gas h parent (st : pstate SC RC D) :
  is_u64 (GasLimit h) → 0 <= GasLimit parent < 2 ^ 63 →
  wp (verify_gas h parent : PM _) (λ _ st', st' = st ∧ gas_ok h parent)
    (λ _ st', st' = st ∧ ¬ gas_ok h parent) (λ _, False) st.
Proof.
  unfold is_u64. intros Hh Hp. unfold verify_gas, gas_ok.
  destruct (Z.ltb_spec 0x7fffffffffffffff (GasLimit h)); [apply wp_fail; split; [done|]; lia|].
  destruct (Z.ltb_spec (GasLimit h) (GasUsed h)); [apply wp_fail; split; [done|]; lia|].
  rewrite (s64_small (GasLimit parent)), (s64_small (GasLimit h)) by lia.
  set (d := GasLimit parent - GasLimit h). assert (- 2 ^ 63 < d < 2 ^ 63) by (unfold d; lia).
  assert (Hd : u64 (if s64 d <? 0 then s64 (s64 d * -1) else s64 d) = Z.abs d).
  { assert (s64 d = d) as ->.
    { unfold s64. destruct (Z.lt_ge_cases d 0).
      - replace (d mod 2 ^ 64) with (d + 2 ^ 64) by (apply (Z.mod_unique_pos d _ (-1)); lia).
        destruct (Z.ltb_spec (d + 2 ^ 64) (2 ^ 63)); lia.
      - rewrite Z.mod_small by lia. destruct (Z.ltb_spec d (2 ^ 63)); lia. }
    destruct (Z.ltb_spec d 0).
    - rewrite s64_small by lia. rewrite u64_small by (unfold is_u64; lia). lia.
    - rewrite u64_small by (unfold is_u64; lia). lia. }
  rewrite Hd. destruct (Z.leb_spec (GasLimit parent / GasLimitBoundDivisor) (Z.abs d)); cbn [orb].
  { apply wp_fail. split; [done|]. lia. }
  destruct (Z.ltb_spec (GasLimit h) MinGasLimit); [apply wp_fail; split; [done|]; lia|].
  apply wp_ret. split; [done|]. lia.
Qed.

Lemma wp_verify_time s h parent n (st : pstate SC RC D) : at_block (n - 1) (ParentHash h) s →
  wp (blockTimeVerifyForRamanujanFork rand_draw p s h parent : PM _)
    (λ _ st', st' = st ∧ time_ok s h parent n) (λ _ st', st' = st ∧ ¬ time_ok s h parent n)
    (empty_set h n) st.
Proof.
  intros Hs. destruct (at_block_recents _ _ _ Hs) as (_ & Hr & Hn).
  unfold blockTimeVerifyForRamanujanFork, time_ok, IsRamanujan_at, isForked.
  destruct (RamanujanBlock (p_chainConfig p)) as [r|]; [|by apply wp_ret].
  destruct (Number h) as [k|]; [|by apply wp_ret].
  destruct (Z.leb_spec r k) as [Hrk|Hrk]; [|apply wp_ret; split; [done|]; intros r' k' [= <-] [= <-]; lia].
  wp_step. destruct (decide (Validators s = ∅)) as [He|He].
  { rewrite backOffTime_empty by done. apply wp_throw. split; [done|]. by exists s. }
  destruct (backOffTime_some rand_draw s (Coinbase h) He) as [b Hb]. rewrite Hb. apply wp_ret.
  assert (Hsum : add64 (add64 (Time parent) (Period cfg)) b = u64 (Time parent + Period cfg + b)).
  { unfold add64, u64. by rewrite Zplus_mod_idemp_l. }
  rewrite Hsum. pose proof (λ d, backOffTime_delay rand_draw s n (Coinbase h) d He Hn Hr) as Hd.
  destruct (Z.ltb_spec (Time h) (u64 (Time parent + Period cfg + b))).
  - apply wp_fail. split; [done|]. intros Ht. destruct (Ht r k eq_refl eq_refl Hrk) as (d & Hdd & Hle).
    apply Hd in Hdd. rewrite Hb in Hdd. injection Hdd as ->. lia.
  - apply wp_ret. split; [done|]. intros _ _ _ _ _. exists b. split; [by apply Hd|done].
Qed.

Lemma wp_signer h (st : pstate SC RC D) : known h → st_ok st →
  wp (ecrecover Keccak256 crypto_Ecrecover h chainId : PM _)
    (λ v st', recover h = Some v ∧ st_ok st') (λ _ st', recover h = None ∧ st_ok st') (λ _, False) st.
Proof.
  intros Hk Hst. pose proof (st_sigs _ _ _ _ _ _ Hst) as Hs. destruct W.
  eapply wp_mono; [by apply wp_ecrecover|..]; cbn beta; try done.
  - intros v st' [Hv H]. split; [done|]. by eapply st_ok_sigs.
  - intros e st' (Hv & H & _). split; [done|]. by eapply st_ok_sigs.
Qed.

(** The checks on the snapshot, once it is there. *)
Lemma wp_check_seal s h n x (st : pstate SC RC D) : known h → st_ok st → Difficulty h ≠ None → at_block (n - 1) x s →
  wp (let! signer := ecrecover Keccak256 crypto_Ecrecover h chainId in
      when! negb (signer =? Coinbase h) raise errCoinBaseMisMatch in
      when! negb (bool_decide (signer ∈ Validators s)) raise errUnauthorizedValidator in
      when! recently_signed false s signer n raise errRecentlySigned in
      if p_fakeDiff p then ret tt
      else
        let! turn := or_panic PDivZero (inturn s signer) in
        let! d := or_panic PNil (Difficulty h) in
        when! (turn && negb (d =? diffInTurn)) || (negb turn && negb (d =? diffNoTurn))
          raise errWrongDifficulty in
        ret tt : PM _)
    (λ _ st', st_ok st' ∧ seal_ok tolerated s h n) (λ _ st', st_ok st' ∧ ¬ seal_ok tolerated s h n) (λ _, False) st.
Proof.
  intros Hk Hst Hd Hat. destruct (at_block_recents _ _ _ Hat) as (Hrok & Hsn & Hn).
  pose proof (recently_signed_iff s (Coinbase h) n Hrok Hsn Hn) as Hrs. wp_step. eapply wp_mono; [by apply wp_signer|..]; cbn beta; try done.
  2:{ intros e st' [Hr H]. split; [done|]. intros [Hs _ _ _]. congruence. }
  intros v st1 [Hr H1].
  destruct (Z.eqb_spec v (Coinbase h)) as [->|?]; cbn [negb].
  2:{ apply wp_fail. split; [done|]. intros [Hs _ _ _]. congruence. }
  case_bool_decide as Hv; cbn [negb]; [|apply wp_fail; split; [done|]; by intros [_ ? _ _]].
  destruct (recently_signed false s (Coinbase h) n) eqn:Hrec.
  { apply wp_fail. split; [done|]. intros [_ _ Hr' _]. apply Hrs in Hr'. congruence. }
  pose proof (proj1 Hrs eq_refl : tolerated s (Coinbase h) n) as Hrest. clear Hrs.
  destruct (p_fakeDiff p) eqn:Hfake; [apply wp_ret; split; [done|]; split; auto|].
  assert (Hne : Validators s ≠ ∅) by (intros E; rewrite E in Hv; set_solver).
  rewrite (inturn_spec s n _ Hne Hn Hsn). wp_step. apply wp_ret. wp_step.
  destruct (Difficulty h) as [d|] eqn:Hdiff; [|done]. apply wp_ret. unfold diffInTurn, diffNoTurn.
  case_bool_decide as Ht; cbn [andb orb negb]; rewrite ?orb_false_r.
  - destruct (Z.eqb_spec d 2) as [->|Hdn]; cbn [negb].
    + apply wp_ret. split; [done|]. split; try done. right. by rewrite decide_True.
    + apply wp_fail. split; [done|]. intros [_ _ _ [?|He]]; [congruence|]. rewrite decide_True in He by done. congruence.
  - destruct (Z.eqb_spec d 1) as [->|Hdn]; cbn [negb].
    + apply wp_ret. split; [done|]. split; try done. right. by rewrite decide_False.
    + apply wp_fail. split; [done|]. intros [_ _ _ [?|He]]; [congruence|]. rewrite decide_False in He by done. congruence.
Qed.

(** What is asked of the engine for the parent of a known header. *)
Lemma asked_parent h n parent : known h → Number_Uint64 h = Some n → n ≠ 0 →
  known parent → hash parent = ParentHash h → Number_Uint64 parent = Some (n - 1) →
  asked Keccak256 known g (n - 1) (ParentHash h).
Proof.
  intros Hk Hn Hne Hkp Hp Hnp.
  pose proof (number_range _ _ _ _ G h n Hk Hn).
  assert (0 <= n). { unfold Number_Uint64 in Hn. destruct (Number h); [|done]. injection Hn as <-. apply u64_range. }
  split.
  - by apply (parent_range _ _ _ _ W).
  - lia.
  - intros E0. rewrite E0 in Hnp. rewrite <- Hp. f_equal. by apply (g_only _ _ _ _ G).
  - intros hd Hkh Hh. by assert (hd = parent) as -> by (apply (w_collision_free _ _ _ _ W); congruence).
Qed.

Lemma Number_Uint64_nonneg h n : Number_Uint64 h = Some n → 0 <= n < 2 ^ 64.
Proof. unfold Number_Uint64. destruct (Number h); [|done]. intros [= <-]. apply u64_range. Qed.

(** Whether the answer of a step is the final one for the header. *)
Definition only_if_local (chain : ChainHeaderReader) (h : Header) (parents : list Header) (e : parlia_error) : Prop :=
  holds_ancestors chain h ∧ parents = [] ∧ e ≠ errDatabase.

(** The parent's block is held with the ancestors of a header. *)
Lemma holds_parent_block chain h n parent : holds_ancestors chain h → Number_Uint64 h = Some n → n ≠ 0 →
  known parent → hash parent = ParentHash h → Number_Uint64 parent = Some (n - 1) →
  holds_block Keccak256 known chain (ParentHash h).
Proof.
  intros Hh Hn Hne Hk Hp Hnp. pose proof (Number_Uint64_nonneg _ _ Hn).
  rewrite <- (sub64_small n 1) in Hnp by (unfold is_u64; lia).
  by apply (holds_above Keccak256 known (w_collision_free _ _ _ _ W) chain h parent n).
Qed.

Lemma wp_verifySeal chain h parents n s0 parent (st : pstate SC RC D) :
  st_ok st → has_genesis chain → lookups_ok chain parents → known h → Difficulty h ≠ None →
  Number_Uint64 h = Some n → n ≠ 0 →
  known parent → hash parent = ParentHash h → Number_Uint64 parent = Some (n - 1) →
  at_block (n - 1) (ParentHash h) s0 →
  wp (verifySeal Keccak256 crypto_Ecrecover p chain h parents : PM _)
    (λ _ st', st_ok st' ∧ seal_ok tolerated s0 h n)
    (λ e st', st_ok st' ∧ (only_if_local chain h parents e → ¬ seal_ok tolerated s0 h n)) (λ _, False) st.
Proof.
  intros Hst Hgen Hl Hk Hd Hn Hne Hkp Hp Hnp Hs0. pose proof (Number_Uint64_nonneg _ _ Hn).
  unfold verifySeal. wp_step. eapply wp_header_number; [apply (w_known_ok _ _ _ _ W)|done|].
  intros n' Hn' _. rewrite Hn in Hn'. injection Hn' as <-.
  rewrite (proj2 (Z.eqb_neq n 0)) by done. wp_step. rewrite sub64_small by (unfold is_u64; lia).
  eapply wp_mono; [apply (wp_snapshot _ _ _ _ _ W G); try done; by eapply asked_parent|..]; cbn beta; try done.
  - intros s st1 [H1 Hs]. rewrite (at_block_fun _ _ _ _ Hs Hs0).
    eapply wp_mono; [by eapply wp_check_seal|..]; cbn beta; try done.
    intros e st2 [H2 Hno]. split; [done|]. by intros _.
  - intros e st1 [H1 Hno]. split; [done|]. intros (Hc & Hpa & He) _.
    apply (Hno (holds_parent_block _ _ _ _ Hc Hn Hne Hkp Hp Hnp) Hpa He). by exists s0.
Qed.

Lemma wp_cascading chain h parents n (st : pstate SC RC D) :
  st_ok st → has_genesis chain → lookups_ok chain parents → known h →
  Number_Uint64 h = Some n → (n ≠ 0 → Difficulty h ≠ None) →
  (∀ parent, known parent → hash parent = ParentHash h → GasLimit parent < 2 ^ 63) →
  wp (verifyCascadingFields Keccak256 crypto_Ecrecover rand_draw p chain h parents : PM _)
    (λ _ st', st_ok st' ∧ (n ≠ 0 → child_ok tolerated h n))
    (λ e st', st_ok st' ∧ (only_if_local chain h parents e → ¬ (n ≠ 0 → child_ok tolerated h n)))
    (empty_set h n) st.
Proof.
  intros Hst Hgen Hl Hk Hn Hd Hgas. pose proof (Number_Uint64_nonneg _ _ Hn).
  unfold verifyCascadingFields. wp_step. eapply wp_header_number; [apply (w_known_ok _ _ _ _ W)|done|].
  intros n' Hn' _. rewrite Hn in Hn'. injection Hn' as <-.
  destruct (Z.eqb_spec n 0) as [->|Hne]; [by apply wp_ret|].
  rewrite sub64_small by (unfold is_u64; lia).
  set (o := if 0 <? zlen parents then last parents else GetHeader chain (ParentHash h) (n - 1)).
  assert (Ho : ∀ q, o = Some q → known q).
  { intros q. unfold o. destruct (0 <? zlen parents).
    - intros Hq. eapply last_known; [apply Hl|done].
    - intros Hq. apply (GetHeader_ok _ _ _ _ Hl) in Hq. tauto. }
  assert (Hlocal : holds_ancestors chain h → parents = [] → ∀ q, known q → hash q = ParentHash h →
    Number_Uint64 q = Some (n - 1) → o = Some q).
  { intros Hc -> q Hq Hhq Hnq. unfold o. cbn [zlen length Z.of_nat Z.ltb Z.compare].
    rewrite <- (sub64_small n 1) in Hnq |- * by (unfold is_u64; lia). by apply (holds_parent Keccak256 known). }
  assert (Hnot : (∀ q, o = Some q → ¬ (Number_Uint64 q = Some (n - 1) ∧ hash q = ParentHash h)) →
    ∀ e, only_if_local chain h parents e → ¬ (n ≠ 0 → child_ok tolerated h n)).
  { intros Hno e (Hc & Hp & _) Hch. destruct (Hch Hne) as (q & s & Hkq & Hhq & Hnq & _).
    by apply (Hno q); [apply Hlocal|]. }
  clearbody o. wp_step. destruct o as [parent|]; [|apply wp_fail; split; [done|]; by apply Hnot].
  apply wp_ret. pose proof (Ho _ eq_refl) as Hkp. wp_step.
  eapply wp_header_number; [apply (w_known_ok _ _ _ _ W)|done|]. intros np Hnp _.
  destruct (Z.eqb_spec np (n - 1)) as [->|?]; cbn [negb orb].
  2:{ apply wp_fail. split; [done|]. apply Hnot. intros q [= <-] [E _]. congruence. }
  destruct (Z.eqb_spec (hash parent) (ParentHash h)) as [Hp|?]; cbn [negb].
  2:{ apply wp_fail. split; [done|]. apply Hnot. intros q [= <-] [_ E]. congruence. }
  clear Hnot Hlocal Ho. wp_step.
  eapply wp_mono; [apply (wp_snapshot _ _ _ _ _ W G); try done; by eapply asked_parent|..]; cbn beta; try done.
  2:{ intros e st1 [H1 Hno]. split; [done|]. intros (Hc & Hpa & He) Hch.
      destruct (Hch Hne) as (q & s & Hkq & Hhq & Hnq & Hs & _).
      apply (Hno (holds_parent_block _ _ _ _ Hc Hn Hne Hkq Hhq Hnq) Hpa He). by exists s. }
  intros s st1 [H1 Hs].
  assert (Hsame : child_ok tolerated h n → time_ok s h parent n ∧ gas_ok h parent ∧ seal_ok tolerated s h n).
  { intros (q & s' & Hkq & Hhq & _ & Hs' & Ht & Hga & Hse).
    rewrite (at_block_fun _ _ _ _ Hs' Hs) in *.
    by assert (q = parent) as -> by (apply (w_collision_free _ _ _ _ W); congruence). }
  wp_step. eapply wp_mono; [by apply wp_verify_time|..]; cbn beta; try done.
  2:{ intros e st2 [-> Ht]. split; [done|]. intros _ Hch. by apply Hsame in Hch as (? & _); [|done]. }
  intros _ st2 [-> Ht]. wp_step.
  eapply wp_mono; [apply wp_verify_gas|..]; cbn beta; try done.
  { destruct (w_known_ok _ _ _ _ W h Hk) as [(_ & _ & _ & _ & _ & _ & _ & _ & ? & _) _]. done. }
  { destruct (w_known_ok _ _ _ _ W parent Hkp) as [(_ & _ & _ & _ & _ & _ & _ & _ & [? _] & _) _].
    split; [done|]. by apply Hgas. }
  2:{ intros e st2 [-> Hg]. split; [done|]. intros _ Hch. by apply Hsame in Hch as (_ & ? & _); [|done]. }
  intros _ st2 [-> Hga].
  eapply wp_mono; [eapply (wp_verifySeal chain h parents n s parent); try done; by apply Hd|..]; cbn beta; try done.
  - intros _ st2 [H2 Hse]. split; [done|]. intros _. by exists parent, s.
  - intros e st2 [H2 Hno]. split; [done|]. intros Hloc Hch. apply (Hno Hloc). by apply Hsame, Hch.
Qed.

Lemma wp_verifyHeader now chain h parents (st : pstate SC RC D) :
  st_ok st → has_genesis chain → lookups_ok chain parents → known h →
  (∀ parent, known parent → hash parent = ParentHash h → GasLimit parent < 2 ^ 63) →
  wp (verifyHeader Keccak256 crypto_Ecrecover rand_draw p now chain h parents : PM _)
    (λ _ st', st_ok st' ∧ valid_with tolerated now (chain_Config chain) h)
    (λ e st', st_ok st' ∧ (only_if_local chain h parents e → ¬ valid_with tolerated now (chain_Config chain) h))
    (λ q, ∃ n, Number_Uint64 h = Some n ∧ empty_set h n q) st.
Proof.
  intros Hst Hgen Hl Hk Hgas. unfold verifyHeader.
  destruct (header_Number known (w_known_ok _ _ _ _ W) h Hk) as (n & Hn & Hr). unfold is_u64 in Hr.
  destruct (Number h) as [k|] eqn:Hnum; [|by unfold Number_Uint64 in Hn; rewrite Hnum in Hn].
  wp_step. eapply wp_header_number; [apply (w_known_ok _ _ _ _ W)|done|].
  intros n' Hn' _. rewrite Hn in Hn'. injection Hn' as <-.
  assert (Hbad : ¬ header_fields_ok now (chain_Config chain) h n →
    ∀ e, only_if_local chain h parents e → ¬ valid_with tolerated now (chain_Config chain) h).
  { intros Hno e _ (m & Hm & Hf & _). rewrite Hn in Hm. injection Hm as <-. done. }
  destruct (Z.ltb_spec (u64 now) (Time h)).
  { apply wp_fail. split; [done|]. apply Hbad. intros [Ht _ _ _ _ _]. lia. }
  wp_step. eapply wp_mono; [apply wp_verify_extra|..]; cbn beta; try done.
  2:{ intros e st1 [-> He]. split; [done|]. apply Hbad. by intros [_ ? _ _ _ _]. }
  intros _ st1 [-> He].
  destruct (Z.eqb_spec (MixDigest h) 0) as [Hm|]; cbn [negb].
  2:{ apply wp_fail. split; [done|]. apply Hbad. by intros [_ _ ? _ _ _]. }
  destruct (Z.eqb_spec (UncleHash h) (uncleHash Keccak256)) as [Hu|]; cbn [negb].
  2:{ apply wp_fail. split; [done|]. apply Hbad. by intros [_ _ _ ? _ _]. }
  destruct ((0 <? n) && bool_decide (Difficulty h = None)) eqn:Hd.
  { apply wp_fail. split; [done|]. apply Hbad. intros [_ _ _ _ Hdd _]. zbool.
    apply Hdd; [done|]. by eapply bool_decide_eq_true_1. }
  assert (Hdd : 0 < n → Difficulty h ≠ None).
  { intros H0 E. apply andb_false_iff in Hd as [?|Hd]; [zbool; lia|]. by apply bool_decide_eq_false in Hd. }
  destruct (VerifyForkHashes Keccak256 (chain_Config chain) h false) eqn:Hf.
  { apply wp_fail. split; [done|]. apply Hbad. intros [_ _ _ _ _ E]. apply VerifyForkHashes_ok in E. congruence. }
  apply VerifyForkHashes_ok in Hf.
  eapply wp_mono; [apply (wp_cascading chain h parents n); try done|..]; cbn beta.
  - intros Hne. apply Hdd. lia.
  - intros _ st1 [H1 Hc]. split; [done|]. exists n. split_and!; done.
  - intros e st1 [H1 Hno]. split; [done|]. intros Hloc (m & Hmn & _ & Hc).
    rewrite Hn in Hmn. injection Hmn as <-. by apply (Hno Hloc).
  - intros q Hq. by exists n.
Qed.
End verify.
