(* ===== verification/ParliaEngineProps.v ===== *)
(** * Theorems on the engine

    Snapshots do not depend on what the caches kept; a header is accepted when it keeps to
    the rules, or to all but the one on recent signers among the first blocks, and refused
    only when it does not; and how the three places that look at recent signers agree. *)

From S2P Require Import Prelude Rlp Header Hexutil Params ForkId ParliaSnapshot ParliaStore ParliaTurns ParliaChain ParliaRule ParliaModel ParliaChainProps ParliaEngine.
From S2P Require Import ParliaAuthority ParliaRetrieve ParliaEngineModel ParliaBackoff ParliaVerify.

(** ** Recent signers *)

(** The sealer refuses exactly the signers that the snapshot of the sealed block would
    refuse.  The verifier does too once [limit] blocks have passed, and before that it
    refuses nobody. *)
Theorem seal_checks_recents (s : Snapshot) (v : Address) (n : Z) :
  recents_ok s → 0 <= snap_Number s < 2 ^ 63 - 1 → n = snap_Number s + 1 →
  recently_signed true s v n = has_value (Recents (shift_out n s)) v ∧
  recently_signed false s v n = (limit s <=? n) && has_value (Recents (shift_out n s)) v.
Proof.
  intros Hok Hs Hn. pose proof (limit_pos s). pose proof (limit_small s (set_small _ Hok)).
  assert (Hh : has_value (Recents (shift_out n s)) v = true ↔
    ∃ k, Recents s !! k = Some v ∧ (limit s <= n → n - limit s < k)).
  { rewrite has_value_spec. split.
    - intros [k Hk]. apply Recents_shift_out in Hk as [Hk Hne]; [|lia]. exists k. split; [done|].
      intros Hl. pose proof (recents_window _ Hok _ _ Hk). specialize (Hne Hl). lia.
    - intros (k & Hk & Hl). exists k. apply Recents_shift_out; [lia|]. split; [done|].
      intros Hln. specialize (Hl Hln). lia. }
  assert (Hsub : limit s <= n → sub64 n (limit s) = n - limit s)
    by (intros; apply sub64_small; unfold is_u64; lia).
  assert (Hbig : n < limit s → ∀ k, Recents s !! k = Some v → k <= sub64 n (limit s)).
  { intros Hlt k Hk. unfold sub64. rewrite u64_neg by lia. pose proof (recents_window _ Hok _ _ Hk). lia. }
  split; apply eq_true_iff_eq; rewrite recently_signed_spec, ?andb_true_iff, Hh.
  - split; intros (k & Hk & H1); exists k; (split; [done|]).
    + intros Hl. destruct H1 as [[_ ?]|H1]; [lia|]. by rewrite <- Hsub.
    + destruct (Z.lt_ge_cases n (limit s)); [by left|]. right. rewrite Hsub by done. auto.
  - split.
    + intros (k & Hk & [[? _]|H1]); [done|]. destruct (Z.lt_ge_cases n (limit s)) as [Hlt|Hge].
      * specialize (Hbig Hlt k Hk). lia.
      * split; [by apply Z.leb_le|]. exists k. split; [done|]. intros _. by rewrite <- Hsub.
    + intros [Hl%Z.leb_le (k & Hk & H1)]. exists k. split; [done|]. right. rewrite Hsub by done. auto.
Qed.

Section theorems.
Context {SC RC D : Type} {CS : Cache Address SC} {CR : Cache Snapshot RC} {KV : KeyValue D} {JT : JsonText}.
Context {CSL : CacheLaws Address SC} {CRL : CacheLaws Snapshot RC} {KVL : KeyValueLaws D} {JTL : JsonTextLaws}.
Variable Keccak256 : bytes → Hash.
Variable crypto_Ecrecover : bytes → bytes → option bytes.
Variable rand_draw : Z → Z → Z → Z.
Variable known : Header → Prop.
Variable p : engine.
Variable g : Header.

Abbreviation chainId := (ChainID (p_chainConfig p)).
Hypothesis W : world_ok Keccak256 crypto_Ecrecover chainId known.
Hypothesis G : genesis_ok Keccak256 known (p_config p) g.

Abbreviation hash := (Header_Hash Keccak256).
Abbreviation at_block := (at_block Keccak256 crypto_Ecrecover known p g).
Abbreviation st_ok := (@st_ok SC RC D CS CR KV JT Keccak256 crypto_Ecrecover known p g).
Abbreviation lookups_ok := (lookups_ok Keccak256 known).
Abbreviation holds_ancestors := (holds_ancestors Keccak256 known).
Abbreviation holds_block := (holds_block Keccak256 known).
Abbreviation asked := (asked Keccak256 known g).
Abbreviation valid := (valid Keccak256 crypto_Ecrecover rand_draw known p g).
Abbreviation valid_but_early := (valid_but_early Keccak256 crypto_Ecrecover rand_draw known p g).
Abbreviation empty_set := (empty_set Keccak256 crypto_Ecrecover known p g).
Abbreviation snapshot := (@snapshot SC RC D CS CR KV JT Keccak256 crypto_Ecrecover p).
Abbreviation verifyHeader := (@verifyHeader SC RC D CS CR KV JT Keccak256 crypto_Ecrecover rand_draw p).

(** C6 [snapshot] returns the snapshot that the rule gives for the block, it always
    returns, it never panics, and when it fails without an error of the database on a
    chain that has the block and its ancestors there is no snapshot for the block. *)
Theorem snapshot_implements chain n x parents (st : pstate SC RC D) :
  st_ok st → has_genesis g chain → lookups_ok chain parents → asked n x →
  match snapshot chain n x parents st with
  | Ret s st' => st_ok st' ∧ at_block n x s
  | Fail e st' => st_ok st' ∧
      (holds_block chain x → parents = [] → e ≠ errDatabase → ¬ ∃ s, at_block n x s)
  | Panic _ | NoFuel => False
  end.
Proof. intros Hst Hg Hl Ha. exact (wp_snapshot _ _ _ _ _ W G chain n x parents st Hst Hg Hl Ha). Qed.

(** C31 The snapshot is the same on every node: whatever snapshots and signers of the chain
    two engines have in their caches and databases, they return the same snapshot or the
    second has an error of its database. *)
Theorem snapshot_same_everywhere chain n x (st1 st2 st1' : pstate SC RC D) s :
  st_ok st1 → st_ok st2 → has_genesis g chain → lookups_ok chain [] → holds_block chain x → asked n x →
  snapshot chain n x [] st1 = Ret s st1' →
  match snapshot chain n x [] st2 with
  | Ret s' _ => s' = s
  | Fail e _ => e = errDatabase
  | Panic _ | NoFuel => False
  end.
Proof.
  intros H1 H2 Hg Hl Hc Ha Hs1.
  pose proof (wp_Ret _ _ _ _ _ _ _ (wp_snapshot _ _ _ _ _ W G chain n x [] st1 H1 Hg Hl Ha) Hs1) as [_ Hs].
  pose proof (wp_snapshot _ _ _ _ _ W G chain n x [] st2 H2 Hg Hl Ha) as Hwp. unfold wp in Hwp.
  destruct (snapshot chain n x [] st2) as [s' st2'|e st2'|q|]; [|..|done|done].
  - destruct Hwp as [_ Hs']. by apply (at_block_fun _ _ _ _ _ W G n x).
  - destruct Hwp as [_ Hno]. destruct (decide (e = errDatabase)) as [?|Hne]; [done|].
    exfalso. apply (Hno Hc eq_refl Hne). by exists s.
Qed.


Lemma wp_VerifyHeaders clock chain before hs n (st : pstate SC RC D) :
  st_ok st → has_genesis g chain → lookups_ok chain before → Forall known hs →
  (∀ parent, known parent → GasLimit parent < 2 ^ 63) →
  wp (VerifyHeaders_loop Keccak256 crypto_Ecrecover rand_draw p clock chain before hs n)
    (λ rs st', st_ok st' ∧ length rs = min n (length hs) ∧
       ∀ i h, rs !! i = Some (inl tt) → hs !! i = Some h →
         valid_with Keccak256 crypto_Ecrecover rand_draw known p g tolerated
           (clock (length before + i)%nat) (chain_Config chain) h)
    (λ _ _, False) (λ q, q = PDivZero) st.
Proof.
  intros Hst Hg Hl Hhs Hgas. revert before n st Hst Hl.
  induction Hhs as [|h hs Hk Hhs IH]; intros before n st Hst Hl.
  { apply wp_ret. destruct n; split_and!; done. }
  destruct n as [|n]; [apply wp_ret; split_and!; done|]. cbn [VerifyHeaders_loop].
  wp_step. apply wp_try.
  assert (Hl' : lookups_ok chain (before ++ [h])).
  { destruct Hl as [Hp HG]. split; [|done]. apply Forall_app. by split; [|constructor]. }
  assert (Hrest : ∀ r st', st_ok st' →
    (r = inl tt → valid_with Keccak256 crypto_Ecrecover rand_draw known p g tolerated
      (clock (length before)) (chain_Config chain) h) →
    wp (let! rs := VerifyHeaders_loop Keccak256 crypto_Ecrecover rand_draw p clock chain (before ++ [h]) hs n in
        ret (r :: rs))
      (λ rs st', st_ok st' ∧ length rs = min (S n) (length (h :: hs)) ∧
         ∀ i h', rs !! i = Some (inl tt) → (h :: hs) !! i = Some h' →
           valid_with Keccak256 crypto_Ecrecover rand_draw known p g tolerated
             (clock (length before + i)%nat) (chain_Config chain) h')
      (λ _ _, False) (λ q, q = PDivZero) st').
  { intros r st' Hst' Hr. wp_step. eapply wp_mono; [by apply IH|..]; cbn beta; try done.
    intros rs st2 (H2 & Hlen & Hv). apply wp_ret. split_and!; [done|simpl; congruence|].
    intros [|i] h' Hi Hh; simplify_eq/=.
    - rewrite Nat.add_0_r. by apply Hr.
    - rewrite length_app in Hv. cbn [length] in Hv.
      replace (length before + S i)%nat with (length before + 1 + i)%nat by lia. by apply Hv. }
  eapply wp_mono; [apply (wp_verifyHeader _ _ rand_draw _ _ _ W G); try done; by intros; apply Hgas|..]; cbn beta.
  - intros [] st' [Hst' Hv]. by apply Hrest.
  - intros e st' [Hst' _]. by apply Hrest.
  - by intros q (m & _ & -> & _).
Qed.

End theorems.

(** ** Instances *)

Lemma seal_checks_recents_witness :
  recently_signed true (toy_snapshot 10 {[10 := 5]}) 5 11 = true ∧
  recently_signed false (toy_snapshot 10 {[10 := 5]}) 5 11 = true.
Proof.
  destruct (seal_checks_recents (toy_snapshot 10 {[10 := 5]}) 5 11) as [H1 H2].
  - split; [vm_compute; reflexivity|..]; cbn [toy_snapshot Recents].
    + intros k v [<- _]%lookup_singleton_Some. vm_compute. by split_and!.
    + intros k k' v [<- _]%lookup_singleton_Some [<- _]%lookup_singleton_Some. reflexivity.
  - split; [done|reflexivity].
  - reflexivity.
  - rewrite H1, H2. vm_compute. split; reflexivity.
Defined.

Abbreviation toy_snapshot_at := (@snapshot _ _ _ _ _ _ _ toy_Keccak256 toy_Ecrecover) (only parsing).
Abbreviation toy_verify := (@verifyHeader _ _ _ _ _ _ _ toy_Keccak256 toy_Ecrecover toy_draw) (only parsing).

Lemma snapshot_implements_witness :
  returns (toy_snapshot_at toy_engine toy_chain 3 toy_hash3 [] toy_start)
    (λ s, bool_decide (Recents s !! 3 = Some 5)) = true ∧
  match toy_snapshot_at toy_engine toy_chain 3 toy_hash3 [] toy_start with
  | Ret s _ => at_block toy_Keccak256 toy_Ecrecover toy_known toy_engine toy_genesis 3 toy_hash3 s
  | _ => True
  end.
Proof.
  split; [vm_compute; reflexivity|].
  pose proof (snapshot_implements toy_Keccak256 toy_Ecrecover toy_known toy_engine toy_genesis toy_world
    toy_genesis_ok toy_chain 3 toy_hash3 [] toy_start (toy_start_ok toy_engine eq_refl eq_refl)
    toy_has_genesis toy_lookups (toy_asked 3 toy_block3 ltac:(set_solver) eq_refl)) as H.
  destruct (snapshot _ _ _ _ _ _ _ _) as [s st|e st|q|]; try exact I. exact (proj2 H).
Defined.

Definition toy_run3 : Snapshot * toy_state := Eval vm_compute in
  match toy_snapshot_at toy_engine toy_chain 3 toy_hash3 [] toy_start with
  | Ret s st => (s, st) | _ => (toy_genesis_snapshot, toy_start) end.

Lemma snapshot_same_everywhere_witness :
  match toy_snapshot_at toy_engine toy_chain 3 toy_hash3 [] toy_start with
  | Ret s' _ => s' = toy_run3.1
  | Fail e _ => e = errDatabase
  | Panic _ | NoFuel => False
  end.
Proof.
  apply (snapshot_same_everywhere toy_Keccak256 toy_Ecrecover toy_known toy_engine toy_genesis toy_world
    toy_genesis_ok toy_chain 3 toy_hash3 toy_start toy_start toy_run3.2 toy_run3.1).
  - exact (toy_start_ok toy_engine eq_refl eq_refl).
  - exact (toy_start_ok toy_engine eq_refl eq_refl).
  - exact toy_has_genesis.
  - exact toy_lookups.
  - exact (toy_block_held toy_hash3).
  - exact (toy_asked 3 toy_block3 ltac:(set_solver) eq_refl).
  - vm_compute. reflexivity.
Defined.


