(* ===== verification/ParliaSealing.v ===== *)
(** * Blocks a validator makes

    What [Prepare] and [Seal] of [consensus/parlia/parlia.go] put into a header, and that
    the header they make passes the verification of the nodes that have its parent. *)

From stdpp Require Import sorting.
From S2P Require Import Prelude Rlp Header Hexutil Params ForkId ParliaSnapshot ParliaStore ParliaTurns ParliaChain ParliaRule ParliaModel ParliaChainProps ParliaEngine.
From S2P Require Import ParliaAuthority ParliaRetrieve ParliaEngineModel ParliaBackoff ParliaVerify ParliaEngineProps.

(** Between [Prepare] and [Seal] the block is filled: the roots, the bloom filter, the gas
    used and the hash of the empty list of uncles. *)
Record assembled (Keccak256 : bytes → Hash) (h1 h2 : Header) : Prop := {
  a_parent : ParentHash h2 = ParentHash h1;
  a_coinbase : Coinbase h2 = Coinbase h1;
  a_difficulty : Difficulty h2 = Difficulty h1;
  a_number : Number h2 = Number h1;
  a_gas_limit : GasLimit h2 = GasLimit h1;
  a_time : Time h2 = Time h1;
  a_extra : Extra h2 = Extra h1;
  a_mix : MixDigest h2 = MixDigest h1;
  a_uncles : UncleHash h2 = uncleHash Keccak256;
  a_gas_used : GasUsed h2 <= GasLimit h2;
}.

(** The signing function signs for the account it is given with. *)
Definition signs_for (Keccak256 : bytes → Hash) (crypto_Ecrecover : bytes → bytes → option bytes)
    (signFn : signer_fn) (val : Address) : Prop :=
  ∀ m sig, signFn m = Some sig → zlen sig = extraSeal ∧
    ∃ k, crypto_Ecrecover (be_encode 32 (Keccak256 m)) sig = Some k ∧ signer_of Keccak256 k = Some val.

Section bytes.
Lemma zlen_take {A} n (l : list A) : 0 <= n <= zlen l → zlen (take (Z.to_nat n) l) = n.
Proof. unfold zlen. rewrite length_take. lia. Qed.

Lemma slice_to {A} (l : list A) n : 0 <= n <= zlen l → slice l 0 n = Some (take (Z.to_nat n) l).
Proof.
  intros Hn. unfold slice. rewrite !(proj2 (Z.leb_le _ _)) by lia. cbn [andb].
  by rewrite Z.sub_0_r, drop_0.
Qed.
Lemma slice_from {A} (l : list A) n : 0 <= n <= zlen l → slice l n (zlen l) = Some (drop (Z.to_nat n) l).
Proof.
  intros Hn. unfold slice. rewrite !(proj2 (Z.leb_le _ _)) by lia. cbn [andb].
  rewrite take_ge; [done|]. rewrite length_drop. unfold zlen in *. lia.
Qed.

Lemma zlen_vanity x : zlen (vanity x) = extraVanity - nextForkHashSize.
Proof.
  unfold vanity, extraVanity, nextForkHashSize. change (32 - 4) with 28. apply (zlen_take 28).
  pose proof (zlen_nonneg x). destruct (Z.ltb_spec (zlen x) 28); [rewrite zlen_app, zlen_zeros|]; lia.
Qed.

Lemma zlen_NextForkHash c x n : zlen (NextForkHash c x n) = nextForkHashSize.
Proof.
  unfold NextForkHash. destruct (passed _ _ _) as [h f].
  unfold checksumToBytes, zlen. by destruct (f =? 0); rewrite length_be_encode.
Qed.

Lemma zlen_concat_addresses l : zlen (concat (map (be_encode 20) l)) = 20 * zlen l.
Proof.
  induction l as [|a l IH]; [done|]. cbn [map concat]. rewrite zlen_app, IH, (zlen_cons a).
  unfold zlen. rewrite length_be_encode. lia.
Qed.

Lemma go_copy_full {A} (d s : list A) : zlen d = zlen s → go_copy d s = s.
Proof.
  unfold zlen, go_copy. intros H. assert (length d = length s) as He by lia.
  rewrite He, take_ge by lia. rewrite drop_ge by lia. apply app_nil_r.
Qed.

(** The header with its seal written over the last bytes. *)
Lemma Extra_with_seal h sig : extraSeal <= zlen (Extra h) → zlen sig = extraSeal →
  Extra (with_seal h sig) = take (Z.to_nat (zlen (Extra h) - extraSeal)) (Extra h) ++ sig.
Proof.
  unfold extraSeal. intros Hx Hs. unfold with_seal, with_fields, extraSeal. cbn [Extra].
  rewrite go_copy_full; [done|]. rewrite Hs. unfold zlen in *. rewrite length_drop. lia.
Qed.

Lemma zlen_with_seal h sig : extraSeal <= zlen (Extra h) → zlen sig = extraSeal →
  zlen (Extra (with_seal h sig)) = zlen (Extra h).
Proof.
  intros Hx Hs. rewrite Extra_with_seal by done. rewrite zlen_app, Hs.
  pose proof (zlen_nonneg sig). rewrite zlen_take by lia. lia.
Qed.

(** The seal is not part of what is signed. *)
Lemma ParliaRLP_with_seal h sig c : extraSeal <= zlen (Extra h) → zlen sig = extraSeal →
  ParliaRLP (with_seal h sig) c = ParliaRLP h c.
Proof.
  intros Hx Hs. unfold ParliaRLP, encodeSigHeader, sig_header_value.
  rewrite zlen_with_seal by done. unfold extraSeal in *.
  rewrite !slice_to by (rewrite ?zlen_with_seal by done; lia).
  rewrite Extra_with_seal by done. unfold extraSeal. pose proof (zlen_nonneg (Extra h)).
  rewrite take_app_le by (rewrite length_take; unfold zlen in *; lia).
  rewrite take_take, Nat.min_id. reflexivity.
Qed.

Lemma recover_with_seal Keccak256 crypto_Ecrecover c h m sig signFn val :
  extraSeal <= zlen (Extra h) → ParliaRLP h c = Some m → signFn m = Some sig →
  signs_for Keccak256 crypto_Ecrecover signFn val →
  recover Keccak256 crypto_Ecrecover c (with_seal h sig) = Some val.
Proof.
  intros Hx Hm Hsig Hfor. destruct (Hfor m sig Hsig) as [Hs (k & Hk & Hv)].
  unfold recover. rewrite zlen_with_seal by done. rewrite (proj2 (Z.ltb_ge _ _)) by done.
  rewrite <- (zlen_with_seal h sig) by done. unfold extraSeal in *.
  rewrite slice_from by (rewrite zlen_with_seal by done; lia). cbn [mbind option_bind].
  unfold SealHash. change encodeSigHeader with ParliaRLP. rewrite ParliaRLP_with_seal, Hm by done.
  cbn [fmap option_fmap option_map mbind option_bind].
  rewrite zlen_with_seal, Extra_with_seal by done. unfold extraSeal.
  rewrite drop_app_length' by (rewrite length_take; unfold zlen in *; lia).
  rewrite Hk. cbn [mbind option_bind]. done.
Qed.
End bytes.

Section sealing.
Context {SC RC D : Type} {CS : Cache Address SC} {CR : Cache Snapshot RC} {KV : KeyValue D} {JT : JsonText}.
Context {CSL : CacheLaws Address SC} {CRL : CacheLaws Snapshot RC} {KVL : KeyValueLaws D} {JTL : JsonTextLaws}.
Variable Keccak256 : bytes → Hash.
Variable crypto_Ecrecover : bytes → bytes → option bytes.
Variable rand_draw : Z → Z → Z → Z.
Variable rand_Int63n : Z → Z.
Variable getValidators_call : Hash → option (list Address).
Variable known : Header → Prop.
Variable p : engine.
Variable g : Header.

Abbreviation chainId := (ChainID (p_chainConfig p)).
Hypothesis W : world_ok Keccak256 crypto_Ecrecover chainId known.
Hypothesis G : genesis_ok Keccak256 known (p_config p) g.

Abbreviation PM := (@PM SC RC D).
Abbreviation hash := (Header_Hash Keccak256).
Abbreviation at_block := (at_block Keccak256 crypto_Ecrecover known p g).
Abbreviation st_ok := (@st_ok SC RC D CS CR KV JT Keccak256 crypto_Ecrecover known p g).
Abbreviation lookups_ok := (lookups_ok Keccak256 known).
Abbreviation asked := (asked Keccak256 known g).
Abbreviation Prepare := (@Prepare SC RC D CS CR KV JT Keccak256 crypto_Ecrecover rand_draw getValidators_call p).
Abbreviation Seal := (@Seal SC RC D CS CR KV JT Keccak256 crypto_Ecrecover rand_Int63n p).

(** What [Prepare] makes of a header, over the snapshot of its parent. *)
Record prepared (now : Z) (s : Snapshot) (parent h h1 : Header) (n : Z) : Prop := {
  p_parent : ParentHash h1 = ParentHash h;
  p_number : Number h1 = Number h;
  p_coinbase : Coinbase h1 = p_val p;
  p_difficulty : Difficulty h1 = Some (if decide (in_turn s n (p_val p)) then 2 else 1);
  p_extra : extra_ok p h1 n;
  p_fork_hash : slice (Extra h1) (extraVanity - nextForkHashSize) extraVanity =
                Some (NextForkHash (p_chainConfig p) (p_genesisHash p) n);
  p_mix : MixDigest h1 = 0;
  p_time : time_ok rand_draw p s h1 parent n;
  p_now : u64 now <= Time h1;
}.

Lemma slice_mid (a b c : bytes) i j : zlen a = i → zlen a + zlen b = j → slice (a ++ b ++ c) i j = Some b.
Proof.
  intros <- <-. pose proof (zlen_nonneg a). pose proof (zlen_nonneg b). pose proof (zlen_nonneg c).
  unfold slice. rewrite !zlen_app, !(proj2 (Z.leb_le _ _)) by lia. cbn [andb]. f_equal.
  rewrite drop_app_length' by (unfold zlen; lia). apply take_app_length'. unfold zlen. lia.
Qed.

(** The extra data of a prepared header. *)
Lemma prepared_extra extra f vals n : zlen f = nextForkHashSize →
  (n mod Epoch (p_config p) ≠ 0 → vals = []) →
  ∀ h, Extra h = ((vanity extra ++ f) ++ concat (map (be_encode 20) vals)) ++ zeros extraSeal →
  extra_ok p h n ∧ slice (Extra h) (extraVanity - nextForkHashSize) extraVanity = Some f.
Proof.
  intros Hf Hv h Hx. pose proof (zlen_vanity extra) as Hz.
  unfold extra_ok. rewrite Hx.
  rewrite !zlen_app, Hz, Hf, zlen_concat_addresses, zlen_zeros by done.
  pose proof (zlen_nonneg vals). unfold extraVanity, extraSeal, nextForkHashSize in *.
  assert (validatorBytesLength = 20) as -> by done. split.
  - case_decide as He.
    + split; [lia|]. replace (32 - 4 + 4 + 20 * zlen vals + 65 - 32 - 65) with (zlen vals * 20) by lia.
      apply Z.mod_mul. lia.
    + rewrite Hv by done. change (zlen (@nil Address)) with 0. lia.
  - rewrite <- !app_assoc. apply slice_mid; lia.
Qed.

(** The difficulty of a turn, which there is when there are validators. *)
Lemma turn_difficulty_spec s v n d : turn_difficulty s v = Some d → n = snap_Number s + 1 → 0 <= snap_Number s < 2 ^ 63 →
  Validators s ≠ ∅ ∧ d = if decide (in_turn s n v) then 2 else 1.
Proof.
  intros Hd Hn Hs. assert (Hne : Validators s ≠ ∅).
  { intros He. unfold turn_difficulty, inturn in Hd. rewrite zlen_validators, He in Hd. unfold zsize in Hd.
    by rewrite size_empty in Hd. }
  split; [done|]. unfold turn_difficulty in Hd. rewrite (inturn_spec s n v Hne Hn Hs) in Hd. cbn [mbind option_bind] in Hd.
  unfold diffInTurn, diffNoTurn in Hd. destruct (decide (in_turn s n v)).
  - rewrite bool_decide_true in Hd by done. congruence.
  - rewrite bool_decide_false in Hd by done. congruence.
Qed.

Lemma wp_Prepare now chain h n (st : pstate SC RC D) :
  st_ok st → has_genesis g chain → lookups_ok chain [] → Number_Uint64 h = Some n → 0 < n < 2 ^ 64 →
  asked (n - 1) (ParentHash h) →
  wp (Prepare now chain h : PM _)
    (λ h1 st', st_ok st' ∧ ∃ s parent, at_block (n - 1) (ParentHash h) s ∧ known parent ∧
       hash parent = ParentHash h ∧ Number_Uint64 parent = Some (n - 1) ∧ prepared now s parent h h1 n)
    (λ _ _, True) (λ _, True) st.
Proof.
  intros Hst Hgen Hl Hn Hr Hask. unfold ParliaEngine.Prepare, header_number. rewrite Hn. wp_step.
  apply wp_ret. rewrite sub64_small by (unfold is_u64; lia). wp_step.
  eapply wp_mono; [by apply (wp_snapshot _ _ _ _ _ W G)|..]; cbn beta; try done. intros s st1 [H1 Hs].
  destruct (at_block_recents _ _ _ _ _ W G _ _ _ Hs) as (_ & Hsn & Hns).
  wp_step. apply wp_or_panic; [|intros; exact I]. intros d Hd.
  destruct (turn_difficulty_spec _ _ _ _ Hd Hns Hsn) as [Hne ->].
  rewrite (proj2 (Z.eqb_neq _ 0)) by apply (g_epoch _ _ _ _ G). wp_step.
  set (f := NextForkHash _ _ _). assert (Hf : zlen f = nextForkHashSize) by apply zlen_NextForkHash.
  apply wp_mono with
    (Q := λ x st', st' = st1 ∧ ∃ vals, (n mod Epoch (p_config p) ≠ 0 → vals = []) ∧
            x = (vanity (Extra h) ++ f) ++ concat (map (be_encode 20) vals))
    (QE := λ _ _, True) (QP := λ _, True); [| |done..].
  { destruct (Z.eqb_spec (n mod Epoch (p_config p)) 0).
    - wp_step. unfold getCurrentValidators. apply wp_or_fail; [|intros; exact I]. intros vals _. apply wp_ret.
      split; [done|]. by exists (merge_sort Z.le vals).
    - apply wp_ret. split; [done|]. exists []. split; [done|]. by rewrite app_nil_r. }
  intros x st' (-> & vals & Hvals & ->).
  wp_step. apply wp_or_fail; [|intros; exact I]. intros parent Hp.
  apply (GetHeader_ok _ _ _ _ Hl) in Hp as (Hk & Hh & Hnp). wp_step.
  set (h' := with_fields _ _ _ _ _ _ _).
  apply wp_mono with
    (Q := λ t st', st' = st1 ∧ (IsRamanujan_at (p_chainConfig p) h = true → ∃ b,
            backOffTime rand_draw s (p_val p) = Some b ∧
            t = add64 (add64 (Time parent) (Period (p_config p))) b))
    (QE := λ _ _, True) (QP := λ _, True); [| |done..].
  { unfold blockTimeForRamanujanFork. change (IsRamanujan_at (p_chainConfig p) h') with (IsRamanujan_at (p_chainConfig p) h).
    destruct (IsRamanujan_at (p_chainConfig p) h); [|by apply wp_ret].
    wp_step. apply wp_or_panic; [|intros; exact I]. intros b Hb. apply wp_ret. split; [done|]. intros _. by exists b. }
  intros t st' [-> Ht]. apply wp_ret. split; [done|]. exists s, parent. split_and!; try done.
  set (time := if t <? u64 now then u64 now else t).
  assert (Htime : t <= time ∧ u64 now <= time) by (unfold time; destruct (Z.ltb_spec t (u64 now)); lia).
  set (h1 := with_fields _ _ _ _ _ _ _).
  destruct (prepared_extra (Extra h) f vals n Hf Hvals h1 eq_refl) as [Hx Hfh].
  split; try done; simpl; [|lia]. intros r k Hr' Hk' Hrk. destruct Ht as (b & Hb & ->).
  { unfold IsRamanujan_at, isForked. rewrite Hr'. cbn in Hk'. rewrite Hk'. by apply Z.leb_le. }
  exists b. split; [by apply (backOffTime_delay rand_draw s n _ _ Hne Hns Hsn)|].
  unfold add64 in Htime. unfold u64 in Htime |- *. rewrite Zplus_mod_idemp_l in Htime. simpl. lia.
Qed.

Lemma wp_Seal now signFn chain h n txs (st : pstate SC RC D) :
  st_ok st → has_genesis g chain → lookups_ok chain [] → Number_Uint64 h = Some n → 0 < n < 2 ^ 64 →
  asked (n - 1) (ParentHash h) →
  wp (Seal now signFn chain h txs : PM _)
    (λ r st', st_ok st' ∧ match r with
       | SealAfter h3 _ s => at_block (n - 1) (ParentHash h) s ∧ p_val p ∈ Validators s ∧
           recently_signed true s (p_val p) n = false ∧
           ∃ m sig, ParliaRLP h chainId = Some m ∧ signFn m = Some sig ∧ h3 = with_seal h sig
       | _ => True end)
    (λ _ _, True) (λ _, True) st.
Proof.
  intros Hst Hgen Hl Hn Hr Hask. unfold ParliaEngine.Seal, header_number. rewrite Hn. wp_step.
  apply wp_ret. rewrite (proj2 (Z.eqb_neq n 0)) by lia.
  destruct (_ && _); [by apply wp_ret|]. rewrite sub64_small by (unfold is_u64; lia). wp_step.
  eapply wp_mono; [by apply (wp_snapshot _ _ _ _ _ W G)|..]; cbn beta; try done. intros s st1 [H1 Hs].
  case_bool_decide as Hv; cbn [negb]; [|done].
  destruct (recently_signed true s (p_val p) n) eqn:Hrec; [by apply wp_ret|]. wp_step.
  apply wp_mono with (Q := λ _ st', st' = st1) (QE := λ _ _, True) (QP := λ _, True); [| |done..].
  { unfold delayForRamanujanFork. destruct (IsRamanujan_at _ _); [by apply wp_ret|].
    wp_step. apply wp_or_panic; [|intros; exact I]. intros d _. by destruct (d =? diffNoTurn); apply wp_ret. }
  intros delay st' ->. wp_step. apply wp_or_panic; [|intros; exact I]. intros m Hm. wp_step.
  apply wp_or_fail; [|intros; exact I]. intros sig Hsig. apply wp_ret. split; [done|]. split_and!; try done.
  by exists m, sig.
Qed.
End sealing.

Section accepted.
Context {SC RC D : Type} {CS : Cache Address SC} {CR : Cache Snapshot RC} {KV : KeyValue D} {JT : JsonText}.
Context {CSL : CacheLaws Address SC} {CRL : CacheLaws Snapshot RC} {KVL : KeyValueLaws D} {JTL : JsonTextLaws}.
Variable Keccak256 : bytes → Hash.
Variable crypto_Ecrecover : bytes → bytes → option bytes.
Variable rand_draw : Z → Z → Z → Z.
Variable rand_Int63n : Z → Z.
Variable getValidators_call : Hash → option (list Address).
Variable known : Header → Prop.
(** The configuration the nodes share; [Authorize p v] is the node of the account [v]. *)
Variable p : engine.
Variable g : Header.

Abbreviation chainId := (ChainID (p_chainConfig p)).
Hypothesis W : world_ok Keccak256 crypto_Ecrecover chainId known.
Hypothesis G : genesis_ok Keccak256 known (p_config p) g.

Abbreviation hash := (Header_Hash Keccak256).
Abbreviation at_block := (at_block Keccak256 crypto_Ecrecover known).
Abbreviation st_ok := (@st_ok SC RC D CS CR KV JT Keccak256 crypto_Ecrecover known).
Abbreviation lookups_ok := (lookups_ok Keccak256 known).
Abbreviation Prepare := (@Prepare SC RC D CS CR KV JT Keccak256 crypto_Ecrecover rand_draw getValidators_call).
Abbreviation Seal := (@Seal SC RC D CS CR KV JT Keccak256 crypto_Ecrecover rand_Int63n).
Abbreviation verifyHeader := (@verifyHeader SC RC D CS CR KV JT Keccak256 crypto_Ecrecover rand_draw).
Abbreviation valid := (valid Keccak256 crypto_Ecrecover rand_draw known).

(** The sealer asks for more than the rule: no signer on record while [limit] blocks have
    not passed. *)
Lemma sealer_rested s v n : recents_ok s → 0 <= snap_Number s < 2 ^ 63 → n = snap_Number s + 1 →
  recently_signed true s v n = false → rested s v n.
Proof.
  intros Hok Hs Hn H. apply not_true_iff_false in H.
  assert (Hf : recently_signed false s v n = false).
  { apply not_true_iff_false. intros (k & Hk & [[? _]|Hlt])%recently_signed_spec; [done|].
    apply H, recently_signed_spec. exists k. auto. }
  apply (recently_signed_iff s v n Hok Hs Hn) in Hf.
  destruct Hf as [|[Hlt (k & Hk)]]; [done|]. exfalso. apply H, recently_signed_spec. exists k. auto.
Qed.

(** What the two functions made is valid for a node of the same configuration. *)
Lemma made_valid v w now now' config s parent h h1 h2 m sig signFn n :
  signs_for Keccak256 crypto_Ecrecover signFn v →
  Number_Uint64 h = Some n → 0 < n →
  known parent → hash parent = ParentHash h → Number_Uint64 parent = Some (n - 1) →
  at_block (Authorize p w) g (n - 1) (ParentHash h) s →
  prepared rand_draw (Authorize p v) now s parent h h1 n → assembled Keccak256 h1 h2 →
  gas_ok h2 parent → v ∈ Validators s → recently_signed true s v n = false →
  ParliaRLP h2 chainId = Some m → signFn m = Some sig → Time h2 <= u64 now' →
  fork_ok Keccak256 config (with_seal h2 sig) →
  valid (Authorize p w) g now' config (with_seal h2 sig).
Proof.
  intros Hsig Hn Hpos Hkp Hhp Hnp Hs [Pp Pn Pc Pd Px _ Pm Pt _] A Hgas Hv Hrec Hm Hs2 Hnow Hfork.
  destruct (Hsig m sig Hs2) as [Hlen _].
  assert (Hx : extraVanity + extraSeal <= zlen (Extra h2)).
  { rewrite (a_extra _ _ _ A). unfold extra_ok in Px. case_decide; lia. }
  assert (Hx' : extraSeal <= zlen (Extra h2)) by (unfold extraVanity, extraSeal in *; lia).
  pose proof (zlen_with_seal h2 sig Hx' Hlen) as Hz.
  exists n. split; [|split].
  - unfold Number_Uint64 in *. change (Number (with_seal h2 sig)) with (Number h2).
    by rewrite (a_number _ _ _ A), Pn.
  - split.
    + exact Hnow.
    + unfold extra_ok in *. rewrite Hz, (a_extra _ _ _ A). exact Px.
    + change (MixDigest (with_seal h2 sig)) with (MixDigest h2). by rewrite (a_mix _ _ _ A), Pm.
    + exact (a_uncles _ _ _ A).
    + intros _. change (Difficulty (with_seal h2 sig)) with (Difficulty h2). rewrite (a_difficulty _ _ _ A), Pd. done.
    + exact Hfork.
  - intros _. exists parent, s.
    assert (Hph : ParentHash (with_seal h2 sig) = ParentHash h)
      by (change (ParentHash (with_seal h2 sig)) with (ParentHash h2); by rewrite (a_parent _ _ _ A)).
    rewrite Hph. split_and!; try done.
    + intros r k Hr Hk Hrk. destruct (Pt r k Hr) as (d & Hd & Hle); [|done|].
      { change (Number (with_seal h2 sig)) with (Number h2) in Hk. by rewrite <- (a_number _ _ _ A). }
      exists d. change (Coinbase (with_seal h2 sig)) with (Coinbase h2).
      change (Time (with_seal h2 sig)) with (Time h2). by rewrite (a_coinbase _ _ _ A), (a_time _ _ _ A).
    + assert (Hc : Coinbase (with_seal h2 sig) = v)
        by (change (Coinbase (with_seal h2 sig)) with (Coinbase h2); by rewrite (a_coinbase _ _ _ A), Pc).
      destruct (at_block_recents _ _ _ _ _ W G _ _ _ Hs) as (Hrok & Hsn & Hns).
      split; rewrite ?Hc; try done.
      * by eapply recover_with_seal.
      * by apply sealer_rested.
      * right. change (Difficulty (with_seal h2 sig)) with (Difficulty h2). by rewrite (a_difficulty _ _ _ A), Pd.
Qed.

(** The block of a header is held, with its ancestors, when its parent's is. *)
Lemma holds_child chain parent h n : holds_block Keccak256 known chain (ParentHash h) →
  known parent → hash parent = ParentHash h → Number_Uint64 parent = Some (n - 1) →
  Number_Uint64 h = Some n → 0 < n < 2 ^ 64 → holds_ancestors Keccak256 known chain h.
Proof.
  intros Hb Hk Hh Hnp Hn Hr m a k Ha Hka. destruct (Hb parent Hk Hh) as [Hself Habove].
  inversion Ha as [|? ? q ? j Hj Hq Hqh Hnq Ha']; subst.
  assert (q = parent) as -> by (apply (w_collision_free _ _ _ _ W); congruence).
  destruct m as [|m]; [|by apply (Habove m)]. inversion Ha'; subst. rewrite Hh. by apply Hself.
Qed.

(** C24 A block that a validator prepares, fills and seals is accepted by the nodes that have
    its parent and the blocks below: such a node, on a chain of its own and with whatever
    snapshots and signers of the chain in its caches, accepts the header as soon as the time
    of the header has come, unless its database fails.  The block itself need not be there;
    [known h3] says only that no other header in play has its hash.  The gas limit and the
    gas used, which the caller fills in, are taken to be within the bounds, and the block of
    the EIP-150 fork to have the hash the verifier's configuration may name. *)
Theorem sealed_block_accepted v w now1 now2 now3 signFn chain chain' h parent n h1 h2 h3 txs delay s
    (st st1 st2 st3 st' : pstate SC RC D) :
  st_ok (Authorize p v) g st → st_ok (Authorize p v) g st2 → st_ok (Authorize p w) g st' →
  has_genesis g chain → lookups_ok chain [] →
  has_genesis g chain' → lookups_ok chain' [] → holds_block Keccak256 known chain' (ParentHash h) →
  Number_Uint64 h = Some n → 0 < n < 2 ^ 63 →
  known parent → hash parent = ParentHash h → Number_Uint64 parent = Some (n - 1) →
  GasLimit parent < 2 ^ 63 →
  signs_for Keccak256 crypto_Ecrecover signFn v →
  Prepare (Authorize p v) now1 chain h st = Ret h1 st1 →
  assembled Keccak256 h1 h2 → gas_ok h2 parent →
  Seal (Authorize p v) now2 signFn chain h2 txs st2 = Ret (SealAfter h3 delay s) st3 →
  known h3 → Time h3 <= u64 now3 → fork_ok Keccak256 (chain_Config chain') h3 →
  match verifyHeader (Authorize p w) now3 chain' h3 [] st' with
  | Ret _ _ => True
  | Fail e _ => e = errDatabase
  | Panic _ | NoFuel => False
  end.
Proof.
  intros Hst Hst2 Hst' Hgen Hl Hgen' Hl' Hb Hn Hr Hkp Hhp Hnp Hgp Hsig Hprep A Hgas Hseal Hk3 Hnow Hfork.
  assert (Hask : asked Keccak256 known g (n - 1) (ParentHash h)).
  { split; [rewrite <- Hhp; apply (hash_ok _ _ _ _ G)|lia| |].
    - intros E. rewrite E in Hnp. rewrite <- Hhp. f_equal. by apply (g_only _ _ _ _ G).
    - intros hd Hk Hh. by assert (hd = parent) as -> by (apply (w_collision_free _ _ _ _ W); congruence). }
  pose proof (wp_Ret _ _ _ _ _ _ _
    (wp_Prepare Keccak256 crypto_Ecrecover rand_draw getValidators_call known (Authorize p v) g W G
       now1 chain h n st Hst Hgen Hl Hn ltac:(lia) Hask) Hprep) as [_ (s1 & q & Hs1 & Hkq & Hhq & _ & P)].
  assert (q = parent) as -> by (apply (w_collision_free _ _ _ _ W); congruence).
  pose proof P as [Pp Pn _ _ _ _ _ _ _].
  assert (Hn2 : Number_Uint64 h2 = Some n)
    by (unfold Number_Uint64 in *; by rewrite (a_number _ _ _ A), Pn).
  assert (Hp2 : ParentHash h2 = ParentHash h) by (by rewrite (a_parent _ _ _ A), Pp).
  rewrite <- Hp2 in Hask.
  pose proof (wp_Ret _ _ _ _ _ _ _
    (wp_Seal Keccak256 crypto_Ecrecover rand_Int63n known (Authorize p v) g W G
       now2 signFn chain h2 n txs st2 Hst2 Hgen Hl Hn2 ltac:(lia) Hask) Hseal)
    as [_ (Hs & Hv & Hrec & m & sig & Hm & Hs2 & ->)].
  rewrite Hp2 in Hs. assert (s1 = s) as -> by (apply (at_block_fun _ _ _ _ _ W G _ _ _ _ Hs1 Hs)).
  assert (Hval : valid (Authorize p w) g now3 (chain_Config chain') (with_seal h2 sig)).
  { apply (made_valid v w now1 now3 (chain_Config chain') s parent h h1 h2 m sig signFn n); try done. lia. }
  assert (Hph : ParentHash (with_seal h2 sig) = ParentHash h) by exact Hp2.
  assert (Hanc : holds_ancestors Keccak256 known chain' (with_seal h2 sig)).
  { apply (holds_child chain' parent _ n); rewrite ?Hph; try done. lia. }
  pose proof (wp_verifyHeader Keccak256 crypto_Ecrecover rand_draw known (Authorize p w) g W G
    now3 chain' (with_seal h2 sig) [] st' Hst' Hgen' Hl' Hk3) as H.
  unfold wp in H. specialize (H ltac:(intros y Hky Hhy;
    by assert (y = parent) as -> by (apply (w_collision_free _ _ _ _ W); congruence))).
  destruct (verifyHeader (Authorize p w) now3 chain' (with_seal h2 sig) [] st') as [u st4|e st4|q|]; [done|..|done].
  - destruct H as [_ Hno]. destruct (decide (e = errDatabase)); [done|]. exfalso.
    apply Hno; [done|]. apply valid_tolerated. by left.
  - destruct H as (n' & Hn' & _ & s' & Hs' & He).
    change (Number_Uint64 (with_seal h2 sig)) with (Number_Uint64 h2) in Hn'.
    rewrite Hn2 in Hn'. injection Hn' as <-. rewrite Hph in Hs'.
    rewrite (at_block_fun _ _ _ _ _ W G _ _ _ _ Hs' Hs) in He. rewrite He in Hv. set_solver.
Qed.
End accepted.

(** ** An instance: the fourth block of the concrete chain *)

Definition toy_template : Header := toy_header 4 toy_hash3 0 [].
Definition toy_signFn : signer_fn := λ m, Some (9 :: zeros 64).
Abbreviation toy_Prepare := (@Prepare _ _ _ _ _ _ _ toy_Keccak256 toy_Ecrecover toy_draw (λ _, None)
  (Authorize toy_engine 9) 0 toy_chain toy_template toy_start) (only parsing).
Definition toy_prepared : Header * toy_state := Eval vm_compute in
  match toy_Prepare with Ret h st => (h, st) | _ => (toy_template, toy_start) end.
Abbreviation toy_Seal := (@Seal _ _ _ _ _ _ _ toy_Keccak256 toy_Ecrecover (λ _, 0)
  (Authorize toy_engine 9) 0 toy_signFn toy_chain toy_prepared.1 1 toy_start) (only parsing).
Definition toy_sealed : Z * Snapshot * toy_state := Eval vm_compute in
  match toy_Seal with
  | Ret (SealAfter _ d s) st => (d, s, st) | _ => (0, toy_genesis_snapshot, toy_start) end.

Lemma toy_signs : signs_for toy_Keccak256 toy_Ecrecover toy_signFn 9.
Proof.
  intros m sig. unfold toy_signFn. intros <-%(inj Some). split; [reflexivity|].
  exists [4; 9]. split; reflexivity.
Qed.

(** The chain of a node that does not have the fourth block yet. *)
Definition toy_shorter : ChainHeaderReader := {|
  chain_Config := toy_config None; CurrentHeader := Some toy_block3;
  GetHeader x n := if n <? 4 then GetHeader toy_chain x n else None;
  GetHeaderByNumber n := if n <? 4 then GetHeaderByNumber toy_chain n else None;
  GetHeaderByHash := λ _, None; GetHighestVerifiedHeader := None |}.

Lemma toy_shorter_lookups : lookups_ok toy_Keccak256 toy_known toy_shorter [].
Proof.
  split; [constructor|]. intros h n q. cbn [toy_shorter GetHeader].
  destruct (n <? 4); [|done]. by apply (GetHeader_ok _ _ _ _ toy_lookups).
Qed.

(** The fourth block is above every other. *)
Lemma toy_numbers h n : toy_known h → Number_Uint64 h = Some n → 0 <= n < 5.
Proof.
  unfold toy_known, toy_headers. rewrite !elem_of_cons, elem_of_nil.
  intros [-> |[-> |[-> |[-> |[-> |[]]]]]]; vm_compute Number_Uint64; intros [= <-]; lia.
Qed.
Lemma toy_below m h a n : ancestor toy_Keccak256 toy_known (S m) h a → toy_known h → Number_Uint64 a = Some n → 0 <= n < 4.
Proof.
  intros Ha. remember (S m) as k eqn:Hk. revert m Hk. induction Ha as [|k h q a j Hj Hq Hqh Hnq Ha IH]; intros m Hm Hh Hn; [done|].
  destruct m as [|m]; [|by eapply (IH m); [lia|..]]. injection Hm as ->. inversion Ha; subst.
  pose proof (toy_numbers _ _ Hh Hj). pose proof (toy_numbers _ _ Hq Hn). rewrite Hn in Hnq. injection Hnq as ->.
  destruct (decide (j = 0)) as [->|]; [by vm_compute in H0; destruct H0|]. rewrite sub64_small by (unfold is_u64; lia). lia.
Qed.

Lemma toy_shorter_held : holds_block toy_Keccak256 toy_known toy_shorter toy_hash3.
Proof.
  intros b Hb Hbh. destruct (toy_block_held toy_hash3 b Hb Hbh) as [H0 Hanc].
  assert (b = toy_block3) as ->.
  { apply (toy_collision_free b toy_block3 Hb); [clear; set_solver|]. rewrite Hbh. vm_compute. reflexivity. }
  assert (Heq : ∀ x n, 0 <= n < 4 → GetHeader toy_shorter x n = GetHeader toy_chain x n).
  { intros x n Hn. cbn [toy_shorter GetHeader]. by rewrite (proj2 (Z.ltb_lt n 4)) by lia. }
  split.
  - intros n Hn. assert (0 <= n < 4) by (change (Some 3 = Some n) in Hn; injection Hn as <-; lia).
    rewrite Heq by done. exact (H0 n Hn).
  - intros m a n Ha Hna. rewrite Heq by exact (toy_below _ _ _ _ Ha Hb Hna). exact (Hanc m a n Ha Hna).
Qed.

Lemma sealed_block_accepted_witness :
  GetHeader toy_shorter (Header_Hash toy_Keccak256 toy_block4) 4 = None ∧
  match @verifyHeader _ _ _ _ _ _ _ toy_Keccak256 toy_Ecrecover toy_draw (Authorize toy_engine 5) 2000
          toy_shorter toy_block4 [] toy_start with
  | Ret _ _ => True
  | Fail e _ => e = errDatabase
  | Panic _ | NoFuel => False
  end.
Proof.
  split; [reflexivity|].
  apply (sealed_block_accepted toy_Keccak256 toy_Ecrecover toy_draw (λ _, 0) (λ _, None) toy_known
    toy_engine toy_genesis toy_world toy_genesis_ok 9 5 0 0 2000 toy_signFn toy_chain toy_shorter toy_template
    toy_block3 4 toy_prepared.1 toy_prepared.1 toy_block4 1 toy_sealed.1.1 toy_sealed.1.2 toy_start
    toy_prepared.2 toy_start toy_sealed.2 toy_start).
  - exact (toy_start_ok (Authorize toy_engine 9) eq_refl eq_refl).
  - exact (toy_start_ok (Authorize toy_engine 9) eq_refl eq_refl).
  - exact (toy_start_ok (Authorize toy_engine 5) eq_refl eq_refl).
  - exact toy_has_genesis.
  - exact toy_lookups.
  - reflexivity.
  - exact toy_shorter_lookups.
  - exact toy_shorter_held.
  - reflexivity.
  - split; reflexivity.
  - set_solver.
  - vm_compute. reflexivity.
  - reflexivity.
  - reflexivity.
  - exact toy_signs.
  - vm_compute. reflexivity.
  - split; try reflexivity. vm_compute. discriminate.
  - split; [vm_compute; discriminate|]. split; [vm_compute; split; [discriminate|reflexivity]|reflexivity].
  - vm_compute. reflexivity.
  - set_solver.
  - vm_compute. discriminate.
  - intros b Hb Hn. vm_compute in Hb, Hn. congruence.
Defined.
