(* ===== verification/ParliaFacts.v ===== *)
(** * Corner cases of the engine

    Runs of the engine on concrete chains, where what it does differs from what the rest
    of the engine expects. *)

From S2P Require Import Prelude Rlp Header Hexutil Params ForkId ParliaSnapshot ParliaStore ParliaTurns ParliaChain ParliaModel ParliaEngine.
From S2P Require Import ParliaAuthority ParliaRetrieve ParliaEngineModel ParliaBackoff.

(** Four validators, so a signer has to leave out two blocks: block 1 is signed by the
    validator in turn, and block 2 by the same one. *)
Definition four_genesis : Header :=
  toy_header 0 0 0 (zeros 32 ++ encode_validators [5; 9; 30; 40] ++ zeros 65).
Definition four_hash0 : Hash := Eval vm_compute in Header_Hash toy_Keccak256 four_genesis.
Definition four_block1 : Header := toy_block 1 four_hash0 9.
Definition four_hash1 : Hash := Eval vm_compute in Header_Hash toy_Keccak256 four_block1.
Definition four_block2 : Header :=
  let h := toy_block 2 four_hash1 9 in
  with_fields h (Coinbase h) (Nonce h) (Some diffNoTurn) (Extra h) (MixDigest h) 1011.
Definition four_hash2 : Hash := Eval vm_compute in Header_Hash toy_Keccak256 four_block2.

Definition four_headers : list (Hash * Header) :=
  [(four_hash0, four_genesis); (four_hash1, four_block1); (four_hash2, four_block2)].
Definition four_find (h : Hash) : option Header :=
  snd <$> find (λ e, e.1 =? h) four_headers.
Definition four_chain : ChainHeaderReader := {|
  chain_Config := toy_config None; CurrentHeader := Some four_block2;
  GetHeader h n := p ← four_find h; if bool_decide (Number_Uint64 p = Some n) then Some p else None;
  GetHeaderByNumber n := snd <$> four_headers !! Z.to_nat n;
  GetHeaderByHash := four_find; GetHighestVerifiedHeader := None |}.

Definition fails {E S A} (o : outcome E S A) (f : E → bool) : bool :=
  match o with Fail e _ => f e | _ => false end.

(** The second block is accepted, although its signer signed the first: [verifySeal] leaves
    out the test [number < limit] that [Seal] makes, and [number - limit] wraps around.  No
    block can follow it: the snapshot after it does not exist. *)
Theorem early_block_accepted_then_stuck :
  returns (@verifyHeader _ _ _ _ _ _ _ toy_Keccak256 toy_Ecrecover toy_draw toy_engine 2000 four_chain
    four_block2 [] toy_start) (λ _, true) = true ∧
  fails (@snapshot _ _ _ _ _ _ _ toy_Keccak256 toy_Ecrecover toy_engine four_chain 2 four_hash2 [] toy_start)
    (λ e, bool_decide (e = errRecentlySigned)) = true.
Proof. split; vm_compute; reflexivity. Qed.

(** A node that has the genesis snapshot in its cache and signed block 1 itself is told
    that it did not sign recently: [SignRecently] asks for the snapshot of the parent's
    parent, under the number of the parent.  Asked for block 2, the sealer does wait. *)
Definition cached_start : toy_state := Build_pstate ∅ {[toy_hash0 := toy_genesis_snapshot]} ∅.

Theorem SignRecently_misses_parent :
  returns (@SignRecently _ _ _ _ _ _ _ toy_Keccak256 toy_Ecrecover (Authorize toy_engine 9) toy_chain
    toy_block1 cached_start) (λ r, bool_decide (r = (false, None))) = true ∧
  returns (@Seal _ _ _ _ _ _ _ toy_Keccak256 toy_Ecrecover (λ _, 0) (Authorize toy_engine 9) 0 (λ _, None)
    toy_chain toy_block2 1 cached_start) (λ r, match r with SealWait => true | _ => false end) = true.
Proof. split; vm_compute; reflexivity. Qed.

(** Without the snapshot in the cache the same call fails for want of an ancestor. *)
Theorem SignRecently_unknown_ancestor :
  returns (@SignRecently _ _ _ _ _ _ _ toy_Keccak256 toy_Ecrecover (Authorize toy_engine 9) toy_chain
    toy_block2 toy_start) (λ r, bool_decide (r = (true, Some ErrUnknownAncestor))) = true.
Proof. vm_compute. reflexivity. Qed.
